(* ===== verification/_CoqProject ===== *)
-Q . S2P
Prelude.v
Wire.v
Proto.v
Measurement.v
Chain.v
Interfaces.v
LinkedMap.v
SortedMap.v
Rcv.v
Crypto.v
Snd.v
Delivery.v
Conn.v
Streams.v
Inversion.v
Flow.v
Listener.v
Scheduler.v
Pcap.v
Hex.v
Options.v
Net.v
Text.v
Logging.v
Locks.v
Endpoints.v
Session.v
InOrder.v
Progress.v
Transfer.v
EarlyData.v
Examples.v
