(* ===== verification/Prelude.v ===== *)
(** * A verification of qotp

    qotp is a UDP transport in Go: streams over encrypted datagrams, with
    retransmission, flow control and pacing.  This library models its core as
    functions that run and proves what makes them correct.

    ** The program and its parts

    An application writes to and reads from streams (src/stream.go).  A
    connection (src/conn.go) holds the streams, a send buffer (src/snd.go), a
    receive buffer (src/rcv.go), keys, a packet counter and measurements
    (src/measurement.go).  A flush takes the next acknowledgement from the
    receive buffer and the next or a timed-out packet from the send buffer,
    writes them as a payload (src/proto.go, over the integer codecs of
    src/codec.go), encrypts it (src/crypto.go, [Conn.encode] in src/codec.go) and
    hands it to the socket.  An incoming datagram is decrypted by the listener
    (src/listener.go, [Listener.decode] in src/codec.go), parsed, and processed
    by the connection: its acknowledgement goes to the send buffer and the
    measurements, its data to the receive buffer.  The send buffer keeps packets
    in flight in a linked hash map (src/linkedmap.go), the receive buffer keeps
    segments in a skip list (src/sortedmap.go).

    ** Which file models what

    - [Prelude]: outcomes of Go code ([go]: a value, a panic, or fuel used up),
      machine integers as [Z] with [u8] to [u64] written out, slices with their
      bounds checks, byte streams ([read_at]), sums over maps, tactics.
    - [Wire]: [PutUintN], [UintN] and the offset codec of src/codec.go.
    - [Proto]: src/proto.go; [PayloadHeader], [Ack], [EncodePayload],
      [DecodePayload], the receive-window code.
    - [Measurement]: src/measurement.go; [updateMeasurements], [rtoNano],
      [calcPacing], [backoff], as functions of the embedded record.
    - [Chain]: doubly linked chains in a heap, shared by the two maps.
    - [Interfaces]: what the buffers need of the two maps, as operation classes
      ([LinkedMapOps], [SortedMapOps]) and law classes ([LinkedMapSpec],
      [SortedMapSpec]); the association lists and the order queries of their
      abstract contents.
    - [LinkedMap], [SortedMap]: src/linkedmap.go and src/sortedmap.go.  A node
      is a record in a heap indexed by [loc], so the pointer assignments of the
      code are updates of the heap; both files end with the instance of their
      interface.
    - [Rcv], [Snd]: src/rcv.go and src/snd.go, over the interfaces.
    - [Crypto]: src/crypto.go; keys, ECDH and the ciphers are the class
      [CryptoPrims] with the laws [CryptoLaws] (lengths, decryption inverts
      encryption, authentication fails under another nonce, agreement of ECDH);
      [toy_prims] is an instance of all laws.
    - [Delivery]: sender, network and receiver as a step relation.
    - [Conn]: src/conn.go and [Conn.encode]; writing a datagram to an address is
      an argument of the model that may return an error.
    - [Streams]: src/stream.go and [Conn.Close].
    - [Listener]: the receiving side of src/listener.go and [Listener.decode] of
      src/codec.go; the table of connections, [newConn], [Dial],
      [DialWithCrypto] and [Listen].  Fresh keys and what the socket returned are
      arguments.
    - [Scheduler]: the sending side of src/listener.go: [Flush] over all
      connections with [cleanupStream] and [cleanupConn] of src/conn.go, [Close]
      (as [listener_Close]), [ForceClose], [Loop] and [PubKey].  The pointers to
      the current ids are references to the entry they point into.
    - [Pcap], [Hex], [Options]: src/pcap.go; keys as text ([decodeHex],
      [decodeHexPubKey], [logKey]); the options, [fillListenOpts], [Listen] and
      the dial functions that take text, of src/listener.go.
    - [Net]: src/net.go and the three platforms of [setDontFragment]; Go's socket
      is a record with a read deadline, system calls are parameters.  The
      interface [NetworkConn] is a class.
    - [Text]: the functions of Go's [strings] and [bytes] that the program uses,
      [gId] and the choice of the log level of src/main.go.
    - [Logging]: the attributes that the [debug] methods build, and [setupLogger].
    - [Locks]: the mutexes that every method takes, and goroutines that call them.
    - [Inversion]: what the operations of a connection do, read off their results.
    - [Flow]: the count of bytes in flight over any sequence of operations.
    - [Endpoints]: two connections and the datagrams between them.
    - [Session]: the same from [Dial] on, through the handshake.
    - [InOrder], [Progress], [Transfer]: a transfer over a network that loses
      packets, one packet at a time: the two buffers, a round of the two ends, and
      the whole from [Dial] to the last byte or the end of the stream.
    - [EarlyData]: the same from [DialWithCrypto] on, where the first message
      carries the first bytes.
    - [Examples]: the two example programs, servers and clients with their
      callbacks, on top of [Options.Listen], [Loop] and the streams.

    A definition has the name of the Go function or type it models; a loop body
    or a branch that is a definition of its own ([insert_same], [resend_split],
    [flush_send], ...) is used by the definition of its function.  An update of a
    field of a shared object is an update of the map entry or heap cell that
    holds it.

    ** What the theorems show

    - End to end ([Delivery]): whatever the network loses, reorders and
      duplicates, the bytes delivered on a stream are a prefix of the bytes
      written.  [Endpoints] refines this: a run of two connections, from [Write]
      and [Flush] over encrypted datagrams to [decode] and [Read], is a run of
      [Delivery] with the same buffers, and [Session] extends it to the handshake
      and what was written before.  [Transfer] is the converse: if no packet is lost
      more often than it may be sent again, a transfer after the handshake ends
      with every byte read once, in order, and acknowledged, and a stream that is
      closed is read to its end.  With [EarlyData] the first bytes are read before
      the handshake is complete.
    - Goroutines ([Locks]): the mutexes are taken in one order, so no set of calls
      can deadlock, and a lock excludes as it should; this is what lets the other
      files treat a method as one step.
    - Flow control ([Flow]): the count of bytes in flight is a ledger of bytes
      sent and lengths of acknowledging datagrams; a full window blocks until an
      acknowledgement or a larger window arrives; and because an acknowledgement
      gives back the length of its own datagram, a long transfer stalls although
      everything was acknowledged.  [Transfer] is therefore stated for
      transfers below the window.
    - Receive buffer: on a buffer that stores every byte once, insertion refines
      adding positions to a set for packets that are orderly ([Rcv.orderly]: not
      partly delivered, and pieces of stored segments or whole around at most one),
      as those of a sender that never splits a packet always are; reads return the
      stream in order, and on such a buffer received bytes are eventually read.
    - Send buffer: queueing, sending, retransmitting (with splits) and
      acknowledging move exactly the bytes they should between queue, flight and
      done, under an invariant that ties queue, packets and size to the written
      stream.
    - Connection: a flush returns, writes at most one datagram of at most one
      MTU, respects pacing and the window; nonces are never repeated below 2^55
      packets; processing a payload with orderly data keeps the invariant and has
      exactly its effect.
    - Streams: reads and writes are exact, and closed streams refuse.
    - Listener: arbitrary datagrams are decoded without panic and touch only
      the connection whose id they carry; both handshakes end with the same secret
      at both ends; a data packet with orderly data encoded at one end enters the
      receive buffer of the other exactly.  A flush of all connections ends and is
      a sequence of visits of the streams in order, each with at most one
      datagram; it removes the connection of the last visit when that failed or
      found the peer silent, and no other; closing closes every stream.  Whatever the options, a new listener is well-formed.
    - Captures and keys as text: the capture helpers agree with the listener on
      every datagram; hexadecimal keys and the key log can be read back.
    - Examples: the callback of the first server replies and closes; a run of
      server and client exchanges the greetings.
    - Payload and packet formats: round trips; the payload parser is total.
    - Maps: the pointer structures refine an ordered association list and a
      finite map.
    - Measurements: while the clock is not behind the last probe, the estimator
      is that over the integers; bounds of RTO, back-off, pacing.

    The theorems named in the last part of some files ("Corner cases of the
    code") are concrete runs that leave the hypotheses of the properties, such as
    segmentations that are not orderly.

    ** Fuel

    Three loops of the code follow pointers or divide and are given fuel:
    iteration of the linked map (its size), the inner search loop of the skip list
    (its size), and the level computation (one more than the logarithm of the
    position).  The refinement theorems show that the operations return [Ok], so
    the fuel is enough on every well-formed structure.  The loop of
    [Listener.Flush] goes through the list of streams and needs none.  [Loop],
    which runs as long as the application wants, goes through the list of what the
    outside contributes to its iterations, and says whether it has ended when the
    list is used up.  The transfer of [Progress] is given a schedule of rounds, and as
    many successful rounds as the bytes fill packets are shown to be enough.  A run
    of [Locks] has as many steps as its calls have lock operations.

    ** Not modelled

    Interleavings inside a method: apart from [Locks] a method is one step.  Some
    fields of a connection are read and written without its mutex (in [Flush], for
    instance), and what a concurrent write of those does is left to Go's memory
    model, which the development does not have.  The messages that the functions
    log are left out; what they are made of is in [Logging].  What [fmt] makes of
    its arguments in the examples, the Unicode tables of Go's [strings]
    (parameters of [Text]), and Go's garbage collection are not modelled: a [*Conn]
    that the application keeps after the connection has left the table is not
    part of the state.  Time passes as the arguments of the operations say; how
    long [Loop] takes to come round to a stream depends on the application's
    callback and has no bound in the code. *)

From stdpp Require Import prelude gmap list numbers strings.

(** ** Outcomes of Go code

    A Go function either returns ([Ok]), panics ([Panic]) or, for a loop that
    is given fuel by the model, has not finished within its fuel ([Diverge]).
    Go's [error] results are ordinary values and are written as a sum inside
    [Ok]. *)

Inductive go_panic : Type :=
  | IndexOutOfRange
  | SliceOutOfRange
  | NilDereference
  | DivideByZero
  | PanicWith (msg : string).

Inductive go (A : Type) : Type :=
  | Ok (a : A)
  | Panic (p : go_panic)
  | Diverge.
Arguments Ok {A} a.
Arguments Panic {A} p.
Arguments Diverge {A}.

#[export] Instance go_panic_eq_dec : EqDecision go_panic.
Proof. solve_decision. Defined.

#[export] Instance go_ret : MRet go := fun A a => Ok a.
#[export] Instance go_bind : MBind go := fun A B f m =>
  match m with
  | Ok a => f a
  | Panic p => Panic p
  | Diverge => Diverge
  end.
#[export] Instance go_fmap : FMap go := fun A B f m =>
  match m with
  | Ok a => Ok (f a)
  | Panic p => Panic p
  | Diverge => Diverge
  end.

(** Dereferencing a pointer that may be nil, indexing a slice or map entry
    that must exist. *)
Definition go_deref {A} (p : go_panic) (o : option A) : go A :=
  match o with Some a => Ok a | None => Panic p end.

(** Integer division of unsigned values; Go panics on a zero divisor. *)
Definition go_div (a b : Z) : go Z := if decide (b = 0%Z) then Panic DivideByZero else Ok (a / b)%Z.

(** Go's [error] values, by their message; a fallible function returns
    [inl err] or [inr result]. *)
Abbreviation go_error := string.

(** The [Ok] result is unique; used to read results off a specification. *)
Lemma go_bind_Ok {A B} (m : go A) (f : A -> go B) b :
  (m ≫= f) = Ok b <-> exists a, m = Ok a /\ f a = Ok b.
Proof. destruct m; naive_solver. Qed.

Lemma go_div_Ok (a b : Z) : b <> 0%Z -> go_div a b = Ok (a / b)%Z.
Proof. intros. unfold go_div. by rewrite decide_False. Qed.

Lemma go_deref_Ok {A} p (o : option A) a : go_deref p o = Ok a <-> o = Some a.
Proof. destruct o; naive_solver. Qed.

(** ** Machine integers

    Go's unsigned types are integers [Z] kept in range by an explicit
    wrap-around.  Go's [int] (64 bits) is used by the program for lengths,
    capacities and sizes of data in memory, far from its bounds; it is [Z]. *)

Declare Scope go_scope.
Delimit Scope go_scope with go.

Definition u8 (z : Z) : Z := z mod 2 ^ 8.
Definition u16 (z : Z) : Z := z mod 2 ^ 16.
Definition u32 (z : Z) : Z := z mod 2 ^ 32.
Definition u64 (z : Z) : Z := z mod 2 ^ 64.

Notation "a << b" := (Z.shiftl a b) (at level 38, left associativity) : go_scope.
Notation "a >> b" := (Z.shiftr a b) (at level 38, left associativity) : go_scope.
Notation "a .| b" := (Z.lor a b) (at level 39, left associativity) : go_scope.
Notation "a .& b" := (Z.land a b) (at level 37, left associativity) : go_scope.

Definition is_u8 (z : Z) : Prop := (0 <= z < 2 ^ 8)%Z.
Definition is_u16 (z : Z) : Prop := (0 <= z < 2 ^ 16)%Z.
Definition is_u32 (z : Z) : Prop := (0 <= z < 2 ^ 32)%Z.
Definition is_u48 (z : Z) : Prop := (0 <= z < 2 ^ 48)%Z.
Definition is_u64 (z : Z) : Prop := (0 <= z < 2 ^ 64)%Z.

#[export] Instance is_u8_dec z : Decision (is_u8 z).
Proof. unfold is_u8; apply _. Defined.
#[export] Instance is_u16_dec z : Decision (is_u16 z).
Proof. unfold is_u16; apply _. Defined.
#[export] Instance is_u32_dec z : Decision (is_u32 z).
Proof. unfold is_u32; apply _. Defined.
#[export] Instance is_u48_dec z : Decision (is_u48 z).
Proof. unfold is_u48; apply _. Defined.
#[export] Instance is_u64_dec z : Decision (is_u64 z).
Proof. unfold is_u64; apply _. Defined.

(** Decide a closed decidable proposition by computation. *)
Ltac compute_done := apply (bool_decide_unpack _); vm_compute; exact I.

(** Unfolds the width predicates and wrap-around functions for [lia]. *)
Ltac widths :=
  unfold is_u8, is_u16, is_u32, is_u48, is_u64, u8, u16, u32, u64 in *;
  change (2 ^ 8)%Z with 256%Z in *;
  change (2 ^ 16)%Z with 65536%Z in *;
  change (2 ^ 32)%Z with 4294967296%Z in *;
  change (2 ^ 48)%Z with 281474976710656%Z in *;
  change (2 ^ 64)%Z with 18446744073709551616%Z in *.
Ltac width_lia := widths; Z.div_mod_to_equations; lia.

Lemma u64_range z : is_u64 (u64 z).
Proof. widths. apply Z.mod_pos_bound. lia. Qed.


(** ** Bytes and slices

    A byte slice is the list of its bytes, a byte a [Z] below 256.  A slice
    that the code distinguishes from nil is an [option bytes]. *)

Abbreviation bytes := (list Z).
Abbreviation len l := (Z.of_nat (length l)) (only parsing).

(** [l[i]], [l[i] = v], [l[i:]], [l[:j]], [l[i:j]] with Go's bounds checks;
    the upper bound of a slice expression is checked against the length (the
    code never reslices beyond it, except where a definition says so). *)
Definition at_ {A} (l : list A) (i : Z) : go A :=
  if decide (0 <= i)%Z then go_deref IndexOutOfRange (l !! Z.to_nat i) else Panic IndexOutOfRange.

Definition set_at {A} (l : list A) (i : Z) (v : A) : go (list A) :=
  if decide (0 <= i < len l)%Z then Ok (<[Z.to_nat i := v]> l) else Panic IndexOutOfRange.

Definition slice_from {A} (l : list A) (i : Z) : go (list A) :=
  if decide (0 <= i <= len l)%Z then Ok (drop (Z.to_nat i) l) else Panic SliceOutOfRange.

Definition slice_to {A} (l : list A) (j : Z) : go (list A) :=
  if decide (0 <= j <= len l)%Z then Ok (take (Z.to_nat j) l) else Panic SliceOutOfRange.

Definition slice {A} (l : list A) (i j : Z) : go (list A) :=
  if decide (0 <= i <= j /\ j <= len l)%Z
  then Ok (take (Z.to_nat (j - i)) (drop (Z.to_nat i) l)) else Panic SliceOutOfRange.

(** [copy(dst, src)]: the bytes that fit are copied; their number is returned. *)
Definition go_copy {A} (dst src : list A) : list A * Z :=
  let n := Nat.min (length dst) (length src) in (take n src ++ drop n dst, Z.of_nat n).

(** [f(l[i:], ...)] for a function that writes into its argument: the rest of
    the buffer keeps its content. *)
Definition on_slice {A R} (l : list A) (i : Z) (f : list A -> go (list A * R)) : go (list A * R) :=
  s ← slice_from l i; '(s', r) ← f s; mret (take (Z.to_nat i) l ++ s', r).

(** ** Automation *)

Create HintDb qotp discriminated.
#[export] Hint Extern 2 (is_u8 _) => widths; lia : qotp.
#[export] Hint Extern 2 (is_u16 _) => widths; lia : qotp.
#[export] Hint Extern 2 (is_u32 _) => widths; lia : qotp.
#[export] Hint Extern 2 (is_u48 _) => widths; lia : qotp.
#[export] Hint Extern 2 (is_u64 _) => widths; lia : qotp.

(** Case analysis on the tests of the code under the goal. *)
Ltac split_tests :=
  repeat (case_decide || case_match); simplify_eq; try done.

(** Discharge the bounds check of a slice operation. *)
Ltac bounds := rewrite ?length_app, ?length_take, ?length_drop, ?length_insert, ?length_replicate; simpl; lia.

Ltac go_inv :=
  repeat match goal with
  | H : (_ ≫= _) = Ok _ |- _ => apply go_bind_Ok in H as (? & ? & ?)
  | H : mret _ = Ok _ |- _ => injection H as H
  | H : Ok _ = Ok _ |- _ => injection H as H
  | H : Panic _ = Ok _ |- _ => discriminate H
  | H : Diverge = Ok _ |- _ => discriminate H
  | H : go_deref _ _ = Ok _ |- _ => apply go_deref_Ok in H
  | H : (_, _) = (_, _) |- _ => injection H as H
  end; simplify_eq/=.

(** ** Generic lemmas: slices *)

Section slices.
Context {A : Type}.
Implicit Types l : list A.

Lemma slice_from_Ok l i : (0 <= i <= len l)%Z -> slice_from l i = Ok (drop (Z.to_nat i) l).
Proof. intros. unfold slice_from. by rewrite decide_True. Qed.

Lemma slice_to_Ok l i : (0 <= i <= len l)%Z -> slice_to l i = Ok (take (Z.to_nat i) l).
Proof. intros. unfold slice_to. by rewrite decide_True. Qed.

Lemma slice_Ok l i j :
  (0 <= i <= j)%Z -> (j <= len l)%Z -> slice l i j = Ok (take (Z.to_nat (j - i)) (drop (Z.to_nat i) l)).
Proof. intros. unfold slice. by rewrite decide_True. Qed.

Lemma set_at_Ok l i v : (0 <= i < len l)%Z -> set_at l i v = Ok (<[Z.to_nat i := v]> l).
Proof. intros. unfold set_at. by rewrite decide_True. Qed.

Lemma at_Ok l i v : (0 <= i)%Z -> l !! Z.to_nat i = Some v -> at_ l i = Ok v.
Proof. intros ? H. unfold at_. rewrite decide_True by done. by rewrite H. Qed.

Lemma at_Ok_inv l i v : at_ l i = Ok v -> (0 <= i)%Z /\ l !! Z.to_nat i = Some v.
Proof. unfold at_. case_decide; [|done]. rewrite go_deref_Ok. auto. Qed.

Lemma slice_from_inv l i l' : slice_from l i = Ok l' -> (0 <= i <= len l)%Z /\ l' = drop (Z.to_nat i) l.
Proof. unfold slice_from. case_decide; naive_solver. Qed.

Lemma slice_to_inv l i l' : slice_to l i = Ok l' -> (0 <= i <= len l)%Z /\ l' = take (Z.to_nat i) l.
Proof. unfold slice_to. case_decide; naive_solver. Qed.

Lemma slice_inv l i j l' :
  slice l i j = Ok l' ->
  (0 <= i <= j)%Z /\ (j <= len l)%Z /\ l' = take (Z.to_nat (j - i)) (drop (Z.to_nat i) l).
Proof. unfold slice. case_decide; naive_solver. Qed.

(** Writing at the end of a prefix of known length. *)
Lemma on_slice_app {R} l1 l2 i (f : list A -> go (list A * R)) l2' r :
  i = len l1 -> f l2 = Ok (l2', r) -> on_slice (l1 ++ l2) i f = Ok (l1 ++ l2', r).
Proof.
  intros -> Hf. unfold on_slice. rewrite slice_from_Ok by (rewrite length_app; lia). simpl.
  rewrite Nat2Z.id, drop_app_length. rewrite Hf. simpl. by rewrite take_app_length.
Qed.

Lemma set_at_app l1 l2 i x v : i = len l1 -> set_at (l1 ++ x :: l2) i v = Ok (l1 ++ v :: l2).
Proof.
  intros ->. rewrite set_at_Ok by (rewrite length_app; simpl; lia).
  rewrite Nat2Z.id. f_equal. rewrite insert_app_r_alt by lia.
  by rewrite Nat.sub_diag.
Qed.

Lemma slice_from_app l1 l2 i : i = len l1 -> slice_from (l1 ++ l2) i = Ok l2.
Proof.
  intros ->. rewrite slice_from_Ok by (rewrite length_app; lia).
  by rewrite Nat2Z.id, drop_app_length.
Qed.

Lemma at_app l1 x l2 i : i = len l1 -> at_ (l1 ++ x :: l2) i = Ok x.
Proof. intros ->. apply at_Ok; [lia|]. by rewrite Nat2Z.id, list_lookup_middle. Qed.
End slices.

(** ** Generic lemmas: integers *)

Lemma lor_shiftl_add (a b n : Z) :
  (0 <= n)%Z -> (0 <= a < 2 ^ n)%Z -> Z.lor a (Z.shiftl b n) = (a + b * 2 ^ n)%Z.
Proof.
  intros Hn Ha. rewrite Z.shiftl_mul_pow2 by done.
  symmetry. rewrite <- Z.lxor_lor.
  - apply Z.add_nocarry_lxor.
    apply Z.bits_inj'. intros m Hm. rewrite Z.land_spec, Z.bits_0.
    rewrite <- Z.shiftl_mul_pow2, Z.shiftl_spec by lia.
    destruct (decide (m < n)%Z).
    + rewrite (Z.testbit_neg_r b) by lia. apply andb_false_r.
    + rewrite <- (Z.mod_small a (2 ^ n)) by done. rewrite Z.mod_pow2_bits_high by lia. done.
  - apply Z.bits_inj'. intros m Hm. rewrite Z.land_spec, Z.bits_0.
    rewrite <- Z.shiftl_mul_pow2, Z.shiftl_spec by lia.
    destruct (decide (m < n)%Z).
    + rewrite (Z.testbit_neg_r b) by lia. apply andb_false_r.
    + rewrite <- (Z.mod_small a (2 ^ n)) by done. rewrite Z.mod_pow2_bits_high by lia. done.
Qed.

Lemma shiftr_div (a n : Z) : (0 <= n)%Z -> Z.shiftr a n = (a / 2 ^ n)%Z.
Proof. apply Z.shiftr_div_pow2. Qed.

(** ** Generic lemmas: sums over finite maps *)

Definition map_sum {A} (f : A -> Z) (m : gmap Z A) : Z := map_fold (fun _ a acc => f a + acc)%Z 0%Z m.

Section map_sum.
Context {A : Type} (f : A -> Z).
Implicit Types m : gmap Z A.

Lemma map_sum_empty : map_sum f ∅ = 0%Z.
Proof. apply map_fold_empty. Qed.

Lemma map_sum_delete m k a : m !! k = Some a -> map_sum f m = (f a + map_sum f (delete k m))%Z.
Proof. intros Hk. exact (map_fold_delete_L (fun _ a acc => f a + acc)%Z 0%Z k a m ltac:(intros; simpl; lia) Hk). Qed.

Lemma map_sum_insert_new m k a : m !! k = None -> map_sum f (<[k := a]> m) = (f a + map_sum f m)%Z.
Proof. intros Hk. exact (map_fold_insert_L (fun _ a acc => f a + acc)%Z 0%Z k a m ltac:(intros; simpl; lia) Hk). Qed.

Lemma map_sum_insert m k a :
  map_sum f (<[k := a]> m) = (map_sum f m + f a - from_option f 0 (m !! k))%Z.
Proof.
  destruct (m !! k) as [b|] eqn:Hk; simpl.
  - rewrite <- insert_delete_eq, map_sum_insert_new by apply lookup_delete_eq.
    rewrite (map_sum_delete m k b Hk). lia.
  - rewrite map_sum_insert_new by done. lia.
Qed.

Lemma map_sum_delete_eq m k : map_sum f (delete k m) = (map_sum f m - from_option f 0 (m !! k))%Z.
Proof.
  destruct (m !! k) as [b|] eqn:Hk; simpl; [rewrite (map_sum_delete m k b Hk); lia|].
  rewrite delete_id by done. lia.
Qed.

Lemma map_sum_nonneg m : (forall k a, m !! k = Some a -> 0 <= f a)%Z -> (0 <= map_sum f m)%Z.
Proof.
  induction m as [|k a m Hk IH] using map_ind; [by rewrite map_sum_empty|].
  intros Hf. rewrite map_sum_insert_new by done. pose proof (Hf k a (lookup_insert_eq _ _ _)).
  assert (0 <= map_sum f m)%Z; [|lia]. apply IH. intros j b Hj. apply (Hf j).
  rewrite lookup_insert_ne; [done|]. congruence.
Qed.
End map_sum.

(** ** Byte streams

    A stream of bytes, by offset, and the [n] bytes of it from offset [o]. *)
Definition read_at (f : Z -> Z) (o : Z) (n : nat) : bytes := f <$> seqZ o (Z.of_nat n).

Lemma read_at_length f o n : length (read_at f o n) = n.
Proof. unfold read_at. rewrite length_fmap, length_seqZ. lia. Qed.

Lemma read_at_lookup f o n i : (i < n)%nat -> read_at f o n !! i = Some (f (o + Z.of_nat i)%Z).
Proof. intros Hi. unfold read_at. rewrite list_lookup_fmap, lookup_seqZ_lt by lia. done. Qed.

Lemma read_at_take f o n i : (i <= n)%nat -> take i (read_at f o n) = read_at f o i.
Proof.
  intros Hi. apply list_eq. intros j. destruct (decide (j < i)%nat).
  - rewrite lookup_take_lt, !read_at_lookup by lia. done.
  - rewrite lookup_take_ge, lookup_ge_None_2; rewrite ?read_at_length; (done || lia).
Qed.

Lemma read_at_drop f o n i : (i <= n)%nat -> drop i (read_at f o n) = read_at f (o + Z.of_nat i) (n - i).
Proof.
  intros Hi. apply list_eq. intros j. rewrite lookup_drop. destruct (decide (j < n - i)%nat).
  - rewrite !read_at_lookup by lia. f_equal. f_equal. lia.
  - rewrite !lookup_ge_None_2; rewrite ?read_at_length; (done || lia).
Qed.

Lemma read_at_app f o n1 n2 : read_at f o (n1 + n2) = read_at f o n1 ++ read_at f (o + Z.of_nat n1) n2.
Proof.
  rewrite <- (take_drop n1 (read_at f o (n1 + n2))). rewrite read_at_take, read_at_drop by lia.
  by replace (n1 + n2 - n1)%nat with n2 by lia.
Qed.

Lemma read_at_ext f g o n :
  (forall x, (o <= x < o + Z.of_nat n)%Z -> f x = g x) -> read_at f o n = read_at g o n.
Proof.
  intros H. apply list_eq. intros j. destruct (decide (j < n)%nat).
  - rewrite !read_at_lookup by lia. f_equal. apply H. lia.
  - rewrite !lookup_ge_None_2; rewrite ?read_at_length; (done || lia).
Qed.

(** The byte stream 0, 1, 2, ... on every stream id, for witnesses. *)
Definition counting (sid x : Z) : Z := u8 x.
