(* ===== verification/Wire.v ===== *)
(** * Wire: the little-endian integer codec of src/codec.go

    [PutUint16] .. [PutUint64], [Uint16] .. [Uint64] and the 24/48-bit stream
    offset codec, translated byte by byte with Go's index checks, then shown
    equal to one reference definition ([le_bytes], [le_value]) from which the
    round trips follow. *)

From stdpp Require Import prelude list numbers.
From S2P Require Import Prelude.

Local Open Scope Z_scope.
Local Open Scope go_scope.

(** ** The code *)

Definition PutUint16 (b : bytes) (v : Z) : go (bytes * Z) :=
  b ← set_at b 0 (u8 v);
  b ← set_at b 1 (u8 (v >> 8));
  mret (b, 2).

Definition PutUint24 (b : bytes) (v : Z) : go (bytes * Z) :=
  b ← set_at b 0 (u8 v);
  b ← set_at b 1 (u8 (v >> 8));
  b ← set_at b 2 (u8 (v >> 16));
  mret (b, 3).

Definition PutUint32 (b : bytes) (v : Z) : go (bytes * Z) :=
  b ← set_at b 0 (u8 v);
  b ← set_at b 1 (u8 (v >> 8));
  b ← set_at b 2 (u8 (v >> 16));
  b ← set_at b 3 (u8 (v >> 24));
  mret (b, 4).

Definition PutUint48 (b : bytes) (v : Z) : go (bytes * Z) :=
  b ← set_at b 0 (u8 v);
  b ← set_at b 1 (u8 (v >> 8));
  b ← set_at b 2 (u8 (v >> 16));
  b ← set_at b 3 (u8 (v >> 24));
  b ← set_at b 4 (u8 (v >> 32));
  b ← set_at b 5 (u8 (v >> 40));
  mret (b, 6).

Definition PutUint64 (b : bytes) (v : Z) : go (bytes * Z) :=
  b ← set_at b 0 (u8 v);
  b ← set_at b 1 (u8 (v >> 8));
  b ← set_at b 2 (u8 (v >> 16));
  b ← set_at b 3 (u8 (v >> 24));
  b ← set_at b 4 (u8 (v >> 32));
  b ← set_at b 5 (u8 (v >> 40));
  b ← set_at b 6 (u8 (v >> 48));
  b ← set_at b 7 (u8 (v >> 56));
  mret (b, 8).

Definition Uint16 (b : bytes) : go Z :=
  b0 ← at_ b 0; b1 ← at_ b 1;
  mret (b0 .| u16 (b1 << 8)).

Definition Uint24 (b : bytes) : go Z :=
  b0 ← at_ b 0; b1 ← at_ b 1; b2 ← at_ b 2;
  mret (b0 .| u64 (b1 << 8) .| u64 (b2 << 16)).

Definition Uint32 (b : bytes) : go Z :=
  b0 ← at_ b 0; b1 ← at_ b 1; b2 ← at_ b 2; b3 ← at_ b 3;
  mret (b0 .| u32 (b1 << 8) .| u32 (b2 << 16) .| u32 (b3 << 24)).

Definition Uint48 (b : bytes) : go Z :=
  b0 ← at_ b 0; b1 ← at_ b 1; b2 ← at_ b 2; b3 ← at_ b 3; b4 ← at_ b 4; b5 ← at_ b 5;
  mret (b0 .| u64 (b1 << 8) .| u64 (b2 << 16) .| u64 (b3 << 24) .| u64 (b4 << 32)
        .| u64 (b5 << 40)).

Definition Uint64 (b : bytes) : go Z :=
  b0 ← at_ b 0; b1 ← at_ b 1; b2 ← at_ b 2; b3 ← at_ b 3;
  b4 ← at_ b 4; b5 ← at_ b 5; b6 ← at_ b 6; b7 ← at_ b 7;
  mret (b0 .| u64 (b1 << 8) .| u64 (b2 << 16) .| u64 (b3 << 24) .| u64 (b4 << 32)
        .| u64 (b5 << 40) .| u64 (b6 << 48) .| u64 (b7 << 56)).

Definition putOffsetVarint (buf : bytes) (offset : Z) (isExtend : bool) : go (bytes * Z) :=
  if isExtend then PutUint48 buf offset else PutUint24 buf offset.

Definition offsetVarint (buf : bytes) (isExtend : bool) : go Z :=
  if isExtend then Uint48 buf else Uint24 buf.

Definition offsetSize (isExtend : bool) : Z := if isExtend then 6 else 3.

(** ** Reference definition: [n] bytes, least significant first *)

Fixpoint le_bytes (n : nat) (v : Z) : bytes :=
  match n with
  | O => []
  | S n => v mod 256 :: le_bytes n (v / 256)
  end.

Fixpoint le_value (l : bytes) : Z :=
  match l with
  | [] => 0
  | b :: l => b + 256 * le_value l
  end.

Lemma length_le_bytes n v : length (le_bytes n v) = n.
Proof. revert v. induction n; intros; simpl; auto. Qed.

Lemma le_bytes_is_u8 n v : Forall is_u8 (le_bytes n v).
Proof.
  revert v. induction n as [|n IH]; intros v; simpl; constructor; [|auto].
  unfold is_u8. width_lia.
Qed.

Lemma le_value_bytes n v : le_value (le_bytes n v) = v mod 256 ^ Z.of_nat n.
Proof.
  revert v. induction n as [|n IH]; intros v; cbn [le_bytes le_value].
  - rewrite Z.mod_1_r. done.
  - rewrite IH, Nat2Z.inj_succ, Z.pow_succ_r by lia.
    rewrite Z.rem_mul_r by (try apply Z.pow_nonzero; lia). lia.
Qed.

Lemma le_value_bounds l : Forall is_u8 l -> 0 <= le_value l < 256 ^ len l.
Proof.
  induction 1 as [|b l Hb Hl IH]; cbn [le_value length]; [lia|].
  rewrite Nat2Z.inj_succ, Z.pow_succ_r by lia. widths. lia.
Qed.

Lemma le_bytes_value l : Forall is_u8 l -> le_bytes (length l) (le_value l) = l.
Proof.
  induction 1 as [|b l Hb Hl IH]; cbn [le_value length le_bytes]; [done|].
  widths. replace ((b + 256 * le_value l) mod 256) with b by (Z.div_mod_to_equations; lia).
  replace ((b + 256 * le_value l) / 256) with (le_value l) by (Z.div_mod_to_equations; lia).
  by rewrite IH.
Qed.

(** ** The code computes the reference *)

(** The byte at position [i] of the code is the [i]-th byte of the reference. *)
Lemma byte_shift v i : 0 <= i -> u8 (v >> i) = v / 2 ^ i mod 256.
Proof. intros. unfold u8. by rewrite shiftr_div. Qed.

(** A writer fills the front of its buffer and leaves the rest. *)
Ltac put_spec :=
  intros Hb; destruct_list_prefix Hb;
  cbv [PutUint16 PutUint24 PutUint32 PutUint48 PutUint64 mbind go_bind];
  repeat (rewrite set_at_Ok by (simpl; lia); simpl);
  repeat (rewrite byte_shift by lia); unfold u8;
  cbn [le_bytes app]; rewrite ?Z.div_div by lia; reflexivity
with destruct_list_prefix Hb :=
  repeat match goal with
  | H : (_ <= length ?b)%nat |- _ => destruct b; [simpl in H; lia | simpl in H; apply le_S_n in H]
  end.

Lemma PutUint16_spec b v : (2 <= length b)%nat -> PutUint16 b v = Ok (le_bytes 2 v ++ drop 2 b, 2).
Proof. put_spec. Qed.

Lemma PutUint24_spec b v : (3 <= length b)%nat -> PutUint24 b v = Ok (le_bytes 3 v ++ drop 3 b, 3).
Proof. put_spec. Qed.

Lemma PutUint32_spec b v : (4 <= length b)%nat -> PutUint32 b v = Ok (le_bytes 4 v ++ drop 4 b, 4).
Proof. put_spec. Qed.

Lemma PutUint48_spec b v : (6 <= length b)%nat -> PutUint48 b v = Ok (le_bytes 6 v ++ drop 6 b, 6).
Proof. put_spec. Qed.

Lemma PutUint64_spec b v : (8 <= length b)%nat -> PutUint64 b v = Ok (le_bytes 8 v ++ drop 8 b, 8).
Proof. put_spec. Qed.

(** Or-ing in one more byte above the bits read so far adds it. *)
Lemma or_byte acc b n w :
  0 <= n -> n + 8 <= w -> 0 <= acc < 2 ^ n -> is_u8 b ->
  acc .| ((b << n) mod 2 ^ w) = acc + b * 2 ^ n.
Proof.
  intros Hn Hw Hacc Hb. unfold is_u8 in Hb.
  rewrite Z.mod_small; [by apply lor_shiftl_add|].
  rewrite Z.shiftl_mul_pow2 by done.
  assert (2 ^ (n + 8) <= 2 ^ w) by (apply Z.pow_le_mono_r; lia).
  rewrite Z.pow_add_r in * by lia. nia.
Qed.

(** A reader returns the value of the bytes at the front of its buffer. *)
Ltac get_spec :=
  intros Hb H8; destruct_list_prefix Hb; cbn [take] in H8 |- *; decompose_Forall;
  cbv [Uint16 Uint24 Uint32 Uint48 Uint64 mbind go_bind mret go_ret];
  repeat (erewrite at_Ok; [| lia | reflexivity]); unfold u16, u32, u64;
  repeat match goal with
  | |- context [Z.lor ?a (Z.shiftl ?b ?n mod 2 ^ ?w)] =>
      lazymatch a with
      | Z.lor _ _ => fail
      | _ => rewrite (or_byte a b n w) by (first [done | widths; lia])
      end
  end;
  cbn [le_value]; f_equal; widths; lia.

Lemma Uint16_spec b :
  (2 <= length b)%nat -> Forall is_u8 (take 2 b) -> Uint16 b = Ok (le_value (take 2 b)).
Proof. get_spec. Qed.

Lemma Uint24_spec b :
  (3 <= length b)%nat -> Forall is_u8 (take 3 b) -> Uint24 b = Ok (le_value (take 3 b)).
Proof. get_spec. Qed.

Lemma Uint32_spec b :
  (4 <= length b)%nat -> Forall is_u8 (take 4 b) -> Uint32 b = Ok (le_value (take 4 b)).
Proof. get_spec. Qed.

Lemma Uint48_spec b :
  (6 <= length b)%nat -> Forall is_u8 (take 6 b) -> Uint48 b = Ok (le_value (take 6 b)).
Proof. get_spec. Qed.

Lemma Uint64_spec b :
  (8 <= length b)%nat -> Forall is_u8 (take 8 b) -> Uint64 b = Ok (le_value (take 8 b)).
Proof. get_spec. Qed.

Lemma putOffsetVarint_spec b v ext :
  (Z.to_nat (offsetSize ext) <= length b)%nat ->
  putOffsetVarint b v ext =
    Ok (le_bytes (Z.to_nat (offsetSize ext)) v ++ drop (Z.to_nat (offsetSize ext)) b, offsetSize ext).
Proof. destruct ext; [apply PutUint48_spec | apply PutUint24_spec]. Qed.

Lemma offsetVarint_spec b ext :
  (Z.to_nat (offsetSize ext) <= length b)%nat ->
  Forall is_u8 (take (Z.to_nat (offsetSize ext)) b) ->
  offsetVarint b ext = Ok (le_value (take (Z.to_nat (offsetSize ext)) b)).
Proof. destruct ext; [apply Uint48_spec | apply Uint24_spec]. Qed.

(** Reading back what was written in front of any rest. *)
Lemma take_le_bytes n v rest : take n (le_bytes n v ++ rest) = le_bytes n v.
Proof. rewrite <- (length_le_bytes n v) at 1. apply take_app_length. Qed.

Ltac get_le :=
  match goal with
  | |- ?f (le_bytes ?n ?v ++ ?r) = _ =>
      first [rewrite Uint16_spec | rewrite Uint24_spec | rewrite Uint32_spec
            | rewrite Uint48_spec | rewrite Uint64_spec];
      [ rewrite take_le_bytes, le_value_bytes; reflexivity
      | rewrite length_app, length_le_bytes; lia
      | rewrite take_le_bytes; apply le_bytes_is_u8 ]
  end.

Lemma Uint16_le v r : Uint16 (le_bytes 2 v ++ r) = Ok (v mod 2 ^ 16).
Proof. get_le. Qed.
Lemma Uint24_le v r : Uint24 (le_bytes 3 v ++ r) = Ok (v mod 2 ^ 24).
Proof. get_le. Qed.
Lemma Uint32_le v r : Uint32 (le_bytes 4 v ++ r) = Ok (v mod 2 ^ 32).
Proof. get_le. Qed.
Lemma Uint48_le v r : Uint48 (le_bytes 6 v ++ r) = Ok (v mod 2 ^ 48).
Proof. get_le. Qed.
Lemma Uint64_le v r : Uint64 (le_bytes 8 v ++ r) = Ok (v mod 2 ^ 64).
Proof. get_le. Qed.

(** A reader on long enough input succeeds with a value of its width. *)
Lemma Uint32_total b : (4 <= length b)%nat -> Forall is_u8 b -> exists v, Uint32 b = Ok v /\ is_u32 v.
Proof.
  intros Hl Hb. assert (Forall is_u8 (take 4 b)) as H4 by by apply Forall_take.
  eexists. split; [by apply Uint32_spec|].
  apply le_value_bounds in H4. rewrite length_take, Nat.min_l in H4 by lia. exact H4.
Qed.

Lemma Uint16_total b : (2 <= length b)%nat -> Forall is_u8 b -> exists v, Uint16 b = Ok v /\ is_u16 v.
Proof.
  intros Hl Hb. assert (Forall is_u8 (take 2 b)) as H2 by by apply Forall_take.
  eexists. split; [by apply Uint16_spec|].
  apply le_value_bounds in H2. rewrite length_take, Nat.min_l in H2 by lia. exact H2.
Qed.

Lemma Uint64_total b : (8 <= length b)%nat -> Forall is_u8 b -> exists v, Uint64 b = Ok v /\ is_u64 v.
Proof.
  intros Hl Hb. assert (Forall is_u8 (take 8 b)) as H8 by by apply Forall_take.
  eexists. split; [by apply Uint64_spec|].
  apply le_value_bounds in H8. rewrite length_take, Nat.min_l in H8 by lia. exact H8.
Qed.

Lemma offsetVarint_total b ext :
  (Z.to_nat (offsetSize ext) <= length b)%nat -> Forall is_u8 b ->
  exists v, offsetVarint b ext = Ok v /\ is_u48 v.
Proof.
  intros Hl Hb. assert (Forall is_u8 (take (Z.to_nat (offsetSize ext)) b)) as Hn by by apply Forall_take.
  eexists. split; [by apply offsetVarint_spec|].
  apply le_value_bounds in Hn. rewrite length_take, Nat.min_l in Hn by lia.
  unfold is_u48. destruct ext;
    [change (256 ^ _) with (2 ^ 48) in Hn | change (256 ^ _) with (2 ^ 24) in Hn]; lia.
Qed.

(** The number of bits an offset field carries. *)
Definition offset_bits (ext : bool) : Z := if ext then 48 else 24.

Lemma offsetVarint_le v r ext :
  offsetVarint (le_bytes (Z.to_nat (offsetSize ext)) v ++ r) ext = Ok (v mod 2 ^ offset_bits ext).
Proof. destruct ext; [apply Uint48_le | apply Uint24_le]. Qed.

(** ** Properties *)

(** Every integer codec round-trips: for a buffer long enough for the field,
    writing [v] and reading it back yields [v] modulo the width of the field
    (in particular [v] itself when it fits), and the bytes behind the field are
    unchanged. *)
Theorem uint_codec_roundtrip (b : bytes) (v : Z) :
  (8 <= length b)%nat ->
  (exists b', PutUint16 b v = Ok (b', 2) /\ Uint16 b' = Ok (v mod 2 ^ 16) /\ drop 2 b' = drop 2 b) /\
  (exists b', PutUint24 b v = Ok (b', 3) /\ Uint24 b' = Ok (v mod 2 ^ 24) /\ drop 3 b' = drop 3 b) /\
  (exists b', PutUint32 b v = Ok (b', 4) /\ Uint32 b' = Ok (v mod 2 ^ 32) /\ drop 4 b' = drop 4 b) /\
  (exists b', PutUint48 b v = Ok (b', 6) /\ Uint48 b' = Ok (v mod 2 ^ 48) /\ drop 6 b' = drop 6 b) /\
  (exists b', PutUint64 b v = Ok (b', 8) /\ Uint64 b' = Ok (v mod 2 ^ 64) /\ drop 8 b' = drop 8 b).
Proof.
  intros Hb.
  rewrite PutUint16_spec, PutUint24_spec, PutUint32_spec, PutUint48_spec, PutUint64_spec by lia.
  repeat split; eexists; split_and!; try done; get_le.
Qed.

Lemma uint_codec_roundtrip_witness :
  exists b', PutUint48 (replicate 9 7) 281474976710657 = Ok (b', 6) /\ Uint48 b' = Ok 1 /\
    drop 6 b' = [7; 7; 7].
Proof.
  destruct (uint_codec_roundtrip (replicate 9 7) 281474976710657 ltac:(simpl; lia))
    as (_ & _ & _ & (b' & H) & _).
  exists b'. exact H.
Defined.
