(* ===== verification/Proto.v ===== *)
(** * Proto: the transport payload of src/proto.go

    The payload header with its optional acknowledgement, its encoder and
    decoder, the receive-window compression and the overhead computation. *)

From stdpp Require Import prelude list numbers strings.
From S2P Require Import Prelude Wire.

Local Open Scope Z_scope.
Local Open Scope go_scope.

(** ** The code *)

Definition ProtoVersion : Z := 0.
Definition TypeFlag : Z := 5.
Definition Offset24or48Flag : Z := 7.
Definition MinProtoSize : Z := 8.

Record Ack := mkAck {
  ack_streamID : Z;  (* uint32 *)
  ack_offset : Z;    (* uint64 *)
  ack_len : Z;       (* uint16 *)
  ack_rcvWnd : Z;    (* uint64 *)
}.

Record PayloadHeader := mkPayloadHeader {
  IsClose : bool;
  pAck : option Ack;   (* *Ack *)
  StreamID : Z;        (* uint32 *)
  StreamOffset : Z;    (* uint64 *)
}.

#[export] Instance Ack_eq_dec : EqDecision Ack.
Proof. solve_decision. Defined.
#[export] Instance PayloadHeader_eq_dec : EqDecision PayloadHeader.
Proof. solve_decision. Defined.

(** [bits.Len64(x) - 1] is the position of the highest bit of a non-zero [x]. *)
Definition EncodeRcvWindow (actualBytes : Z) : Z :=
  if actualBytes =? 0 then 0
  else if actualBytes <=? 255 then 1
  else
    let highBit := Z.log2 actualBytes in
    let lowerBits := (actualBytes >> (highBit - 3)) .& 7 in
    let encoded := (highBit - 8) * 8 + lowerBits + 2 in
    if encoded >? 255 then 255 else u8 encoded.

Definition DecodeRcvWindow (encoded : Z) : Z :=
  if encoded =? 0 then 0
  else if encoded =? 1 then 128
  else
    let adjusted := u8 (encoded - 2) in
    let highBit := adjusted / 8 + 8 in
    let subStep := adjusted mod 8 in
    let base := u64 (1 << highBit) in
    let increment := base / 8 in
    u64 (base + u64 (subStep * increment)).

Definition calcProtoOverhead (isAck isExtend isEmptyDataHeader : bool) : Z :=
  let overhead := 1 in
  let extBytes := if isExtend then 6 else 3 in
  let overhead := if isEmptyDataHeader then overhead else overhead + (4 + extBytes) in
  if isAck then overhead + (4 + extBytes + 2 + 1) else overhead.

(** The header byte: version, type (bits 5-6) and offset size (bit 7). *)
Definition header_type (isClose isAck : bool) : Z :=
  match isClose, isAck with
  | true, true => 2 << TypeFlag
  | true, false => 3 << TypeFlag
  | false, true => 0 << TypeFlag
  | false, false => 1 << TypeFlag
  end.

Definition EncodePayload (p : PayloadHeader) (userData : option bytes) : go (bytes * Z) :=
  let isAck := bool_decide (is_Some (pAck p)) in
  let isEmptyDataHeader := negb (IsClose p) && isAck && bool_decide (userData = None) in
  let header := u8 (ProtoVersion .| header_type (IsClose p) isAck) in
  let isExtend := (StreamOffset p >? 0xffffff)
                  || match pAck p with Some a => ack_offset a >? 0xffffff | None => false end in
  let header := if isExtend then u8 (header .| (1 << Offset24or48Flag)) else header in
  let overhead := calcProtoOverhead isAck isExtend isEmptyDataHeader in
  let userDataLen := len (default [] userData) in
  let encoded := replicate (Z.to_nat (overhead + userDataLen)) 0 in
  encoded ← set_at encoded 0 header;
  let offset := 1 in
  '(encoded, offset) ←
    match pAck p with
    | Some a =>
        '(encoded, n) ← on_slice encoded offset (fun b => PutUint32 b (ack_streamID a));
        let offset := offset + n in
        '(encoded, n) ← on_slice encoded offset (fun b => putOffsetVarint b (ack_offset a) isExtend);
        let offset := offset + n in
        '(encoded, n) ← on_slice encoded offset (fun b => PutUint16 b (ack_len a));
        let offset := offset + n in
        encoded ← set_at encoded offset (EncodeRcvWindow (ack_rcvWnd a));
        mret (encoded, offset + 1)
    | None => mret (encoded, offset)
    end;
  if isEmptyDataHeader then mret (encoded, offset) else
  '(encoded, n) ← on_slice encoded offset (fun b => PutUint32 b (StreamID p));
  let offset := offset + n in
  '(encoded, n) ← on_slice encoded offset (fun b => putOffsetVarint b (StreamOffset p) isExtend);
  let offset := offset + n in
  if userDataLen >? 0 then
    '(encoded, n) ← on_slice encoded offset (fun b => mret (go_copy b (default [] userData)));
    mret (encoded, offset + n)
  else mret (encoded, offset).

Definition DecodePayload (data : bytes) : go (go_error + PayloadHeader * option bytes) :=
  let dataLen := len data in
  if dataLen <? MinProtoSize then mret (inl "payload Size below minimum of 8 bytes"%string) else
  header ← at_ data 0;
  let version := header .& 31 in
  let typeFlag := (header >> TypeFlag) .& 3 in
  let isExtend := negb (header .& (1 << Offset24or48Flag) =? 0) in
  if negb (version =? ProtoVersion) then mret (inl "unsupported protocol version"%string) else
  let isAck := (typeFlag =? 0) || (typeFlag =? 2) in
  let isClose := (typeFlag =? 2) || (typeFlag =? 3) in
  let isEmptyDataHeader := isAck && (dataLen <? 18) in
  let overhead := calcProtoOverhead isAck isExtend isEmptyDataHeader in
  if dataLen <? overhead then mret (inl "payload size below minimum"%string) else
  let offset := 1 in
  '(ack, offset) ←
    (if isAck then
       d ← slice_from data offset; sid ← Uint32 d;
       let offset := offset + 4 in
       d ← slice_from data offset; off ← offsetVarint d isExtend;
       let offset := offset + offsetSize isExtend in
       d ← slice_from data offset; l ← Uint16 d;
       let offset := offset + 2 in
       w ← at_ data offset;
       mret (Some (mkAck sid off l (DecodeRcvWindow w)), offset + 1)
     else mret (None, offset));
  if isEmptyDataHeader then
    mret (inr (mkPayloadHeader isClose ack 0 0, None))
  else
    d ← slice_from data offset; sid ← Uint32 d;
    let offset := offset + 4 in
    d ← slice_from data offset; off ← offsetVarint d isExtend;
    let offset := offset + offsetSize isExtend in
    userData ← (if dataLen >? offset then slice_from data offset else mret []);
    mret (inr (mkPayloadHeader isClose ack sid off, Some userData)).

(** ** Reference layout of the payload *)

Definition is_extend (p : PayloadHeader) : bool :=
  (StreamOffset p >? 0xffffff)
  || match pAck p with Some a => ack_offset a >? 0xffffff | None => false end.

Definition is_ack (p : PayloadHeader) : bool := bool_decide (is_Some (pAck p)).

(** An acknowledgement without a data section. *)
Definition ack_only (p : PayloadHeader) (d : option bytes) : bool :=
  negb (IsClose p) && is_ack p && bool_decide (d = None).

Definition header_byte (p : PayloadHeader) : Z :=
  match IsClose p, is_ack p with
  | true, true => 64 | true, false => 96 | false, true => 0 | false, false => 32
  end + (if is_extend p then 128 else 0).

Definition ack_bytes (ext : bool) (a : Ack) : bytes :=
  le_bytes 4 (ack_streamID a) ++ le_bytes (Z.to_nat (offsetSize ext)) (ack_offset a)
  ++ le_bytes 2 (ack_len a) ++ [EncodeRcvWindow (ack_rcvWnd a)].

Definition data_bytes (ext : bool) (p : PayloadHeader) (d : option bytes) : bytes :=
  le_bytes 4 (StreamID p) ++ le_bytes (Z.to_nat (offsetSize ext)) (StreamOffset p) ++ default [] d.

Definition payload_bytes (p : PayloadHeader) (d : option bytes) : bytes :=
  header_byte p :: match pAck p with Some a => ack_bytes (is_extend p) a | None => [] end
  ++ (if ack_only p d then [] else data_bytes (is_extend p) p d).

(** What the receiver of the payload sees: an acknowledgement-only packet
    carries no stream id and offset, the window is quantised, and any other
    packet has a non-nil (possibly empty) data part. *)
Definition received_ack (a : Ack) : Ack :=
  mkAck (ack_streamID a) (ack_offset a) (ack_len a) (DecodeRcvWindow (EncodeRcvWindow (ack_rcvWnd a))).

Definition received (p : PayloadHeader) (d : option bytes) : PayloadHeader * option bytes :=
  if ack_only p d
  then (mkPayloadHeader (IsClose p) (received_ack <$> pAck p) 0 0, None)
  else (mkPayloadHeader (IsClose p) (received_ack <$> pAck p) (StreamID p) (StreamOffset p),
        Some (default [] d)).

(** Fields in the range of their wire representation. *)
Definition wf_ack (a : Ack) : Prop :=
  is_u32 (ack_streamID a) /\ is_u48 (ack_offset a) /\ is_u16 (ack_len a).

Definition wf_payload (p : PayloadHeader) : Prop :=
  is_u32 (StreamID p) /\ is_u48 (StreamOffset p) /\
  match pAck p with Some a => wf_ack a | None => True end.

#[export] Instance wf_ack_dec a : Decision (wf_ack a).
Proof. unfold wf_ack; apply _. Defined.
#[export] Instance wf_payload_dec p : Decision (wf_payload p).
Proof. unfold wf_payload. destruct (pAck p); apply _. Defined.

(** ** The encoder writes the reference layout *)

(** One write at the end of the filled part of the buffer. *)
Lemma write_field (f : bytes -> go (bytes * Z)) pre bs k off :
  (forall b, (length bs <= length b)%nat -> f b = Ok (bs ++ drop (length bs) b, len bs)) ->
  off = len pre -> (length bs <= k)%nat ->
  on_slice (pre ++ replicate k 0) off f =
    Ok ((pre ++ bs) ++ replicate (k - length bs) 0, len bs).
Proof.
  intros Hf -> Hk. rewrite <- app_assoc. apply on_slice_app; [done|].
  rewrite Hf by (rewrite length_replicate; lia).
  by rewrite drop_replicate.
Qed.

Lemma write_u32 pre v k off : off = len pre -> (4 <= k)%nat ->
  on_slice (pre ++ replicate k 0) off (fun b => PutUint32 b v) =
    Ok ((pre ++ le_bytes 4 v) ++ replicate (k - 4) 0, 4).
Proof. intros. apply (write_field _ _ (le_bytes 4 v)); try done. intros; by apply PutUint32_spec. Qed.

Lemma write_u16 pre v k off : off = len pre -> (2 <= k)%nat ->
  on_slice (pre ++ replicate k 0) off (fun b => PutUint16 b v) =
    Ok ((pre ++ le_bytes 2 v) ++ replicate (k - 2) 0, 2).
Proof. intros. apply (write_field _ _ (le_bytes 2 v)); try done. intros; by apply PutUint16_spec. Qed.

Lemma write_offset pre v ext k off :
  off = len pre -> (Z.to_nat (offsetSize ext) <= k)%nat ->
  on_slice (pre ++ replicate k 0) off (fun b => putOffsetVarint b v ext) =
    Ok ((pre ++ le_bytes (Z.to_nat (offsetSize ext)) v)
        ++ replicate (k - Z.to_nat (offsetSize ext)) 0, offsetSize ext).
Proof.
  intros. destruct ext;
    [apply (write_field _ _ (le_bytes 6 v)) | apply (write_field _ _ (le_bytes 3 v))]; try done;
    intros; [by apply PutUint48_spec | by apply PutUint24_spec].
Qed.

Lemma write_byte pre v k off : off = len pre -> (1 <= k)%nat ->
  set_at (pre ++ replicate k 0) off v = Ok ((pre ++ [v]) ++ replicate (k - 1) 0).
Proof.
  intros Hoff Hk. destruct k; [lia|]. simpl. rewrite set_at_app by done.
  rewrite <- app_assoc. simpl. by rewrite Nat.sub_0_r.
Qed.

Lemma write_data pre d off : off = len pre ->
  on_slice (pre ++ replicate (length d) 0) off (fun b => mret (go_copy b d)) = Ok (pre ++ d, len d).
Proof.
  intros. apply on_slice_app; [done|]. unfold go_copy. rewrite length_replicate, Nat.min_id.
  rewrite take_ge by done. by rewrite drop_ge, app_nil_r by (by rewrite length_replicate).
Qed.

Ltac lens := repeat (rewrite ?length_app, ?length_le_bytes; cbn [length app]).

Lemma header_byte_eq p :
  (let header := u8 (ProtoVersion .| header_type (IsClose p) (is_ack p)) in
   if is_extend p then u8 (header .| (1 << Offset24or48Flag)) else header) = header_byte p.
Proof. unfold header_byte. by destruct (IsClose p), (is_ack p), (is_extend p). Qed.

Lemma calcProtoOverhead_bytes p d :
  calcProtoOverhead (is_ack p) (is_extend p) (ack_only p d) + len (default [] d)
  = len (payload_bytes p d).
Proof.
  unfold payload_bytes, ack_bytes, data_bytes, calcProtoOverhead, ack_only, is_ack.
  destruct (pAck p); destruct (IsClose p); destruct d; destruct (is_extend p); simpl; lens; lia.
Qed.

(** The acknowledgement section of the encoder. *)
Lemma write_ack_spec pre a ext k :
  (length (ack_bytes ext a) <= k)%nat ->
  ('(encoded, n) ← on_slice (pre ++ replicate k 0) (len pre) (fun b => PutUint32 b (ack_streamID a));
   let offset := len pre + n in
   '(encoded, n) ← on_slice encoded offset (fun b => putOffsetVarint b (ack_offset a) ext);
   let offset := offset + n in
   '(encoded, n) ← on_slice encoded offset (fun b => PutUint16 b (ack_len a));
   let offset := offset + n in
   encoded ← set_at encoded offset (EncodeRcvWindow (ack_rcvWnd a));
   mret (encoded, offset + 1)) =
  Ok ((pre ++ ack_bytes ext a) ++ replicate (k - length (ack_bytes ext a)) 0,
      len pre + len (ack_bytes ext a)).
Proof.
  unfold ack_bytes. lens. intros Hk.
  assert (offsetSize ext = Z.of_nat (Z.to_nat (offsetSize ext))) as Hext by by destruct ext.
  rewrite write_u32 by lia. cbn [mbind go_bind].
  rewrite write_offset by (lens; lia). cbn [mbind go_bind].
  rewrite write_u16 by (lens; lia). cbn [mbind go_bind].
  rewrite write_byte by (lens; lia). cbn [mbind go_bind].
  rewrite <- !app_assoc. do 2 f_equal; [|lia]. do 5 f_equal. f_equal. lia.
Qed.

(** The data section of the encoder. *)
Lemma write_data_spec pre p ext (d : option bytes) :
  ('(encoded, n) ← on_slice (pre ++ replicate (length (data_bytes ext p d)) 0) (len pre)
                     (fun b => PutUint32 b (StreamID p));
   let offset := len pre + n in
   '(encoded, n) ← on_slice encoded offset (fun b => putOffsetVarint b (StreamOffset p) ext);
   let offset := offset + n in
   if len (default [] d) >? 0 then
     '(encoded, n) ← on_slice encoded offset (fun b => mret (go_copy b (default [] d)));
     mret (encoded, offset + n)
   else mret (encoded, offset)) =
  Ok (pre ++ data_bytes ext p d, len pre + len (data_bytes ext p d)).
Proof.
  unfold data_bytes. set (u := default [] d). lens.
  assert (offsetSize ext = Z.of_nat (Z.to_nat (offsetSize ext))) as Hext by by destruct ext.
  rewrite write_u32 by lia. cbn [mbind go_bind].
  rewrite write_offset by (lens; lia). cbn [mbind go_bind].
  replace (4 + (Z.to_nat (offsetSize ext) + length u) - 4 - Z.to_nat (offsetSize ext))%nat
    with (length u) by lia.
  destruct (Z.gtb_spec (len u) 0) as [Hu|Hu].
  - rewrite write_data by (lens; lia). cbn [mbind go_bind].
    rewrite <- !app_assoc. do 2 f_equal. lia.
  - destruct u; [|simpl in Hu; lia]. simpl. rewrite <- !app_assoc, !app_nil_r. do 2 f_equal. lia.
Qed.

Lemma EncodePayload_spec p d :
  EncodePayload p d = Ok (payload_bytes p d, len (payload_bytes p d)).
Proof.
  unfold EncodePayload. fold (is_extend p) (is_ack p). fold (ack_only p d).
  rewrite header_byte_eq, calcProtoOverhead_bytes, Nat2Z.id.
  set (tl := if ack_only p d then [] else data_bytes (is_extend p) p d).
  set (al := match pAck p with Some a => ack_bytes (is_extend p) a | None => [] end).
  assert (payload_bytes p d = header_byte p :: al ++ tl) as -> by reflexivity.
  change (replicate ?n 0) with ([] ++ replicate n 0).
  rewrite write_byte by (simpl; lia). cbn [mbind go_bind].
  match goal with |- (?X ≫= _) = _ =>
    assert (X = Ok ((header_byte p :: al) ++ replicate (length tl) 0, len (header_byte p :: al))) as ->
  end.
  { subst al. destruct (pAck p) as [a|]; [|simpl; by rewrite Nat.sub_0_r].
    etrans; [apply (write_ack_spec [header_byte p]); cbn [length]; rewrite length_app; lia|].
    cbn [length app]. rewrite length_app. do 3 f_equal; [do 2 f_equal; lia | lia]. }
  cbn [mbind go_bind]. subst tl. destruct (ack_only p d).
  - by rewrite !app_nil_r.
  - etrans; [apply (write_data_spec (header_byte p :: al))|]. do 2 f_equal. rewrite app_comm_cons, length_app. lia.
Qed.

(** ** The decoder reads the reference layout *)

Lemma slice_from_eq {A} (l1 l2 l : list A) i :
  l = l1 ++ l2 -> i = len l1 -> slice_from l i = Ok l2.
Proof. intros ->. apply slice_from_app. Qed.

Lemma at_eq {A} (l1 : list A) x l2 l i : l = l1 ++ [x] ++ l2 -> i = len l1 -> at_ l i = Ok x.
Proof. intros ->. apply at_app. Qed.

(** The acknowledgement section of the decoder. *)
Lemma read_ack_spec pre a ext rest :
  is_u32 (ack_streamID a) -> 0 <= ack_offset a < 2 ^ offset_bits ext -> is_u16 (ack_len a) ->
  (let data := pre ++ ack_bytes ext a ++ rest in
   let offset := len pre in
   d ← slice_from data offset; sid ← Uint32 d;
   let offset := offset + 4 in
   d ← slice_from data offset; off ← offsetVarint d ext;
   let offset := offset + offsetSize ext in
   d ← slice_from data offset; l ← Uint16 d;
   let offset := offset + 2 in
   w ← at_ data offset;
   mret (Some (mkAck sid off l (DecodeRcvWindow w)), offset + 1)) =
  Ok (Some (received_ack a), len pre + len (ack_bytes ext a)).
Proof.
  intros Hs Ho Hl. unfold ack_bytes. rewrite <- !app_assoc.
  assert (offsetSize ext = Z.of_nat (Z.to_nat (offsetSize ext))) as Hext by by destruct ext.
  set (b1 := le_bytes 4 _). set (b2 := le_bytes (Z.to_nat _) _). set (b3 := le_bytes 2 _).
  assert (length b1 = 4%nat /\ length b2 = Z.to_nat (offsetSize ext) /\ length b3 = 2%nat)
    as (L1 & L2 & L3) by (subst b1 b2 b3; by rewrite !length_le_bytes).
  assert (forall r, Uint32 (b1 ++ r) = Ok (ack_streamID a mod 2 ^ 32)) as R1 by apply Uint32_le.
  assert (forall r, offsetVarint (b2 ++ r) ext = Ok (ack_offset a mod 2 ^ offset_bits ext)) as R2
    by (intros; apply offsetVarint_le).
  assert (forall r, Uint16 (b3 ++ r) = Ok (ack_len a mod 2 ^ 16)) as R3 by apply Uint16_le.
  clearbody b1 b2 b3.
  rewrite (slice_from_eq pre (b1 ++ b2 ++ b3 ++ [EncodeRcvWindow (ack_rcvWnd a)] ++ rest) _ (len pre)) by done.
  cbn [mbind go_bind]. rewrite R1. cbn [mbind go_bind].
  rewrite (slice_from_eq (pre ++ b1) (b2 ++ b3 ++ [EncodeRcvWindow (ack_rcvWnd a)] ++ rest) _ (len pre + 4))
    by (rewrite <- ?app_assoc, ?length_app; first [done | lia]).
  cbn [mbind go_bind]. rewrite R2. cbn [mbind go_bind].
  rewrite (slice_from_eq (pre ++ b1 ++ b2) (b3 ++ [EncodeRcvWindow (ack_rcvWnd a)] ++ rest) _ (len pre + 4 + offsetSize ext))
    by (rewrite <- ?app_assoc, ?length_app; first [done | lia]).
  cbn [mbind go_bind]. rewrite R3. cbn [mbind go_bind].
  rewrite (at_eq (pre ++ b1 ++ b2 ++ b3) (EncodeRcvWindow (ack_rcvWnd a)) rest)
    by (rewrite <- ?app_assoc, ?length_app; first [done | lia]).
  cbn [mbind go_bind]. unfold received_ack, mret, go_ret.
  rewrite !Z.mod_small by (widths; done). do 2 f_equal. rewrite !length_app. simpl. lia.
Qed.

(** The data section of the decoder. *)
Lemma read_data_spec {R} pre p (d : option bytes) ext (k : Z -> Z -> bytes -> go R) :
  is_u32 (StreamID p) -> 0 <= StreamOffset p < 2 ^ offset_bits ext ->
  (let data := pre ++ data_bytes ext p d in
   let offset := len pre in
   d ← slice_from data offset; sid ← Uint32 d;
   let offset := offset + 4 in
   d ← slice_from data offset; off ← offsetVarint d ext;
   let offset := offset + offsetSize ext in
   userData ← (if len data >? offset then slice_from data offset else mret []);
   k sid off userData) =
  k (StreamID p) (StreamOffset p) (default [] d).
Proof.
  intros Hs Ho. unfold data_bytes. set (u := default [] d).
  assert (offsetSize ext = Z.of_nat (Z.to_nat (offsetSize ext))) as Hext by by destruct ext.
  set (b1 := le_bytes 4 _). set (b2 := le_bytes (Z.to_nat _) _).
  assert (length b1 = 4%nat /\ length b2 = Z.to_nat (offsetSize ext))
    as (L1 & L2) by (subst b1 b2; by rewrite !length_le_bytes).
  assert (forall r, Uint32 (b1 ++ r) = Ok (StreamID p mod 2 ^ 32)) as R1 by apply Uint32_le.
  assert (forall r, offsetVarint (b2 ++ r) ext = Ok (StreamOffset p mod 2 ^ offset_bits ext)) as R2
    by (intros; apply offsetVarint_le).
  clearbody b1 b2.
  rewrite (slice_from_eq pre (b1 ++ b2 ++ u) _ (len pre)) by done.
  cbn [mbind go_bind]. rewrite R1. cbn [mbind go_bind].
  rewrite (slice_from_eq (pre ++ b1) (b2 ++ u) _ (len pre + 4))
    by (rewrite <- ?app_assoc, ?length_app; first [done | lia]).
  cbn [mbind go_bind]. rewrite R2. cbn [mbind go_bind].
  rewrite !Z.mod_small by (widths; done).
  destruct (Z.gtb_spec (len (pre ++ b1 ++ b2 ++ u)) (len pre + 4 + offsetSize ext)) as [Hu|Hu].
  - rewrite (slice_from_eq (pre ++ b1 ++ b2) u _ (len pre + 4 + offsetSize ext))
      by (rewrite <- ?app_assoc, ?length_app; first [done | lia]). done.
  - rewrite !length_app in Hu. destruct u; [done|]. simpl in Hu. lia.
Qed.

(** The decoder recovers the flags from the header byte. *)
Lemma header_byte_decode p :
  header_byte p .& 31 = 0 /\
  negb (header_byte p .& (1 << Offset24or48Flag) =? 0) = is_extend p /\
  (let t := (header_byte p >> TypeFlag) .& 3 in
   (t =? 0) || (t =? 2) = is_ack p /\ (t =? 2) || (t =? 3) = IsClose p).
Proof. unfold header_byte. by destruct (IsClose p), (is_ack p), (is_extend p). Qed.

(** With an acknowledgement present, the length tells whether there is a data
    section. *)
Lemma ack_only_length p d :
  is_ack p && (len (payload_bytes p d) <? 18) = ack_only p d.
Proof.
  rewrite <- calcProtoOverhead_bytes. unfold calcProtoOverhead, ack_only, is_ack.
  destruct (pAck p), (IsClose p), d as [u|], (is_extend p); simpl; try done;
    apply Z.ltb_ge; lia.
Qed.

Lemma payload_bytes_length p d : 8 <= len (payload_bytes p d).
Proof.
  rewrite <- calcProtoOverhead_bytes. unfold calcProtoOverhead, ack_only, is_ack.
  destruct (pAck p), (IsClose p), d as [u|], (is_extend p); simpl; lia.
Qed.

Lemma is_extend_offset p : is_u48 (StreamOffset p) -> 0 <= StreamOffset p < 2 ^ offset_bits (is_extend p).
Proof.
  unfold is_extend, is_u48. destruct (Z.gtb_spec (StreamOffset p) 0xffffff); simpl; [lia|].
  destruct (match pAck p with Some a => ack_offset a >? 0xffffff | None => false end); simpl; lia.
Qed.

Lemma is_extend_ack p a :
  pAck p = Some a -> is_u48 (ack_offset a) -> 0 <= ack_offset a < 2 ^ offset_bits (is_extend p).
Proof.
  unfold is_extend, is_u48. intros ->. destruct (Z.gtb_spec (ack_offset a) 0xffffff);
    rewrite ?orb_true_r, ?orb_false_r; simpl; [lia|]. destruct (_ >? _); simpl; lia.
Qed.

Lemma DecodePayload_spec p d :
  wf_payload p -> DecodePayload (payload_bytes p d) = Ok (inr (received p d)).
Proof.
  intros (Hs & Ho & Hack). unfold DecodePayload.
  pose proof (payload_bytes_length p d) as Hlen.
  destruct (Z.ltb_spec (len (payload_bytes p d)) MinProtoSize) as [H|_]; [unfold MinProtoSize in H; lia|].
  change (at_ (payload_bytes p d) 0) with (Ok (header_byte p)). cbn [mbind go_bind].
  destruct (header_byte_decode p) as (-> & -> & -> & ->). cbn [negb Z.eqb ProtoVersion].
  rewrite ack_only_length.
  destruct (Z.ltb_spec (len (payload_bytes p d)) (calcProtoOverhead (is_ack p) (is_extend p) (ack_only p d)))
    as [H|_]; [rewrite <- calcProtoOverhead_bytes in H; lia|].
  set (al := match pAck p with Some a => ack_bytes (is_extend p) a | None => [] end).
  match goal with |- (?X ≫= _) = _ =>
    assert (X = Ok (received_ack <$> pAck p, len (header_byte p :: al))) as ->
  end.
  { subst al. unfold payload_bytes, is_ack. destruct (pAck p) as [a|] eqn:Ha; [|done].
    destruct Hack as (? & ? & ?).
    etrans; [apply (read_ack_spec [header_byte p]); eauto using is_extend_ack|].
    do 2 f_equal. cbn [length]. lia. }
  cbn [mbind go_bind]. unfold received.
  destruct (ack_only p d) eqn:Hao; [done|].
  unfold payload_bytes. fold al. rewrite Hao, app_comm_cons.
  apply (read_data_spec (header_byte p :: al) p d (is_extend p)
    (fun sid off u => Ok (inr (mkPayloadHeader (IsClose p) (received_ack <$> pAck p) sid off, Some u))) Hs).
  by apply is_extend_offset.
Qed.

(** ** The decoder on arbitrary input *)

Lemma calcProtoOverhead_parts isAck ext emp :
  calcProtoOverhead isAck ext emp =
    1 + (if isAck then 7 + offsetSize ext else 0) + (if emp then 0 else 4 + offsetSize ext).
Proof. by destruct isAck, ext, emp. Qed.

(** Advance the decoder by one read of known success. *)
Ltac read_total :=
  first
  [ rewrite slice_from_Ok by lia
  | lazymatch goal with
    | |- context [Uint32 ?b ≫= _] => destruct (Uint32_total b) as (? & -> & ?)
    | |- context [Uint16 ?b ≫= _] => destruct (Uint16_total b) as (? & -> & ?)
    | |- context [offsetVarint ?b ?e ≫= _] => destruct (offsetVarint_total b e) as (? & -> & ?)
    end; [rewrite length_drop; lia | by apply Forall_drop |] ];
  cbn [mbind go_bind].

Lemma DecodePayload_total data :
  Forall is_u8 data ->
  exists r, DecodePayload data = Ok r /\ match r with inr (p, _) => wf_payload p | inl _ => True end.
Proof.
  intros H8. unfold DecodePayload. case_match; [by eexists|].
  destruct data as [|h data]; [done|]. change (at_ (h :: data) 0) with (Ok h). cbn [mbind go_bind].
  destruct (negb _); [by eexists|].
  set (isAck := _ || _). set (ext := negb _). set (emp := isAck && _). set (cl := _ || _).
  destruct (Z.ltb_spec (len (h :: data)) (calcProtoOverhead isAck ext emp)) as [|Hlen]; [by eexists|].
  rewrite calcProtoOverhead_parts in Hlen. set (buf := h :: data) in *. clearbody buf ext emp cl isAck.
  assert (0 <= offsetSize ext) as Hext by by destruct ext.
  assert (0 <= if emp then 0 else 4 + offsetSize ext) as Hemp by (destruct emp; lia).
  match goal with |- exists r, (?X ≫= _) = _ /\ _ =>
    assert (exists oa, X = Ok (oa, 1 + (if isAck then 7 + offsetSize ext else 0)) /\
              match oa with Some a => wf_ack a | None => True end) as (oa & -> & Hoa)
  end.
  { destruct isAck; [|by eexists]. do 6 read_total.
    destruct (lookup_lt_is_Some_2 buf (Z.to_nat (1 + 4 + offsetSize ext + 2))) as [w Hw]; [lia|].
    rewrite (at_Ok _ _ w) by (done || lia). cbn [mbind go_bind]. eexists.
    split; [unfold mret, go_ret; do 2 f_equal; lia | unfold wf_ack; auto]. }
  cbn [mbind go_bind]. destruct emp.
  { eexists. split; [done|]. unfold wf_payload; simpl; auto with qotp. }
  set (o := 1 + _) in *. assert (0 <= o) by (subst o; destruct isAck; lia). clearbody o.
  do 5 read_total. destruct (_ >? _); cbn [mbind go_bind mret go_ret];
    eexists; (split; [done|]); unfold wf_payload; auto.
Qed.

(** ** Receive-window compression *)

(** The leading four bits of [x], a number from 8 to 15. *)
Definition lead4 (x : Z) : Z := x / 2 ^ (Z.log2 x - 3).

Lemma lead4_bounds x :
  256 <= x -> 8 <= Z.log2 x /\ 8 <= lead4 x < 16 /\
  lead4 x * 2 ^ (Z.log2 x - 3) <= x < (lead4 x + 1) * 2 ^ (Z.log2 x - 3).
Proof.
  intros Hx. assert (8 <= Z.log2 x) as Hh by (change 8 with (Z.log2 256); by apply Z.log2_le_mono).
  destruct (Z.log2_spec x) as [H1 H2]; [lia|]. unfold lead4. set (h := Z.log2 x) in *.
  assert (0 < 2 ^ (h - 3)) by (apply Z.pow_pos_nonneg; lia).
  assert (2 ^ h = 8 * 2 ^ (h - 3)) as E1
    by (change 8 with (2 ^ 3); rewrite <- Z.pow_add_r by lia; f_equal; lia).
  rewrite Z.pow_succ_r in H2 by lia.
  split; [done|]. split; [split|].
  - apply Z.div_le_lower_bound; lia.
  - apply Z.div_lt_upper_bound; lia.
  - pose proof (Z.div_mod x (2 ^ (h - 3))). pose proof (Z.mod_pos_bound x (2 ^ (h - 3))). lia.
Qed.

Lemma EncodeRcvWindow_large x :
  256 <= x -> EncodeRcvWindow x = Z.min 255 (8 * Z.log2 x + lead4 x - 70).
Proof.
  intros Hx. destruct (lead4_bounds x Hx) as (Hh & Hl & _). unfold EncodeRcvWindow.
  destruct (Z.eqb_spec x 0); [lia|]. destruct (Z.leb_spec x 255); [lia|].
  rewrite shiftr_div by lia. fold (lead4 x). change 7 with (Z.ones 3). rewrite Z.land_ones by lia.
  replace (lead4 x mod 2 ^ 3) with (lead4 x - 8)
    by (change (2 ^ 3) with 8; Z.div_mod_to_equations; lia).
  destruct (Z.gtb_spec ((Z.log2 x - 8) * 8 + (lead4 x - 8) + 2) 255); [lia|].
  unfold u8. change (2 ^ 8) with 256. rewrite Z.mod_small by lia. lia.
Qed.

Lemma DecodeRcvWindow_small h q :
  8 <= h -> 8 <= q < 16 -> 8 * h + q - 70 <= 255 ->
  DecodeRcvWindow (8 * h + q - 70) = q * 2 ^ (h - 3).
Proof.
  intros Hh Hq He. unfold DecodeRcvWindow.
  destruct (Z.eqb_spec (8 * h + q - 70) 0); [lia|]. destruct (Z.eqb_spec (8 * h + q - 70) 1); [lia|].
  assert (u8 (8 * h + q - 70 - 2) = 8 * (h - 8) + (q - 8)) as ->
    by (unfold u8; change (2 ^ 8) with 256; rewrite Z.mod_small; lia).
  assert ((8 * (h - 8) + (q - 8)) / 8 + 8 = h) as -> by (Z.div_mod_to_equations; lia).
  assert ((8 * (h - 8) + (q - 8)) mod 8 = q - 8) as -> by (Z.div_mod_to_equations; lia).
  assert (2 ^ h = 8 * 2 ^ (h - 3)) as E1
    by (change 8 with (2 ^ 3); rewrite <- Z.pow_add_r by lia; f_equal; lia).
  assert (0 < 2 ^ (h - 3) <= 2 ^ 36) by (split; [apply Z.pow_pos_nonneg | apply Z.pow_le_mono_r]; lia).
  rewrite Z.shiftl_mul_pow2, Z.mul_1_l by lia. unfold u64. rewrite (Z.mod_small (2 ^ h)) by lia.
  replace (2 ^ h / 8) with (2 ^ (h - 3)) by (rewrite E1, Z.mul_comm, Z.div_mul; lia).
  rewrite (Z.mod_small (_ * _)) by nia. rewrite Z.mod_small by nia. lia.
Qed.

Lemma rcv_window_lossy x :
  256 <= x -> let d := DecodeRcvWindow (EncodeRcvWindow x) in
  d <= x /\ (x < 7 * 2 ^ 37 -> 8 * (x - d) < d).
Proof.
  intros Hx. destruct (lead4_bounds x Hx) as (Hh & Hl & Hb). rewrite EncodeRcvWindow_large by done.
  set (h := Z.log2 x) in *. set (q := lead4 x) in *.
  assert (0 < 2 ^ (h - 3)) by (apply Z.pow_pos_nonneg; lia).
  destruct (decide (8 * h + q - 70 <= 255)) as [He|He].
  - rewrite Z.min_r by lia. rewrite DecodeRcvWindow_small by lia. simpl. nia.
  - rewrite Z.min_l by lia. change (DecodeRcvWindow 255) with (13 * 2 ^ 36). simpl.
    assert (7 * 2 ^ 37 <= x); [|lia].
    destruct (decide (h = 39)) as [E|].
    + rewrite E in *. change (39 - 3) with 36 in *. lia.
    + assert (2 ^ 37 <= 2 ^ (h - 3)) by (apply Z.pow_le_mono_r; lia). nia.
Qed.

Lemma EncodeRcvWindow_mono x y : 0 <= x <= y -> EncodeRcvWindow x <= EncodeRcvWindow y.
Proof.
  intros [Hx Hxy]. destruct (decide (256 <= x)) as [H|H].
  - rewrite !EncodeRcvWindow_large by lia.
    destruct (lead4_bounds x) as (? & Hlx & _); [lia|]. destruct (lead4_bounds y) as (? & Hly & _); [lia|].
    pose proof (Z.log2_le_mono x y Hxy). destruct (decide (Z.log2 x = Z.log2 y)) as [E|]; [|lia].
    assert (lead4 x <= lead4 y); [|lia]. unfold lead4. rewrite E.
    apply Z.div_le_mono; [apply Z.pow_pos_nonneg; lia | done].
  - destruct (decide (256 <= y)) as [H'|H'].
    + rewrite (EncodeRcvWindow_large y) by done. destruct (lead4_bounds y) as (? & Hly & _); [lia|].
      unfold EncodeRcvWindow. destruct (x =? 0); [lia|]. destruct (Z.leb_spec x 255); lia.
    + unfold EncodeRcvWindow. destruct (Z.eqb_spec x 0), (Z.eqb_spec y 0); try lia;
        destruct (Z.leb_spec x 255), (Z.leb_spec y 255); lia.
Qed.

Lemma EncodeDecode_window : Forall (fun e => EncodeRcvWindow (DecodeRcvWindow e) = e) (seqZ 0 256).
Proof. compute_done. Qed.

(** ** Properties *)

(** C30. Payload round trip: for every header whose fields fit their wire
    widths and every user data, [EncodePayload] does not panic, reports the
    length it wrote, fills its buffer exactly, and [DecodePayload] of the bytes
    returns the header with the receive window quantised; an acknowledgement
    without data loses its (unused) stream id and offset, and nil data of any
    other packet is received as empty. *)
Theorem payload_roundtrip (p : PayloadHeader) (d : option bytes) :
  wf_payload p ->
  exists b, EncodePayload p d = Ok (b, len b) /\
    len b = calcProtoOverhead (is_ack p) (is_extend p) (ack_only p d) + len (default [] d) /\
    DecodePayload b = Ok (inr (received p d)).
Proof.
  intros Hp. exists (payload_bytes p d).
  rewrite calcProtoOverhead_bytes. auto using EncodePayload_spec, DecodePayload_spec.
Qed.

Lemma payload_roundtrip_witness :
  let p := mkPayloadHeader true (Some (mkAck 3 0x1000000 9 1000)) 1 5 in
  exists b, EncodePayload p (Some [7; 8]) = Ok (b, 26) /\
    DecodePayload b =
      Ok (inr (mkPayloadHeader true (Some (mkAck 3 0x1000000 9 960)) 1 5, Some [7; 8])).
Proof.
  destruct (payload_roundtrip (mkPayloadHeader true (Some (mkAck 3 0x1000000 9 1000)) 1 5)
    (Some [7; 8])) as (b & He & Hl & Hd); [compute_done|].
  exists b. rewrite He, Hl, Hd. split; vm_compute; reflexivity.
Defined.

(** C31. The payload parser is total on untrusted input: on any byte
    sequence [DecodePayload] returns (a header or an error, never an index
    panic), and an accepted header has every field in the range of its type. *)
Theorem payload_decode_total (data : bytes) :
  Forall is_u8 data ->
  exists r, DecodePayload data = Ok r /\ match r with inr (p, _) => wf_payload p | inl _ => True end.
Proof. apply DecodePayload_total. Qed.

Lemma payload_decode_total_witness :
  exists r, DecodePayload [128; 1; 2; 3; 4; 5; 6; 7; 8; 9; 10; 11; 12; 13] = Ok r /\
    match r with inr (p, _) => wf_payload p | inl _ => True end.
Proof.
  apply (payload_decode_total [128; 1; 2; 3; 4; 5; 6; 7; 8; 9; 10; 11; 12; 13]).
  compute_done.
Defined.

(** C40. The compressed receive window is a byte and is monotone; from 128 bytes
    on it never advertises more than the actual window, and below 896 GiB (from
    256 bytes on) it loses less than an eighth of the advertised value; every
    code is its own re-encoding.  Below 128 bytes the code 1 stands for 128. *)
Theorem rcv_window_compression (x : Z) :
  is_u64 x ->
  is_u8 (EncodeRcvWindow x) /\
  (forall y, is_u64 y -> x <= y -> EncodeRcvWindow x <= EncodeRcvWindow y) /\
  (128 <= x -> DecodeRcvWindow (EncodeRcvWindow x) <= x) /\
  (256 <= x < 7 * 2 ^ 37 ->
     8 * (x - DecodeRcvWindow (EncodeRcvWindow x)) < DecodeRcvWindow (EncodeRcvWindow x)) /\
  (0 < x < 128 -> DecodeRcvWindow (EncodeRcvWindow x) = 128) /\
  (forall e, is_u8 e -> EncodeRcvWindow (DecodeRcvWindow e) = e).
Proof.
  intros Hx. unfold is_u64 in *.
  assert (x < 256 -> EncodeRcvWindow x = if x =? 0 then 0 else 1) as Hsmall.
  { intros. unfold EncodeRcvWindow. destruct (x =? 0); [done|]. destruct (Z.leb_spec x 255); lia. }
  split_and!.
  - assert (EncodeRcvWindow 0 <= EncodeRcvWindow x) by (apply EncodeRcvWindow_mono; lia).
    change (EncodeRcvWindow 0) with 0 in *. unfold is_u8.
    destruct (decide (256 <= x)); [rewrite EncodeRcvWindow_large in * by done; lia|].
    rewrite Hsmall in * by lia. case_match; lia.
  - intros y _ Hxy. apply EncodeRcvWindow_mono. lia.
  - intros. destruct (decide (256 <= x)); [by apply rcv_window_lossy|].
    rewrite Hsmall by lia. destruct (Z.eqb_spec x 0); [lia|]. change (DecodeRcvWindow 1) with 128. lia.
  - intros []. by apply rcv_window_lossy.
  - intros. rewrite Hsmall by lia. destruct (Z.eqb_spec x 0); [lia|]. done.
  - intros e He. pose proof EncodeDecode_window as H. rewrite Forall_forall in H.
    apply H, elem_of_seqZ. unfold is_u8 in He. lia.
Qed.

Lemma rcv_window_compression_witness :
  DecodeRcvWindow (EncodeRcvWindow 1000) <= 1000 /\
  8 * (1000 - DecodeRcvWindow (EncodeRcvWindow 1000)) < DecodeRcvWindow (EncodeRcvWindow 1000).
Proof.
  destruct (rcv_window_compression 1000 ltac:(compute_done)) as (_ & _ & H1 & H2 & _).
  split; [apply H1 | apply H2]; lia.
Defined.
