(* ===== verification/Measurement.v ===== *)
(** * Measurement: RTT estimation, BBR gains, RTO and pacing of
    src/measurement.go

    The embedded [Measurements] of a connection and the methods of [Conn] that
    read and write only it.  All arithmetic is [uint64] with its wrap-around
    written out.  In the reachable states all of it agrees with the integers
    ([estimate] below), apart from two operations: the counter of samples that
    did not raise the bandwidth wraps after 2^64 of them, and the time since the
    last probe wraps when the clock has gone back behind it
    ([clock_back_probes]). *)

From stdpp Require Import prelude list numbers strings relations.
From S2P Require Import Prelude.

Local Open Scope Z_scope.

(** ** The code *)

Definition secondNano : Z := 1000000000.
Definition msNano : Z := 1000000.

Definition defaultRTO : Z := 200 * msNano.
Definition minRTO : Z := 100 * msNano.
Definition maxRTO : Z := 2000 * msNano.
Definition rttExpiry : Z := 10 * secondNano.
Definition probeMultiplier : Z := 8.
Definition startupGain : Z := 277.
Definition normalGain : Z := 100.
Definition drainGain : Z := 75.
Definition probeGain : Z := 125.
Definition bwDecThreshold : Z := 3.
Definition dupAckBwReduction : Z := 98.
Definition dupAckGain : Z := 90.
Definition lossBwReduction : Z := 95.
Definition fallbackInterval : Z := 10 * msNano.
Definition rttDivisor : Z := 10.
Definition rttInflationHigh : Z := 150.
Definition rttInflationModerate : Z := 125.
Definition MinDeadLine : Z := 100 * msNano.
Definition ReadDeadLine : Z := 30 * secondNano.
Definition maxRetry : Z := 5.
Definition rtoBackoffPct : Z := 200.

Definition MaxUint64 : Z := 2 ^ 64 - 1.

Record Measurements := mkMeasurements {
  srtt : Z;
  rttvar : Z;
  isStartup : bool;
  rttMinNano : Z;
  rttMinTimeNano : Z;
  bwMax : Z;
  bwDec : Z;
  lastProbeTimeNano : Z;
  pacingGainPct : Z;
  lastReadTimeNano : Z;
}.

Definition NewMeasurements : Measurements :=
  mkMeasurements 0 0 true MaxUint64 MaxUint64 0 0 0 startupGain 0.

(** The smoothed RTT and its variation. *)
Definition updateRtt (c : Measurements) (rtt : Z) : Z * Z :=
  if srtt c =? 0 then (rtt, rtt / 2)
  else
    let delta := if rtt >? srtt c then u64 (rtt - srtt c) else u64 (srtt c - rtt) in
    (u64 (u64 (srtt c * 7) / 8 + u64 (rtt * 1) / 8),
     u64 (u64 (rttvar c * 3) / 4 + u64 (delta * 1) / 4)).

(** The minimum RTT and the time it was observed. *)
Definition updateRttMin (c : Measurements) (rtt now : Z) : Z * Z :=
  if ((now >? rttMinTimeNano c) && (u64 (now - rttMinTimeNano c) >=? rttExpiry))
     || (rtt <? rttMinNano c)
  then (rtt, now) else (rttMinNano c, rttMinTimeNano c).

Definition updateMeasurements (c : Measurements) (rtt bytesAcked now : Z) : go Measurements :=
  if rtt =? 0 then mret c else
  if bytesAcked =? 0 then mret c else
  if rtt >? ReadDeadLine then mret c else
  if now =? 0 then mret c else
  let '(srtt', rttvar') := updateRtt c rtt in
  let '(rttMin', rttMinTime') := updateRttMin c rtt now in
  bwCurrent ← (if rttMin' >? 0 then go_div (u64 (bytesAcked * 1000000000)) rttMin' else mret 0);
  let '(bwMax', bwDec') :=
    if bwCurrent >? bwMax c then (bwCurrent, 0) else (bwMax c, u64 (bwDec c + 1)) in
  let lastProbe := if lastProbeTimeNano c =? 0 then now else lastProbeTimeNano c in
  if isStartup c then
    let '(startup', gain') :=
      if bwDec' >=? bwDecThreshold then (false, normalGain) else (true, pacingGainPct c) in
    mret (mkMeasurements srtt' rttvar' startup' rttMin' rttMinTime' bwMax' bwDec' lastProbe gain'
            (lastReadTimeNano c))
  else
    rttRatioPct ← go_div (u64 (srtt' * 100)) rttMin';
    let '(gain', lastProbe') :=
      if rttRatioPct >? rttInflationHigh then (drainGain, lastProbe)
      else if rttRatioPct >? rttInflationModerate then (dupAckGain, lastProbe)
      else if u64 (now - lastProbe) >? u64 (rttMin' * probeMultiplier) then (probeGain, now)
      else (normalGain, lastProbe) in
    mret (mkMeasurements srtt' rttvar' false rttMin' rttMinTime' bwMax' bwDec' lastProbe' gain'
            (lastReadTimeNano c)).

Definition rtoNano (c : Measurements) : Z :=
  let rto := u64 (srtt c + u64 (4 * rttvar c)) in
  if rto =? 0 then defaultRTO
  else if rto <? minRTO then minRTO
  else if rto >? maxRTO then maxRTO
  else rto.

Definition onDuplicateAck (c : Measurements) : Measurements :=
  mkMeasurements (srtt c) (rttvar c) false (rttMinNano c) (rttMinTimeNano c)
    (u64 (bwMax c * dupAckBwReduction) / 100) (bwDec c) (lastProbeTimeNano c) dupAckGain
    (lastReadTimeNano c).

Definition onPacketLoss (c : Measurements) : Measurements :=
  mkMeasurements (srtt c) (rttvar c) false (rttMinNano c) (rttMinTimeNano c)
    (u64 (bwMax c * lossBwReduction) / 100) (bwDec c) (lastProbeTimeNano c) normalGain
    (lastReadTimeNano c).

Definition calcPacing (c : Measurements) (packetSize : Z) : go Z :=
  if bwMax c =? 0 then
    if srtt c >? 0 then mret (srtt c / rttDivisor) else mret fallbackInterval
  else
    let adjustedBandwidth := u64 (bwMax c * pacingGainPct c) / 100 in
    if adjustedBandwidth =? 0 then mret fallbackInterval
    else go_div (u64 (packetSize * 1000000000)) adjustedBandwidth.

Definition backoff_step (rto : Z) : Z := u64 (rto * rtoBackoffPct) / 100.

Definition backoff (rto rtoNr : Z) : go_error + Z :=
  if rtoNr <=? 0 then inl "backoff requires a positive rto number"%string
  else if rtoNr >? maxRetry then inl "max retry attempts exceeded limit"%string
  else inr (Nat.iter (Z.to_nat (rtoNr - 1)) backoff_step rto).

(** ** Reachable states *)

(** The largest bandwidth estimate: a 16-bit acknowledged length over 1 ns. *)
Definition bwBound : Z := 65535 * secondNano.

Definition gains : list Z := [startupGain; normalGain; drainGain; probeGain; dupAckGain].

Record meas_inv (c : Measurements) : Prop := {
  inv_srtt : 0 <= srtt c <= ReadDeadLine;
  inv_rttvar : 0 <= rttvar c <= ReadDeadLine;
  inv_rttMin : 0 < rttMinNano c <= MaxUint64;
  inv_rttMinTime : is_u64 (rttMinTimeNano c);
  inv_bwMax : 0 <= bwMax c <= bwBound;
  inv_bwDec : is_u64 (bwDec c);
  inv_probe : is_u64 (lastProbeTimeNano c);
  inv_gain : pacingGainPct c ∈ gains;
}.

Inductive meas_step : Measurements -> Measurements -> Prop :=
  | step_update c rtt bytesAcked now c' :
      is_u64 rtt -> is_u16 bytesAcked -> is_u64 now ->
      updateMeasurements c rtt bytesAcked now = Ok c' -> meas_step c c'
  | step_dup c : meas_step c (onDuplicateAck c)
  | step_loss c : meas_step c (onPacketLoss c)
  | step_read c t : meas_step c
      (mkMeasurements (srtt c) (rttvar c) (isStartup c) (rttMinNano c) (rttMinTimeNano c)
         (bwMax c) (bwDec c) (lastProbeTimeNano c) (pacingGainPct c) t).

(** Samples that [updateMeasurements] uses; the others leave the state alone. *)
Definition valid_sample (rtt bytesAcked now : Z) : bool :=
  negb (rtt =? 0) && negb (bytesAcked =? 0) && (rtt <=? ReadDeadLine) && negb (now =? 0).

(** The estimator over the integers, without wrap-around or partiality. *)
Definition ideal_srtt (c : Measurements) (rtt : Z) : Z :=
  if srtt c =? 0 then rtt else srtt c * 7 / 8 + rtt / 8.
Definition ideal_rttvar (c : Measurements) (rtt : Z) : Z :=
  if srtt c =? 0 then rtt / 2 else rttvar c * 3 / 4 + Z.abs (rtt - srtt c) / 4.
Definition ideal_rttMin (c : Measurements) (rtt now : Z) : Z * Z :=
  if (rttMinTimeNano c + rttExpiry <=? now) || (rtt <? rttMinNano c) then (rtt, now)
  else (rttMinNano c, rttMinTimeNano c).
Definition ideal_bw (c : Measurements) (rtt bytesAcked now : Z) : Z :=
  bytesAcked * secondNano / (ideal_rttMin c rtt now).1.

(** The time of the last probe; the first sample counts as one. *)
Definition probe_base (c : Measurements) (now : Z) : Z :=
  if lastProbeTimeNano c =? 0 then now else lastProbeTimeNano c.

(** The gain after the startup: by the ratio of smoothed and minimum RTT in
    percent, and the time since the last probe against eight minimum RTTs. *)
Definition ideal_gain (ratio rttMin elapsed : Z) : Z :=
  if 150 <? ratio then 75 else if 125 <? ratio then 90 else if 8 * rttMin <? elapsed then 125 else 100.

(** The state after a valid sample; [dec] is the counter of samples that did
    not raise the bandwidth, one higher, and [elapsed] the time since the last
    probe. *)
Definition estimate (c : Measurements) (rtt bytesAcked now dec elapsed : Z) : Measurements :=
  let rttMin := (ideal_rttMin c rtt now).1 in
  let bw := ideal_bw c rtt bytesAcked now in
  let dec' := if bwMax c <? bw then 0 else dec in
  let gain := ideal_gain (ideal_srtt c rtt * 100 / rttMin) rttMin elapsed in
  {| srtt := ideal_srtt c rtt;
     rttvar := ideal_rttvar c rtt;
     isStartup := isStartup c && (dec' <? 3);
     rttMinNano := rttMin;
     rttMinTimeNano := (ideal_rttMin c rtt now).2;
     bwMax := Z.max (bwMax c) bw;
     bwDec := dec';
     lastProbeTimeNano := if negb (isStartup c) && (gain =? 125) then now else probe_base c now;
     pacingGainPct := if isStartup c then (if dec' <? 3 then pacingGainPct c else 100) else gain;
     lastReadTimeNano := lastReadTimeNano c |}.

Definition ideal_update (c : Measurements) (rtt bytesAcked now : Z) : Measurements :=
  estimate c rtt bytesAcked now (bwDec c + 1) (now - probe_base c now).

Ltac consts :=
  unfold ReadDeadLine, minRTO, maxRTO, defaultRTO, MaxUint64, bwBound,
    rttDivisor, fallbackInterval, dupAckBwReduction, lossBwReduction, rtoBackoffPct, rttExpiry,
    probeMultiplier, maxRetry, startupGain, normalGain, drainGain, probeGain, dupAckGain,
    secondNano, msNano in *.

Lemma u64_small z : 0 <= z < 2 ^ 64 -> u64 z = z.
Proof. apply Z.mod_small. Qed.

Lemma updateRtt_ideal c rtt :
  meas_inv c -> 0 <= rtt <= ReadDeadLine ->
  updateRtt c rtt = (ideal_srtt c rtt, ideal_rttvar c rtt) /\
  0 <= ideal_srtt c rtt <= ReadDeadLine /\ 0 <= ideal_rttvar c rtt <= ReadDeadLine.
Proof.
  intros [Hs Hv _ _ _ _ _ _] Hr. unfold updateRtt, ideal_srtt, ideal_rttvar. consts.
  destruct (Z.eqb_spec (srtt c) 0).
  { split; [done|]. Z.div_mod_to_equations; lia. }
  assert ((if rtt >? srtt c then u64 (rtt - srtt c) else u64 (srtt c - rtt)) = Z.abs (rtt - srtt c)) as ->.
  { destruct (Z.gtb_spec rtt (srtt c)); rewrite u64_small by lia; lia. }
  rewrite !Z.mul_1_r. rewrite !(u64_small (_ * _)) by lia. rewrite !(u64_small rtt) by lia.
  rewrite (u64_small (Z.abs _)) by lia.
  assert (0 <= srtt c * 7 / 8 + rtt / 8 <= 30 * 1000000000) by (Z.div_mod_to_equations; lia).
  assert (0 <= rttvar c * 3 / 4 + Z.abs (rtt - srtt c) / 4 <= 30 * 1000000000)
    by (Z.div_mod_to_equations; lia).
  rewrite !u64_small by lia. auto.
Qed.

Lemma updateRttMin_ideal c rtt now :
  meas_inv c -> 0 < rtt <= ReadDeadLine -> is_u64 now ->
  updateRttMin c rtt now = ideal_rttMin c rtt now /\
  0 < (ideal_rttMin c rtt now).1 <= rtt /\ is_u64 (ideal_rttMin c rtt now).2.
Proof.
  intros [_ _ Hm Ht _ _ _ _] Hr Hn. unfold updateRttMin, ideal_rttMin.
  assert ((now >? rttMinTimeNano c) && (u64 (now - rttMinTimeNano c) >=? rttExpiry) = (rttMinTimeNano c + rttExpiry <=? now)) as ->.
  { destruct (Z.gtb_spec now (rttMinTimeNano c)) as [Hlt|Hge]; cbn [andb].
    - rewrite u64_small by (widths; lia). rewrite Z.geb_leb. destruct (Z.leb_spec rttExpiry (now - rttMinTimeNano c)); lia.
    - consts. lia. }
  split; [done|]. destruct (rttMinTimeNano c + rttExpiry <=? now); simpl; [auto with lia|].
  destruct (Z.ltb_spec rtt (rttMinNano c)); simpl; auto with lia.
Qed.

Lemma gains_bounds g : g ∈ gains -> 75 <= g <= 277.
Proof. unfold gains. consts. set_solver by lia. Qed.

Lemma ideal_gain_known ratio rttMin elapsed : ideal_gain ratio rttMin elapsed ∈ gains.
Proof. unfold ideal_gain. destruct (150 <? _); [|destruct (125 <? _); [|destruct (_ <? elapsed)]]; compute_done. Qed.

Lemma estimate_inv c rtt bytesAcked now dec elapsed :
  meas_inv c -> 0 < rtt <= ReadDeadLine -> is_u16 bytesAcked -> is_u64 now -> is_u64 dec ->
  meas_inv (estimate c rtt bytesAcked now dec elapsed) /\ 0 <= ideal_bw c rtt bytesAcked now <= bwBound.
Proof.
  intros Hinv Hr Hb Hn Hd. destruct (updateRtt_ideal c rtt Hinv) as (_ & Hs & Hv); [lia|].
  destruct (updateRttMin_ideal c rtt now Hinv Hr Hn) as (_ & Hm & Ht).
  destruct Hinv as [_ _ _ _ Hbw _ Hprobe Hgain].
  assert (0 <= ideal_bw c rtt bytesAcked now <= bwBound) as Hcur.
  { unfold ideal_bw. consts. widths. split; [apply Z.div_pos; lia|]. apply Z.div_le_upper_bound; nia. }
  split; [|done]. unfold estimate. constructor; cbn; [done | done | consts; lia | done | lia | by case_match | |].
  - unfold probe_base. by repeat case_match.
  - destruct (isStartup c); [destruct (_ <? 3); [done | compute_done] | apply ideal_gain_known].
Qed.

(** A valid sample, in any state that satisfies the invariant: only the counter
    and the time since the last probe can wrap. *)
Lemma updateMeasurements_estimate c rtt bytesAcked now :
  meas_inv c -> is_u64 rtt -> is_u16 bytesAcked -> is_u64 now ->
  updateMeasurements c rtt bytesAcked now = Ok
    (if valid_sample rtt bytesAcked now
     then estimate c rtt bytesAcked now (u64 (bwDec c + 1)) (u64 (now - probe_base c now)) else c).
Proof.
  intros Hinv Hr Hb Hn. unfold updateMeasurements, valid_sample.
  destruct (Z.eqb_spec rtt 0) as [|Hr0]; [done|]. destruct (Z.eqb_spec bytesAcked 0) as [|Hb0]; [done|].
  rewrite Z.gtb_ltb, Z.ltb_antisym. destruct (Z.leb_spec rtt ReadDeadLine) as [Hr1|]; [|done].
  destruct (Z.eqb_spec now 0) as [|Hn0]; [done|]. cbn [negb andb].
  assert (0 < rtt) as Hpos by (widths; lia). pose proof (conj Hpos Hr1) as Hrr.
  destruct (updateRtt_ideal c rtt Hinv) as (-> & Hs & _); [lia|].
  destruct (updateRttMin_ideal c rtt now Hinv Hrr Hn) as (-> & Hm & _).
  unfold estimate, ideal_bw. destruct (ideal_rttMin c rtt now) as [m t]. cbn [fst snd] in *.
  destruct (Z.gtb_spec m 0); [|lia]. rewrite !go_div_Ok by lia. cbn [mbind go_bind].
  rewrite (u64_small (bytesAcked * 1000000000)) by (widths; lia). change 1000000000 with secondNano.
  set (bw := bytesAcked * secondNano / m). fold (probe_base c now).
  rewrite (u64_small (ideal_srtt c rtt * 100)), (u64_small (m * probeMultiplier)) by (consts; lia).
  rewrite (Z.gtb_ltb bw).
  assert ((if bwMax c <? bw then (bw, 0) else (bwMax c, u64 (bwDec c + 1)))
    = (Z.max (bwMax c) bw, if bwMax c <? bw then 0 else u64 (bwDec c + 1))) as ->
    by (destruct (Z.ltb_spec (bwMax c) bw); f_equal; lia).
  set (dec := if bwMax c <? bw then 0 else u64 (bwDec c + 1)).
  rewrite Z.geb_leb, Z.leb_antisym. change bwDecThreshold with 3. destruct (isStartup c).
  - by destruct (dec <? 3).
  - unfold ideal_gain. rewrite !Z.gtb_ltb. change rttInflationHigh with 150. change rttInflationModerate with 125.
    rewrite (Z.mul_comm m). change probeMultiplier with 8.
    destruct (150 <? _); [done|]. destruct (125 <? _); [done|]. by destruct (8 * m <? _).
Qed.

Lemma updateMeasurements_spec c rtt bytesAcked now :
  meas_inv c -> is_u64 rtt -> is_u16 bytesAcked -> is_u64 now ->
  exists c', updateMeasurements c rtt bytesAcked now = Ok c' /\ meas_inv c' /\ bwDec c' <= bwDec c + 1.
Proof.
  intros Hinv Hr Hb Hn. rewrite updateMeasurements_estimate by done. eexists. split; [done|].
  pose proof (inv_bwDec _ Hinv) as Hd. destruct (valid_sample _ _ _) eqn:Ev; [|split; [done | lia]].
  unfold valid_sample in Ev. split; [apply estimate_inv; try done; [widths; lia | apply u64_range]|].
  cbn. pose proof (Z.mod_le (bwDec c + 1) (2 ^ 64)). unfold u64. widths. case_match; lia.
Qed.

Lemma meas_inv_new : meas_inv NewMeasurements.
Proof. constructor; cbn; first [by compute_done | consts; lia | set_solver]. Qed.

(** Scaling the bandwidth down keeps it in range. *)
Lemma reduce_bw_bounds b pct :
  0 <= b <= bwBound -> 0 <= pct <= 100 ->
  u64 (b * pct) / 100 = b * pct / 100 /\ 0 <= b * pct / 100 <= b.
Proof.
  intros Hb Hp. consts. rewrite u64_small by nia. split; [done|].
  split; [apply Z.div_pos; nia | apply Z.div_le_upper_bound; nia].
Qed.

Lemma meas_inv_step c c' : meas_inv c -> meas_step c c' -> meas_inv c'.
Proof.
  intros Hinv Hstep. destruct Hstep as [c rtt b now c' Hr Hb Hn Hu | c | c | c t].
  - destruct (updateMeasurements_spec c rtt b now) as (c'' & Hu' & Hi & _); congruence.
  - destruct (reduce_bw_bounds (bwMax c) dupAckBwReduction) as [E ?]; [apply Hinv | consts; lia|].
    destruct Hinv. constructor; cbn; rewrite ?E; first [done | lia | set_solver].
  - destruct (reduce_bw_bounds (bwMax c) lossBwReduction) as [E ?]; [apply Hinv | consts; lia|].
    destruct Hinv. constructor; cbn; rewrite ?E; first [done | lia | set_solver].
  - destruct Hinv. by constructor.
Qed.

Lemma meas_step_dec c c' : meas_inv c -> meas_step c c' -> bwDec c' <= bwDec c + 1.
Proof.
  intros Hinv Hstep. destruct Hstep as [c rtt b now c' Hr Hb Hn Hu | c | c | c t]; cbn; [|lia..].
  destruct (updateMeasurements_spec c rtt b now Hinv Hr Hb Hn) as (c'' & Hu' & _ & Hd). congruence.
Qed.

(** After [n] steps the counter is at most [n]. *)
Lemma meas_steps_inv n c : nsteps meas_step n NewMeasurements c -> meas_inv c /\ bwDec c <= Z.of_nat n.
Proof.
  assert (forall n c0 c, nsteps meas_step n c0 c -> meas_inv c0 -> meas_inv c /\ bwDec c <= bwDec c0 + Z.of_nat n) as H.
  { clear n c. intros n c0 c. induction 1 as [|n c0 c1 c2 Hs _ IH]; intros H0; [split; [done | lia]|].
    destruct (IH (meas_inv_step _ _ H0 Hs)) as [Hi Hd]. pose proof (meas_step_dec _ _ H0 Hs). split; [done | lia]. }
  intros Hn. destruct (H _ _ _ Hn meas_inv_new) as [Hi Hd]. split; [done|]. cbn in Hd. lia.
Qed.

Lemma reachable_inv c : rtc meas_step NewMeasurements c -> meas_inv c.
Proof.
  intros H. remember NewMeasurements as c0 eqn:E.
  assert (meas_inv c0) as H0 by (subst; apply meas_inv_new). clear E.
  induction H; eauto using meas_inv_step.
Qed.

Lemma iter_backoff n r :
  0 <= r -> r * 2 ^ Z.of_nat n * 200 < 2 ^ 64 -> Nat.iter n backoff_step r = r * 2 ^ Z.of_nat n.
Proof.
  intros Hr. induction n as [|n IH]; intros Hb; [simpl; lia|].
  rewrite Nat2Z.inj_succ, Z.pow_succ_r in * by lia.
  assert (0 < 2 ^ Z.of_nat n) by (apply Z.pow_pos_nonneg; lia).
  rewrite Nat.iter_succ. rewrite IH by nia. unfold backoff_step, rtoBackoffPct.
  rewrite u64_small by nia.
  replace (r * 2 ^ Z.of_nat n * 200) with (r * (2 * 2 ^ Z.of_nat n) * 100) by lia.
  by rewrite Z.div_mul.
Qed.

(** ** Properties *)

(** C37. Over any sequence of fewer than 2^64 - 1 measurements, duplicate
    acknowledgements, losses and receptions, [updateMeasurements] returns (no
    division by zero) and keeps the invariant (smoothed RTT and variation at most
    30 s, positive minimum RTT, bandwidth within its bound, a known pacing gain);
    an invalid sample changes nothing; and on a valid sample, unless the clock is
    behind the time of the last probe, the new state is that of the estimator
    over the integers in every field ([ideal_update]: smoothed RTT and variation,
    minimum RTT and its expiry, bandwidth and the reset of its counter, end of
    startup, gain and time of the probe), so no wrap-around shows. *)
Theorem measurements_overflow_free n c rtt bytesAcked now :
  nsteps meas_step n NewMeasurements c -> Z.of_nat n < 2 ^ 64 - 1 ->
  is_u64 rtt -> is_u16 bytesAcked -> is_u64 now ->
  exists c', updateMeasurements c rtt bytesAcked now = Ok c' /\ meas_inv c' /\
    (valid_sample rtt bytesAcked now = false -> c' = c) /\
    (valid_sample rtt bytesAcked now = true -> lastProbeTimeNano c <= now -> c' = ideal_update c rtt bytesAcked now).
Proof.
  intros Hc Hlt Hr Hb Hn. destruct (meas_steps_inv n c Hc) as [Hinv Hd].
  destruct (updateMeasurements_spec c rtt bytesAcked now Hinv Hr Hb Hn) as (c' & E & Hi & _).
  exists c'. split; [done|]. split; [done|]. rewrite updateMeasurements_estimate in E by done. injection E as <-.
  split; [by intros ->|]. intros -> Hle. unfold ideal_update. pose proof (inv_bwDec _ Hinv). pose proof (inv_probe _ Hinv).
  rewrite (u64_small (bwDec c + 1)) by (widths; lia). rewrite u64_small; [done|].
  unfold probe_base. clear Hi. widths. destruct (lastProbeTimeNano c =? 0); lia.
Qed.

Lemma measurements_overflow_free_witness :
  exists c', updateMeasurements (onPacketLoss NewMeasurements) 50000000 1400 1000 = Ok c' /\
    c' = mkMeasurements 50000000 25000000 false 50000000 1000 28000 0 1000 100 0.
Proof.
  destruct (measurements_overflow_free 1 (onPacketLoss NewMeasurements) 50000000 1400 1000)
    as (c' & Hu & _ & _ & Hn).
  - eapply nsteps_once, step_loss.
  - lia.
  - compute_done.
  - compute_done.
  - compute_done.
  - exists c'. split; [exact Hu|]. rewrite Hn; [reflexivity | reflexivity | vm_compute; discriminate].
Defined.

(** When the clock is behind the time of the last probe, the unsigned
    difference is huge and the connection probes at once: here 1 ns behind, with
    the RTT at its minimum. *)
Theorem clock_back_probes :
  match updateMeasurements (mkMeasurements 50000000 0 false 50000000 2000 28000 0 2000 100 0) 50000000 1400 1999 with
  | Ok c' => pacingGainPct c' = probeGain /\ lastProbeTimeNano c' = 1999 /\
      pacingGainPct (ideal_update (mkMeasurements 50000000 0 false 50000000 2000 28000 0 2000 100 0) 50000000 1400 1999) = normalGain
  | _ => False
  end.
Proof. vm_compute. split_and!; reflexivity. Qed.

(** C38. The retransmission timeout is between 100 ms and 2 s in every reachable
    state: it is 200 ms when [srtt + 4 * rttvar] is 0, and otherwise that sum
    clamped to the two bounds.  The sum is 0 before any measurement, and also
    after measurements of a few nanoseconds ([rto_default_again]). *)
Theorem rto_bounds c :
  rtc meas_step NewMeasurements c ->
  minRTO <= rtoNano c <= maxRTO /\
  rtoNano c = if srtt c + 4 * rttvar c =? 0 then defaultRTO
              else Z.max minRTO (Z.min maxRTO (srtt c + 4 * rttvar c)).
Proof.
  intros H. destruct (reachable_inv c H) as [Hs Hv _ _ _ _ _ _]. unfold rtoNano. consts.
  rewrite (u64_small (4 * _)), u64_small by lia.
  destruct (Z.eqb_spec (srtt c + 4 * rttvar c) 0); [lia|].
  destruct (Z.ltb_spec (srtt c + 4 * rttvar c) (100 * 1000000)); [lia|].
  destruct (Z.gtb_spec (srtt c + 4 * rttvar c) (2000 * 1000000)); lia.
Qed.

Lemma rto_bounds_witness :
  minRTO <= rtoNano (onDuplicateAck NewMeasurements) <= maxRTO.
Proof.
  apply (rto_bounds (onDuplicateAck NewMeasurements)). eapply rtc_once, step_dup.
Defined.

(** Two valid samples of 1 ns round the smoothed RTT and its variation to 0. *)
Theorem rto_default_again :
  match updateMeasurements NewMeasurements 1 1400 1000 with
  | Ok c => match updateMeasurements c 1 1400 1001 with
            | Ok c => srtt c = 0 /\ rttvar c = 0 /\ rtoNano c = defaultRTO
            | _ => False
            end
  | _ => False
  end.
Proof. vm_compute. split_and!; reflexivity. Qed.

(** Back-off: for the timeouts the connection uses, attempt [n] (1 to 5) waits
    [rto * 2^(n-1)] without overflow; any other attempt number is an error. *)
Theorem backoff_exponential rto n :
  0 <= rto <= maxRTO ->
  backoff rto n =
    if (1 <=? n) && (n <=? 5) then inr (rto * 2 ^ (n - 1))
    else if n <=? 0 then inl "backoff requires a positive rto number"%string
    else inl "max retry attempts exceeded limit"%string.
Proof.
  intros Hr. unfold backoff, maxRetry in *. consts.
  destruct (Z.leb_spec n 0), (Z.leb_spec 1 n); try lia; [done|].
  destruct (Z.gtb_spec n 5), (Z.leb_spec n 5); try lia; [done|]. simpl.
  assert (n - 1 <= 4) by lia.
  assert (0 < 2 ^ (n - 1) <= 2 ^ 4) by (split; [apply Z.pow_pos_nonneg | apply Z.pow_le_mono_r]; lia).
  rewrite iter_backoff; rewrite ?Z2Nat.id by lia; [done | lia | nia].
Qed.

Lemma backoff_exponential_witness :
  backoff 200000000 5 = inr 3200000000 /\ backoff 200000000 6 = inl "max retry attempts exceeded limit"%string.
Proof.
  split; rewrite (backoff_exponential 200000000) by (vm_compute; split; congruence); done.
Defined.

(** Pacing: in every reachable state [calcPacing] returns; with a bandwidth
    estimate it is the time, rounded down, in which a packet of at most 64 KiB
    passes at the estimate scaled by the pacing gain, and without one it is a
    tenth of the smoothed RTT or the 10 ms fallback. *)
Theorem pacing_interval c packetSize :
  rtc meas_step NewMeasurements c -> is_u16 packetSize ->
  calcPacing c packetSize = Ok
    (let bw := bwMax c * pacingGainPct c / 100 in
     if bwMax c =? 0 then (if srtt c >? 0 then srtt c / 10 else fallbackInterval)
     else if bw =? 0 then fallbackInterval else packetSize * secondNano / bw).
Proof.
  intros H Hp. destruct (reachable_inv c H) as [_ _ _ _ Hb _ _ Hg].
  apply gains_bounds in Hg. unfold calcPacing. consts.
  destruct (bwMax c =? 0); [by destruct (srtt c >? 0)|].
  rewrite (u64_small (bwMax c * _)) by nia.
  destruct (Z.eqb_spec (bwMax c * pacingGainPct c / 100) 0); [done|].
  rewrite go_div_Ok by done. rewrite u64_small by (widths; lia). done.
Qed.

Lemma pacing_interval_witness :
  calcPacing (onPacketLoss NewMeasurements) 1400 = Ok fallbackInterval.
Proof.
  apply (pacing_interval (onPacketLoss NewMeasurements) 1400); [eapply rtc_once, step_loss | compute_done].
Defined.
