(* ===== verification/Chain.v ===== *)
(** * Chain: linked node stores

    Shared by the two pointer structures of the program (the linked map of
    src/linkedmap.go and the skip list of src/sortedmap.go): what it means that
    a list of locations is linked by [next]/[prev] fields, and how the chain
    changes when a node is linked in or out. *)

From stdpp Require Import prelude gmap list sorting.
From S2P Require Import Prelude.

(** Node addresses; a Go pointer is an [option loc], nil is [None]. *)
Abbreviation loc := nat.

(** ** Doubly linked chains *)

Section dchain.
Implicit Types (fn fp : loc -> option loc) (a b x : loc) (ls : list loc).

(** [ls] are the nodes strictly between [a] and [b], in order. *)
Fixpoint dchain fn fp a ls b : Prop :=
  match ls with
  | [] => fn a = Some b /\ fp b = Some a
  | x :: ls => fn a = Some x /\ fp x = Some a /\ dchain fn fp x ls b
  end.

Lemma dchain_app fn fp a l1 x l2 b :
  dchain fn fp a (l1 ++ x :: l2) b <-> dchain fn fp a l1 x /\ dchain fn fp x l2 b.
Proof. revert a. induction l1 as [|y l1 IH]; intros a; simpl; [tauto|]. rewrite IH. tauto. Qed.

Lemma dchain_ext fn fp fn' fp' a ls b :
  (forall y, y ∈ a :: ls -> fn' y = fn y) -> (forall y, y ∈ ls ++ [b] -> fp' y = fp y) ->
  dchain fn fp a ls b -> dchain fn' fp' a ls b.
Proof.
  revert a. induction ls as [|x ls IH]; intros a Hn Hp; simpl.
  - rewrite (Hn a), (Hp b) by set_solver. done.
  - rewrite (Hn a), (Hp x) by set_solver. intros (? & ? & ?). split_and!; [done..|].
    apply IH; [intros y Hy; apply Hn; set_solver | intros y Hy; apply Hp; set_solver | done].
Qed.

(** The neighbours of a position of the chain. *)
Lemma dchain_first fn fp a ls b : dchain fn fp a ls b -> fn a = head (ls ++ [b]).
Proof. destruct ls; simpl; tauto. Qed.

Lemma dchain_last fn fp a ls b : dchain fn fp a ls b -> fp b = last (a :: ls).
Proof.
  revert a. induction ls as [|x ls IH]; intros a; simpl; [tauto|].
  intros (_ & _ & H). by apply IH.
Qed.

Lemma dchain_next fn fp a l1 x l2 b : dchain fn fp a (l1 ++ x :: l2) b -> fn x = head (l2 ++ [b]).
Proof. rewrite dchain_app. intros [_ H]. by eapply dchain_first. Qed.

Lemma dchain_prev fn fp a l1 x l2 b : dchain fn fp a (l1 ++ x :: l2) b -> fp x = last (a :: l1).
Proof. rewrite dchain_app. intros [H _]. by eapply dchain_last. Qed.

(** Linking [x] between [p], the last of [a :: l1], and [s], the first of
    [l2 ++ [b]]. *)
Lemma dchain_link fn fp fn' fp' a l1 l2 b x p s :
  NoDup (a :: l1 ++ l2 ++ [b]) -> x ∉ a :: l1 ++ l2 ++ [b] ->
  last (a :: l1) = Some p -> head (l2 ++ [b]) = Some s ->
  dchain fn fp a (l1 ++ l2) b ->
  fn' p = Some x -> fp' x = Some p -> fn' x = Some s -> fp' s = Some x ->
  (forall y, y <> p -> y <> x -> fn' y = fn y) -> (forall y, y <> s -> y <> x -> fp' y = fp y) ->
  dchain fn' fp' a (l1 ++ x :: l2) b.
Proof.
  intros Hnd Hx Hp Hs Hc Hpn Hxp Hxn Hsp Hn' Hp'. apply dchain_app.
  revert a Hnd Hx Hp Hc. induction l1 as [|y l1 IH]; intros a Hnd Hx Hp Hc; simpl in *.
  - injection Hp as <-. split; [done|].
    destruct l2 as [|z l2]; simpl in *; injection Hs as <-; [done|].
    destruct Hc as (_ & _ & Hc). split_and!; [done..|].
    apply NoDup_cons in Hnd as [Ha Hnd]. apply NoDup_cons in Hnd as [Hz _].
    eapply dchain_ext; [| |exact Hc].
    + intros w Hw. apply Hn'; set_solver.
    + intros w Hw. apply Hp'; [|set_solver]. intros ->. set_solver.
  - apply NoDup_cons in Hnd as [Ha Hnd]. destruct Hc as (Hy1 & Hy2 & Hc).
    destruct (IH y Hnd ltac:(set_solver) Hp Hc) as [H1 H2]. split; [|done].
    assert (p ∈ y :: l1) by (by apply last_Some_elem_of).
    assert (s ∈ l2 ++ [b]) by (destruct l2; simpl in *; injection Hs as <-; set_solver).
    rewrite Hn' by set_solver. rewrite Hp'; [done| |set_solver].
    intros ->. apply NoDup_cons in Hnd as [Hy _]. set_solver.
Qed.

(** Linking [x] out: its neighbours point at each other. *)
Lemma dchain_unlink fn fp fn' fp' a l1 l2 b x p s :
  NoDup (a :: l1 ++ x :: l2 ++ [b]) ->
  last (a :: l1) = Some p -> head (l2 ++ [b]) = Some s ->
  dchain fn fp a (l1 ++ x :: l2) b ->
  fn' p = Some s -> fp' s = Some p ->
  (forall y, y <> p -> y <> x -> fn' y = fn y) -> (forall y, y <> s -> y <> x -> fp' y = fp y) ->
  dchain fn' fp' a (l1 ++ l2) b.
Proof.
  intros Hnd Hp Hs Hc Hpn Hsp Hn' Hp'.
  revert a Hnd Hp Hc. induction l1 as [|y l1 IH]; intros a Hnd Hp Hc; simpl in *.
  - injection Hp as <-. destruct Hc as (_ & _ & Hc).
    destruct l2 as [|z l2]; simpl in *; injection Hs as <-; [done|].
    destruct Hc as (_ & _ & Hc). split_and!; [done..|].
    apply NoDup_cons in Hnd as [Ha Hnd]. apply NoDup_cons in Hnd as [Hx Hnd].
    apply NoDup_cons in Hnd as [Hz _].
    eapply dchain_ext; [| |exact Hc].
    + intros w Hw. apply Hn'; set_solver.
    + intros w Hw. apply Hp'; intros ->; set_solver.
  - destruct Hc as (Hy1 & Hy2 & Hc). apply NoDup_cons in Hnd as [Ha Hnd].
    specialize (IH y Hnd Hp Hc).
    assert (p ∈ y :: l1) by (by apply last_Some_elem_of).
    assert (s ∈ l2 ++ [b]) by (destruct l2; simpl in *; injection Hs as <-; set_solver).
    rewrite Hn' by set_solver. rewrite Hp'; [done| |].
    + intros ->. apply NoDup_cons in Hnd as [Hy _]. set_solver.
    + intros ->. apply NoDup_cons in Hnd as [Hy _]. set_solver.
Qed.
End dchain.

(** ** Singly linked chains (a level of a skip list) *)

Section schain.
Implicit Types (fn : loc -> option (option loc)) (a u x : loc) (ls : list loc).

(** [a], then the nodes [ls], then a nil pointer. *)
Fixpoint schain fn a ls : Prop :=
  match ls with
  | [] => fn a = Some None
  | x :: ls => fn a = Some (Some x) /\ schain fn x ls
  end.

Lemma schain_ext fn fn' a ls :
  (forall y, y ∈ a :: ls -> fn' y = fn y) -> schain fn a ls -> schain fn' a ls.
Proof.
  revert a. induction ls as [|x ls IH]; intros a He; simpl; rewrite (He a) by set_solver; [done|].
  intros [? ?]. split; [done|]. apply IH; [|done]. intros y Hy. apply He. set_solver.
Qed.

(** The chain from any node of it. *)
Lemma schain_from fn a l1 l2 u :
  schain fn a (l1 ++ l2) -> last (a :: l1) = Some u -> schain fn u l2.
Proof.
  revert a. induction l1 as [|y l1 IH]; intros a; simpl; [by intros ? [= <-]|].
  intros [_ Hc] Hu. by eapply IH.
Qed.

Lemma schain_next fn a l1 l2 u :
  schain fn a (l1 ++ l2) -> last (a :: l1) = Some u -> fn u = Some (head l2).
Proof. intros Hc Hu. pose proof (schain_from _ _ _ _ _ Hc Hu) as H. by destruct l2 as [|? ?]; [|destruct H]. Qed.

Lemma schain_link fn fn' a l1 l2 u x :
  NoDup (a :: l1 ++ l2) -> x ∉ a :: l1 ++ l2 -> last (a :: l1) = Some u ->
  schain fn a (l1 ++ l2) -> fn' u = Some (Some x) -> fn' x = fn u ->
  (forall y, y <> u -> y <> x -> fn' y = fn y) -> schain fn' a (l1 ++ x :: l2).
Proof.
  intros Hnd Hx Hu Hc Hfu Hfx He. revert a Hnd Hx Hu Hc.
  induction l1 as [|y l1 IH]; intros a Hnd Hx Hu Hc; simpl in *.
  - injection Hu as ->. split; [done|]. apply NoDup_cons in Hnd as [Ha Hnd].
    destruct l2 as [|z l2]; simpl in *; [congruence|]. destruct Hc as [Hz Hc]. split; [congruence|].
    eapply schain_ext; [|exact Hc]. intros w Hw. apply He; set_solver.
  - apply NoDup_cons in Hnd as [Ha Hnd]. destruct Hc as [Hy Hc].
    assert (u ∈ y :: l1) by (by apply last_Some_elem_of).
    split; [rewrite He by set_solver; done|]. apply IH; [done | set_solver | done | done].
Qed.

Lemma schain_unlink fn fn' a l1 l2 u x :
  NoDup (a :: l1 ++ x :: l2) -> last (a :: l1) = Some u ->
  schain fn a (l1 ++ x :: l2) -> fn' u = fn x -> (forall y, y <> u -> fn' y = fn y) ->
  schain fn' a (l1 ++ l2).
Proof.
  intros Hnd Hu Hc Hfu He. revert a Hnd Hu Hc.
  induction l1 as [|y l1 IH]; intros a Hnd Hu Hc; simpl in *.
  - injection Hu as ->. destruct Hc as [_ Hc]. apply NoDup_cons in Hnd as [Ha Hnd].
    destruct l2 as [|z l2]; simpl in *; [congruence|]. destruct Hc as [Hz Hc]. split; [congruence|].
    eapply schain_ext; [|exact Hc]. intros w Hw. apply He. set_solver.
  - apply NoDup_cons in Hnd as [Ha Hnd]. destruct Hc as [Hy Hc].
    assert (u ∈ y :: l1) by (by apply last_Some_elem_of).
    split; [rewrite He by set_solver; done|]. by apply IH.
Qed.
End schain.

(** In a sorted list a downward-closed property holds of a prefix. *)
Lemma sorted_split {A} (R : A -> A -> Prop) (P : A -> Prop) `{forall x, Decision (P x)} l :
  StronglySorted R l -> (forall x y, R x y -> P y -> P x) ->
  exists l1 l2, l = l1 ++ l2 /\ Forall P l1 /\ Forall (fun x => ~ P x) l2.
Proof.
  intros Hs HP. induction Hs as [|x l Hs (l1 & l2 & -> & H1 & H2) Hx]; [by exists [], []|].
  destruct (decide (P x)) as [Hp|Hp].
  - exists (x :: l1), l2. auto.
  - exists [], (x :: l1 ++ l2). split_and!; [done..|]. constructor; [done|].
    apply Forall_app. split; [|done]. rewrite Forall_forall in H1, Hx |- *.
    intros y Hy Hpy. apply Hp, (HP x y); [apply Hx; set_solver | done].
Qed.
