(* ===== verification/Interfaces.v ===== *)
(** * Interfaces: what the two map structures promise to their clients

    The send buffer is written against [LinkedMapSpec] (an association list in
    insertion order) and the receive buffer against [SortedMapSpec] (a finite
    map with neighbour queries).  LinkedMap.v and SortedMap.v discharge the
    interfaces with the pointer structures of the program. *)

From stdpp Require Import prelude gmap list.
From S2P Require Import Prelude.

(** ** Association lists in insertion order *)

Section alist.
Context {K V : Type} `{EqDecision K}.
Implicit Types (k : K) (v : V) (l : list (K * V)).

Fixpoint al_get k l : option V :=
  match l with
  | [] => None
  | (k', v) :: l => if decide (k = k') then Some v else al_get k l
  end.

Definition al_mem k l : bool := bool_decide (is_Some (al_get k l)).

(** Update in place, or append. *)
Fixpoint al_put k v l : list (K * V) :=
  match l with
  | [] => [(k, v)]
  | (k', v') :: l => if decide (k = k') then (k, v) :: l else (k', v') :: al_put k v l
  end.

Fixpoint al_remove k l : list (K * V) :=
  match l with
  | [] => []
  | (k', v') :: l => if decide (k = k') then l else (k', v') :: al_remove k l
  end.

(** Give the entry of [k] a new key and value at the same position. *)
Fixpoint al_rename k k2 v l : list (K * V) :=
  match l with
  | [] => []
  | (k', v') :: l => if decide (k = k') then (k2, v) :: l else (k', v') :: al_rename k k2 v l
  end.

Definition al_replace k k2 v l : list (K * V) * bool :=
  if al_mem k l then
    if decide (k = k2) then (al_rename k k2 v l, true)
    else if al_mem k2 l then (l, false) else (al_rename k k2 v l, true)
  else (l, false).

(** The entry after (before) the entry of [k]. *)
Fixpoint al_next k l : option (K * V) :=
  match l with
  | [] => None
  | (k', _) :: l => if decide (k = k') then head l else al_next k l
  end.

Fixpoint al_prev_from (before : option (K * V)) k l : option (K * V) :=
  match l with
  | [] => None
  | (k', v') :: l => if decide (k = k') then before else al_prev_from (Some (k', v')) k l
  end.
Definition al_prev := al_prev_from None.

(** The entries after the entry of [k]. *)
Fixpoint al_after k l : list (K * V) :=
  match l with
  | [] => []
  | (k', _) :: l => if decide (k = k') then l else al_after k l
  end.

Lemma al_get_None k l : al_get k l = None <-> k ∉ l.*1.
Proof.
  induction l as [|[k' v'] l IH]; simpl; [set_solver|].
  case_decide; [set_solver|]. rewrite IH. set_solver.
Qed.

Lemma al_get_notin k l : k ∉ l.*1 -> al_get k l = None.
Proof. apply al_get_None. Qed.

Lemma al_get_elem k v l : al_get k l = Some v -> (k, v) ∈ l.
Proof.
  induction l as [|[k' v'] l IH]; simpl; [done|]. case_decide; [|set_solver]. set_solver.
Qed.

Lemma al_get_split k v l : al_get k l = Some v -> exists l1 l2, l = l1 ++ (k, v) :: l2 /\ k ∉ l1.*1.
Proof.
  induction l as [|[k' v'] l IH]; simpl; [done|]. case_decide.
  - intros [= ->]. subst. exists [], l. set_solver.
  - intros (l1 & l2 & -> & ?)%IH. exists ((k', v') :: l1), l2. set_solver.
Qed.

Section middle.
Context k v l1 l2 (Hk : k ∉ l1.*1).

Ltac al_middle := induction l1 as [|[? ?] l IH]; simpl;
  [by rewrite decide_True | rewrite decide_False by set_solver; rewrite IH by set_solver; done].

Lemma al_get_middle : al_get k (l1 ++ (k, v) :: l2) = Some v.
Proof. al_middle. Qed.

Lemma al_put_middle v' : al_put k v' (l1 ++ (k, v) :: l2) = l1 ++ (k, v') :: l2.
Proof. al_middle. Qed.

Lemma al_remove_middle : al_remove k (l1 ++ (k, v) :: l2) = l1 ++ l2.
Proof. al_middle. Qed.

Lemma al_rename_middle k2 v' : al_rename k k2 v' (l1 ++ (k, v) :: l2) = l1 ++ (k2, v') :: l2.
Proof. al_middle. Qed.

Lemma al_next_middle : al_next k (l1 ++ (k, v) :: l2) = head l2.
Proof. al_middle. Qed.

Lemma al_after_middle : al_after k (l1 ++ (k, v) :: l2) = l2.
Proof. al_middle. Qed.

Lemma al_prev_from_middle b :
  al_prev_from b k (l1 ++ (k, v) :: l2) = match last l1 with Some e => Some e | None => b end.
Proof.
  revert b. induction l1 as [|[k' v'] l IH]; intros b; simpl; [by rewrite decide_True|].
  rewrite decide_False by set_solver. rewrite IH by set_solver. rewrite last_cons. by destruct (last l).
Qed.

Lemma al_prev_middle : al_prev k (l1 ++ (k, v) :: l2) = last l1.
Proof. unfold al_prev. rewrite al_prev_from_middle. by destruct (last l1). Qed.
End middle.

Lemma al_put_notin k v l : k ∉ l.*1 -> al_put k v l = l ++ [(k, v)].
Proof.
  induction l as [|[k' v'] l IH]; simpl; [done|]. intros.
  rewrite decide_False by set_solver. rewrite IH by set_solver. done.
Qed.

Lemma al_remove_notin k l : k ∉ l.*1 -> al_remove k l = l.
Proof.
  induction l as [|[k' v'] l IH]; simpl; [done|]. intros.
  rewrite decide_False by set_solver. rewrite IH by set_solver. done.
Qed.

Lemma al_next_notin k l : k ∉ l.*1 -> al_next k l = None.
Proof.
  induction l as [|[k' v'] l IH]; simpl; [done|]. intros.
  rewrite decide_False by set_solver. apply IH. set_solver.
Qed.

Lemma al_prev_notin k l : k ∉ l.*1 -> al_prev k l = None.
Proof.
  unfold al_prev. generalize (@None (K * V)) at 1.
  induction l as [|[k' v'] l IH]; intros b; simpl; [done|]. intros.
  rewrite decide_False by set_solver. apply IH. set_solver.
Qed.
(** Membership and weighted sums after an update. *)

Lemma al_get_is_elem k l : NoDup l.*1 -> forall v, al_get k l = Some v <-> (k, v) ∈ l.
Proof.
  intros Hnd v. split; [apply al_get_elem|]. intros Hin.
  apply list_elem_of_split in Hin as (l1 & l2 & ->). apply al_get_middle.
  rewrite fmap_app in Hnd. simpl in Hnd. apply NoDup_app in Hnd as (_ & Hd & _). intros Hk. by apply (Hd k Hk); left.
Qed.

Lemma al_split_cases k l :
  NoDup l.*1 ->
  (al_get k l = None /\ k ∉ l.*1) \/
  (exists v l1 l2, al_get k l = Some v /\ l = l1 ++ (k, v) :: l2 /\ k ∉ l1.*1 /\ k ∉ l2.*1).
Proof.
  intros Hnd. destruct (al_get k l) as [v|] eqn:E; [right|left; split; [done|by apply al_get_None]].
  apply al_get_split in E as (l1 & l2 & -> & H1). exists v, l1, l2. split_and!; try done.
  rewrite fmap_app in Hnd. apply NoDup_app in Hnd as (_ & _ & Hnd). by apply NoDup_cons in Hnd as [? _].
Qed.

Lemma elem_al_key e l : e ∈ l -> e.1 ∈ l.*1.
Proof. intros. by apply list_elem_of_fmap_2. Qed.

Lemma elem_al_put k v l e :
  NoDup l.*1 -> e ∈ al_put k v l <-> e = (k, v) \/ (e ∈ l /\ e.1 <> k).
Proof.
  intros Hnd. destruct (al_split_cases k l Hnd) as [[_ Hk]|(v0 & l1 & l2 & _ & -> & H1 & H2)].
  - rewrite al_put_notin by done. rewrite elem_of_app, list_elem_of_singleton. split; [|tauto].
    intros [He| ->]; [right; split; [done|] | by left]. intros <-. by apply Hk, elem_al_key.
  - rewrite al_put_middle by done. rewrite !elem_of_app, !elem_of_cons. split.
    + intros [He|[->|He]]; [|by left|]; (right; split; [tauto|]); intros <-; [by apply H1, elem_al_key | by apply H2, elem_al_key].
    + intros [->|[[?|[->|?]] Hne]]; (done || tauto).
Qed.

Lemma elem_al_remove k l e : NoDup l.*1 -> e ∈ al_remove k l <-> e ∈ l /\ e.1 <> k.
Proof.
  intros Hnd. destruct (al_split_cases k l Hnd) as [[_ Hk]|(v0 & l1 & l2 & _ & -> & H1 & H2)].
  - rewrite al_remove_notin by done. split; [|tauto]. intros He. split; [done|].
    intros <-. by apply Hk, elem_al_key.
  - rewrite al_remove_middle by done. rewrite !elem_of_app, elem_of_cons. split.
    + intros [He|He]; (split; [tauto|]); intros <-; [by apply H1, elem_al_key | by apply H2, elem_al_key].
    + intros [[?|[->|?]] Hne]; (done || tauto).
Qed.

Lemma elem_al_rename k k2 v v0 l e :
  NoDup l.*1 -> al_get k l = Some v0 -> e ∈ al_rename k k2 v l <-> e = (k2, v) \/ (e ∈ l /\ e.1 <> k).
Proof.
  intros Hnd Hg. destruct (al_split_cases k l Hnd) as [[? _]|(v1 & l1 & l2 & _ & -> & H1 & H2)]; [congruence|].
  rewrite al_rename_middle by done. rewrite !elem_of_app, !elem_of_cons. split.
  - intros [He|[->|He]]; [|by left|]; (right; split; [tauto|]); intros <-; [by apply H1, elem_al_key | by apply H2, elem_al_key].
  - intros [->|[[?|[->|?]] Hne]]; (done || tauto).
Qed.

Definition al_sum (w : V -> Z) l : Z := foldr (fun e acc => w e.2 + acc)%Z 0%Z l.

Arguments al_sum w l : simpl never.

Lemma al_sum_app w l1 l2 : al_sum w (l1 ++ l2) = (al_sum w l1 + al_sum w l2)%Z.
Proof. induction l1 as [|e l1 IH]; [done|]. unfold al_sum in *. simpl. rewrite IH. lia. Qed.

Lemma al_sum_cons w e l : al_sum w (e :: l) = (w e.2 + al_sum w l)%Z.
Proof. done. Qed.

Lemma al_sum_put w k v l :
  al_sum w (al_put k v l) = (al_sum w l + w v - from_option w 0 (al_get k l))%Z.
Proof.
  induction l as [|[k' v'] l IH]; simpl; [rewrite al_sum_cons; unfold al_sum; simpl; lia|].
  case_decide; subst; rewrite ?al_sum_cons; simpl; lia.
Qed.

Lemma al_sum_remove w k l : al_sum w (al_remove k l) = (al_sum w l - from_option w 0 (al_get k l))%Z.
Proof.
  induction l as [|[k' v'] l IH]; simpl; [lia|]. case_decide; rewrite ?al_sum_cons; simpl; lia.
Qed.

Lemma al_sum_rename w k k2 v v0 l :
  al_get k l = Some v0 -> al_sum w (al_rename k k2 v l) = (al_sum w l + w v - w v0)%Z.
Proof.
  induction l as [|[k' v'] l IH]; simpl; [done|]. case_decide.
  - intros [= ->]. rewrite !al_sum_cons. simpl. lia.
  - intros ?%IH. rewrite !al_sum_cons. simpl. lia.
Qed.

Lemma al_sum_nonneg w l : (forall v, 0 <= w v)%Z -> (0 <= al_sum w l)%Z.
Proof. intros Hw. induction l as [|e l IH]; [done|]. rewrite al_sum_cons. pose proof (Hw e.2). lia. Qed.
End alist.

#[global] Arguments al_sum {K V} w l : simpl never.

(** ** The linked map *)

Class LinkedMapOps (M K V : Type) := {
  lmi_new : M;
  lmi_put : M -> K -> V -> go M;
  lmi_remove : M -> K -> go (M * option V);
  lmi_first : M -> go (option (K * V));
  lmi_replace : M -> K -> K -> V -> go (M * bool);
}.

Class LinkedMapSpec (M K V : Type) `{EqDecision K} `{!LinkedMapOps M K V} := {
  lmi_wf : M -> Prop;
  lmi_elems : M -> list (K * V);
  lmi_nodup m : lmi_wf m -> NoDup (lmi_elems m).*1;
  lmi_new_spec : lmi_wf lmi_new /\ lmi_elems lmi_new = [];
  lmi_put_spec m k v : lmi_wf m ->
    exists m', lmi_put m k v = Ok m' /\ lmi_wf m' /\ lmi_elems m' = al_put k v (lmi_elems m);
  lmi_remove_spec m k : lmi_wf m ->
    exists m', lmi_remove m k = Ok (m', al_get k (lmi_elems m)) /\ lmi_wf m' /\
      lmi_elems m' = al_remove k (lmi_elems m);
  lmi_first_spec m : lmi_wf m -> lmi_first m = Ok (head (lmi_elems m));
  lmi_replace_spec m k k2 v : lmi_wf m ->
    exists m', lmi_replace m k k2 v = Ok (m', (al_replace k k2 v (lmi_elems m)).2) /\ lmi_wf m' /\
      lmi_elems m' = (al_replace k k2 v (lmi_elems m)).1;
}.

(** ** The sorted map, at the key type of the program ([uint64]) *)

(** The largest key below, and the smallest key above, [k]. *)
Definition is_prev {V} (m : gmap Z V) (k : Z) (r : option (Z * V)) : Prop :=
  match r with
  | Some (k', v) => m !! k' = Some v /\ (k' < k)%Z /\ forall j, is_Some (m !! j) -> (j < k)%Z -> (j <= k')%Z
  | None => forall j, is_Some (m !! j) -> (k <= j)%Z
  end.

Definition is_next {V} (m : gmap Z V) (k : Z) (r : option (Z * V)) : Prop :=
  match r with
  | Some (k', v) => m !! k' = Some v /\ (k < k')%Z /\ forall j, is_Some (m !! j) -> (k < j)%Z -> (k' <= j)%Z
  | None => forall j, is_Some (m !! j) -> (j <= k)%Z
  end.

Definition is_min {V} (m : gmap Z V) (r : option (Z * V)) : Prop :=
  match r with
  | Some (k', v) => m !! k' = Some v /\ forall j, is_Some (m !! j) -> (k' <= j)%Z
  | None => m = ∅
  end.

Class SortedMapOps (M V : Type) := {
  smi_new : M;
  smi_put : M -> Z -> V -> go M;
  smi_get : M -> Z -> go (option V);
  smi_next : M -> Z -> go (option (Z * V));
  smi_prev : M -> Z -> go (option (Z * V));
  smi_min : M -> go (option (Z * V));
  smi_remove : M -> Z -> go (M * option V);
}.

Class SortedMapSpec (M V : Type) `{!SortedMapOps M V} := {
  smi_wf : M -> Prop;
  smi_elems : M -> gmap Z V;
  smi_new_spec : smi_wf smi_new /\ smi_elems smi_new = ∅;
  smi_put_spec m k v : smi_wf m ->
    exists m', smi_put m k v = Ok m' /\ smi_wf m' /\ smi_elems m' = <[k := v]> (smi_elems m);
  smi_get_spec m k : smi_wf m -> smi_get m k = Ok (smi_elems m !! k);
  smi_next_spec m k : smi_wf m -> exists r, smi_next m k = Ok r /\ is_next (smi_elems m) k r;
  smi_prev_spec m k : smi_wf m -> exists r, smi_prev m k = Ok r /\ is_prev (smi_elems m) k r;
  smi_min_spec m : smi_wf m -> exists r, smi_min m = Ok r /\ is_min (smi_elems m) r;
  smi_remove_spec m k : smi_wf m ->
    exists m', smi_remove m k = Ok (m', smi_elems m !! k) /\ smi_wf m' /\
      smi_elems m' = delete k (smi_elems m);
}.
