(* ===== verification/LinkedMap.v ===== *)
(** * LinkedMap: the insertion-ordered hash map of src/linkedmap.go

    A map from keys to nodes of a doubly linked list with sentinel head and
    tail nodes.  The nodes live in a store owned by the map; pointers are
    store addresses, so every pointer write of the Go code is a store update.
    The read-write mutex makes each operation atomic and is not modelled.

    The operations are shown to implement an association list in insertion
    order ([al_put], [al_remove], ...): the interface other components use. *)

From stdpp Require Import prelude gmap list.
From S2P Require Import Prelude Chain Interfaces.

(** ** The code *)

Section code.
Context {K V : Type} `{Countable K} `{!Inhabited K} `{!Inhabited V}.

Record lmNode := mkLmNode {
  lm_key : K;
  lm_value : V;
  lm_next : option loc;
  lm_prev : option loc;
}.

Record LinkedMap := mkLinkedMap {
  lm_items : gmap K loc;
  lm_head : loc;
  lm_tail : loc;
  lm_size : Z;
  lm_nodes : gmap loc lmNode;  (* the store of the nodes *)
  lm_fresh : loc;              (* next unused address *)
}.

(** Store accesses: load and field writes through a possibly nil pointer. *)
Definition lm_load (m : LinkedMap) (p : option loc) : go lmNode :=
  l ← go_deref NilDereference p; go_deref NilDereference (lm_nodes m !! l).

Definition lm_store (m : LinkedMap) (l : loc) (n : lmNode) : LinkedMap :=
  mkLinkedMap (lm_items m) (lm_head m) (lm_tail m) (lm_size m) (<[l := n]> (lm_nodes m)) (lm_fresh m).

Definition lm_update (m : LinkedMap) (p : option loc) (f : lmNode -> lmNode) : go LinkedMap :=
  l ← go_deref NilDereference p;
  n ← go_deref NilDereference (lm_nodes m !! l);
  mret (lm_store m l (f n)).

Definition set_next (v : option loc) (n : lmNode) : lmNode := mkLmNode (lm_key n) (lm_value n) v (lm_prev n).
Definition set_prev (v : option loc) (n : lmNode) : lmNode := mkLmNode (lm_key n) (lm_value n) (lm_next n) v.
Definition set_value (v : V) (n : lmNode) : lmNode := mkLmNode (lm_key n) v (lm_next n) (lm_prev n).
Definition set_key (k : K) (n : lmNode) : lmNode := mkLmNode k (lm_value n) (lm_next n) (lm_prev n).

Definition lm_alloc (m : LinkedMap) (n : lmNode) : LinkedMap * loc :=
  (mkLinkedMap (lm_items m) (lm_head m) (lm_tail m) (lm_size m)
     (<[lm_fresh m := n]> (lm_nodes m)) (S (lm_fresh m)), lm_fresh m).

Definition lm_with (m : LinkedMap) (items : gmap K loc) (size : Z) : LinkedMap :=
  mkLinkedMap items (lm_head m) (lm_tail m) size (lm_nodes m) (lm_fresh m).

Definition NewLinkedMap : LinkedMap :=
  mkLinkedMap ∅ 0 1 0
    (<[0 := mkLmNode inhabitant inhabitant (Some 1) None]>
       {[1 := mkLmNode inhabitant inhabitant None (Some 0)]}) 2.

Definition Size (m : LinkedMap) : Z := lm_size m.

Definition Put (m : LinkedMap) (key : K) (value : V) : go LinkedMap :=
  match lm_items m !! key with
  | Some existing => lm_update m (Some existing) (set_value value)
  | None =>
      let '(m, newNode) := lm_alloc m (mkLmNode key value None None) in
      t ← lm_load m (Some (lm_tail m));
      let predecessor := lm_prev t in
      m ← lm_update m (Some newNode) (set_next (Some (lm_tail m)));
      m ← lm_update m (Some newNode) (set_prev predecessor);
      m ← lm_update m predecessor (set_next (Some newNode));
      m ← lm_update m (Some (lm_tail m)) (set_prev (Some newNode));
      mret (lm_with m (<[key := newNode]> (lm_items m)) (lm_size m + 1))
  end.

(** The zero value that [Get] returns for a missing key is [None] (the maps of
    the program hold pointers, whose zero value is nil). *)
Definition Get (m : LinkedMap) (key : K) : go (option V) :=
  match lm_items m !! key with
  | Some node => n ← lm_load m (Some node); mret (Some (lm_value n))
  | None => mret None
  end.

Definition Contains (m : LinkedMap) (key : K) : bool := bool_decide (is_Some (lm_items m !! key)).

Definition Remove (m : LinkedMap) (key : K) : go (LinkedMap * option V) :=
  match lm_items m !! key with
  | None => mret (m, None)
  | Some node =>
      n ← lm_load m (Some node);
      m ← lm_update m (lm_prev n) (set_next (lm_next n));
      m ← lm_update m (lm_next n) (set_prev (lm_prev n));
      mret (lm_with m (delete key (lm_items m)) (lm_size m - 1), Some (lm_value n))
  end.

Definition First (m : LinkedMap) : go (option (K * V)) :=
  h ← lm_load m (Some (lm_head m));
  if decide (lm_next h = Some (lm_tail m)) then mret None
  else n ← lm_load m (lm_next h); mret (Some (lm_key n, lm_value n)).

Definition Next (m : LinkedMap) (key : K) : go (option (K * V)) :=
  match lm_items m !! key with
  | Some node =>
      n ← lm_load m (Some node);
      if decide (lm_next n = Some (lm_tail m)) then mret None
      else n' ← lm_load m (lm_next n); mret (Some (lm_key n', lm_value n'))
  | None => mret None
  end.

Definition Previous (m : LinkedMap) (key : K) : go (option (K * V)) :=
  match lm_items m !! key with
  | Some node =>
      n ← lm_load m (Some node);
      if decide (lm_prev n = Some (lm_head m)) then mret None
      else n' ← lm_load m (lm_prev n); mret (Some (lm_key n', lm_value n'))
  | None => mret None
  end.

Definition Replace (m : LinkedMap) (oldKey newKey : K) (value : V) : go (LinkedMap * bool) :=
  match lm_items m !! oldKey with
  | None => mret (m, false)
  | Some oldNode =>
      if decide (oldKey = newKey) then
        m ← lm_update m (Some oldNode) (set_value value); mret (m, true)
      else if decide (is_Some (lm_items m !! newKey)) then mret (m, false)
      else
        m ← lm_update m (Some oldNode) (set_key newKey);
        m ← lm_update m (Some oldNode) (set_value value);
        mret (lm_with m (<[newKey := oldNode]> (delete oldKey (lm_items m))) (lm_size m), true)
  end.

(** The loop [for node := startNode; node != m.tail; node = node.next]: the
    sequence of entries it yields; the consumer may stop at any of them. *)
Fixpoint lm_walk (fuel : nat) (m : LinkedMap) (node : option loc) : go (list (K * V)) :=
  if decide (node = Some (lm_tail m)) then mret [] else
  match fuel with
  | O => Diverge
  | S fuel =>
      n ← lm_load m node;
      rest ← lm_walk fuel m (lm_next n);
      mret ((lm_key n, lm_value n) :: rest)
  end.

Definition Iterator (m : LinkedMap) (startKey : option K) : go (list (K * V)) :=
  h ← lm_load m (Some (lm_head m));
  startNode ←
    match startKey with
    | Some k =>
        match lm_items m !! k with
        | Some node =>
            n ← lm_load m (Some node);
            if decide (lm_next n = Some (lm_tail m)) then mret (lm_next h) else mret (lm_next n)
        | None => mret (lm_next h)
        end
    | None => mret (lm_next h)
    end;
  lm_walk (Z.to_nat (lm_size m)) m startNode.
End code.

Arguments lmNode : clear implicits.
Arguments LinkedMap K V {_ _}.

(** [NestedIterator]: the pairs it yields; [startKey2] applies to the first
    outer entry only. *)
Fixpoint nested_walk {K2 V1 V2 : Type} `{Countable K2}
    (getInnerMap : V1 -> LinkedMap K2 V2) (outer : list V1) (startKey2 : option K2) : go (list (V1 * V2)) :=
  match outer with
  | [] => mret []
  | outerVal :: outer =>
      inner ← Iterator (getInnerMap outerVal) startKey2;
      rest ← nested_walk getInnerMap outer None;
      mret (map (fun kv => (outerVal, kv.2)) inner ++ rest)
  end.

Definition NestedIterator {K1 K2 V1 V2 : Type} `{Countable K1} `{Countable K2}
    (outerMap : LinkedMap K1 V1) (getInnerMap : V1 -> LinkedMap K2 V2)
    (startKey1 : option K1) (startKey2 : option K2) : go (list (V1 * V2)) :=
  outer ← Iterator outerMap startKey1;
  nested_walk getInnerMap (map snd outer) startKey2.

(** ** Representation invariant *)

Section spec.
Context {K V : Type} `{Countable K} `{!Inhabited K} `{!Inhabited V}.
Implicit Types (m : LinkedMap K V) (ls : list loc) (k : K) (v : V).

Definition nextf m (l : loc) : option loc := lm_nodes m !! l ≫= lm_next.
Definition prevf m (l : loc) : option loc := lm_nodes m !! l ≫= lm_prev.
Definition keyf m (l : loc) : option K := lm_key <$> lm_nodes m !! l.

(** The entries of the nodes [ls]. *)
Definition kv (n : lmNode K V) : K * V := (lm_key n, lm_value n).
Definition kvs m ls : list (K * V) := omap (fun l => kv <$> lm_nodes m !! l) ls.

#[local] Arguments kvs : simpl never.

(** [ls] are the nodes between the sentinels, and [items] indexes them. *)
Record lm_rep m ls : Prop := {
  rep_nodup : NoDup (lm_head m :: ls ++ [lm_tail m]);
  rep_chain : dchain (nextf m) (prevf m) (lm_head m) ls (lm_tail m);
  rep_items k l : lm_items m !! k = Some l <-> l ∈ ls /\ keyf m l = Some k;
  rep_size : lm_size m = Z.of_nat (length ls);
  rep_fresh l : (lm_fresh m <= l)%nat -> lm_nodes m !! l = None;
}.

Definition lm_wf m : Prop := exists ls, lm_rep m ls.

(** The abstract content: what iterating from the start yields. *)
Definition lm_elems m : list (K * V) :=
  match Iterator m None with Ok l => l | _ => [] end.

Lemma lm_load_Some m l n : lm_nodes m !! l = Some n -> lm_load m (Some l) = Ok n.
Proof. intros Hn. unfold lm_load. simpl. by rewrite Hn. Qed.

Lemma lm_update_Some m l n f :
  lm_nodes m !! l = Some n -> lm_update m (Some l) f = Ok (lm_store m l (f n)).
Proof. intros Hn. unfold lm_update. simpl. by rewrite Hn. Qed.

Lemma nextf_node m l x : nextf m l = Some x -> exists n, lm_nodes m !! l = Some n /\ lm_next n = Some x.
Proof. unfold nextf. destruct (lm_nodes m !! l); naive_solver. Qed.

Lemma prevf_node m l x : prevf m l = Some x -> exists n, lm_nodes m !! l = Some n /\ lm_prev n = Some x.
Proof. unfold prevf. destruct (lm_nodes m !! l); naive_solver. Qed.

(** Every node of the chain is in the store, with its neighbours. *)
Lemma rep_node m l1 x l2 :
  lm_rep m (l1 ++ x :: l2) ->
  exists n, lm_nodes m !! x = Some n /\ lm_next n = head (l2 ++ [lm_tail m]) /\
    lm_prev n = last (lm_head m :: l1).
Proof.
  intros [_ Hc _ _ _]. pose proof (dchain_next _ _ _ _ _ _ _ Hc) as Hn.
  pose proof (dchain_prev _ _ _ _ _ _ _ Hc) as Hp.
  destruct (head (l2 ++ [lm_tail m])) as [y|] eqn:E; [|by destruct l2].
  apply nextf_node in Hn as (n & Hn & ?). unfold prevf in Hp. rewrite Hn in Hp. eauto.
Qed.

Lemma rep_head m ls :
  lm_rep m ls -> exists n, lm_nodes m !! lm_head m = Some n /\ lm_next n = head (ls ++ [lm_tail m]).
Proof.
  intros [_ Hc _ _ _]. pose proof (dchain_first _ _ _ _ _ Hc) as Hn.
  destruct (head (ls ++ [lm_tail m])) as [y|] eqn:E; [|by destruct ls].
  apply nextf_node in Hn as (n & ? & ?). eauto.
Qed.

Lemma rep_tail m ls :
  lm_rep m ls -> exists n, lm_nodes m !! lm_tail m = Some n /\ lm_prev n = last (lm_head m :: ls).
Proof.
  intros [_ Hc _ _ _]. pose proof (dchain_last _ _ _ _ _ Hc) as Hn.
  destruct (last (lm_head m :: ls)) as [y|] eqn:E; [|by apply last_None in E].
  apply prevf_node in Hn as (n & ? & ?). eauto.
Qed.

Lemma rep_dom m ls l : lm_rep m ls -> l ∈ lm_head m :: ls ++ [lm_tail m] -> is_Some (lm_nodes m !! l).
Proof.
  intros Hr [->|[Hl|Hl]%elem_of_app]%elem_of_cons.
  - destruct (rep_head m ls Hr) as (n & -> & _). eauto.
  - apply list_elem_of_split in Hl as (l1 & l2 & ->).
    destruct (rep_node m l1 l l2 Hr) as (n & -> & _). eauto.
  - apply list_elem_of_singleton in Hl as ->. destruct (rep_tail m ls Hr) as (n & -> & _). eauto.
Qed.

Lemma kvs_app m l1 l2 : kvs m (l1 ++ l2) = kvs m l1 ++ kvs m l2.
Proof. apply omap_app. Qed.

Lemma kvs_unfold m x l :
  kvs m (x :: l) = match lm_nodes m !! x with Some n => kv n :: kvs m l | None => kvs m l end.
Proof. unfold kvs. simpl. by destruct (lm_nodes m !! x). Qed.

Lemma kvs_cons m x l n : lm_nodes m !! x = Some n -> kvs m (x :: l) = kv n :: kvs m l.
Proof. intros Hn. by rewrite kvs_unfold, Hn. Qed.

Lemma kvs_ext m m' ls :
  (forall l, l ∈ ls -> kv <$> lm_nodes m' !! l = kv <$> lm_nodes m !! l) -> kvs m' ls = kvs m ls.
Proof.
  induction ls as [|x ls IH]; intros He; [done|]. rewrite !kvs_unfold.
  specialize (He x) as Hx. rewrite IH by set_solver. specialize (Hx ltac:(set_solver)).
  destruct (lm_nodes m' !! x), (lm_nodes m !! x); simpl in Hx; congruence.
Qed.

Lemma elem_kvs_keys m ls k : k ∈ (kvs m ls).*1 -> exists l, l ∈ ls /\ keyf m l = Some k.
Proof.
  induction ls as [|x ls IH]; [set_solver|]. rewrite kvs_unfold.
  destruct (lm_nodes m !! x) as [n|] eqn:E.
  - rewrite fmap_cons, elem_of_cons. intros [->|(l & ? & ?)%IH]; [|set_solver].
    exists x. unfold keyf. rewrite E. set_solver.
  - intros (l & ? & ?)%IH. set_solver.
Qed.

(** A key that is not indexed is not in the list. *)
Lemma rep_absent m ls k : lm_rep m ls -> lm_items m !! k = None -> k ∉ (kvs m ls).*1.
Proof.
  intros Hr Hk (l & Hl & Hkey)%elem_kvs_keys.
  assert (lm_items m !! k = Some l) by (by apply (rep_items m ls Hr)). congruence.
Qed.

(** An indexed key splits the list at its node. *)
Lemma rep_present m ls k l :
  lm_rep m ls -> lm_items m !! k = Some l ->
  exists l1 l2 n, ls = l1 ++ l :: l2 /\ lm_nodes m !! l = Some n /\ lm_key n = k /\
    kvs m ls = kvs m l1 ++ (k, lm_value n) :: kvs m l2 /\ k ∉ (kvs m l1).*1 /\ k ∉ (kvs m l2).*1.
Proof.
  intros Hr Hk. pose proof Hk as [Hl Hkey]%(rep_items m ls Hr).
  apply list_elem_of_split in Hl as (l1 & l2 & ->).
  unfold keyf in Hkey. destruct (lm_nodes m !! l) as [n|] eqn:Hn; [|done]. injection Hkey as <-.
  exists l1, l2, n. split_and!; [done..| | |].
  - by rewrite kvs_app, (kvs_cons _ _ _ n).
  - intros (l' & Hl' & Hkey)%elem_kvs_keys.
    assert (lm_items m !! lm_key n = Some l') as E by (apply (rep_items _ _ Hr); set_solver).
    rewrite Hk in E. injection E as <-. pose proof (rep_nodup _ _ Hr) as Hnd.
    rewrite NoDup_cons, NoDup_app, NoDup_app in Hnd. set_solver.
  - intros (l' & Hl' & Hkey)%elem_kvs_keys.
    assert (lm_items m !! lm_key n = Some l') as E by (apply (rep_items _ _ Hr); set_solver).
    rewrite Hk in E. injection E as <-. pose proof (rep_nodup _ _ Hr) as Hnd.
    rewrite NoDup_cons, NoDup_app, NoDup_app, NoDup_cons in Hnd. set_solver.
Qed.

(** ** Iteration *)

Lemma lm_walk_spec m l1 l2 fuel :
  lm_rep m (l1 ++ l2) -> (length l2 <= fuel)%nat ->
  lm_walk fuel m (head (l2 ++ [lm_tail m])) = Ok (kvs m l2).
Proof.
  revert l1 fuel. induction l2 as [|x l2 IH]; intros l1 fuel Hr Hf; simpl.
  - destruct fuel; simpl; by rewrite decide_True.
  - simpl in Hf. destruct fuel as [|fuel]; [lia|]. simpl.
    destruct (rep_node m l1 x l2 Hr) as (n & Hn & Hnext & _).
    rewrite decide_False; cycle 1.
    { intros [= ->]. pose proof (rep_nodup _ _ Hr) as Hnd.
      rewrite NoDup_cons, NoDup_app in Hnd. set_solver. }
    rewrite (lm_load_Some _ _ _ Hn). simpl. rewrite Hnext.
    rewrite (IH (l1 ++ [x])) by (rewrite <- ?app_assoc; auto; lia).
    simpl. by rewrite (kvs_cons _ _ _ n).
Qed.

(** Iteration visits the entries after the start key; when the key is absent or
    the last one, all of them. *)
Definition al_iter (startKey : option K) (l : list (K * V)) : list (K * V) :=
  match startKey with
  | Some k => match al_after k l with [] => l | l' => l' end
  | None => l
  end.

Lemma al_after_notin k (l : list (K * V)) : k ∉ l.*1 -> al_after k l = [].
Proof.
  induction l as [|[k' v'] l IH]; simpl; [done|]. intros.
  rewrite decide_False by set_solver. apply IH. set_solver.
Qed.

Lemma Iterator_spec m ls startKey :
  lm_rep m ls -> Iterator m startKey = Ok (al_iter startKey (kvs m ls)).
Proof.
  intros Hr. unfold Iterator. destruct (rep_head m ls Hr) as (h & Hh & Hnext).
  rewrite (lm_load_Some _ _ _ Hh). simpl. rewrite Hnext.
  pose proof (rep_size _ _ Hr) as Hsize.
  assert (lm_walk (Z.to_nat (lm_size m)) m (head (ls ++ [lm_tail m])) = Ok (kvs m ls)) as Hall
    by (apply (lm_walk_spec m []); [done | lia]).
  destruct startKey as [k|]; [|done]. simpl.
  destruct (lm_items m !! k) as [l|] eqn:Hk; simpl.
  - destruct (rep_present m ls k l Hr Hk) as (l1 & l2 & n & -> & Hn & Hkey & Hkvs & Hk1 & _).
    destruct (rep_node m l1 l l2 Hr) as (n' & Hn' & Hnext' & _). rewrite Hn in Hn'. injection Hn' as <-.
    rewrite (lm_load_Some _ _ _ Hn). simpl. rewrite Hnext'. rewrite Hkvs, al_after_middle by done.
    destruct l2 as [|y l2]; simpl.
    + rewrite decide_True by done. simpl. rewrite Hall. by rewrite Hkvs.
    + rewrite decide_False; cycle 1.
      { intros [= ->]. pose proof (rep_nodup _ _ Hr) as Hnd.
        rewrite NoDup_cons, NoDup_app in Hnd. set_solver. }
      simpl. rewrite (lm_walk_spec m (l1 ++ [l]) (y :: l2)).
      * destruct (rep_node m (l1 ++ [l]) y l2) as (ny & Hny & _); [by rewrite <- app_assoc|].
        by rewrite (kvs_cons _ _ _ ny).
      * by rewrite <- app_assoc.
      * rewrite length_app in Hsize. simpl in *. lia.
  - rewrite Hall. by rewrite al_after_notin by (by eapply rep_absent).
Qed.

Lemma lm_elems_spec m ls : lm_rep m ls -> lm_elems m = kvs m ls.
Proof. intros Hr. unfold lm_elems. by rewrite (Iterator_spec m ls). Qed.

Lemma kvs_nodup m ls : lm_rep m ls -> NoDup (kvs m ls).*1.
Proof.
  intros Hr. assert (forall l, l ∈ ls -> exists k, keyf m l = Some k /\ lm_items m !! k = Some l) as Hi.
  { intros l Hl. destruct (rep_dom m ls l Hr) as [n Hn]; [set_solver|].
    exists (lm_key n). assert (keyf m l = Some (lm_key n)) by (unfold keyf; by rewrite Hn).
    split; [done|]. by apply (rep_items _ _ Hr). }
  assert (NoDup ls) as Hnd.
  { pose proof (rep_nodup _ _ Hr) as H'. rewrite NoDup_cons, NoDup_app in H'. tauto. }
  clear Hr. induction ls as [|x ls IH]; [constructor|].
  apply NoDup_cons in Hnd as [Hx Hnd]. rewrite kvs_unfold.
  destruct (lm_nodes m !! x) as [n|] eqn:Hn; [|apply IH; set_solver].
  rewrite fmap_cons. constructor; [|apply IH; set_solver].
  intros (l & Hl & Hkey)%elem_kvs_keys.
  destruct (Hi x) as (kx & Hkx & Hix); [set_solver|]. destruct (Hi l) as (kl & Hkl & Hil); [set_solver|].
  unfold keyf in Hkx. rewrite Hn in Hkx. simpl in *. congruence.
Qed.

(** ** Updates in place *)

(** Overwriting the key and value of one node keeps the chain. *)
Lemma rep_overwrite m ls l n n' items' :
  lm_rep m ls -> lm_nodes m !! l = Some n -> lm_next n' = lm_next n -> lm_prev n' = lm_prev n ->
  (forall k l', items' !! k = Some l' <-> l' ∈ ls /\ keyf (lm_store m l n') l' = Some k) ->
  lm_rep (lm_with (lm_store m l n') items' (lm_size m)) ls.
Proof.
  intros [Hnd Hc Hi Hs Hf] Hn Hnext Hprev Hi'. constructor; [done| |done|done|].
  - eapply dchain_ext; [| |exact Hc]; intros y _; unfold nextf, prevf; simpl;
      rewrite lookup_insert; case_decide; subst; rewrite ?Hn; simpl; congruence.
  - intros l' Hl'. simpl in *. rewrite lookup_insert_ne by (intros ->; rewrite Hf in Hn; done). auto.
Qed.

Lemma kvs_store_ne m l n' ls : l ∉ ls -> kvs (lm_store m l n') ls = kvs m ls.
Proof.
  intros Hl. apply kvs_ext. intros y Hy. simpl. by rewrite lookup_insert_ne by set_solver.
Qed.

Lemma kvs_with m items' size' ls : kvs (lm_with m items' size') ls = kvs m ls.
Proof. done. Qed.

(** The nodes on both sides of a node differ from it. *)
Lemma rep_split_notin m l1 x l2 : lm_rep m (l1 ++ x :: l2) -> x ∉ l1 /\ x ∉ l2.
Proof.
  intros Hr. pose proof (rep_nodup _ _ Hr) as Hnd.
  rewrite NoDup_cons, NoDup_app, NoDup_app, NoDup_cons in Hnd. set_solver.
Qed.

Lemma kvs_store_middle m l1 l l2 n' :
  lm_rep m (l1 ++ l :: l2) -> kvs (lm_store m l n') (l1 ++ l :: l2) = kvs m l1 ++ kv n' :: kvs m l2.
Proof.
  intros Hr. destruct (rep_split_notin _ _ _ _ Hr).
  rewrite kvs_app, (kvs_cons _ l l2 n') by (simpl; apply lookup_insert_eq).
  by rewrite !kvs_store_ne.
Qed.

Lemma lm_with_id m : lm_with m (lm_items m) (lm_size m) = m.
Proof. by destruct m. Qed.

Lemma set_value_spec m ls k v l n :
  lm_rep m ls -> lm_items m !! k = Some l -> lm_nodes m !! l = Some n ->
  lm_rep (lm_store m l (set_value v n)) ls /\
  kvs (lm_store m l (set_value v n)) ls = al_put k v (kvs m ls).
Proof.
  intros Hr Hk Hn.
  destruct (rep_present m ls k l Hr Hk) as (l1 & l2 & n0 & -> & Hn0 & Hkey & Hkvs & Hk1 & _).
  rewrite Hn in Hn0. injection Hn0 as <-. split.
  - rewrite <- (lm_with_id (lm_store _ _ _)). apply (rep_overwrite m _ l n); try done.
    intros k' l'. simpl. rewrite (rep_items _ _ Hr k' l'). unfold keyf. simpl.
    rewrite lookup_insert. case_decide; subst; [|done]. by rewrite Hn.
  - rewrite kvs_store_middle by done. rewrite Hkvs, al_put_middle by done.
    unfold kv. simpl. by rewrite Hkey.
Qed.

(** ** Insertion and removal *)

Lemma last_cons_Some {A} (x : A) l : exists y, last (x :: l) = Some y.
Proof. destruct (last (x :: l)) eqn:E; [eauto|]. by apply last_None in E. Qed.

Lemma head_app_Some {A} (l : list A) x : exists y, head (l ++ [x]) = Some y.
Proof. destruct l; simpl; eauto. Qed.

(** Lookups in a store with a few updated nodes. *)
Ltac node_cases :=
  rewrite ?lookup_insert; repeat case_decide; subst;
  repeat match goal with
  | Hn : lm_nodes ?m !! ?l = Some _ |- context [lm_nodes ?m !! ?l] => rewrite Hn
  end; try done; try (exfalso; set_solver).

(** The state after linking a fresh node in front of the tail. *)
Definition lm_appended m (k : K) (v : V) (pred : loc) (p t : lmNode K V) : LinkedMap K V :=
  mkLinkedMap (<[k := lm_fresh m]> (lm_items m)) (lm_head m) (lm_tail m) (lm_size m + 1)
    (<[lm_tail m := set_prev (Some (lm_fresh m)) t]>
       (<[pred := set_next (Some (lm_fresh m)) p]>
          (<[lm_fresh m := mkLmNode k v (Some (lm_tail m)) (Some pred)]> (lm_nodes m))))
    (S (lm_fresh m)).

Lemma Put_new m ls k v :
  lm_rep m ls -> lm_items m !! k = None ->
  exists pred p t, last (lm_head m :: ls) = Some pred /\
    lm_nodes m !! pred = Some p /\ lm_nodes m !! lm_tail m = Some t /\
    pred <> lm_tail m /\ lm_fresh m ∉ lm_head m :: ls ++ [lm_tail m] /\
    Put m k v = Ok (lm_appended m k v pred p t).
Proof.
  intros Hr Hk. unfold Put. rewrite Hk. simpl.
  destruct (rep_tail m ls Hr) as (t & Ht & Htp).
  destruct (last_cons_Some (lm_head m) ls) as [pred Hpred]. rewrite Hpred in Htp.
  assert (pred ∈ lm_head m :: ls) as Hin by (by apply last_Some_elem_of).
  assert (lm_fresh m ∉ lm_head m :: ls ++ [lm_tail m]) as Hfresh.
  { intros Hf. apply (rep_dom m ls _ Hr) in Hf as [? E]. by rewrite (rep_fresh _ _ Hr) in E. }
  assert (pred <> lm_tail m) as Hne.
  { intros ->. pose proof (rep_nodup _ _ Hr) as Hnd. rewrite NoDup_cons, NoDup_app in Hnd. set_solver. }
  destruct (rep_dom m ls pred Hr) as [p Hp]; [set_solver|].
  exists pred, p, t. split_and!; try done.
  rewrite (lm_load_Some _ _ t) by (simpl; by rewrite lookup_insert_ne by set_solver). simpl.
  rewrite Htp. erewrite lm_update_Some by (simpl; apply lookup_insert_eq). simpl.
  erewrite lm_update_Some by (simpl; apply lookup_insert_eq). simpl.
  rewrite (lm_update_Some _ _ p) by (simpl; rewrite !lookup_insert_ne by set_solver; done). simpl.
  rewrite (lm_update_Some _ _ t) by (simpl; rewrite !lookup_insert_ne by set_solver; done). simpl.
  unfold lm_with, lm_store, lm_appended. simpl. do 2 f_equal. by rewrite !insert_insert_eq.
Qed.

Lemma Put_new_spec m ls k v :
  lm_rep m ls -> lm_items m !! k = None ->
  exists m', Put m k v = Ok m' /\ lm_rep m' (ls ++ [lm_fresh m]) /\
    kvs m' (ls ++ [lm_fresh m]) = kvs m ls ++ [(k, v)].
Proof.
  intros Hr Hk. destruct (Put_new m ls k v Hr Hk) as (pred & p & t & Hpred & Hp & Ht & Hne & Hfresh & ->).
  eexists. split; [done|].
  assert (pred ∈ lm_head m :: ls) as Hin by (by apply last_Some_elem_of).
  assert (forall y, y <> lm_fresh m -> kv <$> lm_nodes (lm_appended m k v pred p t) !! y = kv <$> lm_nodes m !! y)
    as Hkv.
  { intros y Hy. simpl. rewrite !lookup_insert. repeat case_decide; subst; rewrite ?Ht, ?Hp; done. }
  split.
  - pose proof (rep_nodup _ _ Hr) as Hnd. constructor; simpl.
    + rewrite <- app_assoc. simpl. rewrite app_comm_cons.
      rewrite (NoDup_Permutation_proper _ (lm_fresh m :: lm_head m :: ls ++ [lm_tail m])).
      { by constructor. }
      symmetry. apply (Permutation_middle (lm_head m :: ls) [lm_tail m]).
    + eapply (dchain_link (nextf m) (prevf m)) with (l2 := []) (p := pred) (s := lm_tail m);
        rewrite ?app_nil_r; simpl; try done; try apply (rep_chain _ _ Hr);
        unfold nextf, prevf; simpl; intros; node_cases.
    + intros k' l. rewrite elem_of_app, list_elem_of_singleton.
      destruct (decide (l = lm_fresh m)) as [->|Hl].
      * assert (keyf (lm_appended m k v pred p t) (lm_fresh m) = Some k) as ->
          by (unfold keyf; simpl; node_cases).
        rewrite lookup_insert_Some. split; [|naive_solver].
        intros [[-> _]|[_ Hi]]; [auto|]. apply (rep_items _ _ Hr) in Hi. set_solver.
      * assert (keyf (lm_appended m k v pred p t) l = keyf m l) as -> by (unfold keyf; simpl; node_cases).
        rewrite lookup_insert_Some, (rep_items _ _ Hr). split; [naive_solver|].
        intros [[?|?] Hkey]; [|done]. right. split; [|done]. intros ->.
        assert (lm_items m !! k' = Some l) by (by apply (rep_items _ _ Hr)). congruence.
    + rewrite length_app, (rep_size _ _ Hr). simpl. lia.
    + intros l Hl. pose proof (rep_fresh _ _ Hr l ltac:(lia)) as El.
      rewrite !lookup_insert_ne by (intros E; first [lia | congruence]). done.
  - rewrite kvs_app. rewrite (kvs_cons _ (lm_fresh m) [] (mkLmNode k v (Some (lm_tail m)) (Some pred)))
      by (simpl; node_cases).
    rewrite (kvs_ext m _ ls); [done|]. intros y Hy. apply Hkv. set_solver.
Qed.

Lemma Put_spec m ls k v :
  lm_rep m ls ->
  exists m' ls', Put m k v = Ok m' /\ lm_rep m' ls' /\ kvs m' ls' = al_put k v (kvs m ls).
Proof.
  intros Hr. destruct (lm_items m !! k) as [l|] eqn:Hk.
  - destruct (rep_present m ls k l Hr Hk) as (l1 & l2 & n & Hls & Hn & _).
    destruct (set_value_spec m ls k v l n Hr Hk Hn) as [Hr' Hkvs].
    exists (lm_store m l (set_value v n)), ls. split; [|done].
    unfold Put. rewrite Hk. by rewrite (lm_update_Some _ _ n).
  - destruct (Put_new_spec m ls k v Hr Hk) as (m' & Hput & Hr' & Hkvs).
    exists m', (ls ++ [lm_fresh m]). rewrite al_put_notin by (by eapply rep_absent). auto.
Qed.

(** The state after linking the node [l] out of the chain. *)
Definition lm_removed m (k : K) (pred succ : loc) (p s : lmNode K V) : LinkedMap K V :=
  mkLinkedMap (delete k (lm_items m)) (lm_head m) (lm_tail m) (lm_size m - 1)
    (<[succ := set_prev (Some pred) s]> (<[pred := set_next (Some succ) p]> (lm_nodes m))) (lm_fresh m).

Lemma Remove_found m l1 l l2 k n :
  lm_rep m (l1 ++ l :: l2) -> lm_items m !! k = Some l -> lm_nodes m !! l = Some n ->
  exists pred succ p s, last (lm_head m :: l1) = Some pred /\ head (l2 ++ [lm_tail m]) = Some succ /\
    pred <> succ /\ pred ∈ lm_head m :: l1 /\ succ ∈ l2 ++ [lm_tail m] /\
    lm_nodes m !! pred = Some p /\ lm_nodes m !! succ = Some s /\
    Remove m k = Ok (lm_removed m k pred succ p s, Some (lm_value n)).
Proof.
  intros Hr Hk Hn. destruct (rep_node m l1 l l2 Hr) as (n' & Hn' & Hnext & Hprev).
  rewrite Hn in Hn'. injection Hn' as <-.
  destruct (last_cons_Some (lm_head m) l1) as [pred Hp]. destruct (head_app_Some l2 (lm_tail m)) as [succ Hs].
  assert (pred ∈ lm_head m :: l1) as Hpin by (by apply last_Some_elem_of).
  assert (succ ∈ l2 ++ [lm_tail m]) as Hsin by (by apply head_Some_elem_of).
  assert (pred <> succ) as Hne.
  { intros ->. pose proof (rep_nodup _ _ Hr) as Hnd. rewrite <- app_assoc in Hnd. simpl in Hnd.
    rewrite app_comm_cons, NoDup_app in Hnd. set_solver. }
  destruct (rep_dom m _ pred Hr) as [p Hpn]; [set_solver|].
  destruct (rep_dom m _ succ Hr) as [s Hsn]; [set_solver|].
  exists pred, succ, p, s. split_and!; try done.
  unfold Remove. rewrite Hk. simpl. rewrite (lm_load_Some _ _ _ Hn). simpl.
  rewrite Hprev, Hnext, Hp, Hs. rewrite (lm_update_Some _ _ p) by done. simpl.
  by rewrite (lm_update_Some _ _ s) by (simpl; by rewrite lookup_insert_ne).
Qed.

Lemma Remove_found_spec m l1 l l2 k n :
  lm_rep m (l1 ++ l :: l2) -> lm_items m !! k = Some l -> lm_nodes m !! l = Some n ->
  exists m', Remove m k = Ok (m', Some (lm_value n)) /\ lm_rep m' (l1 ++ l2) /\
    kvs m' (l1 ++ l2) = kvs m l1 ++ kvs m l2.
Proof.
  intros Hr Hk Hn.
  destruct (Remove_found m l1 l l2 k n Hr Hk Hn) as
    (pred & succ & p & s & Hp & Hs & Hne & Hpin & Hsin & Hpn & Hsn & ->).
  eexists. split; [done|].
  assert (forall y, keyf (lm_removed m k pred succ p s) y = keyf m y) as Hkeyf
    by (intros y; unfold keyf; simpl; node_cases).
  pose proof (rep_nodup _ _ Hr) as Hnd. rewrite <- app_assoc in Hnd. simpl in Hnd.
  destruct (rep_split_notin _ _ _ _ Hr) as [Hl1 Hl2].
  assert (keyf m l = Some k) as Hlk by (by apply (rep_items _ _ Hr)).
  split.
  - constructor; simpl.
    + rewrite <- app_assoc. clear -Hnd. rewrite app_comm_cons in Hnd.
      rewrite <- (Permutation_middle (lm_head m :: l1)) in Hnd. by apply NoDup_cons in Hnd as [_ Hnd].
    + eapply (dchain_unlink (nextf m) (prevf m)) with (p := pred) (s := succ);
        [exact Hnd | done | done | apply (rep_chain _ _ Hr)|..];
        unfold nextf, prevf; simpl; intros; node_cases.
    + intros k' l'. rewrite Hkeyf, lookup_delete_Some, (rep_items _ _ Hr). split.
      * intros (Hne' & Hin & Hkey). split; [|done].
        assert (l' <> l) by (intros ->; congruence). set_solver.
      * intros (Hin & Hkey). split; [|set_solver].
        intros ->. assert (lm_items m !! k' = Some l') as E by (apply (rep_items _ _ Hr); set_solver).
        rewrite Hk in E. injection E as <-. set_solver.
    + rewrite (rep_size _ _ Hr), !length_app. simpl. lia.
    + intros y Hy. pose proof (rep_fresh _ _ Hr y Hy) as Ey.
      rewrite !lookup_insert_ne by congruence. done.
  - rewrite kvs_app. f_equal; apply kvs_ext; intros y Hy; simpl; node_cases.
Qed.

Lemma Remove_spec m ls k :
  lm_rep m ls ->
  exists m' ls', Remove m k = Ok (m', al_get k (kvs m ls)) /\ lm_rep m' ls' /\
    kvs m' ls' = al_remove k (kvs m ls).
Proof.
  intros Hr. destruct (lm_items m !! k) as [l|] eqn:Hk.
  - destruct (rep_present m ls k l Hr Hk) as (l1 & l2 & n & -> & Hn & _ & Hkvs & Hk1 & _).
    destruct (Remove_found_spec m l1 l l2 k n Hr Hk Hn) as (m' & Hrm & Hr' & Hkvs').
    exists m', (l1 ++ l2). rewrite Hkvs, al_get_middle, al_remove_middle by done. auto.
  - pose proof (rep_absent m ls k Hr Hk) as Hab.
    exists m, ls. rewrite al_get_notin, al_remove_notin by done. split; [|done].
    unfold Remove. by rewrite Hk.
Qed.

(** ** Queries and renaming *)

Lemma Get_spec m ls k : lm_rep m ls -> Get m k = Ok (al_get k (kvs m ls)).
Proof.
  intros Hr. unfold Get. destruct (lm_items m !! k) as [l|] eqn:Hk.
  - destruct (rep_present m ls k l Hr Hk) as (l1 & l2 & n & -> & Hn & _ & -> & Hk1 & _).
    rewrite (lm_load_Some _ _ _ Hn), al_get_middle by done. done.
  - by rewrite al_get_notin by (by eapply rep_absent).
Qed.

Lemma Contains_spec m ls k : lm_rep m ls -> Contains m k = al_mem k (kvs m ls).
Proof.
  intros Hr. unfold Contains, al_mem. apply bool_decide_ext.
  destruct (lm_items m !! k) as [l|] eqn:Hk.
  - destruct (rep_present m ls k l Hr Hk) as (l1 & l2 & n & -> & Hn & _ & -> & Hk1 & _).
    rewrite al_get_middle by done. split; eauto.
  - rewrite al_get_notin by (by eapply rep_absent). done.
Qed.

(** Following [next] from a node before [l2] reaches the first entry of [l2]. *)
Lemma next_entry m l1 l2 :
  lm_rep m (l1 ++ l2) ->
  (if decide (head (l2 ++ [lm_tail m]) = Some (lm_tail m)) then mret None
   else n' ← lm_load m (head (l2 ++ [lm_tail m])); mret (Some (lm_key n', lm_value n')))
  = Ok (head (kvs m l2)).
Proof.
  intros Hr. destruct l2 as [|x l2]; simpl; [by rewrite decide_True|].
  destruct (rep_node m l1 x l2 Hr) as (n & Hn & _). rewrite decide_False; cycle 1.
  { intros [= ->]. pose proof (rep_nodup _ _ Hr) as Hnd. rewrite NoDup_cons, NoDup_app in Hnd. set_solver. }
  rewrite (lm_load_Some _ _ _ Hn). by rewrite (kvs_cons _ _ _ n).
Qed.

Lemma First_spec m ls : lm_rep m ls -> First m = Ok (head (kvs m ls)).
Proof.
  intros Hr. unfold First. destruct (rep_head m ls Hr) as (h & Hh & Hnext).
  rewrite (lm_load_Some _ _ _ Hh). simpl. rewrite Hnext. by apply (next_entry m []).
Qed.

Lemma Next_spec m ls k : lm_rep m ls -> Next m k = Ok (al_next k (kvs m ls)).
Proof.
  intros Hr. unfold Next. destruct (lm_items m !! k) as [l|] eqn:Hk.
  - destruct (rep_present m ls k l Hr Hk) as (l1 & l2 & n & -> & Hn & _ & -> & Hk1 & _).
    destruct (rep_node m l1 l l2 Hr) as (n' & Hn' & Hnext & _). rewrite Hn in Hn'. injection Hn' as <-.
    rewrite (lm_load_Some _ _ _ Hn), al_next_middle by done. simpl. rewrite Hnext.
    apply (next_entry m (l1 ++ [l])). by rewrite <- app_assoc.
  - by rewrite al_next_notin by (by eapply rep_absent).
Qed.

Lemma Previous_spec m ls k : lm_rep m ls -> Previous m k = Ok (al_prev k (kvs m ls)).
Proof.
  intros Hr. unfold Previous. destruct (lm_items m !! k) as [l|] eqn:Hk.
  - destruct (rep_present m ls k l Hr Hk) as (l1 & l2 & n & -> & Hn & _ & -> & Hk1 & _).
    destruct (rep_node m l1 l l2 Hr) as (n' & Hn' & _ & Hprev). rewrite Hn in Hn'. injection Hn' as <-.
    rewrite (lm_load_Some _ _ _ Hn), al_prev_middle by done. simpl. rewrite Hprev.
    destruct l1 as [|x l1 _] using rev_ind; [by rewrite decide_True|].
    rewrite app_comm_cons, last_snoc. rewrite decide_False; cycle 1.
    { intros [= ->]. pose proof (rep_nodup _ _ Hr) as Hnd. rewrite NoDup_cons in Hnd. set_solver. }
    rewrite <- app_assoc in Hr. destruct (rep_node m l1 x _ Hr) as (nx & Hnx & _).
    rewrite (lm_load_Some _ _ _ Hnx), kvs_app, (kvs_cons _ _ _ nx), last_app by done. done.
  - by rewrite al_prev_notin by (by eapply rep_absent).
Qed.

Lemma al_rename_same k v (l : list (K * V)) : al_mem k l = true -> al_rename k k v l = al_put k v l.
Proof.
  intros [v0 Hv]%bool_decide_eq_true. apply al_get_split in Hv as (l1 & l2 & -> & ?).
  by rewrite al_rename_middle, al_put_middle.
Qed.

Lemma Replace_spec m ls k k2 v :
  lm_rep m ls ->
  exists m' ls', Replace m k k2 v = Ok (m', (al_replace k k2 v (kvs m ls)).2) /\ lm_rep m' ls' /\
    kvs m' ls' = (al_replace k k2 v (kvs m ls)).1.
Proof.
  intros Hr. unfold Replace, al_replace. rewrite <- !(Contains_spec m ls) by done. unfold Contains.
  destruct (lm_items m !! k) as [l|] eqn:Hk; simpl; [|by eauto].
  destruct (rep_present m ls k l Hr Hk) as (l1 & l2 & n & Hls & Hn & Hkey & Hkvs & Hk1 & Hk2).
  assert (al_mem k (kvs m ls) = true) as Hmem by (rewrite <- (Contains_spec m ls) by done; unfold Contains; by rewrite Hk).
  case_decide; subst k2 || idtac.
  { destruct (set_value_spec m ls k v l n Hr Hk Hn) as [Hr' Hkvs'].
    rewrite (lm_update_Some _ _ n) by done. simpl. rewrite al_rename_same by done. eauto. }
  destruct (lm_items m !! k2) as [l'|] eqn:Hk2'; simpl; [by eauto|].
  rewrite (lm_update_Some _ _ n) by done. simpl.
  erewrite lm_update_Some by (simpl; apply lookup_insert_eq). simpl.
  eexists _, ls. split; [done|]. subst ls.
  assert (lm_store (lm_store m l (set_key k2 n)) l (set_value v (set_key k2 n)) =
          lm_store m l (set_value v (set_key k2 n))) as ->
    by (unfold lm_store; simpl; by rewrite insert_insert_eq).
  split.
  - apply (rep_overwrite m _ l n); try done. intros k' y.
    assert (keyf (lm_store m l (set_value v (set_key k2 n))) y = if decide (y = l) then Some k2 else keyf m y) as ->
      by (unfold keyf; simpl; rewrite lookup_insert; repeat case_decide; congruence || done).
    pose proof (rep_items _ _ Hr) as Hi.
    assert (keyf m l = Some k) as Hlk by (by apply Hi). case_decide as Hy.
    + subst y. rewrite lookup_insert_Some, lookup_delete_Some, Hi. split; [|set_solver].
      intros [[-> _]|(_ & Hne & Hin & E)]; [set_solver | congruence].
    + rewrite lookup_insert_Some, lookup_delete_Some, Hi. split; [naive_solver|].
      intros [Hin E]. right. split_and!; try done.
      * intros ->. assert (lm_items m !! k' = Some y) by (by apply Hi). congruence.
      * intros ->. assert (lm_items m !! k' = Some y) by (by apply Hi). congruence.
  - rewrite kvs_with, kvs_store_middle by done. by rewrite Hkvs, al_rename_middle.
Qed.

Lemma NewLinkedMap_rep : lm_rep (NewLinkedMap (K := K) (V := V)) [] /\ kvs (NewLinkedMap (K := K) (V := V)) [] = [].
Proof.
  split; [|done]. constructor; simpl.
  - rewrite NoDup_cons, list_elem_of_singleton. split; [lia | apply NoDup_singleton].
  - done.
  - intros k l. rewrite lookup_empty. set_solver.
  - done.
  - intros l Hl. rewrite lookup_insert_ne, lookup_singleton_ne by lia. done.
Qed.

Lemma lm_elems_wf m ls : lm_rep m ls -> lm_wf m /\ lm_elems m = kvs m ls.
Proof. intros Hr. split; [by exists ls | by apply lm_elems_spec]. Qed.
End spec.

(** ** The interface of the send buffer *)

#[export] Instance LinkedMap_ops {K V} `{Countable K} `{!Inhabited K} `{!Inhabited V} :
  LinkedMapOps (LinkedMap K V) K V := {|
  lmi_new := NewLinkedMap;
  lmi_put := Put;
  lmi_remove := Remove;
  lmi_first := First;
  lmi_replace := Replace;
|}.

Section instance.
Context {K V : Type} `{Countable K} `{!Inhabited K} `{!Inhabited V}.
Implicit Types (m : LinkedMap K V) (k : K) (v : V).

Lemma lm_nodup m : lm_wf m -> NoDup (lm_elems m).*1.
Proof. intros [ls Hr]. rewrite (lm_elems_spec m ls Hr). by apply kvs_nodup. Qed.

Lemma lm_new_ok : lm_wf (NewLinkedMap (K := K) (V := V)) /\ lm_elems (NewLinkedMap (K := K) (V := V)) = [].
Proof. destruct (NewLinkedMap_rep (K := K) (V := V)) as [Hr Hk]. rewrite <- Hk. by apply lm_elems_wf. Qed.

Lemma lm_put_ok m k v : lm_wf m ->
  exists m', Put m k v = Ok m' /\ lm_wf m' /\ lm_elems m' = al_put k v (lm_elems m).
Proof.
  intros [ls Hr]. rewrite (lm_elems_spec m ls Hr).
  destruct (Put_spec m ls k v Hr) as (m' & ls' & ? & Hr' & <-). eauto using lm_elems_wf.
Qed.

Lemma lm_remove_ok m k : lm_wf m ->
  exists m', Remove m k = Ok (m', al_get k (lm_elems m)) /\ lm_wf m' /\
    lm_elems m' = al_remove k (lm_elems m).
Proof.
  intros [ls Hr]. rewrite (lm_elems_spec m ls Hr).
  destruct (Remove_spec m ls k Hr) as (m' & ls' & ? & Hr' & <-). eauto using lm_elems_wf.
Qed.

Lemma lm_get_ok m k : lm_wf m -> Get m k = Ok (al_get k (lm_elems m)).
Proof. intros [ls Hr]. rewrite (lm_elems_spec m ls Hr). by apply Get_spec. Qed.

Lemma lm_iterate_ok m : lm_wf m -> Iterator m None = Ok (lm_elems m).
Proof. intros [ls Hr]. rewrite (lm_elems_spec m ls Hr). by rewrite (Iterator_spec m ls None Hr). Qed.

Lemma lm_first_ok m : lm_wf m -> First m = Ok (head (lm_elems m)).
Proof. intros [ls Hr]. rewrite (lm_elems_spec m ls Hr). by apply First_spec. Qed.

Lemma lm_replace_ok m k k2 v : lm_wf m ->
  exists m', Replace m k k2 v = Ok (m', (al_replace k k2 v (lm_elems m)).2) /\ lm_wf m' /\
    lm_elems m' = (al_replace k k2 v (lm_elems m)).1.
Proof.
  intros [ls Hr]. rewrite (lm_elems_spec m ls Hr).
  destruct (Replace_spec m ls k k2 v Hr) as (m' & ls' & ? & Hr' & <-). eauto using lm_elems_wf.
Qed.

#[export] Instance LinkedMap_spec : LinkedMapSpec (LinkedMap K V) K V := {|
  lmi_wf := lm_wf;
  lmi_elems := lm_elems;
  lmi_nodup := lm_nodup;
  lmi_new_spec := lm_new_ok;
  lmi_put_spec := lm_put_ok;
  lmi_remove_spec := lm_remove_ok;
  lmi_first_spec := lm_first_ok;
  lmi_replace_spec := lm_replace_ok;
|}.
End instance.

(** ** Properties *)

(** C36. Refinement: on every well-formed linked map, each operation of the
    pointer structure returns (no nil dereference, iteration ends), keeps the
    structure well-formed, and acts on its content as the operation of an
    association list in insertion order. *)
Theorem linkedmap_refines_alist {K V} `{Countable K} `{!Inhabited K} `{!Inhabited V}
    (m : LinkedMap K V) (k k2 : K) (v : V) (start : option K) :
  lm_wf m ->
  NoDup (lm_elems m).*1 /\ Size m = len (lm_elems m) /\
  (exists m', Put m k v = Ok m' /\ lm_wf m' /\ lm_elems m' = al_put k v (lm_elems m)) /\
  (exists m', Remove m k = Ok (m', al_get k (lm_elems m)) /\ lm_wf m' /\
     lm_elems m' = al_remove k (lm_elems m)) /\
  (exists m', Replace m k k2 v = Ok (m', (al_replace k k2 v (lm_elems m)).2) /\ lm_wf m' /\
     lm_elems m' = (al_replace k k2 v (lm_elems m)).1) /\
  Get m k = Ok (al_get k (lm_elems m)) /\ Contains m k = al_mem k (lm_elems m) /\
  First m = Ok (head (lm_elems m)) /\
  Next m k = Ok (al_next k (lm_elems m)) /\ Previous m k = Ok (al_prev k (lm_elems m)) /\
  Iterator m start = Ok (al_iter start (lm_elems m)).
Proof.
  intros Hwf. pose proof (lm_nodup m Hwf). pose proof (lm_put_ok m k v Hwf).
  pose proof (lm_remove_ok m k Hwf). pose proof (lm_replace_ok m k k2 v Hwf).
  destruct Hwf as [ls Hr]. split_and!; try done; rewrite (lm_elems_spec m ls Hr).
  - rewrite (rep_size _ _ Hr : Size m = _). unfold kvs. f_equal.
    assert (forall l, l ∈ ls -> is_Some (lm_nodes m !! l)) as Hd
      by (intros l Hl; apply (rep_dom m ls l Hr); set_solver).
    clear -Hd. induction ls as [|x ls IH]; [done|]. simpl.
    destruct (Hd x) as [n ->]; [set_solver|]. simpl. f_equal. apply IH. set_solver.
  - by apply Get_spec.
  - by apply Contains_spec.
  - by apply First_spec.
  - by apply Next_spec.
  - by apply Previous_spec.
  - by apply Iterator_spec.
Qed.

Lemma linkedmap_refines_alist_witness :
  exists m, Put (NewLinkedMap (K := Z) (V := Z)) 5%Z 50%Z = Ok m /\ lm_elems m = [(5, 50)]%Z.
Proof.
  destruct (linkedmap_refines_alist (NewLinkedMap (K := Z) (V := Z)) 5%Z 5%Z 50%Z None)
    as (_ & _ & (m & Hm & _ & He) & _).
  - exists []. apply NewLinkedMap_rep.
  - exists m. split; [exact Hm|]. rewrite He. reflexivity.
Defined.

(** Nested iteration (the order in which the listener flushes connections and
    streams): from nil start keys it terminates and yields every pair of an
    outer entry and an inner entry exactly once, in insertion order of both
    maps; a start key that is present and not last drops the entries up to and
    including it (otherwise iteration starts at the first entry), and the inner
    start key applies to the first outer entry only. *)
Theorem nested_iterator_order {K1 K2 V1 V2} `{Countable K1} `{Countable K2} `{!Inhabited K1} `{!Inhabited V1}
    `{!Inhabited K2} `{!Inhabited V2}
    (outer : LinkedMap K1 V1) (inner : V1 -> LinkedMap K2 V2) (start1 : option K1) (start2 : option K2) :
  lm_wf outer -> (forall kv, kv ∈ lm_elems outer -> lm_wf (inner kv.2)) ->
  NestedIterator outer inner start1 start2 =
    Ok (match map snd (al_iter start1 (lm_elems outer)) with
        | [] => []
        | v1 :: rest =>
            map (fun kv => (v1, kv.2)) (al_iter start2 (lm_elems (inner v1)))
            ++ concat (map (fun v => map (fun kv => (v, kv.2)) (lm_elems (inner v))) rest)
        end).
Proof.
  intros [ls Hr] Hin. unfold NestedIterator. rewrite (Iterator_spec outer ls start1 Hr).
  rewrite <- (lm_elems_spec outer ls Hr). cbn [mbind go_bind].
  assert (forall v, v ∈ map snd (al_iter start1 (lm_elems outer)) -> lm_wf (inner v)) as Hwf.
  { intros v (e & -> & He)%list_elem_of_fmap. apply Hin. revert He. unfold al_iter.
    destruct start1 as [k|]; [|done].
    assert (forall e, e ∈ al_after k (lm_elems outer) -> e ∈ lm_elems outer) as Haft.
    { generalize (lm_elems outer). intros l e'. induction l as [|[k' v'] l IH]; simpl; [done|].
      case_decide; set_solver. }
    destruct (al_after k (lm_elems outer)); [done|]. apply Haft. }
  revert Hwf. generalize (map snd (al_iter start1 (lm_elems outer))). intros vs Hwf.
  assert (forall vs, (forall v, v ∈ vs -> lm_wf (inner v)) -> nested_walk inner vs None =
    Ok (concat (map (fun v => map (fun kv => (v, kv.2)) (lm_elems (inner v))) vs))) as Hrest.
  { clear. induction vs as [|v vs IH]; intros Hwf; [done|]. cbn [nested_walk].
    destruct (Hwf v) as [l Hl]; [set_solver|]. rewrite (Iterator_spec _ l) by done. cbn [mbind go_bind].
    rewrite IH by set_solver. simpl. by rewrite (lm_elems_spec _ l). }
  destruct vs as [|v vs]; [done|]. cbn [nested_walk].
  destruct (Hwf v) as [l Hl]; [set_solver|]. rewrite (Iterator_spec _ l) by done. cbn [mbind go_bind].
  rewrite Hrest by set_solver. by rewrite (lm_elems_spec _ l).
Qed.

(** Two connections, the first with two streams. *)
Definition put_all (l : list (Z * Z)) : go (LinkedMap Z Z) :=
  foldl (fun m e => m ← m; Put m e.1 e.2) (Ok NewLinkedMap) l.
Definition from_list (l : list (Z * Z)) : LinkedMap Z Z := match put_all l with Ok m => m | _ => NewLinkedMap end.

Lemma from_list_snoc l k v : lm_wf (from_list l) -> put_all l = Ok (from_list l) ->
  put_all (l ++ [(k, v)]) = Ok (from_list (l ++ [(k, v)])) /\ lm_wf (from_list (l ++ [(k, v)])) /\
  lm_elems (from_list (l ++ [(k, v)])) = al_put k v (lm_elems (from_list l)).
Proof.
  intros Hwf E. destruct (lm_put_ok (from_list l) k v Hwf) as (m' & Hp & Hwf' & He).
  assert (put_all (l ++ [(k, v)]) = Ok m') as Eq.
  { unfold put_all. rewrite foldl_app. cbn [foldl]. fold (put_all l). rewrite E. exact Hp. }
  assert (from_list (l ++ [(k, v)]) = m') as -> by (unfold from_list; by rewrite Eq). done.
Qed.

Lemma from_list_nil : lm_wf (from_list []) /\ put_all [] = Ok (from_list []) /\ lm_elems (from_list []) = [].
Proof. split_and!; [apply lm_new_ok | done | apply lm_new_ok]. Qed.

Lemma from_list_two a b c d : lm_wf (from_list [(a, b); (c, d)]) /\
  lm_elems (from_list [(a, b); (c, d)]) = al_put c d [(a, b)].
Proof.
  destruct from_list_nil as (H1 & H2 & H3). destruct (from_list_snoc [] a b H1 H2) as (H4 & H5 & H6).
  rewrite H3 in H6. cbn [app] in H4, H5, H6. destruct (from_list_snoc [(a, b)] c d H5 H4) as (_ & H7 & H8).
  rewrite H6 in H8. by split.
Qed.

Definition inner_of (v : Z) : LinkedMap Z Z :=
  if decide (v = 10%Z) then from_list [(1, 100); (2, 200)]%Z else from_list [(1, 300); (3, 400)]%Z.

Lemma nested_iterator_order_witness :
  NestedIterator (from_list [(7, 10); (8, 20)]%Z) inner_of None (Some 1%Z) =
    Ok [(10, 200); (20, 300); (20, 400)]%Z.
Proof.
  rewrite (nested_iterator_order (from_list [(7, 10); (8, 20)]%Z) inner_of None (Some 1%Z)).
  - vm_compute. reflexivity.
  - apply from_list_two.
  - intros kv _. unfold inner_of. case_decide; apply from_list_two.
Defined.
