(* ===== verification/SortedMap.v ===== *)
(** * SortedMap: the skip list of src/sortedmap.go

    A map from keys to nodes that are linked twice: by [after]/[prev] in key
    order between sentinel head and tail nodes, and by the [next] slices of a
    skip list.  The node store is explicit as in LinkedMap.v.  The generic key
    type is instantiated at [uint64], the only one the program uses.  The
    read-write mutex makes each operation atomic and is not modelled.

    The operations are shown to implement a finite map with neighbour queries
    ([SortedMapSpec]): the interface the receive buffer uses. *)

From stdpp Require Import prelude gmap list sorting.
From S2P Require Import Prelude Chain Interfaces.

(** ** The code *)

Definition maxLevel : nat := 32.
Definition nodesPerLevel : Z := 4.

Section code.
Context {V : Type} `{!Inhabited V}.

Record smNode := mkSmNode {
  sm_key : Z;
  sm_value : V;
  sm_next : list (option loc);  (* skip list levels *)
  sm_after : option loc;        (* successor in key order *)
  sm_prev : option loc;         (* predecessor in key order *)
}.

Record SortedMap := mkSortedMap {
  sm_items : gmap Z loc;
  sm_head : loc;
  sm_tail : loc;
  sm_level : nat;
  sm_size : Z;
  sm_nodes : gmap loc smNode;  (* the store of the nodes *)
  sm_fresh : loc;              (* next unused address *)
}.

(** Store accesses through a possibly nil pointer. *)
Definition sm_load (m : SortedMap) (p : option loc) : go smNode :=
  l ← go_deref NilDereference p; go_deref NilDereference (sm_nodes m !! l).

Definition sm_store (m : SortedMap) (l : loc) (n : smNode) : SortedMap :=
  mkSortedMap (sm_items m) (sm_head m) (sm_tail m) (sm_level m) (sm_size m)
    (<[l := n]> (sm_nodes m)) (sm_fresh m).

Definition sm_update (m : SortedMap) (p : option loc) (f : smNode -> smNode) : go SortedMap :=
  l ← go_deref NilDereference p;
  n ← go_deref NilDereference (sm_nodes m !! l);
  mret (sm_store m l (f n)).

(** [p.next[i]] and [p.next[i] = v]. *)
Definition sm_next_at (m : SortedMap) (p : option loc) (i : nat) : go (option loc) :=
  n ← sm_load m p; go_deref IndexOutOfRange (sm_next n !! i).

Definition sm_set_next (m : SortedMap) (p : option loc) (i : nat) (v : option loc) : go SortedMap :=
  n ← sm_load m p;
  if decide (i < length (sm_next n)) then
    sm_update m p (fun n => mkSmNode (sm_key n) (sm_value n) (<[i := v]> (sm_next n)) (sm_after n) (sm_prev n))
  else Panic IndexOutOfRange.

Definition set_after (v : option loc) (n : smNode) : smNode :=
  mkSmNode (sm_key n) (sm_value n) (sm_next n) v (sm_prev n).
Definition set_prev (v : option loc) (n : smNode) : smNode :=
  mkSmNode (sm_key n) (sm_value n) (sm_next n) (sm_after n) v.
Definition set_value (v : V) (n : smNode) : smNode :=
  mkSmNode (sm_key n) v (sm_next n) (sm_after n) (sm_prev n).

Definition sm_with (m : SortedMap) (items : gmap Z loc) (level : nat) (size : Z) : SortedMap :=
  mkSortedMap items (sm_head m) (sm_tail m) level size (sm_nodes m) (sm_fresh m).

Definition NewSortedMap : SortedMap :=
  mkSortedMap ∅ 0 1 1 0
    (<[0 := mkSmNode 0 inhabitant (replicate maxLevel None) (Some 1) None]>
       {[1 := mkSmNode 0 inhabitant [] None (Some 0)]}) 2.

(** [for pos%nodesPerLevel == 0 { level++; pos /= nodesPerLevel }]. *)
Fixpoint node_level (fuel : nat) (pos : Z) (level : nat) : go nat :=
  match fuel with
  | O => Diverge
  | S fuel =>
      if decide (pos mod nodesPerLevel = 0)%Z then node_level fuel (pos / nodesPerLevel) (S level)
      else mret level
  end.

Definition getNodeLevel (m : SortedMap) : go nat :=
  let pos := (sm_size m + 1)%Z in
  level ← node_level (S (Z.to_nat (Z.log2 pos))) pos 1;
  mret (if decide (maxLevel < level) then maxLevel else level).

Definition Size (m : SortedMap) : Z := sm_size m.

(** The inner search loop at level [i]: advance while the next node of the
    level exists, is not the tail and has a key that passes the test. *)
Fixpoint sm_advance (fuel : nat) (m : SortedMap) (test : Z -> bool) (i : nat) (current : loc) : go loc :=
  nx ← sm_next_at m (Some current) i;
  match nx with
  | None => mret current
  | Some l =>
      if decide (l = sm_tail m) then mret current else
      n ← sm_load m (Some l);
      if test (sm_key n) then
        match fuel with O => Diverge | S fuel => sm_advance fuel m test i l end
      else mret current
  end.

(** The outer search loop [for i := level - 1; i >= 0; i--]; [update[i]] is the
    node where level [i] was left. *)
Fixpoint sm_search (m : SortedMap) (test : Z -> bool) (levels : nat) (current : loc)
    (update : list (option loc)) : go (loc * list (option loc)) :=
  match levels with
  | O => mret (current, update)
  | S i =>
      current ← sm_advance (Z.to_nat (sm_size m)) m test i current;
      sm_search m test i current (<[i := Some current]> update)
  end.

(** [for i := 0; i < level; i++ { newNode.next[i] = update[i].next[i];
    update[i].next[i] = newNode }]. *)
Fixpoint sm_link (m : SortedMap) (newNode : loc) (update : list (option loc)) (i count : nat) : go SortedMap :=
  match count with
  | O => mret m
  | S count =>
      u ← go_deref IndexOutOfRange (update !! i);
      x ← sm_next_at m u i;
      m ← sm_set_next m (Some newNode) i x;
      m ← sm_set_next m u i (Some newNode);
      sm_link m newNode update (S i) count
  end.

(** The four assignments that put the node in key order after its predecessor. *)
Definition sm_splice (m : SortedMap) (predecessor : option loc) (newNode : loc) : go SortedMap :=
  p ← sm_load m predecessor;
  let successor := sm_after p in
  m ← sm_update m (Some newNode) (set_after successor);
  m ← sm_update m (Some newNode) (set_prev predecessor);
  m ← sm_update m predecessor (set_after (Some newNode));
  sm_update m successor (set_prev (Some newNode)).

(** [if level > m.level { for i := m.level; i < level; i++ { update[i] = m.head };
    m.level = level }]: the update slice and the level. *)
Definition sm_raise (m : SortedMap) (level : nat) (update : list (option loc)) : list (option loc) * nat :=
  if decide (sm_level m < level)
  then (imap (fun i u => if decide (sm_level m <= i < level) then Some (sm_head m) else u) update, level)
  else (update, sm_level m).

Definition Put (m : SortedMap) (key : Z) (value : V) : go SortedMap :=
  match sm_items m !! key with
  | Some existing => sm_update m (Some existing) (set_value value)
  | None =>
      '(_, update) ← sm_search m (fun k => k <? key)%Z (sm_level m) (sm_head m) (replicate maxLevel None);
      level ← getNodeLevel m;
      let '(update, mlevel) := sm_raise m level update in
      let newNode := sm_fresh m in
      let m := mkSortedMap (sm_items m) (sm_head m) (sm_tail m) mlevel (sm_size m)
                 (<[newNode := mkSmNode key value (replicate level None) None None]> (sm_nodes m)) (S newNode) in
      m ← sm_link m newNode update 0 level;
      predecessor ← go_deref IndexOutOfRange (update !! 0);
      m ← sm_splice m predecessor newNode;
      mret (sm_with m (<[key := newNode]> (sm_items m)) (sm_level m) (sm_size m + 1))
  end.

Definition Get (m : SortedMap) (key : Z) : go (option V) :=
  match sm_items m !! key with
  | Some node => n ← sm_load m (Some node); mret (Some (sm_value n))
  | None => mret None
  end.

Definition Contains (m : SortedMap) (key : Z) : bool := bool_decide (is_Some (sm_items m !! key)).

(** [node.after] unless it is the tail, and its entry. *)
Definition sm_entry_after (m : SortedMap) (n : smNode) : go (option (Z * V)) :=
  if decide (sm_after n = Some (sm_tail m)) then mret None
  else n' ← sm_load m (sm_after n); mret (Some (sm_key n', sm_value n')).

Definition Next (m : SortedMap) (key : Z) : go (option (Z * V)) :=
  match sm_items m !! key with
  | Some node => n ← sm_load m (Some node); sm_entry_after m n
  | None =>
      '(current, _) ← sm_search m (fun k => k <=? key)%Z (sm_level m) (sm_head m) (replicate maxLevel None);
      n ← sm_load m (Some current);
      sm_entry_after m n
  end.

Definition Prev (m : SortedMap) (key : Z) : go (option (Z * V)) :=
  match sm_items m !! key with
  | Some node =>
      n ← sm_load m (Some node);
      if decide (sm_prev n = Some (sm_head m)) then mret None
      else n' ← sm_load m (sm_prev n); mret (Some (sm_key n', sm_value n'))
  | None =>
      '(current, _) ← sm_search m (fun k => k <? key)%Z (sm_level m) (sm_head m) (replicate maxLevel None);
      if decide (current = sm_head m) then mret None
      else n ← sm_load m (Some current); mret (Some (sm_key n, sm_value n))
  end.

Definition Min (m : SortedMap) : go (option (Z * V)) :=
  h ← sm_load m (Some (sm_head m)); sm_entry_after m h.

(** [for i := 0; i < m.level; i++ { if update[i].next[i] != targetNode { continue };
    update[i].next[i] = targetNode.next[i] }]. *)
Fixpoint sm_unlink (m : SortedMap) (target : loc) (update : list (option loc)) (i count : nat) : go SortedMap :=
  match count with
  | O => mret m
  | S count =>
      u ← go_deref IndexOutOfRange (update !! i);
      x ← sm_next_at m u i;
      m ← (if decide (x = Some target) then
             y ← sm_next_at m (Some target) i; sm_set_next m u i y
           else mret m);
      sm_unlink m target update (S i) count
  end.

(** [for m.level > 1 && m.head.next[m.level-1] == nil { m.level-- }]. *)
Fixpoint sm_lower (m : SortedMap) (level : nat) : go nat :=
  match level with
  | S (S _ as i) =>
      x ← sm_next_at m (Some (sm_head m)) i;
      match x with None => sm_lower m i | Some _ => mret level end
  | _ => mret level
  end.

Definition Remove (m : SortedMap) (key : Z) : go (SortedMap * option V) :=
  match sm_items m !! key with
  | None => mret (m, None)
  | Some target =>
      t ← sm_load m (Some target);
      '(current, update) ← sm_search m (fun k => k <? key)%Z (sm_level m) (sm_head m) (replicate maxLevel None);
      x ← sm_next_at m (Some current) 0;
      m ← (if decide (x = Some target) then sm_unlink m target update 0 (sm_level m) else mret m);
      m ← sm_update m (sm_prev t) (set_after (sm_after t));
      m ← sm_update m (sm_after t) (set_prev (sm_prev t));
      level ← sm_lower m (sm_level m);
      mret (sm_with m (delete key (sm_items m)) level (sm_size m - 1), Some (sm_value t))
  end.
End code.

Arguments smNode : clear implicits.
Arguments SortedMap : clear implicits.


(** ** Representation invariant *)

Section spec.
Context {V : Type} `{!Inhabited V}.
Implicit Types (m : SortedMap V) (ls : list loc) (k : Z) (v : V) (n : smNode V).

Definition afterf m (l : loc) : option loc := sm_nodes m !! l ≫= sm_after.
Definition prevf m (l : loc) : option loc := sm_nodes m !! l ≫= sm_prev.
Definition nextf m (i : nat) (l : loc) : option (option loc) := n ← sm_nodes m !! l; sm_next n !! i.
(** Height, key and value of a node. *)
Definition hgt m (l : loc) : nat := match sm_nodes m !! l with Some n => length (sm_next n) | None => 0 end.
Definition key_of m (l : loc) : Z := match sm_nodes m !! l with Some n => sm_key n | None => 0%Z end.
Definition val_of m (l : loc) : option V := sm_value <$> sm_nodes m !! l.

(** The nodes of [ls] that take part in level [i]. *)
Definition lvl m (i : nat) ls : list loc := filter (fun l => i < hgt m l) ls.

Record sm_rep m ls : Prop := {
  srep_nodup : NoDup (sm_head m :: ls ++ [sm_tail m]);
  srep_chain : dchain (afterf m) (prevf m) (sm_head m) ls (sm_tail m);
  srep_sorted : StronglySorted (fun a b => key_of m a < key_of m b)%Z ls;
  srep_items k l : sm_items m !! k = Some l <-> l ∈ ls /\ key_of m l = k;
  srep_size : sm_size m = Z.of_nat (length ls);
  srep_fresh l : (sm_fresh m <= l)%nat -> sm_nodes m !! l = None;
  srep_level : (1 <= sm_level m <= maxLevel)%nat;
  srep_head_hgt : hgt m (sm_head m) = maxLevel;
  srep_hgt l : l ∈ ls -> (1 <= hgt m l <= sm_level m)%nat;
  srep_levels i : (i < maxLevel)%nat -> schain (nextf m i) (sm_head m) (lvl m i ls);
}.

Definition sm_wf m : Prop := exists ls, sm_rep m ls.

(** The abstract content. *)
Definition sm_elems m : gmap Z V := omap (fun l => sm_value <$> sm_nodes m !! l) (sm_items m).

Lemma sm_load_Some m l n : sm_nodes m !! l = Some n -> sm_load m (Some l) = Ok n.
Proof. intros Hn. unfold sm_load. simpl. by rewrite Hn. Qed.

Lemma sm_update_Some m l n f : sm_nodes m !! l = Some n -> sm_update m (Some l) f = Ok (sm_store m l (f n)).
Proof. intros Hn. unfold sm_update. simpl. by rewrite Hn. Qed.

Lemma sm_next_at_Some m l i x : nextf m i l = Some x -> sm_next_at m (Some l) i = Ok x.
Proof.
  unfold nextf, sm_next_at, sm_load. simpl. destruct (sm_nodes m !! l) as [n|]; simpl; [|done].
  by intros ->.
Qed.

(** Every node of the chain is in the store, with its neighbours. *)
Lemma srep_dom m ls l : sm_rep m ls -> l ∈ sm_head m :: ls ++ [sm_tail m] -> is_Some (sm_nodes m !! l).
Proof.
  intros Hr. pose proof (srep_chain _ _ Hr) as Hc.
  intros [->|[Hl|Hl]%elem_of_app]%elem_of_cons.
  - apply dchain_first in Hc. unfold afterf in Hc. destruct (sm_nodes m !! sm_head m); [eauto|]. by destruct ls.
  - apply list_elem_of_split in Hl as (l1 & l2 & ->). apply dchain_prev in Hc.
    unfold prevf in Hc. destruct (sm_nodes m !! l); [eauto|]. symmetry in Hc. by apply last_None in Hc.
  - apply list_elem_of_singleton in Hl as ->. apply dchain_last in Hc.
    unfold prevf in Hc. destruct (sm_nodes m !! sm_tail m); [eauto|]. symmetry in Hc. by apply last_None in Hc.
Qed.

Lemma srep_node m l1 x l2 :
  sm_rep m (l1 ++ x :: l2) ->
  exists n, sm_nodes m !! x = Some n /\ sm_after n = head (l2 ++ [sm_tail m]) /\
    sm_prev n = last (sm_head m :: l1).
Proof.
  intros Hr. pose proof (srep_chain _ _ Hr) as Hc. destruct (srep_dom m _ x Hr) as [n Hn]; [set_solver|].
  exists n. apply dchain_next in Hc as Hn1. apply dchain_prev in Hc as Hp1.
  unfold afterf in Hn1. unfold prevf in Hp1. rewrite Hn in Hn1, Hp1. auto.
Qed.

Lemma srep_node_after m l1 l2 u :
  sm_rep m (l1 ++ l2) -> last (sm_head m :: l1) = Some u ->
  exists n, sm_nodes m !! u = Some n /\ sm_after n = head (l2 ++ [sm_tail m]).
Proof.
  intros Hr Hu. destruct l1 as [|x l1 _] using rev_ind.
  - simpl in Hu. injection Hu as <-. destruct (srep_dom m _ (sm_head m) Hr) as [n Hn]; [set_solver|].
    exists n. split; [done|]. pose proof (dchain_first _ _ _ _ _ (srep_chain _ _ Hr)) as H.
    unfold afterf in H. by rewrite Hn in H.
  - rewrite app_comm_cons, last_snoc in Hu. injection Hu as <-. rewrite <- app_assoc in Hr.
    destruct (srep_node m l1 x l2 Hr) as (n & ? & ? & _). eauto.
Qed.

Lemma lvl_app m i l1 l2 : lvl m i (l1 ++ l2) = lvl m i l1 ++ lvl m i l2.
Proof. apply filter_app. Qed.

Lemma elem_lvl m i ls l : l ∈ lvl m i ls <-> i < hgt m l /\ l ∈ ls.
Proof. unfold lvl. by rewrite list_elem_of_filter. Qed.

(** Level 0 holds every node. *)
Lemma lvl_0 m ls l1 : sm_rep m ls -> (forall l, l ∈ l1 -> l ∈ ls) -> lvl m 0 l1 = l1.
Proof.
  intros Hr Hin. unfold lvl. induction l1 as [|x l1 IH]; [done|].
  rewrite filter_cons_True by (pose proof (srep_hgt _ _ Hr x); specialize (Hin x); set_solver by lia).
  f_equal. apply IH. set_solver.
Qed.

(** ** Search *)

Section search.
Context m ls (Hr : sm_rep m ls) (test : Z -> bool) (l1 l2 : list loc) (Hls : ls = l1 ++ l2)
  (Ht1 : Forall (fun l => test (key_of m l) = true) l1)
  (Ht2 : Forall (fun l => test (key_of m l) = false) l2).

(** The node where the search leaves level [i]. *)
Definition stop (i : nat) : option loc := last (sm_head m :: lvl m i l1).

Lemma advance_spec fuel i cur A :
  schain (nextf m i) cur (A ++ lvl m i l2) -> (forall l, l ∈ A -> l ∈ l1) -> (length A <= fuel)%nat ->
  exists u, sm_advance fuel m test i cur = Ok u /\ last (cur :: A) = Some u.
Proof.
  revert fuel cur. induction A as [|x A IH]; intros fuel cur Hc HA Hf.
  - exists cur. split; [|done].
    assert (forall f, sm_advance f m test i cur = Ok cur) as H'; [|apply H'].
    intros f. assert (nextf m i cur = Some (head (lvl m i l2))) as Hn by (by destruct (lvl m i l2); [|destruct Hc]).
    destruct f; simpl; rewrite (sm_next_at_Some _ _ _ _ Hn); simpl;
      destruct (lvl m i l2) as [|y l'] eqn:El; simpl; try done;
      (case_decide; [done|]); assert (y ∈ l2) as Hy by (apply (elem_lvl m i l2); rewrite El; set_solver);
      destruct (srep_dom m ls y Hr) as [n Hn']; try set_solver;
      rewrite (sm_load_Some _ _ _ Hn'); simpl;
      rewrite Forall_forall in Ht2; specialize (Ht2 y Hy); unfold key_of in Ht2; rewrite Hn' in Ht2;
      by rewrite Ht2.
  - simpl in Hc, Hf. destruct Hc as [Hn Hc]. destruct fuel as [|fuel]; [lia|].
    destruct (IH fuel x) as (u & Hu & Hlast); [done | set_solver | lia|].
    exists u. split; [|done]. cbn [sm_advance]. rewrite (sm_next_at_Some _ _ _ _ Hn). simpl.
    assert (x ∈ l1) as Hx by set_solver. rewrite decide_False; cycle 1.
    { intros ->. pose proof (srep_nodup _ _ Hr) as Hnd. rewrite NoDup_cons, NoDup_app in Hnd. set_solver. }
    destruct (srep_dom m ls x Hr) as [n Hn']; [set_solver|]. rewrite (sm_load_Some _ _ _ Hn'). simpl.
    rewrite Forall_forall in Ht1. specialize (Ht1 x Hx). unfold key_of in Ht1. rewrite Hn' in Ht1.
    by rewrite Ht1.
Qed.

(** Searching level [i] from any earlier node of the level ends at [stop i]. *)
Lemma advance_stop i cur :
  (i < maxLevel)%nat -> cur ∈ sm_head m :: lvl m i l1 ->
  exists u, sm_advance (Z.to_nat (sm_size m)) m test i cur = Ok u /\ stop i = Some u.
Proof.
  intros Hi Hcur. pose proof (srep_levels _ _ Hr i Hi) as Hc. rewrite Hls, lvl_app in Hc.
  apply list_elem_of_split in Hcur as (B & A & E).
  assert (last (sm_head m :: lvl m i l1) = last (cur :: A)) as Elast by (rewrite E; apply last_app_cons).
  unfold stop. rewrite Elast.
  destruct (advance_spec (Z.to_nat (sm_size m)) i cur A) as (u & ? & ?); [| | |eauto].
  - destruct B as [|b B]; simpl in E; injection E as E0 E; [by rewrite <- E0, <- E|].
    rewrite E, <- app_assoc in Hc.
    apply (schain_from _ (sm_head m) (B ++ [cur]) (A ++ lvl m i l2)).
    + by rewrite <- app_assoc.
    + rewrite app_comm_cons, last_snoc. done.
  - intros l Hl. assert (l ∈ lvl m i l1); [|by apply (elem_lvl m i l1)].
    destruct B as [|b B]; simpl in E; injection E as E0 E; rewrite E; set_solver.
  - assert (length A <= length ls)%nat; [|rewrite (srep_size _ _ Hr); lia].
    apply (f_equal length) in E. rewrite length_app in E. simpl in E.
    assert (length (lvl m i l1) <= length l1)%nat by apply length_filter.
    rewrite Hls, length_app. lia.
Qed.
Lemma stop_elem i u : stop i = Some u -> u ∈ sm_head m :: lvl m i l1.
Proof. apply last_Some_elem_of. Qed.

Lemma search_spec j cur update :
  (j <= sm_level m)%nat -> (forall i, i < j -> cur ∈ sm_head m :: lvl m i l1) -> length update = maxLevel ->
  exists u update', sm_search m test j cur update = Ok (u, update') /\ length update' = maxLevel /\
    (forall i, i < j -> update' !! i = Some (stop i)) /\ (forall i, j <= i -> update' !! i = update !! i) /\
    (0 < j -> stop 0 = Some u).
Proof.
  pose proof (srep_level _ _ Hr) as Hlev.
  revert cur update. induction j as [|j IH]; intros cur update Hj Hcur Hlen.
  { exists cur, update. split_and!; try done; lia. }
  simpl. destruct (advance_stop j cur) as (u & -> & Hu); [lia | by apply Hcur; lia|]. simpl.
  destruct (IH u (<[j := Some u]> update)) as (w & upd & Hs & Hl & Hlo & Hhi & H0); [lia| |by rewrite length_insert|].
  { intros i Hi. apply stop_elem in Hu. apply elem_of_cons in Hu as [->|Hu]; [set_solver|].
    apply elem_lvl in Hu as [? ?]. right. apply elem_lvl. split; [lia | done]. }
  exists w, upd. rewrite Hs. split_and!; try done.
  - intros i Hi. destruct (decide (i = j)) as [->|]; [|apply Hlo; lia].
    rewrite Hhi by lia. rewrite list_lookup_insert_eq by lia. by rewrite Hu.
  - intros i Hi. rewrite Hhi by lia. apply list_lookup_insert_ne. lia.
  - intros _. destruct j; [|apply H0; lia]. injection Hs as <- _. done.
Qed.

(** A full search ends at the last node that passes the test. *)
Lemma search_full :
  exists u update, sm_search m test (sm_level m) (sm_head m) (replicate maxLevel None) = Ok (u, update) /\
    last (sm_head m :: l1) = Some u /\ length update = maxLevel /\
    (forall i, i < sm_level m -> update !! i = Some (stop i)).
Proof.
  pose proof (srep_level _ _ Hr) as Hlev.
  destruct (search_spec (sm_level m) (sm_head m) (replicate maxLevel None))
    as (u & update & Hs & Hl & Hlo & _ & H0); [lia | set_solver | by rewrite length_replicate|].
  exists u, update. split_and!; try done. rewrite <- H0 by lia. unfold stop.
  by rewrite (lvl_0 m ls) by (done || set_solver).
Qed.

(** Above the current level there is only the head. *)
Lemma stop_high i : (sm_level m <= i)%nat -> stop i = Some (sm_head m).
Proof using Hr Hls.
  clear Ht1 Ht2. intros Hi. unfold stop. assert (lvl m i l1 = []) as ->; [|done].
  destruct (lvl m i l1) as [|x l] eqn:E; [done|].
  assert (x ∈ lvl m i l1) as Hx by (rewrite E; set_solver). apply elem_lvl in Hx as [Hh Hx].
  pose proof (srep_hgt _ _ Hr x). set_solver by lia.
Qed.

(** The search stops in front of the rest of the level. *)
Lemma stop_next i u :
  (i < maxLevel)%nat -> stop i = Some u -> nextf m i u = Some (head (lvl m i l2)).
Proof using Hr Hls.
  intros Hi Hu. pose proof (srep_levels _ _ Hr i Hi) as Hc. rewrite Hls, lvl_app in Hc.
  by eapply schain_next.
Qed.
End search.

(** The nodes below and from a key. *)
Lemma split_at m ls key (strict : bool) :
  sm_rep m ls ->
  let test := if strict then fun k => (k <? key)%Z else fun k => (k <=? key)%Z in
  exists l1 l2, ls = l1 ++ l2 /\
    Forall (fun l => test (key_of m l) = true) l1 /\ Forall (fun l => test (key_of m l) = false) l2.
Proof.
  intros Hr test.
  destruct (sorted_split _ (fun l => test (key_of m l) = true) ls (srep_sorted _ _ Hr)) as (l1 & l2 & ? & ? & H2).
  - intros x y Hxy Hy. subst test. destruct strict; simpl in *;
      rewrite ?Z.ltb_lt, ?Z.leb_le in *; lia.
  - exists l1, l2. split_and!; try done. eapply Forall_impl; [exact H2|].
    intros l Hl. simpl in Hl. by apply not_true_is_false in Hl.
Qed.

Lemma srep_sorted_app m l1 l2 x y :
  sm_rep m (l1 ++ l2) -> x ∈ l1 -> y ∈ l2 -> (key_of m x < key_of m y)%Z.
Proof.
  intros Hr Hx Hy.
  exact (StronglySorted_app_1_elem_of (fun a b => key_of m a < key_of m b)%Z l1 l2 x y
           (srep_sorted _ _ Hr) Hx Hy).
Qed.

(** ** Content and queries *)

Definition entry m (l : loc) : option (Z * V) := (fun n => (sm_key n, sm_value n)) <$> sm_nodes m !! l.

Lemma sm_elems_lookup m ls k v :
  sm_rep m ls -> sm_elems m !! k = Some v <-> exists l, l ∈ ls /\ entry m l = Some (k, v).
Proof.
  intros Hr. unfold sm_elems, entry. rewrite lookup_omap_Some. split.
  - intros (l & Hv & Hl). apply (srep_items _ _ Hr) in Hl as [Hin Hk]. exists l. split; [done|].
    unfold key_of in Hk. destruct (sm_nodes m !! l); naive_solver.
  - intros (l & Hin & He). exists l. destruct (sm_nodes m !! l) as [n|] eqn:Hn; [|done].
    simpl in *. injection He as <- <-. split; [done|].
    apply (srep_items _ _ Hr). split; [done|]. unfold key_of. by rewrite Hn.
Qed.

Lemma entry_key m l k v : entry m l = Some (k, v) -> key_of m l = k.
Proof. unfold entry, key_of. destruct (sm_nodes m !! l); naive_solver. Qed.

Lemma srep_entry m ls l : sm_rep m ls -> l ∈ ls -> exists v, entry m l = Some (key_of m l, v).
Proof.
  intros Hr Hl. destruct (srep_dom m ls l Hr) as [n Hn]; [set_solver|].
  exists (sm_value n). unfold entry, key_of. by rewrite Hn.
Qed.

Lemma sm_elems_keys m ls k : sm_rep m ls -> is_Some (sm_elems m !! k) <-> exists l, l ∈ ls /\ key_of m l = k.
Proof.
  intros Hr. split.
  - intros [v (l & ? & ?)%(sm_elems_lookup m ls)]; [|done]. eauto using entry_key.
  - intros (l & Hl & <-). destruct (srep_entry m ls l Hr Hl) as [v Hv]. exists v.
    apply (sm_elems_lookup m ls); eauto.
Qed.

Lemma items_elems m ls k : sm_rep m ls -> sm_items m !! k = None -> sm_elems m !! k = None.
Proof. intros Hr Hk. unfold sm_elems. by rewrite lookup_omap, Hk. Qed.

(** An indexed key splits the list at its node. *)
Lemma srep_present m ls k l :
  sm_rep m ls -> sm_items m !! k = Some l ->
  exists l1 l2 n, ls = l1 ++ l :: l2 /\ sm_nodes m !! l = Some n /\ sm_key n = k /\
    sm_elems m !! k = Some (sm_value n) /\
    Forall (fun x => key_of m x < k)%Z l1 /\ Forall (fun x => k < key_of m x)%Z l2.
Proof.
  intros Hr Hk. pose proof Hk as [Hl Hkey]%(srep_items m ls Hr).
  destruct (srep_dom m ls l Hr) as [n Hn]; [set_solver|].
  assert (sm_key n = k) as Hk' by (unfold key_of in Hkey; by rewrite Hn in Hkey).
  apply list_elem_of_split in Hl as (l1 & l2 & ->). exists l1, l2, n.
  pose proof (srep_sorted _ _ Hr) as Hs. split_and!; try done.
  - apply (sm_elems_lookup m _ _ _ Hr). exists l. split; [set_solver|]. unfold entry. by rewrite Hn, <- Hk'.
  - rewrite Forall_forall. intros x Hx. rewrite <- Hkey.
    apply (srep_sorted_app m l1 (l :: l2)); set_solver.
  - rewrite Forall_forall. intros x Hx. rewrite <- Hkey.
    apply StronglySorted_app_1_r in Hs. apply StronglySorted_inv in Hs as [_ Hs].
    rewrite Forall_forall in Hs. by apply Hs.
Qed.

Lemma entry_after_spec m l1 l2 u n :
  sm_rep m (l1 ++ l2) -> last (sm_head m :: l1) = Some u -> sm_nodes m !! u = Some n ->
  sm_entry_after m n = Ok (head l2 ≫= entry m).
Proof.
  intros Hr Hu Hn. destruct (srep_node_after m l1 l2 u Hr Hu) as (n' & Hn' & Ha).
  rewrite Hn in Hn'. injection Hn' as <-. unfold sm_entry_after. rewrite Ha.
  destruct l2 as [|x l2]; simpl; [by rewrite decide_True|]. rewrite decide_False; cycle 1.
  { intros [= ->]. pose proof (srep_nodup _ _ Hr) as Hnd. rewrite NoDup_cons, NoDup_app in Hnd. set_solver. }
  destruct (srep_dom m _ x Hr) as [nx Hx]; [set_solver|].
  rewrite (sm_load_Some _ _ _ Hx). unfold entry. by rewrite Hx.
Qed.

Lemma is_next_head m l1 l2 key :
  sm_rep m (l1 ++ l2) -> Forall (fun l => key_of m l <= key)%Z l1 -> Forall (fun l => key < key_of m l)%Z l2 ->
  is_next (sm_elems m) key (head l2 ≫= entry m).
Proof.
  intros Hr H1 H2. rewrite Forall_forall in H1, H2. destruct l2 as [|x l2]; simpl.
  - intros j (l & Hl & <-)%(sm_elems_keys m _ _ Hr). apply H1. set_solver.
  - destruct (srep_entry m _ x Hr) as [v Hv]; [set_solver|]. rewrite Hv. simpl. split_and!.
    + apply (sm_elems_lookup m _ _ _ Hr). exists x. split; [set_solver | done].
    + apply H2. set_solver.
    + intros j (l & Hl & <-)%(sm_elems_keys m _ _ Hr) Hj. apply elem_of_app in Hl as [Hl|Hl].
      { specialize (H1 l Hl). lia. }
      apply elem_of_cons in Hl as [->|Hl]; [lia|].
      pose proof (srep_sorted _ _ Hr) as Hs. apply StronglySorted_app_1_r in Hs.
      apply StronglySorted_inv in Hs as [_ Hs]. rewrite Forall_forall in Hs. specialize (Hs l Hl). lia.
Qed.

Lemma is_prev_last m l1 l2 key :
  sm_rep m (l1 ++ l2) -> Forall (fun l => key_of m l < key)%Z l1 -> Forall (fun l => key <= key_of m l)%Z l2 ->
  is_prev (sm_elems m) key (last l1 ≫= entry m).
Proof.
  intros Hr H1 H2. rewrite Forall_forall in H1, H2. destruct l1 as [|x l1 _] using rev_ind; simpl.
  - intros j (l & Hl & <-)%(sm_elems_keys m _ _ Hr). apply H2. set_solver.
  - rewrite last_snoc. simpl. destruct (srep_entry m _ x Hr) as [v Hv]; [set_solver|]. rewrite Hv. simpl. split_and!.
    + apply (sm_elems_lookup m _ _ _ Hr). exists x. split; [set_solver | done].
    + apply H1. set_solver.
    + intros j (l & Hl & <-)%(sm_elems_keys m _ _ Hr) Hj. apply elem_of_app in Hl as [Hl|Hl]; cycle 1.
      { specialize (H2 l Hl). lia. }
      apply elem_of_app in Hl as [Hl|Hl]; [|apply list_elem_of_singleton in Hl as ->; lia].
      assert (key_of m l < key_of m x)%Z; [|lia].
      apply (srep_sorted_app m l1 ([x] ++ l2)); [by rewrite app_assoc | done | set_solver].
Qed.

Lemma sm_Get_spec m ls k : sm_rep m ls -> Get m k = Ok (sm_elems m !! k).
Proof.
  intros Hr. unfold Get. destruct (sm_items m !! k) as [l|] eqn:Hk.
  - destruct (srep_present m ls k l Hr Hk) as (l1 & l2 & n & -> & Hn & _ & -> & _).
    by rewrite (sm_load_Some _ _ _ Hn).
  - by rewrite (items_elems m ls).
Qed.

Lemma sm_Contains_spec m ls k : sm_rep m ls -> Contains m k = bool_decide (is_Some (sm_elems m !! k)).
Proof.
  intros Hr. unfold Contains. apply bool_decide_ext. destruct (sm_items m !! k) as [l|] eqn:Hk.
  - destruct (srep_present m ls k l Hr Hk) as (? & ? & n & _ & _ & _ & -> & _). split; eauto.
  - by rewrite (items_elems m ls).
Qed.

Lemma Forall_lt_le (f : loc -> Z) k ls : Forall (fun l => f l < k)%Z ls -> Forall (fun l => f l <= k)%Z ls.
Proof. intros H. eapply Forall_impl; [exact H|]. simpl. lia. Qed.

Lemma Forall_gt_ge (f : loc -> Z) k ls : Forall (fun l => k < f l)%Z ls -> Forall (fun l => k <= f l)%Z ls.
Proof. intros H. eapply Forall_impl; [exact H|]. simpl. lia. Qed.

Lemma sm_Next_spec m ls k : sm_rep m ls -> exists r, Next m k = Ok r /\ is_next (sm_elems m) k r.
Proof.
  intros Hr. unfold Next. destruct (sm_items m !! k) as [l|] eqn:Hk.
  - destruct (srep_present m ls k l Hr Hk) as (l1 & l2 & n & -> & Hn & Hkey & _ & H1 & H2).
    rewrite (sm_load_Some _ _ _ Hn). rewrite cons_middle, app_assoc in Hr. simpl.
    erewrite entry_after_spec; [|exact Hr | by rewrite app_comm_cons, last_snoc | done].
    eexists. split; [done|]. apply is_next_head with (l1 := l1 ++ [l]); [done| |done].
    apply Forall_app. split; [by apply Forall_lt_le|]. repeat constructor. unfold key_of. rewrite Hn. lia.
  - destruct (split_at m ls k false Hr) as (l1 & l2 & -> & H1 & H2).
    destruct (search_full m _ Hr (fun j => j <=? k)%Z l1 l2 eq_refl H1 H2) as (u & upd & -> & Hu & _). simpl.
    destruct (srep_node_after m l1 l2 u Hr Hu) as (n & Hn & _). rewrite (sm_load_Some _ _ _ Hn). simpl.
    erewrite entry_after_spec by eauto. eexists. split; [done|]. apply is_next_head with (l1 := l1); [done| |].
    + eapply Forall_impl; [exact H1|]. simpl. lia.
    + eapply Forall_impl; [exact H2|]. simpl. lia.
Qed.

Lemma sm_Min_spec m ls : sm_rep m ls -> exists r, Min m = Ok r /\ is_min (sm_elems m) r.
Proof.
  intros Hr. unfold Min. destruct (srep_dom m ls (sm_head m) Hr) as [n Hn]; [set_solver|].
  rewrite (sm_load_Some _ _ _ Hn). simpl. erewrite (entry_after_spec m [] ls) by done.
  eexists. split; [done|]. destruct ls as [|x ls]; simpl.
  - apply map_empty. intros k. apply eq_None_not_Some. rewrite (sm_elems_keys m []) by done. set_solver.
  - destruct (srep_entry m _ x Hr) as [v Hv]; [set_solver|]. rewrite Hv. simpl. split.
    + apply (sm_elems_lookup m _ _ _ Hr). exists x. split; [set_solver | done].
    + intros j (l & [->|Hl]%elem_of_cons & <-)%(sm_elems_keys m _ _ Hr); [lia|].
      pose proof (srep_sorted_app m [x] ls x l). set_solver by lia.
Qed.

Lemma sm_Prev_spec m ls k : sm_rep m ls -> exists r, Prev m k = Ok r /\ is_prev (sm_elems m) k r.
Proof.
  intros Hr.
  (* in both cases the answer is the entry of the last node below the key *)
  assert (forall l1 l2 u (F : go (option (Z * V))), ls = l1 ++ l2 -> last (sm_head m :: l1) = Some u ->
    Forall (fun l => key_of m l < k)%Z l1 -> Forall (fun l => k <= key_of m l)%Z l2 ->
    F = (if decide (u = sm_head m) then mret None
         else n ← sm_load m (Some u); mret (Some (sm_key n, sm_value n))) ->
    exists r, F = Ok r /\ is_prev (sm_elems m) k r) as Hmain.
  { intros l1 l2 u F -> Hu H1 H2 ->. exists (last l1 ≫= entry m).
    split; [|by apply is_prev_last with (l2 := l2)].
    destruct l1 as [|x l1 _] using rev_ind; [injection Hu as <-; by rewrite decide_True|].
    rewrite app_comm_cons, last_snoc in Hu. injection Hu as <-. rewrite last_snoc.
    rewrite decide_False; cycle 1.
    { intros ->. pose proof (srep_nodup _ _ Hr) as Hnd. apply NoDup_cons in Hnd as [? _]. set_solver. }
    destruct (srep_dom m _ x Hr) as [n Hn]; [set_solver|]. rewrite (sm_load_Some _ _ _ Hn).
    unfold entry. simpl. by rewrite Hn. }
  unfold Prev. destruct (sm_items m !! k) as [l|] eqn:Hk.
  - destruct (srep_present m ls k l Hr Hk) as (l1 & l2 & n & -> & Hn & Hkey & _ & H1 & H2).
    destruct (srep_node m l1 l l2 Hr) as (n' & Hn' & _ & Hp). rewrite Hn in Hn'. injection Hn' as <-.
    rewrite (sm_load_Some _ _ _ Hn). destruct (last (sm_head m :: l1)) as [u|] eqn:Hu; [|by apply last_None in Hu].
    eapply (Hmain l1 (l :: l2) u); try done.
    + constructor; [unfold key_of; rewrite Hn; lia | by apply Forall_gt_ge].
    + simpl. rewrite Hp. destruct (decide (u = sm_head m)) as [->|]; [by rewrite decide_True|].
      rewrite decide_False by congruence. done.
  - destruct (split_at m ls k true Hr) as (l1 & l2 & -> & H1 & H2).
    destruct (search_full m _ Hr (fun j => j <? k)%Z l1 l2 eq_refl H1 H2) as (u & upd & -> & Hu & _). simpl.
    eapply (Hmain l1 l2 u); try done; (eapply Forall_impl; [eassumption|]); simpl; lia.
Qed.

(** ** Frames: what a pointer assignment leaves alone *)

Record sm_frame m m' : Prop := {
  fr_items : sm_items m' = sm_items m;
  fr_head : sm_head m' = sm_head m;
  fr_tail : sm_tail m' = sm_tail m;
  fr_level : sm_level m' = sm_level m;
  fr_size : sm_size m' = sm_size m;
  fr_fresh : sm_fresh m' = sm_fresh m;
  fr_hgt l : hgt m' l = hgt m l;
  fr_key l : key_of m' l = key_of m l;
  fr_val l : val_of m' l = val_of m l;
  fr_dom l : sm_nodes m' !! l = None <-> sm_nodes m !! l = None;
}.

Lemma sm_frame_refl m : sm_frame m m.
Proof. by constructor. Qed.

Lemma sm_frame_trans m1 m2 m3 : sm_frame m1 m2 -> sm_frame m2 m3 -> sm_frame m1 m3.
Proof.
  intros [] []. constructor; intros; etrans; eauto.
Qed.

Ltac sm_store_tac l :=
  intros y; unfold afterf, prevf, nextf, hgt, key_of, val_of, sm_store; simpl;
  destruct (decide (y = l)) as [->|]; simplify_map_eq; try done.

Lemma sm_store_frame m l n n' :
  sm_nodes m !! l = Some n -> sm_key n' = sm_key n -> sm_value n' = sm_value n ->
  length (sm_next n') = length (sm_next n) -> sm_frame m (sm_store m l n').
Proof.
  intros Hn Hk Hv Hl. constructor; try done; try (sm_store_tac l); simpl; congruence.
Qed.

Lemma sm_update_after m l (v : option loc) :
  is_Some (sm_nodes m !! l) ->
  exists m', sm_update m (Some l) (set_after v) = Ok m' /\ sm_frame m m' /\
    (forall y, afterf m' y = if decide (y = l) then v else afterf m y) /\
    (forall y, prevf m' y = prevf m y) /\ (forall i y, nextf m' i y = nextf m i y).
Proof.
  intros [n Hn]. rewrite (sm_update_Some _ _ _ _ Hn). eexists. split; [done|].
  split; [by apply sm_store_frame with n|]. split_and!; [| |intros i]; sm_store_tac l.
Qed.

Lemma sm_update_prev m l (v : option loc) :
  is_Some (sm_nodes m !! l) ->
  exists m', sm_update m (Some l) (set_prev v) = Ok m' /\ sm_frame m m' /\
    (forall y, prevf m' y = if decide (y = l) then v else prevf m y) /\
    (forall y, afterf m' y = afterf m y) /\ (forall i y, nextf m' i y = nextf m i y).
Proof.
  intros [n Hn]. rewrite (sm_update_Some _ _ _ _ Hn). eexists. split; [done|].
  split; [by apply sm_store_frame with n|]. split_and!; [| |intros i]; sm_store_tac l.
Qed.

Lemma sm_set_next_spec m l i (v : option loc) :
  is_Some (nextf m i l) ->
  exists m', sm_set_next m (Some l) i v = Ok m' /\ sm_frame m m' /\
    (forall y, prevf m' y = prevf m y) /\ (forall y, afterf m' y = afterf m y) /\
    (forall j y, nextf m' j y = if decide (j = i /\ y = l) then Some v else nextf m j y).
Proof.
  intros [x Hx]. unfold nextf in Hx. destruct (sm_nodes m !! l) as [n|] eqn:Hn; [simpl in Hx|done].
  unfold sm_set_next. rewrite (sm_load_Some _ _ _ Hn). simpl.
  pose proof (lookup_lt_Some _ _ _ Hx). rewrite decide_True by done.
  rewrite (sm_update_Some _ _ _ _ Hn). eexists. split; [done|].
  split; [apply sm_store_frame with n; simpl; rewrite ?length_insert; done|].
  split_and!; [| |intros j]; sm_store_tac l.
  - destruct (decide (j = i)) as [->|]; simpl.
    + rewrite decide_True by done. by rewrite list_lookup_insert_eq.
    + rewrite decide_False by naive_solver. by rewrite list_lookup_insert_ne.
  - by rewrite decide_False by naive_solver.
Qed.

(** ** Linking and unlinking on every level *)

Section levels.
Context (update : list (option loc)) (u : nat -> loc).

Lemma sm_link_spec new count m i :
  (forall j, i <= j < i + count -> update !! j = Some (Some (u j)) /\ u j <> new /\
     is_Some (nextf m j (u j)) /\ is_Some (nextf m j new)) ->
  exists m', sm_link m new update i count = Ok m' /\ sm_frame m m' /\
    (forall y, prevf m' y = prevf m y) /\ (forall y, afterf m' y = afterf m y) /\
    (forall j y, nextf m' j y =
       if decide (i <= j < i + count) then
         if decide (y = u j) then Some (Some new)
         else if decide (y = new) then nextf m j (u j) else nextf m j y
       else nextf m j y).
Proof.
  revert m i. induction count as [|count IH]; intros m i H.
  { exists m. split_and!; try done. intros j y. rewrite decide_False; [done|lia]. }
  destruct (H i) as (Hi & Hne & [x Hx] & Hnew); [lia|]. simpl. rewrite Hi. simpl.
  rewrite (sm_next_at_Some _ _ _ _ Hx). simpl.
  destruct (sm_set_next_spec m new i x Hnew) as (m1 & -> & F1 & P1 & A1 & N1). simpl.
  destruct (sm_set_next_spec m1 (u i) i (Some new)) as (m2 & -> & F2 & P2 & A2 & N2).
  { rewrite N1, decide_False by naive_solver. eauto. }
  simpl. assert (forall j y, j <> i -> nextf m2 j y = nextf m j y) as Nne.
  { intros j y Hj. rewrite N2, N1. rewrite !decide_False by naive_solver. done. }
  destruct (IH m2 (S i)) as (m3 & -> & F3 & P3 & A3 & N3).
  { intros j Hj. rewrite !Nne by lia. apply H. lia. }
  exists m3. split; [done|]. split; [eauto using sm_frame_trans|].
  split; [intros y; by rewrite P3, P2, P1|]. split; [intros y; by rewrite A3, A2, A1|].
  intros j y. rewrite N3. destruct (decide (j = i)) as [->|Hj].
  - rewrite decide_False by lia. rewrite decide_True by lia. rewrite N2, N1.
    destruct (decide (y = u i)) as [->|]; [by rewrite decide_True|].
    rewrite decide_False by naive_solver. destruct (decide (y = new)) as [->|].
    + by rewrite decide_True.
    + by rewrite decide_False by naive_solver.
  - rewrite !Nne by done. repeat case_decide; try done; lia.
Qed.

Lemma sm_unlink_spec target count m i :
  (forall j, i <= j < i + count -> update !! j = Some (Some (u j)) /\ is_Some (nextf m j (u j)) /\
     (nextf m j (u j) = Some (Some target) -> is_Some (nextf m j target))) ->
  exists m', sm_unlink m target update i count = Ok m' /\ sm_frame m m' /\
    (forall y, prevf m' y = prevf m y) /\ (forall y, afterf m' y = afterf m y) /\
    (forall j y, nextf m' j y =
       if decide (i <= j < i + count /\ y = u j /\ nextf m j y = Some (Some target))
       then nextf m j target else nextf m j y).
Proof.
  revert m i. induction count as [|count IH]; intros m i H.
  { exists m. split_and!; try done. intros j y. rewrite decide_False; [done|lia]. }
  destruct (H i) as (Hi & [x Hx] & Ht); [lia|]. simpl. rewrite Hi. simpl.
  rewrite (sm_next_at_Some _ _ _ _ Hx). simpl.
  assert (exists m1, (if decide (x = Some target) then
             y ← sm_next_at m (Some target) i; sm_set_next m (Some (u i)) i y else mret m) = Ok m1 /\
      sm_frame m m1 /\ (forall y, prevf m1 y = prevf m y) /\ (forall y, afterf m1 y = afterf m y) /\
      (forall j y, nextf m1 j y = if decide (j = i /\ y = u i /\ x = Some target) then nextf m i target
                                  else nextf m j y)) as (m1 & -> & F1 & P1 & A1 & N1).
  { destruct (decide (x = Some target)) as [->|Hxt].
    - destruct (Ht Hx) as [z Hz]. rewrite (sm_next_at_Some _ _ _ _ Hz). simpl.
      destruct (sm_set_next_spec m (u i) i z) as (m1 & -> & F1 & P1 & A1 & N1); [eauto|].
      exists m1. split_and!; try done. intros j y. rewrite N1, Hz. apply decide_ext. naive_solver.
    - exists m. split_and!; try done. intros j y. by rewrite decide_False by naive_solver. }
  simpl. assert (forall j y, j <> i -> nextf m1 j y = nextf m j y) as Nne.
  { intros j y Hj. rewrite N1. by rewrite decide_False by naive_solver. }
  destruct (IH m1 (S i)) as (m3 & -> & F3 & P3 & A3 & N3).
  { intros j Hj. rewrite !Nne by lia. apply H. lia. }
  exists m3. split; [done|]. split; [eauto using sm_frame_trans|].
  split; [intros y; by rewrite P3, P1|]. split; [intros y; by rewrite A3, A1|].
  intros j y. rewrite N3. destruct (decide (j = i)) as [->|Hj].
  - rewrite decide_False by lia. rewrite N1. apply decide_ext.
    split; intros (_ & -> & ?); split_and!; (done || lia || congruence).
  - rewrite !Nne by done. apply decide_ext. split; intros (? & ? & ?); split_and!; (done || lia).
Qed.
End levels.

(** ** Put *)

(** The level loop ends and stays in range. *)
Lemma node_level_spec fuel pos level :
  (1 <= pos)%Z -> (Z.log2 pos < Z.of_nat fuel)%Z ->
  exists lv, node_level fuel pos level = Ok lv /\ (level <= lv)%nat.
Proof.
  revert pos level. induction fuel as [|fuel IH]; intros pos level Hp Hf; [pose proof (Z.log2_nonneg pos); lia|].
  simpl. case_decide as Hm; [|eauto].
  unfold nodesPerLevel in *. assert (4 * (pos / 4) = pos)%Z as Hd by (pose proof (Z.div_mod pos 4); lia).
  assert (Z.log2 pos = 2 + Z.log2 (pos / 4))%Z as Hl.
  { rewrite <- Hd at 1. change 4%Z with (2 ^ 2)%Z at 1. rewrite Z.mul_comm, Z.log2_mul_pow2 by lia. lia. }
  destruct (IH (pos / 4)%Z (S level)) as (lv & -> & ?); [lia..|]. exists lv. split; [done|lia].
Qed.

Lemma getNodeLevel_spec m : (0 <= sm_size m)%Z -> exists h, getNodeLevel m = Ok h /\ (1 <= h <= maxLevel)%nat.
Proof.
  intros Hs. unfold getNodeLevel.
  destruct (node_level_spec (S (Z.to_nat (Z.log2 (sm_size m + 1)))) (sm_size m + 1) 1) as (lv & -> & ?).
  { lia. } { pose proof (Z.log2_nonneg (sm_size m + 1)). lia. }
  simpl. eexists. split; [done|]. unfold maxLevel in *. case_decide; lia.
Qed.

Definition nowhere : loc := 0.
Definition stop_at m l1 (i : nat) : loc := default nowhere (stop m l1 i).

Lemma stop_at_Some m l1 i : stop m l1 i = Some (stop_at m l1 i).
Proof. unfold stop_at. destruct (stop m l1 i) eqn:E; [done|]. by apply last_None in E. Qed.

(** What an insertion after [l1], between [p] and [s], does to the fields. *)
Record put_obs m m' (l1 : list loc) (key : Z) (value : V) (h : nat) (p s : loc) : Prop := {
  po_items : sm_items m' = <[key := sm_fresh m]> (sm_items m);
  po_head : sm_head m' = sm_head m;
  po_tail : sm_tail m' = sm_tail m;
  po_level : sm_level m' = max (sm_level m) h;
  po_size : sm_size m' = (sm_size m + 1)%Z;
  po_fresh : sm_fresh m' = S (sm_fresh m);
  po_hgt l : hgt m' l = if decide (l = sm_fresh m) then h else hgt m l;
  po_key l : key_of m' l = if decide (l = sm_fresh m) then key else key_of m l;
  po_val l : val_of m' l = if decide (l = sm_fresh m) then Some value else val_of m l;
  po_dom l : sm_nodes m' !! l = None <-> l <> sm_fresh m /\ sm_nodes m !! l = None;
  po_after l : afterf m' l = if decide (l = p) then Some (sm_fresh m)
                             else if decide (l = sm_fresh m) then Some s else afterf m l;
  po_prev l : prevf m' l = if decide (l = s) then Some (sm_fresh m)
                           else if decide (l = sm_fresh m) then Some p else prevf m l;
  po_next j l : (j < h)%nat ->
    nextf m' j l = if decide (l = stop_at m l1 j) then Some (Some (sm_fresh m))
                   else if decide (l = sm_fresh m) then nextf m j (stop_at m l1 j) else nextf m j l;
  po_next_high j l : (h <= j)%nat -> l <> sm_fresh m -> nextf m' j l = nextf m j l;
}.

(** Allocation of the node. *)
Definition sm_alloc m (level : nat) (n : smNode V) : SortedMap V :=
  mkSortedMap (sm_items m) (sm_head m) (sm_tail m) level (sm_size m)
    (<[sm_fresh m := n]> (sm_nodes m)) (S (sm_fresh m)).

Lemma nextf_alloc m level n j l :
  nextf (sm_alloc m level n) j l = if decide (l = sm_fresh m) then sm_next n !! j else nextf m j l.
Proof. unfold nextf. simpl. case_decide; by simplify_map_eq. Qed.

Lemma srep_fresh_notin m ls : sm_rep m ls -> sm_fresh m ∉ sm_head m :: ls ++ [sm_tail m].
Proof.
  intros Hr [n Hn]%(srep_dom m ls _ Hr). rewrite (srep_fresh _ _ Hr) in Hn by lia. done.
Qed.

Lemma stop_at_elem m l1 i : stop_at m l1 i ∈ sm_head m :: lvl m i l1.
Proof. eapply last_Some_elem_of, stop_at_Some. Qed.

Lemma stop_at_in m (l1 l2 : list loc) i : stop_at m l1 i ∈ sm_head m :: (l1 ++ l2) ++ [sm_tail m].
Proof.
  pose proof (stop_at_elem m l1 i) as H. apply elem_of_cons in H as [->|[? ?]%elem_lvl]; set_solver.
Qed.

(** The update slice after the search and after [m.level] was raised. *)
Lemma raise_spec m l1 l2 h update :
  sm_rep m (l1 ++ l2) -> (h <= maxLevel)%nat -> length update = maxLevel ->
  (forall i, i < sm_level m -> update !! i = Some (stop m l1 i)) ->
  (sm_raise m h update).2 = max (sm_level m) h /\
  forall i, (i < h)%nat -> (sm_raise m h update).1 !! i = Some (Some (stop_at m l1 i)).
Proof.
  intros Hr Hh Hlen Hu. unfold sm_raise. case_decide as Hlt; simpl.
  - split; [lia|]. intros i Hi. rewrite list_lookup_imap.
    destruct (decide (i < sm_level m)) as [Hi'|Hi'].
    + rewrite Hu by done. simpl. rewrite decide_False by lia. by rewrite stop_at_Some.
    + destruct (lookup_lt_is_Some_2 update i) as [x Hx]; [lia|]. rewrite Hx. simpl.
      rewrite decide_True by lia. rewrite <- stop_at_Some, (stop_high m _ Hr l1 l2 eq_refl i) by lia. done.
  - split; [lia|]. intros i Hi. rewrite Hu by lia. by rewrite stop_at_Some.
Qed.

Lemma sm_splice_spec m new p s :
  is_Some (sm_nodes m !! new) -> is_Some (sm_nodes m !! p) -> is_Some (sm_nodes m !! s) ->
  p <> new -> s <> new -> afterf m p = Some s ->
  exists m', sm_splice m (Some p) new = Ok m' /\ sm_frame m m' /\
    (forall y, afterf m' y = if decide (y = p) then Some new else if decide (y = new) then Some s else afterf m y) /\
    (forall y, prevf m' y = if decide (y = s) then Some new else if decide (y = new) then Some p else prevf m y) /\
    (forall i y, nextf m' i y = nextf m i y).
Proof.
  intros Hnew [np Hp] Hs Hpn Hsn Ha. unfold sm_splice. rewrite (sm_load_Some _ _ _ Hp).
  unfold afterf in Ha. rewrite Hp in Ha. cbn [mbind go_bind option_bind] in Ha |- *. rewrite Ha.
  assert (forall m' l, sm_frame m m' -> is_Some (sm_nodes m !! l) -> is_Some (sm_nodes m' !! l)) as Hdom.
  { intros m' l HF. rewrite <- !not_eq_None_Some. by rewrite (fr_dom _ _ HF). }
  destruct (sm_update_after m new (Some s) Hnew) as (m1 & -> & F1 & A1 & P1 & N1). cbn [mbind go_bind].
  destruct (sm_update_prev m1 new (Some p)) as (m2 & -> & F2 & P2 & A2 & N2); [eauto|].
  pose proof (sm_frame_trans _ _ _ F1 F2) as F12. cbn [mbind go_bind].
  destruct (sm_update_after m2 p (Some new)) as (m3 & -> & F3 & A3 & P3 & N3); [eauto|].
  pose proof (sm_frame_trans _ _ _ F12 F3) as F13. cbn [mbind go_bind].
  destruct (sm_update_prev m3 s (Some new)) as (m4 & -> & F4 & P4 & A4 & N4); [eauto|].
  exists m4. split_and!; [done | eauto using sm_frame_trans | | |]; intros.
  - by rewrite A4, A3, A2, A1.
  - by rewrite P4, P3, P2, P1.
  - by rewrite N4, N3, N2, N1.
Qed.

Lemma alloc_obs m level h key value :
  sm_nodes m !! sm_fresh m = None ->
  let m1 := sm_alloc m level (mkSmNode key value (replicate h None) None None) in
  (forall l, hgt m1 l = if decide (l = sm_fresh m) then h else hgt m l) /\
  (forall l, key_of m1 l = if decide (l = sm_fresh m) then key else key_of m l) /\
  (forall l, val_of m1 l = if decide (l = sm_fresh m) then Some value else val_of m l) /\
  (forall l, sm_nodes m1 !! l = None <-> l <> sm_fresh m /\ sm_nodes m !! l = None) /\
  (forall l, afterf m1 l = afterf m l) /\ (forall l, prevf m1 l = prevf m l).
Proof.
  intros Hf m1. subst m1. unfold hgt, key_of, val_of, afterf, prevf. simpl.
  split_and!; intros l; destruct (decide (l = sm_fresh m)) as [->|]; simplify_map_eq;
    rewrite ?Hf; simpl; rewrite ?length_replicate; try done; naive_solver.
Qed.

(** The allocated node is linked on its levels. *)
Lemma link_new m l1 l2 h upd m1 :
  sm_rep m (l1 ++ l2) -> (h <= maxLevel)%nat ->
  (forall i, (i < h)%nat -> upd !! i = Some (Some (stop_at m l1 i))) ->
  (forall j l, nextf m1 j l = if decide (l = sm_fresh m) then replicate h None !! j else nextf m j l) ->
  exists m2, sm_link m1 (sm_fresh m) upd 0 h = Ok m2 /\ sm_frame m1 m2 /\
    (forall y, prevf m2 y = prevf m1 y) /\ (forall y, afterf m2 y = afterf m1 y) /\
    (forall j l, (j < h)%nat ->
       nextf m2 j l = if decide (l = stop_at m l1 j) then Some (Some (sm_fresh m))
                      else if decide (l = sm_fresh m) then nextf m j (stop_at m l1 j) else nextf m j l) /\
    (forall j l, (h <= j)%nat -> l <> sm_fresh m -> nextf m2 j l = nextf m j l).
Proof.
  intros Hr Hh Hupd Hn1. pose proof (srep_fresh_notin m _ Hr) as Hnew.
  assert (forall j, stop_at m l1 j <> sm_fresh m) as Hne.
  { intros j E. apply Hnew. rewrite <- E. apply stop_at_in. }
  destruct (sm_link_spec upd (stop_at m l1) (sm_fresh m) h m1 0) as (m2 & E & F2 & P2 & A2 & N2).
  { intros j Hj. split_and!; [by apply Hupd; lia | done | |].
    - rewrite Hn1, decide_False by done.
      erewrite (stop_next m _ Hr l1 l2 eq_refl); [eauto | lia | apply stop_at_Some].
    - rewrite Hn1, decide_True by done. apply lookup_lt_is_Some_2. rewrite length_replicate. lia. }
  exists m2. split_and!; [done.. | |].
  - intros j l Hj. rewrite N2, decide_True by lia. case_decide; [done|].
    case_decide; rewrite Hn1; [by rewrite decide_False | by rewrite decide_False].
  - intros j l Hj Hl. rewrite N2, decide_False by lia. by rewrite Hn1, decide_False.
Qed.

Lemma Put_absent_obs m l1 l2 key value :
  sm_rep m (l1 ++ l2) -> sm_items m !! key = None ->
  Forall (fun l => (key_of m l <? key)%Z = true) l1 -> Forall (fun l => (key_of m l <? key)%Z = false) l2 ->
  exists m' h p s, Put m key value = Ok m' /\ (1 <= h <= maxLevel)%nat /\
    last (sm_head m :: l1) = Some p /\ head (l2 ++ [sm_tail m]) = Some s /\
    put_obs m m' l1 key value h p s.
Proof.
  intros Hr Hk H1 H2. unfold Put. rewrite Hk.
  destruct (search_full m _ Hr (fun k => k <? key)%Z l1 l2 eq_refl H1 H2) as (u0 & upd & -> & Hu0 & Hlen & Hupd).
  destruct (getNodeLevel_spec m) as (h & -> & Hh); [rewrite (srep_size _ _ Hr); lia|].
  destruct (raise_spec m l1 l2 h upd Hr) as [Hlev Hst]; [lia | done | done |].
  pose proof (srep_fresh_notin m _ Hr) as Hnew. pose proof (srep_fresh m _ Hr (sm_fresh m) ltac:(lia)) as Hf.
  destruct (head (l2 ++ [sm_tail m])) as [s|] eqn:Hs; [|by destruct l2].
  assert (stop_at m l1 0 = u0) as E0.
  { apply (inj Some). rewrite <- stop_at_Some, <- Hu0. unfold stop. by rewrite (lvl_0 m _ _ Hr) by set_solver. }
  cbn [mbind go_bind]. destruct (sm_raise m h upd) as [upd' lev']. simpl in Hlev, Hst.
  fold (sm_alloc m lev' (mkSmNode key value (replicate h None) None None)).
  destruct (alloc_obs m lev' h key value Hf) as (Hh1 & Hk1 & Hv1 & Hd1 & Ha1 & Hp1).
  set (m1 := sm_alloc _ _ _) in *.
  destruct (link_new m l1 l2 h upd' m1 Hr) as (m2 & E2 & F2 & P2 & A2 & N2 & N2h); [lia | done | |].
  { intros j l. unfold m1. by rewrite nextf_alloc. }
  cbn [sm_fresh m1 sm_alloc] in E2 |- *. rewrite E2. cbn [mbind go_bind]. rewrite Hst by lia. simpl. rewrite E0.
  assert (forall l, l = sm_fresh m \/ l ∈ sm_head m :: (l1 ++ l2) ++ [sm_tail m] -> is_Some (sm_nodes m2 !! l)) as Hdom.
  { intros l Hl. apply not_eq_None_Some. rewrite (fr_dom _ _ F2), Hd1. intros [? Hn].
    destruct Hl as [->|Hl]; [done|]. apply (srep_dom m _ _ Hr) in Hl as [? ?]. congruence. }
  assert (u0 ∈ sm_head m :: (l1 ++ l2) ++ [sm_tail m]) as Hu by (rewrite <- E0; apply stop_at_in).
  assert (s ∈ sm_head m :: (l1 ++ l2) ++ [sm_tail m]) as Hs' by (apply head_Some_elem_of in Hs; set_solver).
  destruct (sm_splice_spec m2 (sm_fresh m) u0 s) as (m3 & E3 & F3 & A3 & P3 & N3); [auto..| | | |].
  { intros ->. done. } { intros ->. done. }
  { rewrite A2, Ha1. destruct (srep_node_after m l1 l2 u0 Hr Hu0) as (n & Hn & Ha). unfold afterf.
    rewrite Hn. simpl. by rewrite Ha. }
  rewrite E3. pose proof (sm_frame_trans _ _ _ F2 F3) as F. eexists _, h, u0, s.
  split; [done|]. split; [lia|]. split; [done|]. split; [done|]. destruct F as [G1 G2 G3 G4 G5 G6 G7 G8 G9 G10].
  constructor; simpl; rewrite ?G1, ?G2, ?G3, ?G4, ?G5, ?G6; try done.
  - exact (fun l => eq_trans (G7 l) (Hh1 l)).
  - exact (fun l => eq_trans (G8 l) (Hk1 l)).
  - exact (fun l => eq_trans (G9 l) (Hv1 l)).
  - intros l. rewrite <- Hd1. apply G10.
  - intros l. etrans; [apply A3|]. by rewrite A2, Ha1.
  - intros l. etrans; [apply P3|]. by rewrite P2, Hp1.
  - intros j l Hj. etrans; [apply N3|]. by apply N2.
  - intros j l Hj Hl. etrans; [apply N3|]. by apply N2h.
Qed.

Lemma filter_lvl_ext m m' i ls : (forall l, l ∈ ls -> hgt m' l = hgt m l) -> lvl m' i ls = lvl m i ls.
Proof.
  intros H. unfold lvl. induction ls as [|x ls IH]; [done|]. rewrite !filter_cons.
  rewrite IH by set_solver. apply decide_ext. by rewrite (H x) by set_solver.
Qed.

Lemma StronglySorted_key_ext m m' ls :
  (forall l, l ∈ ls -> key_of m' l = key_of m l) ->
  StronglySorted (fun a b => key_of m a < key_of m b)%Z ls -> StronglySorted (fun a b => key_of m' a < key_of m' b)%Z ls.
Proof.
  intros H Hs. induction Hs as [|x l Hs IH Hx]; constructor; [apply IH; set_solver|].
  rewrite Forall_forall in Hx |- *. intros y Hy. rewrite !H by set_solver. by apply Hx.
Qed.

Lemma StronglySorted_insert m l1 l2 x :
  StronglySorted (fun a b => key_of m a < key_of m b)%Z (l1 ++ l2) ->
  Forall (fun l => key_of m l < key_of m x)%Z l1 -> Forall (fun l => key_of m x < key_of m l)%Z l2 ->
  StronglySorted (fun a b => key_of m a < key_of m b)%Z (l1 ++ x :: l2).
Proof.
  rewrite !StronglySorted_app, !Forall_forall. intros (H & H1 & H2) Hx1 Hx2. split_and!; [|done|].
  - set_solver.
  - constructor; [done|]. by rewrite Forall_forall.
Qed.

Lemma put_obs_rep m m' l1 l2 key value h p s :
  sm_rep m (l1 ++ l2) -> (1 <= h <= maxLevel)%nat ->
  Forall (fun l => key_of m l < key)%Z l1 -> Forall (fun l => key < key_of m l)%Z l2 ->
  last (sm_head m :: l1) = Some p -> head (l2 ++ [sm_tail m]) = Some s ->
  put_obs m m' l1 key value h p s -> sm_rep m' (l1 ++ sm_fresh m :: l2).
Proof.
  intros Hr Hh H1 H2 Hp Hs [O1 O2 O3 O4 O5 O6 O7 O8 O9 O10 O11 O12 O13 O14].
  pose proof (srep_fresh_notin m _ Hr) as Hnew. pose proof (srep_nodup _ _ Hr) as Hnd.
  assert (p ∈ sm_head m :: l1) as Hpin by (by apply last_Some_elem_of).
  assert (s ∈ l2 ++ [sm_tail m]) as Hsin by (by apply head_Some_elem_of).
  assert (forall l, l ∈ l1 ++ l2 -> l <> sm_fresh m) as Hne by set_solver.
  rewrite Forall_forall in H1, H2.
  constructor; rewrite ?O1, ?O2, ?O3, ?O4, ?O5, ?O6.
  - rewrite <- app_assoc, <- app_comm_cons in *. rewrite app_comm_cons. rewrite <- Permutation_middle.
    apply NoDup_cons. split; [set_solver|]. by rewrite <- app_comm_cons.
  - rewrite <- app_assoc in Hnd, Hnew.
    apply dchain_link with (afterf m) (prevf m) p s; try done; try (apply srep_chain, Hr).
    + by rewrite O11, decide_True.
    + rewrite O12, decide_False, decide_True; set_solver.
    + rewrite O11, decide_False, decide_True; set_solver.
    + by rewrite O12, decide_True.
    + intros y ? ?. by rewrite O11, !decide_False.
    + intros y ? ?. by rewrite O12, !decide_False.
  - apply StronglySorted_insert.
    + apply (StronglySorted_key_ext m); [|apply Hr]. intros l Hl. rewrite O8, decide_False; auto.
    + rewrite Forall_forall. intros l Hl.
      rewrite !O8, (decide_False (P := l = sm_fresh m)) by (apply Hne; rewrite elem_of_app; auto).
      rewrite decide_True by done. auto.
    + rewrite Forall_forall. intros l Hl.
      rewrite !O8, (decide_False (P := l = sm_fresh m)) by (apply Hne; rewrite elem_of_app; auto).
      rewrite decide_True by done. auto.
  - intros k l. rewrite O8. rewrite lookup_insert_Some. pose proof (srep_items _ _ Hr k l) as Hi.
    destruct (decide (l = sm_fresh m)) as [->|Hl].
    + split; [|by intros [_ ->]; left].
      intros [[-> _]|[_ [? _]%Hi]]; [by split; [apply elem_of_app; right; left|] | by destruct (Hne (sm_fresh m))].
    + rewrite Hi, !elem_of_app, elem_of_cons. split; [intros [[? ?]|[? [? ?]]]; [congruence | tauto]|].
      intros [Hin <-]. right. assert (l ∈ l1 \/ l ∈ l2) as Hin' by tauto.
      split; [|by split]. destruct Hin' as [?|?].
      * specialize (H1 l ltac:(done)). lia.
      * specialize (H2 l ltac:(done)). lia.
  - rewrite (srep_size _ _ Hr), !length_app. simpl. lia.
  - intros l Hl. apply O10. split; [lia|]. apply Hr. lia.
  - pose proof (srep_level _ _ Hr). lia.
  - rewrite O7, decide_False by set_solver. apply Hr.
  - intros l Hl. rewrite O7. case_decide; [lia|]. pose proof (srep_hgt _ _ Hr l). set_solver by lia.
  - intros i Hi. pose proof (srep_levels _ _ Hr i Hi) as Hc.
    assert (forall l', (forall l, l ∈ l' -> l ∈ l1 ++ l2) -> lvl m' i l' = lvl m i l') as El.
    { intros l' Hl'. apply filter_lvl_ext. intros l Hl. rewrite O7, decide_False; auto. }
    assert (forall l, l ∈ sm_head m :: lvl m i (l1 ++ l2) -> l <> sm_fresh m) as Hne'.
    { intros l [->|[_ Hl]%elem_lvl]%elem_of_cons; set_solver. }
    assert (hgt m' (sm_fresh m) = h) as Hfh by (by rewrite O7, decide_True).
    rewrite lvl_app in *. unfold lvl at 2. rewrite filter_cons, Hfh. fold (lvl m' i l2).
    rewrite (El l1), (El l2) by (intros; rewrite elem_of_app; auto). case_decide as Hlt.
    + apply schain_link with (nextf m i) (stop_at m l1 i); try done.
      * apply NoDup_cons in Hnd as [Hh' Hnd]. apply NoDup_app in Hnd as (Hnd & _).
        rewrite <- lvl_app. apply NoDup_cons. split; [|by apply NoDup_filter].
        intros [_ ?]%elem_lvl. set_solver.
      * intros Hin. by apply (Hne' _ Hin).
      * apply stop_at_Some.
      * by rewrite O13, decide_True.
      * rewrite O13 by done. rewrite decide_False, decide_True; [done..|].
        intros E. pose proof (stop_at_elem m l1 i) as Hin. rewrite <- E in Hin. set_solver.
      * intros y ? ?. by rewrite O13, !decide_False.
    + eapply schain_ext; [|exact Hc]. intros y Hy. apply O14; [lia | by apply Hne'].
Qed.

Lemma sm_elems_val m k : sm_elems m !! k = sm_items m !! k ≫= val_of m.
Proof. unfold sm_elems. by rewrite lookup_omap. Qed.

(** Every observation but the values is kept: the representation is too. *)
Lemma sm_rep_set_value m ls l n v :
  sm_rep m ls -> sm_nodes m !! l = Some n -> sm_rep (sm_store m l (set_value v n)) ls.
Proof.
  intros Hr Hn. set (m' := sm_store _ _ _).
  assert ((forall y, afterf m' y = afterf m y) /\ (forall y, prevf m' y = prevf m y) /\
    (forall y, hgt m' y = hgt m y) /\ (forall y, key_of m' y = key_of m y) /\
    (forall y, sm_nodes m' !! y = None <-> sm_nodes m !! y = None)) as (HA & HP & HH & HK & HD).
  { subst m'. split_and!; sm_store_tac l. }
  assert (forall i y, nextf m' i y = nextf m i y) as HN by (subst m'; intros i; sm_store_tac l).
  destruct Hr. constructor; simpl; try done.
  - eapply dchain_ext; [intros; apply HA | intros; apply HP | done].
  - by apply (StronglySorted_key_ext m).
  - intros k y. by rewrite HK.
  - intros y Hy. apply HD. auto.
  - by rewrite HH.
  - intros y Hy. rewrite HH. auto.
  - intros i Hi. rewrite (filter_lvl_ext m) by auto. eapply schain_ext; [intros; apply HN | auto].
Qed.

Lemma sm_Put_spec m ls key value :
  sm_rep m ls ->
  exists m' ls', Put m key value = Ok m' /\ sm_rep m' ls' /\ sm_elems m' = <[key := value]> (sm_elems m).
Proof.
  intros Hr. destruct (sm_items m !! key) as [l|] eqn:Hk.
  - destruct (srep_present m ls key l Hr Hk) as (_ & _ & n & _ & Hn & _ & _ & _). unfold Put. rewrite Hk.
    rewrite (sm_update_Some _ _ _ _ Hn). eexists _, ls. split; [done|].
    split; [by apply sm_rep_set_value|]. apply map_eq. intros k. rewrite sm_elems_val. simpl.
    destruct (decide (k = key)) as [->|Hne].
    + rewrite Hk, lookup_insert_eq. simpl. unfold val_of. simpl. by simplify_map_eq.
    + rewrite lookup_insert_ne, sm_elems_val by done. destruct (sm_items m !! k) as [l'|] eqn:Hk'; [|done].
      simpl. unfold val_of. simpl. rewrite lookup_insert_ne; [done|]. intros ->.
      apply (srep_items _ _ Hr) in Hk as [_ Hk], Hk' as [_ Hk']. congruence.
  - destruct (split_at m ls key true Hr) as (l1 & l2 & -> & H1 & H2).
    destruct (Put_absent_obs m l1 l2 key value Hr Hk H1 H2) as (m' & h & p & s & -> & Hh & Hp & Hs & Ho).
    assert (Forall (fun l => key_of m l < key)%Z l1) as H1' by (eapply Forall_impl; [exact H1|]; simpl; lia).
    assert (Forall (fun l => key < key_of m l)%Z l2) as H2'.
    { rewrite Forall_forall in H2 |- *. intros l Hl. specialize (H2 l Hl). simpl in H2.
      destruct (decide (key_of m l = key)) as [E|]; [|lia].
      assert (sm_items m !! key = Some l) by (apply (srep_items _ _ Hr); set_solver). congruence. }
    exists m', (l1 ++ sm_fresh m :: l2). split; [done|]. split; [by eapply put_obs_rep|].
    apply map_eq. intros k. rewrite sm_elems_val, (po_items _ _ _ _ _ _ _ _ Ho).
    destruct (decide (k = key)) as [->|Hne].
    + rewrite !lookup_insert_eq. simpl. by rewrite (po_val _ _ _ _ _ _ _ _ Ho), decide_True.
    + rewrite !lookup_insert_ne, sm_elems_val by done. destruct (sm_items m !! k) as [l'|] eqn:Hk'; [|done].
      simpl. rewrite (po_val _ _ _ _ _ _ _ _ Ho), decide_False; [done|]. intros ->.
      apply (srep_items _ _ Hr) in Hk' as [Hin _]. apply (srep_fresh_notin m _ Hr). set_solver.
Qed.

(** ** Remove *)

Lemma sm_lower_spec m level :
  (1 <= level)%nat -> (forall j, (j < level)%nat -> is_Some (nextf m j (sm_head m))) ->
  exists lv, sm_lower m level = Ok lv /\ (1 <= lv <= level)%nat /\
    forall j, (lv <= j < level)%nat -> nextf m j (sm_head m) = Some None.
Proof.
  induction level as [|level IH]; intros Hl Hn; [lia|]. destruct level as [|level].
  { exists 1. split_and!; (done || lia). }
  destruct (Hn (S level)) as [x Hx]; [lia|].
  assert (sm_lower m (S (S level)) = match x with None => sm_lower m (S level) | Some _ => mret (S (S level)) end)
    as -> by (cbn [sm_lower]; by rewrite (sm_next_at_Some _ _ _ _ Hx)).
  destruct x as [x|].
  - exists (S (S level)). split_and!; (done || lia).
  - destruct IH as (lv & -> & Hlv & Hj); [lia | intros; apply Hn; lia|].
    exists lv. split_and!; [done | lia..|]. intros j Hj'.
    destruct (decide (j = S level)) as [->|]; [done|]. apply Hj. lia.
Qed.

Lemma lvl_cons m i x ls : lvl m i (x :: ls) = if decide (i < hgt m x) then x :: lvl m i ls else lvl m i ls.
Proof. unfold lvl. by rewrite filter_cons. Qed.

Section remove.
Context m l1 t l2 (Hr : sm_rep m (l1 ++ t :: l2)).

Lemma target_in_level j : (j < hgt m t)%nat -> is_Some (nextf m j t).
Proof.
  intros Hj. pose proof (srep_hgt _ _ Hr t ltac:(set_solver)). pose proof (srep_level _ _ Hr).
  pose proof (srep_levels _ _ Hr j ltac:(lia)) as Hc. rewrite lvl_app, lvl_cons, decide_True in Hc by done.
  erewrite (schain_next _ _ (lvl m j l1 ++ [t]) (lvl m j l2)); [eauto| |].
  - by rewrite <- app_assoc.
  - by rewrite app_comm_cons, last_snoc.
Qed.

Lemma stop_points j : (j < maxLevel)%nat ->
  nextf m j (stop_at m l1 j) = Some (if decide (j < hgt m t) then Some t else head (lvl m j l2)).
Proof.
  intros Hj. rewrite (stop_next m _ Hr l1 (t :: l2) eq_refl j _ Hj (stop_at_Some m l1 j)).
  rewrite lvl_cons. by case_decide.
Qed.

Lemma nodup_tl : t ∉ l1 ++ l2.
Proof.
  pose proof (srep_nodup _ _ Hr) as Hnd. apply NoDup_cons in Hnd as [_ Hnd]. apply NoDup_app in Hnd as [Hnd _].
  rewrite <- Permutation_middle in Hnd. by apply NoDup_cons in Hnd as [? _].
Qed.

Lemma points_at_target j : (j < maxLevel)%nat ->
  nextf m j (stop_at m l1 j) = Some (Some t) <-> (j < hgt m t)%nat.
Proof.
  intros Hj. rewrite stop_points by done. case_decide; [done|]. split; [|lia].
  intros [= Hh]. apply head_Some_elem_of, elem_lvl in Hh as [? _]. lia.
Qed.

(** What removing [t] does to the fields, before the level is lowered. *)
Record remove_obs m' (p s : loc) : Prop := {
  ro_items : sm_items m' = sm_items m;
  ro_head : sm_head m' = sm_head m;
  ro_tail : sm_tail m' = sm_tail m;
  ro_level : sm_level m' = sm_level m;
  ro_size : sm_size m' = sm_size m;
  ro_fresh : sm_fresh m' = sm_fresh m;
  ro_hgt l : hgt m' l = hgt m l;
  ro_key l : key_of m' l = key_of m l;
  ro_val l : val_of m' l = val_of m l;
  ro_dom l : sm_nodes m' !! l = None <-> sm_nodes m !! l = None;
  ro_after l : afterf m' l = if decide (l = p) then Some s else afterf m l;
  ro_prev l : prevf m' l = if decide (l = s) then Some p else prevf m l;
  ro_next j l : (j < maxLevel)%nat ->
    nextf m' j l = if decide (l = stop_at m l1 j /\ j < hgt m t) then nextf m j t else nextf m j l;
}.

Lemma unlink_all upd :
  (forall i, i < sm_level m -> upd !! i = Some (stop m l1 i)) ->
  exists m', sm_unlink m t upd 0 (sm_level m) = Ok m' /\ sm_frame m m' /\
    (forall y, prevf m' y = prevf m y) /\ (forall y, afterf m' y = afterf m y) /\
    (forall j y, (j < maxLevel)%nat ->
       nextf m' j y = if decide (y = stop_at m l1 j /\ j < hgt m t) then nextf m j t else nextf m j y).
Proof.
  intros Hupd. pose proof (srep_level _ _ Hr). pose proof (srep_hgt _ _ Hr t ltac:(set_solver)).
  destruct (sm_unlink_spec upd (stop_at m l1) t (sm_level m) m 0) as (m' & -> & F & P & A & N).
  { intros j Hj. split_and!.
    - rewrite Hupd by lia. by rewrite stop_at_Some.
    - rewrite stop_points by lia. eauto.
    - intros Hp. apply target_in_level, points_at_target; [lia|done]. }
  exists m'. split_and!; try done. intros j y Hj. rewrite N. apply decide_ext. split.
  - intros (_ & -> & ?%points_at_target); [done..|lia].
  - intros (-> & Hjt). split_and!; [lia..|]. by apply points_at_target.
Qed.

(** The lists of the levels without the target. *)
Lemma remove_level m' p s i :
  remove_obs m' p s -> (i < maxLevel)%nat -> schain (nextf m' i) (sm_head m) (lvl m i (l1 ++ l2)).
Proof.
  intros Ho Hi. pose proof (srep_levels _ _ Hr i Hi) as Hc. rewrite lvl_app, lvl_cons in Hc. rewrite lvl_app.
  case_decide as Hlt.
  - pose proof (srep_nodup _ _ Hr) as Hnd. apply NoDup_cons in Hnd as [Hh' Hnd]. apply NoDup_app in Hnd as (Hnd & _).
    apply schain_unlink with (nextf m i) (stop_at m l1 i) t; [|apply stop_at_Some | done | |].
    + pose proof (lvl_app m i l1 (t :: l2)) as E. rewrite lvl_cons, decide_True in E by done. rewrite <- E.
      apply NoDup_cons. split; [intros [_ ?]%elem_lvl; set_solver | by apply NoDup_filter].
    + by rewrite (ro_next _ _ _ Ho), decide_True.
    + intros y ?. rewrite (ro_next _ _ _ Ho), decide_False by (done || naive_solver). done.
  - eapply schain_ext; [|exact Hc]. intros y Hy.
    by rewrite (ro_next _ _ _ Ho), decide_False by (done || naive_solver).
Qed.

Lemma remove_obs_rep m' p s lv :
  last (sm_head m :: l1) = Some p -> head (l2 ++ [sm_tail m]) = Some s -> remove_obs m' p s ->
  (1 <= lv <= sm_level m)%nat ->
  (forall j, (lv <= j < sm_level m)%nat -> nextf m' j (sm_head m) = Some None) ->
  sm_rep (sm_with m' (delete (key_of m t) (sm_items m')) lv (sm_size m' - 1)) (l1 ++ l2).
Proof.
  intros Hp Hs Ho Hlv Hlow. pose proof (srep_nodup _ _ Hr) as Hnd.
  pose proof (fun i => remove_level m' p s i Ho) as Hchain. pose proof nodup_tl as Htl.
  destruct Ho as [O1 O2 O3 O4 O5 O6 O7 O8 O9 O10 O11 O12 O13]. set (m2 := sm_with _ _ _ _).
  assert (forall i l', lvl m2 i l' = lvl m i l') as El.
  { intros i l'. apply filter_lvl_ext. intros l Hl. apply O7. }
  constructor; simpl; rewrite ?O1, ?O2, ?O3, ?O5, ?O6.
  - rewrite <- app_assoc in Hnd |- *. simpl in Hnd. rewrite app_comm_cons in Hnd.
    rewrite <- Permutation_middle in Hnd. apply NoDup_cons in Hnd as [_ Hnd]. done.
  - rewrite <- app_assoc in Hnd. apply dchain_unlink with (afterf m) (prevf m) t p s; try done; [apply Hr|..].
    + change (afterf m' p = Some s). by rewrite O11, decide_True.
    + change (prevf m' s = Some p). by rewrite O12, decide_True.
    + intros y ? ?. change (afterf m' y = afterf m y). by rewrite O11, decide_False.
    + intros y ? ?. change (prevf m' y = prevf m y). by rewrite O12, decide_False.
  - apply (StronglySorted_key_ext m); [by intros l _; apply O8|].
    pose proof (srep_sorted _ _ Hr) as Hsort. rewrite StronglySorted_app in Hsort |- *.
    destruct Hsort as (Hx & ? & Hsort). apply StronglySorted_inv in Hsort as [? _]. split_and!; [set_solver|done..].
  - intros k l. change (key_of m2 l) with (key_of m' l). rewrite lookup_delete_Some, (srep_items _ _ Hr k l), O8.
    rewrite !elem_of_app, elem_of_cons. rewrite elem_of_app in Htl. split.
    + intros (Hk & [?|[->|?]] & <-); [tauto | done | tauto].
    + intros [Hl <-]. split; [|split; [tauto | done]]. intros E.
      assert (l = t); [|subst; tauto]. apply (inj Some).
      rewrite <- (proj2 (srep_items _ _ Hr (key_of m l) l)) by (split; [rewrite elem_of_app, elem_of_cons; tauto | done]).
      rewrite <- E. apply (srep_items _ _ Hr). split; [set_solver | done].
  - rewrite (srep_size _ _ Hr), !length_app. simpl. lia.
  - intros l Hl. apply O10, Hr, Hl.
  - pose proof (srep_level _ _ Hr). lia.
  - etrans; [apply O7|]. apply Hr.
  - intros l Hl. change (hgt m2 l) with (hgt m' l). rewrite O7.
    pose proof (srep_hgt _ _ Hr l ltac:(set_solver)) as Hh. split; [lia|].
    destruct (decide (lv < hgt m l)) as [Hlt|]; [|lia]. exfalso. pose proof (srep_level _ _ Hr).
    specialize (Hchain lv ltac:(lia)). specialize (Hlow lv ltac:(lia)).
    assert (l ∈ lvl m lv (l1 ++ l2)) as Hin by (apply elem_lvl; auto).
    destruct (lvl m lv (l1 ++ l2)); [set_solver|]. destruct Hchain as [Hc _]. congruence.
  - intros i Hi. rewrite El. by apply Hchain.
Qed.
End remove.

(** The two assignments that take the node out of the key order. *)
Lemma bypass_spec m p s :
  is_Some (sm_nodes m !! p) -> is_Some (sm_nodes m !! s) ->
  exists m1 m2, sm_update m (Some p) (set_after (Some s)) = Ok m1 /\
    sm_update m1 (Some s) (set_prev (Some p)) = Ok m2 /\ sm_frame m m2 /\
    (forall y, afterf m2 y = if decide (y = p) then Some s else afterf m y) /\
    (forall y, prevf m2 y = if decide (y = s) then Some p else prevf m y) /\
    (forall i y, nextf m2 i y = nextf m i y).
Proof.
  intros Hp Hs. destruct (sm_update_after m p (Some s) Hp) as (m1 & E1 & F1 & A1 & P1 & N1).
  destruct (sm_update_prev m1 s (Some p)) as (m2 & E2 & F2 & P2 & A2 & N2).
  { rewrite <- !not_eq_None_Some in *. by rewrite (fr_dom _ _ F1). }
  exists m1, m2. split_and!; try done; [eauto using sm_frame_trans|..]; intros.
  - by rewrite A2, A1.
  - by rewrite P2, P1.
  - by rewrite N2, N1.
Qed.

Lemma sm_Remove_present m l1 t l2 n :
  sm_rep m (l1 ++ t :: l2) -> sm_nodes m !! t = Some n ->
  Forall (fun x => key_of m x < sm_key n)%Z l1 -> Forall (fun x => sm_key n < key_of m x)%Z l2 ->
  sm_items m !! sm_key n = Some t ->
  exists m' p s lv, Remove m (sm_key n) =
      Ok (sm_with m' (delete (key_of m t) (sm_items m')) lv (sm_size m' - 1), Some (sm_value n)) /\
    last (sm_head m :: l1) = Some p /\ head (l2 ++ [sm_tail m]) = Some s /\ remove_obs m l1 t m' p s /\
    (1 <= lv <= sm_level m)%nat /\
    (forall j, (lv <= j < sm_level m)%nat -> nextf m' j (sm_head m) = Some None).
Proof.
  intros Hr Hn H1 H2 Hk. assert (key_of m t = sm_key n) as Hkey by (unfold key_of; by rewrite Hn).
  unfold Remove. rewrite Hk, (sm_load_Some _ _ _ Hn). cbn [mbind go_bind].
  destruct (search_full m _ Hr (fun k => k <? sm_key n)%Z l1 (t :: l2) eq_refl) as (u & upd & -> & Hu & Hlen & Hupd).
  { eapply Forall_impl; [exact H1|]. simpl. lia. }
  { constructor; [lia|]. eapply Forall_impl; [exact H2|]. simpl. lia. }
  pose proof (srep_hgt _ _ Hr t ltac:(set_solver)) as Hht. pose proof (srep_level _ _ Hr) as Hlev.
  assert (nextf m 0 u = Some (Some t)) as Hx.
  { assert (u = stop_at m l1 0) as ->; [|apply (points_at_target m l1 t l2 Hr); unfold maxLevel; lia].
    apply (inj Some). rewrite <- Hu, <- stop_at_Some. unfold stop. by rewrite (lvl_0 m _ _ Hr) by set_solver. }
  cbn [mbind go_bind]. rewrite (sm_next_at_Some _ _ _ _ Hx). cbn [mbind go_bind]. rewrite decide_True by done.
  destruct (unlink_all m l1 t l2 Hr upd Hupd) as (m1 & -> & F1 & P1 & A1 & N1). cbn [mbind go_bind].
  destruct (srep_node m l1 t l2 Hr) as (n' & Hn' & Hafter & Hprev). rewrite Hn in Hn'. injection Hn' as <-.
  rewrite Hafter, Hprev, Hu. destruct (head (l2 ++ [sm_tail m])) as [s|] eqn:Hs; [|by destruct l2].
  assert (forall l, l ∈ sm_head m :: (l1 ++ t :: l2) ++ [sm_tail m] -> is_Some (sm_nodes m1 !! l)) as Hdom.
  { intros l Hl. rewrite <- not_eq_None_Some, (fr_dom _ _ F1), not_eq_None_Some. by apply (srep_dom m _ _ Hr). }
  destruct (bypass_spec m1 u s) as (m2 & m3 & -> & E3 & F3 & A3 & P3 & N3).
  { apply Hdom. apply last_Some_elem_of in Hu. set_solver. }
  { apply Hdom. apply head_Some_elem_of in Hs. set_solver. }
  cbn [mbind go_bind]. rewrite E3. cbn [mbind go_bind]. pose proof (sm_frame_trans _ _ _ F1 F3) as F.
  assert (remove_obs m l1 t m3 u s) as Ho.
  { destruct F. constructor; try done; intros; rewrite ?A3, ?P3, ?N3, ?A1, ?P1; try done. by apply N1. }
  destruct (sm_lower_spec m3 (sm_level m3)) as (lv & -> & Hlv & Hlow).
  { rewrite (ro_level _ _ _ _ _ _ Ho). lia. }
  { intros j Hj. rewrite (ro_level _ _ _ _ _ _ Ho) in Hj. rewrite (ro_head _ _ _ _ _ _ Ho).
    pose proof (remove_level m l1 t l2 Hr m3 u s j Ho ltac:(lia)) as Hc.
    destruct (lvl m j (l1 ++ l2)); [|destruct Hc]; eauto. }
  rewrite (ro_level _ _ _ _ _ _ Ho), (ro_head _ _ _ _ _ _ Ho) in *.
  exists m3, u, s, lv. rewrite Hkey. split_and!; (done || lia).
Qed.

Lemma sm_Remove_spec m ls key :
  sm_rep m ls ->
  exists m' ls', Remove m key = Ok (m', sm_elems m !! key) /\ sm_rep m' ls' /\
    sm_elems m' = delete key (sm_elems m).
Proof.
  intros Hr. destruct (sm_items m !! key) as [t|] eqn:Hk; cycle 1.
  { exists m, ls. unfold Remove. rewrite Hk, (items_elems m ls) by done. split_and!; [done..|].
    by rewrite delete_id by (by apply (items_elems m ls)). }
  destruct (srep_present m ls key t Hr Hk) as (l1 & l2 & n & -> & Hn & <- & Hv & H1 & H2).
  destruct (sm_Remove_present m l1 t l2 n Hr Hn H1 H2 Hk) as (m' & p & s & lv & -> & Hp & Hs & Ho & Hlv & Hlow).
  eexists _, (l1 ++ l2). split; [by rewrite Hv|]. split; [by eapply remove_obs_rep|].
  apply map_eq. intros k. rewrite sm_elems_val. simpl. rewrite (ro_items _ _ _ _ _ _ Ho).
  assert (key_of m t = sm_key n) as -> by (unfold key_of; by rewrite Hn).
  destruct (decide (k = sm_key n)) as [->|Hne]; [by rewrite !lookup_delete_eq|].
  rewrite !lookup_delete_ne, sm_elems_val by done. destruct (sm_items m !! k); [|done]. simpl.
  apply (ro_val _ _ _ _ _ _ Ho).
Qed.

Lemma sm_elems_size m ls : sm_rep m ls -> size (sm_elems m) = length ls.
Proof.
  intros Hr. rewrite <- size_dom. assert (dom (sm_elems m) = list_to_set (C := gset Z) (key_of m <$> ls)) as ->.
  { apply set_eq. intros k. rewrite elem_of_dom, (sm_elems_keys m ls) by done.
    rewrite elem_of_list_to_set, list_elem_of_fmap. naive_solver. }
  rewrite size_list_to_set, length_fmap; [done|].
  pose proof (srep_sorted _ _ Hr) as Hs. clear -Hs. induction Hs as [|x l Hs IH Hx]; simpl; constructor; [|done].
  intros (y & E & Hy)%list_elem_of_fmap. rewrite Forall_forall in Hx. specialize (Hx y Hy). simpl in Hx. lia.
Qed.

Lemma NewSortedMap_rep : sm_rep (NewSortedMap (V := V)) [] /\ sm_elems (NewSortedMap (V := V)) = ∅.
Proof.
  split; [|apply map_eq; intros k; by rewrite sm_elems_val].
  constructor; simpl; try done.
  - repeat constructor; set_solver.
  - constructor.
  - intros k l. rewrite lookup_empty. set_solver.
  - intros l Hl. rewrite lookup_insert_ne, lookup_singleton_ne by lia. done.
  - unfold maxLevel. lia.
  - set_solver.
  - intros i Hi. exact (lookup_replicate_2 maxLevel None i Hi).
Qed.
End spec.

(** ** The interface *)

#[export] Instance SortedMap_ops V `{!Inhabited V} : SortedMapOps (SortedMap V) V := {
  smi_new := NewSortedMap;
  smi_put := Put;
  smi_get := Get;
  smi_next := Next;
  smi_prev := Prev;
  smi_min := Min;
  smi_remove := Remove;
}.

#[export] Program Instance SortedMap_spec V `{!Inhabited V} : SortedMapSpec (SortedMap V) V := {
  smi_wf := sm_wf;
  smi_elems := sm_elems;
}.
Next Obligation. intros V ?. split; [exists []|]; apply NewSortedMap_rep. Qed.
Next Obligation. intros V ? m k v [ls Hr]. destruct (sm_Put_spec m ls k v Hr) as (m' & ls' & ? & ? & ?).
  exists m'. split_and!; [done | by exists ls' | done]. Qed.
Next Obligation. intros V ? m k [ls Hr]. by apply (sm_Get_spec m ls). Qed.
Next Obligation. intros V ? m k [ls Hr]. by apply (sm_Next_spec m ls). Qed.
Next Obligation. intros V ? m k [ls Hr]. by apply (sm_Prev_spec m ls). Qed.
Next Obligation. intros V ? m [ls Hr]. by apply (sm_Min_spec m ls). Qed.
Next Obligation. intros V ? m k [ls Hr]. destruct (sm_Remove_spec m ls k Hr) as (m' & ls' & ? & ? & ?).
  exists m'. split_and!; [done | by exists ls' | done]. Qed.

(** ** Property *)

(** C35. Refinement: on every well-formed skip list, each operation of the pointer
    structure returns (the searches end, no nil dereference, no index out of
    range), keeps the structure well-formed, and acts on its content as the
    operation of a finite map; [Next], [Prev] and [Min] answer the neighbour
    queries of the key order. *)
Theorem sortedmap_refines_map {V} `{!Inhabited V} (m : SortedMap V) (k : Z) (v : V) :
  sm_wf m ->
  Size m = Z.of_nat (size (sm_elems m)) /\
  (exists m', Put m k v = Ok m' /\ sm_wf m' /\ sm_elems m' = <[k := v]> (sm_elems m)) /\
  (exists m', Remove m k = Ok (m', sm_elems m !! k) /\ sm_wf m' /\ sm_elems m' = delete k (sm_elems m)) /\
  Get m k = Ok (sm_elems m !! k) /\ Contains m k = bool_decide (is_Some (sm_elems m !! k)) /\
  (exists r, Next m k = Ok r /\ is_next (sm_elems m) k r) /\
  (exists r, Prev m k = Ok r /\ is_prev (sm_elems m) k r) /\
  (exists r, Min m = Ok r /\ is_min (sm_elems m) r).
Proof.
  intros Hwf. pose proof (smi_put_spec m k v Hwf). pose proof (smi_remove_spec m k Hwf).
  pose proof (smi_get_spec m k Hwf). pose proof (smi_next_spec m k Hwf).
  pose proof (smi_prev_spec m k Hwf). pose proof (smi_min_spec m Hwf).
  destruct Hwf as [ls Hr]. split_and!; try done; [|by apply (sm_Contains_spec m ls)].
  etrans; [apply (srep_size _ _ Hr)|]. by rewrite (sm_elems_size m ls).
Qed.

Lemma sortedmap_refines_map_witness :
  exists m, Put (NewSortedMap (V := Z)) 5%Z 50%Z = Ok m /\ sm_elems m = {[5%Z := 50%Z]}.
Proof.
  destruct (sortedmap_refines_map (NewSortedMap (V := Z)) 5%Z 50%Z) as (_ & (m & Hm & _ & He) & _).
  - exists []. apply NewSortedMap_rep.
  - exists m. split; [exact Hm|]. rewrite He. reflexivity.
Defined.
