(* ===== verification/Rcv.v ===== *)
(** * Rcv: the receive buffer of src/rcv.go

    Reassembles the segments of every stream of a connection.  A stream keeps
    its segments in the sorted map, by offset; the buffer counts the bytes it
    holds against its capacity and queues the acknowledgements to send.  The
    definitions use the sorted map through its interface ([SortedMapOps]) and
    the theorems through its specification ([SortedMapSpec]), so that they hold
    of the skip list of SortedMap.v.

    [map[uint32]*RcvBuffer] is a finite map of the pointed-to records (no
    pointer to one leaves the buffer); the mutex makes each method atomic and
    is not modelled. *)

From stdpp Require Import prelude gmap list numbers strings.
From S2P Require Import Prelude Proto Interfaces SortedMap.

(** ** The code *)

Inductive RcvInsertStatus := RcvInsertOk | RcvInsertDuplicate | RcvInsertBufferFull.

#[export] Instance RcvInsertStatus_eq_dec : EqDecision RcvInsertStatus.
Proof. solve_decision. Defined.

Record RcvValue := mkRcvValue {
  rv_data : bytes;
  receiveTimeNano : Z;
}.

#[export] Instance RcvValue_inhabited : Inhabited RcvValue := populate (mkRcvValue [] 0).

Section code.
Context {M : Type} `{!SortedMapOps M RcvValue}.

Record RcvBuffer := mkRcvBuffer {
  segments : M;
  nextInOrderOffsetToWaitFor : Z;
  closeAtOffset : option Z;
}.

Record ReceiveBuffer := mkReceiveBuffer {
  streams : gmap Z RcvBuffer;
  capacity : Z;
  rb_size : Z;
  ackList : list Ack;
}.

Definition NewRcvBuffer : RcvBuffer := mkRcvBuffer smi_new 0 None.

Definition NewReceiveBuffer (cap : Z) : ReceiveBuffer := mkReceiveBuffer ∅ cap 0 [].

Definition set_stream (rb : ReceiveBuffer) (streamID : Z) (stream : RcvBuffer) : ReceiveBuffer :=
  mkReceiveBuffer (<[streamID := stream]> (streams rb)) (capacity rb) (rb_size rb) (ackList rb).

Definition set_size (rb : ReceiveBuffer) (size : Z) : ReceiveBuffer :=
  mkReceiveBuffer (streams rb) (capacity rb) size (ackList rb).

Definition add_ack (rb : ReceiveBuffer) (a : Ack) : ReceiveBuffer :=
  mkReceiveBuffer (streams rb) (capacity rb) (rb_size rb) (ackList rb ++ [a]).

Definition set_segments (stream : RcvBuffer) (s : M) : RcvBuffer :=
  mkRcvBuffer s (nextInOrderOffsetToWaitFor stream) (closeAtOffset stream).

Definition getOrCreateStream (rb : ReceiveBuffer) (streamID : Z) : ReceiveBuffer * RcvBuffer :=
  match streams rb !! streamID with
  | Some stream => (rb, stream)
  | None => (set_stream rb streamID NewRcvBuffer, NewRcvBuffer)
  end.

Definition EmptyInsert (rb : ReceiveBuffer) (streamID offset nowNano : Z) : ReceiveBuffer * RcvInsertStatus :=
  (add_ack rb (mkAck streamID offset 0 0), RcvInsertOk).

(** A segment is stored at exactly this offset: keep the longer one. *)
Definition insert_same (rb : ReceiveBuffer) (streamID : Z) (stream : RcvBuffer) (offset nowNano : Z)
    (userData : bytes) (existingData : RcvValue) : go (ReceiveBuffer * RcvInsertStatus) :=
  let dataLen := len userData in
  let existingLen := len (rv_data existingData) in
  if decide (dataLen <= existingLen)%Z then mret (rb, RcvInsertDuplicate) else
  '(segs, _) ← smi_remove (segments stream) offset;
  let size := (rb_size rb - existingLen)%Z in
  segs ← smi_put segs offset (mkRcvValue userData nowNano);
  mret (set_size (set_stream rb streamID (set_segments stream segs)) (size + dataLen), RcvInsertOk).

(** The previous segment reaches into the incoming one: cut the front;
    [None] when nothing is left (a duplicate). *)
Definition adjust_prev (segs : M) (offset : Z) (userData : bytes) : go (option (Z * bytes)) :=
  prev ← smi_prev segs offset;
  match prev with
  | None => mret (Some (offset, userData))
  | Some (prevOffset, prevData) =>
      let prevEnd := u64 (prevOffset + len (rv_data prevData)) in
      if decide (offset < prevEnd)%Z then
        let overlapLen := u64 (u64 (prevOffset + len (rv_data prevData)) - offset) in
        if decide (len userData <= overlapLen)%Z then mret None else
        existingOverlap ← slice_from (rv_data prevData) (u64 (offset - prevOffset));
        incomingOverlap ← slice_to userData overlapLen;
        if decide (existingOverlap = incomingOverlap) then
          finalUserData ← slice_from userData overlapLen;
          mret (Some (prevEnd, finalUserData))
        else Panic (PanicWith "Previous segment overlap mismatch - data integrity violation")
      else mret (Some (offset, userData))
  end.

(** The incoming segment reaches into the next one: drop the next one if it
    is covered, otherwise cut the end.  Returns the segments, the size of the
    buffer and what is left of the data. *)
Definition adjust_next (segs : M) (size offset finalOffset : Z) (finalUserData : bytes) : go (M * Z * bytes) :=
  next ← smi_next segs offset;
  match next with
  | None => mret (segs, size, finalUserData)
  | Some (nextOffset, nextData) =>
      let ourEnd := u64 (finalOffset + len finalUserData) in
      if decide (nextOffset < ourEnd)%Z then
        let nextEnd := u64 (nextOffset + len (rv_data nextData)) in
        if decide (nextEnd <= ourEnd)%Z then
          '(segs, _) ← smi_remove segs nextOffset;
          let size := (size - len (rv_data nextData))%Z in
          let ourOverlapStart := u64 (nextOffset - finalOffset) in
          incomingOverlap ← slice finalUserData ourOverlapStart (u64 (ourOverlapStart + len (rv_data nextData)));
          if decide (rv_data nextData = incomingOverlap) then mret (segs, size, finalUserData)
          else Panic (PanicWith "Next segment complete overlap mismatch - data integrity violation")
        else
          let overlapLen := u64 (ourEnd - nextOffset) in
          let ourOverlapStart := u64 (nextOffset - finalOffset) in
          existingOverlap ← slice_to (rv_data nextData) overlapLen;
          incomingOverlap ← slice_from finalUserData ourOverlapStart;
          if decide (existingOverlap = incomingOverlap) then
            finalUserData ← slice_to finalUserData ourOverlapStart;
            mret (segs, size, finalUserData)
          else Panic (PanicWith "Next segment partial overlap mismatch - data integrity violation")
      else mret (segs, size, finalUserData)
  end.

Definition Insert (rb : ReceiveBuffer) (streamID offset nowNano : Z) (userData : bytes)
    : go (ReceiveBuffer * RcvInsertStatus) :=
  let dataLen := len userData in
  let '(rb, stream) := getOrCreateStream rb streamID in
  if decide (capacity rb < rb_size rb + dataLen)%Z then mret (rb, RcvInsertBufferFull) else
  let rb := add_ack rb (mkAck streamID offset (u16 dataLen) 0) in
  if decide (u64 (offset + dataLen) <= nextInOrderOffsetToWaitFor stream)%Z then mret (rb, RcvInsertDuplicate) else
  existing ← smi_get (segments stream) offset;
  match existing with
  | Some existingData => insert_same rb streamID stream offset nowNano userData existingData
  | None =>
      adjusted ← adjust_prev (segments stream) offset userData;
      match adjusted with
      | None => mret (rb, RcvInsertDuplicate)
      | Some (finalOffset, finalUserData) =>
          '(segs, size, finalUserData) ←
            adjust_next (segments stream) (rb_size rb) offset finalOffset finalUserData;
          segs ← smi_put segs finalOffset (mkRcvValue finalUserData nowNano);
          mret (set_size (set_stream rb streamID (set_segments stream segs)) (size + len finalUserData),
                RcvInsertOk)
      end
  end.

Definition Close (rb : ReceiveBuffer) (streamID closeOffset : Z) : ReceiveBuffer :=
  let '(rb, stream) := getOrCreateStream rb streamID in
  match closeAtOffset stream with
  | None => set_stream rb streamID
              (mkRcvBuffer (segments stream) (nextInOrderOffsetToWaitFor stream) (Some closeOffset))
  | Some _ => rb
  end.

Definition GetOffsetClosedAt (rb : ReceiveBuffer) (streamID : Z) : option Z :=
  match streams rb !! streamID with
  | None => None
  | Some stream => closeAtOffset stream
  end.

(** Returns the offset, the data (nil is [None]) and the receive time. *)
Definition RemoveOldestInOrder (rb : ReceiveBuffer) (streamID : Z) : go (ReceiveBuffer * (Z * option bytes * Z)) :=
  if decide (streams rb = ∅) then mret (rb, (0, None, 0)%Z) else
  match streams rb !! streamID with
  | None => mret (rb, (0, None, 0)%Z)
  | Some stream =>
      oldest ← smi_min (segments stream);
      match oldest with
      | None => mret (rb, (0, None, 0)%Z)
      | Some (oldestOffset, oldestValue) =>
          let next := nextInOrderOffsetToWaitFor stream in
          if decide (oldestOffset = next) then
            '(segs, _) ← smi_remove (segments stream) oldestOffset;
            let size := (rb_size rb - len (rv_data oldestValue))%Z in
            '(data, nextOffset) ←
              (if decide (oldestOffset < next)%Z then
                 data ← slice_from (rv_data oldestValue) (u64 (next - oldestOffset)); mret (data, next)
               else mret (rv_data oldestValue, oldestOffset));
            let stream := mkRcvBuffer segs (u64 (nextOffset + len data)) (closeAtOffset stream) in
            mret (set_size (set_stream rb streamID stream) size,
                  (oldestOffset, Some data, receiveTimeNano oldestValue))
          else if decide (next < oldestOffset)%Z then mret (rb, (0, None, 0)%Z)
          else mret (rb, (0, None, 0)%Z)
      end
  end.

Definition Size (rb : ReceiveBuffer) : Z := rb_size rb.

Definition Available (rb : ReceiveBuffer) : Z := (capacity rb - rb_size rb)%Z.

Definition GetSndAck (rb : ReceiveBuffer) : ReceiveBuffer * option Ack :=
  match ackList rb with
  | [] => (rb, None)
  | ack :: acks => (mkReceiveBuffer (streams rb) (capacity rb) (rb_size rb) acks, Some ack)
  end.
End code.

Arguments RcvBuffer : clear implicits.
Arguments ReceiveBuffer : clear implicits.

(** ** What a stream holds *)

Definition seg_len (v : RcvValue) : Z := len (rv_data v).
Definition seg_end (o : Z) (v : RcvValue) : Z := (o + seg_len v)%Z.

(** Every stored segment is the part of the byte stream [f] at its offset. *)
Definition consistent (f : Z -> Z) (g : gmap Z RcvValue) : Prop :=
  forall o v, g !! o = Some v ->
    (0 <= o)%Z /\ is_u64 (seg_end o v) /\ rv_data v = read_at f o (length (rv_data v)).

(** No byte is stored twice. *)
Definition disjoint_segs (g : gmap Z RcvValue) : Prop :=
  forall o1 v1 o2 v2, g !! o1 = Some v1 -> g !! o2 = Some v2 -> (o1 < o2)%Z -> (seg_end o1 v1 <= o2)%Z.

Definition covers (g : gmap Z RcvValue) (x : Z) : Prop :=
  exists o v, g !! o = Some v /\ (o <= x < seg_end o v)%Z.

(** A packet of the byte stream [f]. *)
Definition segment_of (f : Z -> Z) (offset : Z) (d : bytes) : Prop :=
  is_u64 offset /\ is_u64 (offset + len d) /\ d = read_at f offset (length d).

Lemma consistent_insert f g o v :
  consistent f g -> segment_of f o (rv_data v) -> consistent f (<[o := v]> g).
Proof.
  intros Hc (Ho & He & Hd) o' v' Hv'. destruct (decide (o' = o)) as [->|].
  - rewrite lookup_insert_eq in Hv'. injection Hv' as <-. split_and!; [widths; lia | done | done].
  - rewrite lookup_insert_ne in Hv' by done. by apply Hc.
Qed.

Lemma consistent_delete f g o : consistent f g -> consistent f (delete o g).
Proof. intros Hc o' v' [_ ?]%lookup_delete_Some. by apply Hc. Qed.

(** Two reads of one stream agree where they overlap. *)
Lemma read_at_overlap f o1 n1 o2 n2 i j k :
  (o1 + Z.of_nat i = o2 + Z.of_nat j)%Z -> (i + k <= n1)%nat -> (j + k <= n2)%nat ->
  take k (drop i (read_at f o1 n1)) = take k (drop j (read_at f o2 n2)).
Proof.
  intros E H1 H2. rewrite !read_at_drop, !read_at_take by lia. by rewrite E.
Qed.

Section adjust.
Context {M : Type} `{!SortedMapOps M RcvValue} `{!SortedMapSpec M RcvValue}.
Context (f : Z -> Z) (segs : M) (Hwf : smi_wf segs) (Hc : consistent f (smi_elems segs)).

(** The outcomes of the two adjustments. *)
Inductive prev_outcome (offset : Z) (d : bytes) : go (option (Z * bytes)) -> Prop :=
  | prev_same r :
      is_prev (smi_elems segs) offset r -> (forall po pv, r = Some (po, pv) -> seg_end po pv <= offset)%Z ->
      prev_outcome offset d (Ok (Some (offset, d)))
  | prev_dup po pv :
      is_prev (smi_elems segs) offset (Some (po, pv)) -> (offset < seg_end po pv)%Z ->
      (offset + len d <= seg_end po pv)%Z -> prev_outcome offset d (Ok None)
  | prev_cut po pv d' :
      is_prev (smi_elems segs) offset (Some (po, pv)) -> (offset < seg_end po pv < offset + len d)%Z ->
      (seg_end po pv + len d' = offset + len d)%Z -> segment_of f (seg_end po pv) d' ->
      prev_outcome offset d (Ok (Some (seg_end po pv, d'))).

Lemma adjust_prev_spec offset d : segment_of f offset d -> prev_outcome offset d (adjust_prev segs offset d).
Proof.
  intros (Ho & He & Hd). unfold adjust_prev. destruct (smi_prev_spec segs offset Hwf) as (r & -> & Hr).
  cbn [mbind go_bind]. destruct r as [[po pv]|]; [|by eapply prev_same].
  destruct (Hr) as (Hpo & Hlt & _). destruct (Hc _ _ Hpo) as (Hpo0 & Hend & Hpd).
  change (po + len (rv_data pv))%Z with (seg_end po pv).
  assert (u64 (seg_end po pv) = seg_end po pv) as -> by (widths; apply Z.mod_small; lia).
  case_decide as Hov; [|by eapply prev_same; [exact Hr|]; intros ? ? [= -> ->]; lia].
  assert (u64 (seg_end po pv - offset) = seg_end po pv - offset)%Z as -> by (widths; apply Z.mod_small; lia).
  assert (u64 (offset - po) = offset - po)%Z as -> by (widths; apply Z.mod_small; lia).
  case_decide as Hdup; [by eapply prev_dup; [exact Hr|lia..]|].
  assert (seg_end po pv = po + len (rv_data pv))%Z as Eend by done.
  rewrite (slice_from_Ok (rv_data pv)) by lia. cbn [mbind go_bind]. rewrite slice_to_Ok by lia. cbn [mbind go_bind].
  rewrite decide_True; cycle 1.
  { rewrite Hpd, Hd. rewrite read_at_drop, read_at_take by lia. f_equal; lia. }
  rewrite slice_from_Ok by lia. eapply prev_cut; [exact Hr | lia | rewrite length_drop; lia|].
  split_and!.
  - done.
  - rewrite length_drop. replace (seg_end po pv + _)%Z with (offset + len d)%Z by lia. done.
  - rewrite length_drop. rewrite Hd at 1. rewrite read_at_drop by lia. f_equal; lia.
Qed.

Inductive next_outcome (size offset fo : Z) (d : bytes) : go (M * Z * bytes) -> Prop :=
  | next_same :
      (forall o v, smi_elems segs !! o = Some v -> offset < o -> fo + len d <= o)%Z ->
      next_outcome size offset fo d (Ok (segs, size, d))
  | next_covered no nv segs' :
      is_next (smi_elems segs) offset (Some (no, nv)) -> (fo <= no)%Z -> (no < fo + len d)%Z ->
      (seg_end no nv <= fo + len d)%Z ->
      smi_wf segs' -> smi_elems segs' = delete no (smi_elems segs) ->
      next_outcome size offset fo d (Ok (segs', size - seg_len nv, d)%Z)
  | next_cut no nv d' :
      is_next (smi_elems segs) offset (Some (no, nv)) -> (fo <= no)%Z ->
      (no < fo + len d < seg_end no nv)%Z -> (fo + len d' = no)%Z -> segment_of f fo d' ->
      next_outcome size offset fo d (Ok (segs, size, d'))
  | next_panic no nv :
      is_next (smi_elems segs) offset (Some (no, nv)) -> (no < fo)%Z ->
      next_outcome size offset fo d (Panic SliceOutOfRange).

Lemma adjust_next_spec size offset fo d :
  segment_of f fo d -> next_outcome size offset fo d (adjust_next segs size offset fo d).
Proof.
  intros (Ho & He & Hd). unfold adjust_next. destruct (smi_next_spec segs offset Hwf) as (r & -> & Hr).
  cbn [mbind go_bind]. destruct r as [[no nv]|]; cycle 1.
  { apply next_same. intros o v Hov Hlt. assert (o <= offset)%Z; [apply Hr; eauto | lia]. }
  destruct (Hr) as (Hno & Hlt & Hmin). destruct (Hc _ _ Hno) as (Hno0 & Hend & Hnd).
  change (no + len (rv_data nv))%Z with (seg_end no nv).
  assert (u64 (seg_end no nv) = seg_end no nv) as -> by (widths; apply Z.mod_small; lia).
  assert (u64 (fo + len d) = fo + len d)%Z as -> by (widths; apply Z.mod_small; lia).
  assert (seg_end no nv = no + len (rv_data nv))%Z as Eend by done.
  case_decide as Hov; cycle 1.
  { apply next_same. intros o v Hov' Hlt'. assert (no <= o)%Z; [apply Hmin; eauto | lia]. }
  assert (u64 (fo + len d - no) = fo + len d - no)%Z as -> by (widths; apply Z.mod_small; lia).
  destruct (decide (fo <= no)%Z) as [Hfo|Hfo].
  - assert (u64 (no - fo) = no - fo)%Z as -> by (widths; apply Z.mod_small; lia). case_decide as Hcov.
    + destruct (smi_remove_spec segs no Hwf) as (segs' & -> & Hwf' & Hel). cbn [mbind go_bind].
      assert (u64 (no - fo + len (rv_data nv)) = no - fo + len (rv_data nv))%Z as -> by (widths; apply Z.mod_small; lia).
      rewrite slice_Ok by lia. cbn [mbind go_bind]. rewrite decide_True; [by eapply next_covered|].
      rewrite Hnd at 1. rewrite Hd. rewrite read_at_drop, read_at_take by lia. f_equal; lia.
    + rewrite (slice_to_Ok (rv_data nv)) by lia. cbn [mbind go_bind]. rewrite slice_from_Ok by lia. cbn [mbind go_bind].
      rewrite decide_True; cycle 1.
      { rewrite Hnd, Hd, ?read_at_length. rewrite read_at_take, read_at_drop by lia. f_equal; lia. }
      rewrite slice_to_Ok by lia. eapply next_cut; [exact Hr | lia | lia | rewrite length_take; lia|].
      rewrite Hd at 1. rewrite read_at_take by lia. split_and!; [done| |by rewrite read_at_length].
      rewrite read_at_length. widths. lia.
  - assert (u64 (no - fo) = 2 ^ 64 + no - fo)%Z as E.
    { widths. rewrite <- (Z.mod_add _ 1) by lia. rewrite Z.mod_small; lia. }
    rewrite E. assert (len d < 2 ^ 64 + no - fo)%Z by (widths; lia). case_decide as Hcov.
    + destruct (smi_remove_spec segs no Hwf) as (segs' & -> & Hwf' & Hel). cbn [mbind go_bind].
      unfold slice. rewrite decide_False by lia. eapply next_panic; [exact Hr | lia].
    + rewrite (slice_to_Ok (rv_data nv)) by lia. cbn [mbind go_bind]. unfold slice_from. rewrite decide_False by lia.
      eapply next_panic; [exact Hr | lia].
Qed.
End adjust.

(** ** The outcomes of [Insert] *)

Section spec.
Context {M : Type} `{!SortedMapOps M RcvValue} `{!SortedMapSpec M RcvValue}.
Implicit Types (rb : ReceiveBuffer M) (sid offset now : Z) (d : bytes).

Definition stream_at rb sid : RcvBuffer M := default NewRcvBuffer (streams rb !! sid).
Definition content rb sid : gmap Z RcvValue := smi_elems (segments (stream_at rb sid)).
Definition next_of rb sid : Z := nextInOrderOffsetToWaitFor (stream_at rb sid).

Definition stream_ok (f : Z -> Z) (st : RcvBuffer M) : Prop :=
  smi_wf (segments st) /\ consistent f (smi_elems (segments st)) /\ is_u64 (nextInOrderOffsetToWaitFor st).

(** Every stream holds well-formed segments of the byte stream [f sid]. *)
Definition rcv_ok (f : Z -> Z -> Z) rb : Prop :=
  forall sid st, streams rb !! sid = Some st -> stream_ok (f sid) st.

(** The bytes in the segments of all streams. *)
Definition stream_bytes (st : RcvBuffer M) : Z := map_sum seg_len (smi_elems (segments st)).
Definition stored rb : Z := map_sum stream_bytes (streams rb).

Lemma NewRcvBuffer_ok f : stream_ok f NewRcvBuffer.
Proof.
  destruct smi_new_spec as [Hwf He]. split_and!; simpl; [done | | by widths].
  rewrite He. intros o v. by rewrite lookup_empty.
Qed.

Lemma stream_at_ok f rb sid : rcv_ok f rb -> stream_ok (f sid) (stream_at rb sid).
Proof.
  intros Hr. unfold stream_at. destruct (streams rb !! sid) eqn:E; simpl; [by apply Hr | apply NewRcvBuffer_ok].
Qed.

Lemma rcv_ok_set f rb sid st : rcv_ok f rb -> stream_ok (f sid) st -> rcv_ok f (set_stream rb sid st).
Proof.
  intros Hr Hs sid' st'. simpl. destruct (decide (sid' = sid)) as [->|].
  - rewrite lookup_insert_eq. by intros [= <-].
  - rewrite lookup_insert_ne by done. apply Hr.
Qed.

(** [getOrCreateStream] yields the stream of the id and keeps the rest. *)
Definition ensured rb sid : ReceiveBuffer M := (getOrCreateStream rb sid).1.

Lemma getOrCreateStream_spec rb sid :
  getOrCreateStream rb sid = (ensured rb sid, stream_at rb sid) /\
  (forall st, set_stream (ensured rb sid) sid st = set_stream rb sid st) /\
  capacity (ensured rb sid) = capacity rb /\ rb_size (ensured rb sid) = rb_size rb /\
  ackList (ensured rb sid) = ackList rb /\
  (forall sid', stream_at (ensured rb sid) sid' = stream_at rb sid').
Proof.
  unfold ensured, getOrCreateStream, stream_at. destruct (streams rb !! sid) as [st|] eqn:E; [done|].
  split_and!; try done.
  - intros st. unfold set_stream. simpl. by rewrite insert_insert_eq.
  - intros sid'. simpl. destruct (decide (sid' = sid)) as [->|]; [by rewrite lookup_insert_eq, E|].
    by rewrite lookup_insert_ne by done.
Qed.

Lemma ensured_ok f rb sid : rcv_ok f rb -> rcv_ok f (ensured rb sid).
Proof.
  intros Hr. unfold ensured, getOrCreateStream. destruct (streams rb !! sid); [done|].
  apply rcv_ok_set; [done | apply NewRcvBuffer_ok].
Qed.

Lemma stream_bytes_new : stream_bytes NewRcvBuffer = 0%Z.
Proof. unfold stream_bytes. simpl. by rewrite (proj2 smi_new_spec), map_sum_empty. Qed.

Lemma stored_set rb sid st :
  stored (set_stream rb sid st) = (stored rb + stream_bytes st - stream_bytes (stream_at rb sid))%Z.
Proof.
  unfold stored, stream_at. simpl. rewrite map_sum_insert. destruct (streams rb !! sid); simpl; [done|].
  by rewrite stream_bytes_new.
Qed.

Lemma stored_ensured rb sid : stored (ensured rb sid) = stored rb.
Proof.
  unfold ensured, getOrCreateStream. destruct (streams rb !! sid) eqn:E; [done|]. cbn [fst].
  rewrite stored_set. unfold stream_at. rewrite E. simpl. lia.
Qed.

(** The buffer with the acknowledgement queued. *)
Definition acked rb sid offset d : ReceiveBuffer M :=
  add_ack (ensured rb sid) (mkAck sid offset (u16 (len d)) 0).

Inductive insert_outcome (f : Z -> Z) rb sid offset now d : go (ReceiveBuffer M * RcvInsertStatus) -> Prop :=
  | io_full :
      (capacity rb < rb_size rb + len d)%Z ->
      insert_outcome f rb sid offset now d (Ok (ensured rb sid, RcvInsertBufferFull))
  | io_dup :
      (rb_size rb + len d <= capacity rb)%Z ->
      (forall x, offset <= x < offset + len d -> x < next_of rb sid \/ covers (content rb sid) x)%Z ->
      insert_outcome f rb sid offset now d (Ok (acked rb sid offset d, RcvInsertDuplicate))
  | io_same v segs' :
      (rb_size rb + len d <= capacity rb)%Z -> (next_of rb sid < offset + len d)%Z ->
      content rb sid !! offset = Some v -> (seg_len v < len d)%Z ->
      smi_wf segs' -> smi_elems segs' = <[offset := mkRcvValue d now]> (content rb sid) ->
      insert_outcome f rb sid offset now d
        (Ok (set_size (set_stream (acked rb sid offset d) sid (set_segments (stream_at rb sid) segs'))
               (rb_size rb - seg_len v + len d), RcvInsertOk))
  | io_store fo d1 segs1 size1 d2 segs2 :
      (rb_size rb + len d <= capacity rb)%Z -> (next_of rb sid < offset + len d)%Z ->
      content rb sid !! offset = None ->
      prev_outcome f (segments (stream_at rb sid)) offset d (Ok (Some (fo, d1))) ->
      next_outcome f (segments (stream_at rb sid)) (rb_size rb) offset fo d1 (Ok (segs1, size1, d2)) ->
      smi_wf segs2 -> smi_elems segs2 = <[fo := mkRcvValue d2 now]> (smi_elems segs1) ->
      insert_outcome f rb sid offset now d
        (Ok (set_size (set_stream (acked rb sid offset d) sid (set_segments (stream_at rb sid) segs2))
               (size1 + len d2), RcvInsertOk))
  | io_panic fo d1 no nv :
      (next_of rb sid < offset + len d)%Z ->
      prev_outcome f (segments (stream_at rb sid)) offset d (Ok (Some (fo, d1))) ->
      is_next (content rb sid) offset (Some (no, nv)) -> (no < fo)%Z ->
      insert_outcome f rb sid offset now d (Panic SliceOutOfRange).

Lemma prev_outcome_segment f (segs : M) offset d fo d1 :
  segment_of f offset d -> prev_outcome f segs offset d (Ok (Some (fo, d1))) ->
  segment_of f fo d1 /\ (offset <= fo)%Z /\ (fo + len d1 = offset + len d)%Z.
Proof. intros Hs Ho. inversion Ho; subst; [done|]. split_and!; [done | lia..]. Qed.

Lemma Insert_spec f rb sid offset now d :
  rcv_ok f rb -> segment_of (f sid) offset d -> insert_outcome (f sid) rb sid offset now d (Insert rb sid offset now d).
Proof.
  intros Hr Hs. destruct (stream_at_ok f rb sid Hr) as (Hwf & Hc & Hnext).
  destruct (getOrCreateStream_spec rb sid) as (Eg & _ & Ecap & Esz & _ & _).
  unfold Insert. rewrite Eg, Ecap, Esz. case_decide as Hcap; [by apply io_full|].
  fold (acked rb sid offset d).
  assert (u64 (offset + len d) = offset + len d)%Z as -> by (apply Z.mod_small, Hs).
  case_decide as Hold. { apply io_dup; [lia|]. intros x Hx. left. unfold next_of. lia. }
  rewrite (smi_get_spec _ offset Hwf). cbn [mbind go_bind]. fold (content rb sid).
  destruct (content rb sid !! offset) as [v|] eqn:Hv.
  - unfold insert_same. case_decide as Hle.
    { apply io_dup; [lia|]. intros x Hx. right. exists offset, v. split; [done|]. unfold seg_end, seg_len. lia. }
    destruct (smi_remove_spec _ offset Hwf) as (segs1 & -> & Hwf1 & He1). cbn [mbind go_bind].
    destruct (smi_put_spec segs1 offset (mkRcvValue d now) Hwf1) as (segs2 & -> & Hwf2 & He2). cbn [mbind go_bind].
    simpl. rewrite Esz. eapply io_same; try done; unfold next_of, seg_len; try lia.
    rewrite He2, He1. apply insert_delete_eq.
  - pose proof (adjust_prev_spec (f sid) _ Hwf Hc offset d Hs) as Hp.
    destruct (adjust_prev _ _ _) as [[[fo d1]|]|p|] eqn:Ep; [| |by inversion Hp..]; cbn [mbind go_bind].
    2: { inversion Hp as [|po pv Hpr H1 H2|]; subst. destruct Hpr as (Hpo & Hlt & _).
         apply io_dup; [lia|]. intros x Hx. right. exists po, pv. split; [done|lia]. }
    destruct (prev_outcome_segment _ _ _ _ _ _ Hs Hp) as (Hs1 & _).
    assert (rb_size (acked rb sid offset d) = rb_size rb) as -> by done.
    pose proof (adjust_next_spec (f sid) _ Hwf Hc (rb_size rb) offset fo d1 Hs1) as Hn.
    destruct (adjust_next _ _ _ _ _) as [[[segs1 size1] d2]|p|] eqn:En; [| |by inversion Hn].
    + cbn [mbind go_bind]. assert (smi_wf segs1) as Hwf1 by (inversion Hn; by subst).
      destruct (smi_put_spec segs1 fo (mkRcvValue d2 now) Hwf1) as (segs2 & -> & Hwf2 & He2).
      eapply io_store; try done; unfold next_of; lia.
    + inversion Hn; subst. eapply io_panic; try done. unfold next_of. lia.
Qed.

(** ** Safety of every insertion *)

Lemma next_outcome_segs f (segs : M) size offset fo d1 segs1 size1 d2 :
  smi_wf segs -> segment_of f fo d1 -> next_outcome f segs size offset fo d1 (Ok (segs1, size1, d2)) ->
  segment_of f fo d2 /\ (len d2 <= len d1)%Z /\
  ((segs1 = segs /\ size1 = size) \/
   exists no nv, smi_elems segs !! no = Some nv /\ smi_elems segs1 = delete no (smi_elems segs) /\
     size1 = (size - seg_len nv)%Z).
Proof.
  intros Hwf Hs Ho. inversion Ho as [|no nv segs' (Hno & _)|no nv d' Hno|]; subst; split_and!; try done; try lia; eauto 10.
Qed.

(** Storing a segment keeps the stream consistent. *)
Lemma Insert_keeps_ok f rb sid offset now d rb' s :
  rcv_ok f rb -> segment_of (f sid) offset d -> Insert rb sid offset now d = Ok (rb', s) -> rcv_ok f rb'.
Proof.
  intros Hr Hs E. pose proof (Insert_spec f rb sid offset now d Hr Hs) as Ho. rewrite E in Ho.
  pose proof (ensured_ok f rb sid Hr) as Hr'. destruct (stream_at_ok f rb sid Hr) as (Hwf & Hc & Hnext).
  inversion Ho as [| |v segs' _ _ Hv Hl Hwf' He|fo d1 segs1 size1 d2 segs2 _ _ Hnone Hp Hn Hwf2 He|]; subst; try done.
  - apply (rcv_ok_set f (acked rb sid offset d) sid); [done|]. split_and!; try done. simpl. rewrite He.
    by apply consistent_insert.
  - apply (rcv_ok_set f (acked rb sid offset d) sid); [done|]. split_and!; try done. simpl. rewrite He.
    destruct (prev_outcome_segment _ _ _ _ _ _ Hs Hp) as (Hs1 & _).
    destruct (next_outcome_segs _ _ _ _ _ _ _ _ _ Hwf Hs1 Hn) as (Hs2 & _ & Hsegs).
    apply consistent_insert; [|done].
    destruct Hsegs as [[-> _]|(no & nv & _ & -> & _)]; [done | by apply consistent_delete].
Qed.

(** An insertion moves no read position. *)
Lemma next_of_set_segments rb sid offset d segs' size sid' :
  next_of (set_size (set_stream (acked rb sid offset d) sid (set_segments (stream_at rb sid) segs')) size) sid'
  = next_of rb sid'.
Proof.
  destruct (getOrCreateStream_spec rb sid) as (_ & _ & _ & _ & _ & Hat).
  unfold next_of, stream_at in *. simpl. destruct (decide (sid' = sid)) as [->|].
  - by rewrite lookup_insert_eq.
  - rewrite lookup_insert_ne by done. by rewrite Hat.
Qed.

Lemma Insert_keeps_next f rb sid offset now d rb' s sid' :
  rcv_ok f rb -> segment_of (f sid) offset d -> Insert rb sid offset now d = Ok (rb', s) ->
  next_of rb' sid' = next_of rb sid'.
Proof.
  intros Hr Hs E. pose proof (Insert_spec f rb sid offset now d Hr Hs) as Ho. rewrite E in Ho.
  destruct (getOrCreateStream_spec rb sid) as (_ & _ & _ & _ & _ & Hat).
  inversion Ho; subst; try apply next_of_set_segments; unfold next_of; f_equal; apply Hat.
Qed.

(** The counted size bounds the stored bytes, and stays within the capacity. *)
Definition size_ok rb : Prop := (stored rb <= rb_size rb <= capacity rb)%Z.

Lemma from_option_seg_len (o : option RcvValue) : (0 <= from_option seg_len 0 o)%Z.
Proof. destruct o; unfold seg_len; simpl; lia. Qed.

Lemma Insert_keeps_size f rb sid offset now d rb' s :
  rcv_ok f rb -> segment_of (f sid) offset d -> size_ok rb ->
  Insert rb sid offset now d = Ok (rb', s) -> size_ok rb' /\ capacity rb' = capacity rb.
Proof.
  intros Hr Hs Hsz E. pose proof (Insert_spec f rb sid offset now d Hr Hs) as Ho. rewrite E in Ho.
  destruct (stream_at_ok f rb sid Hr) as (Hwf & Hc & Hnext). pose proof (stored_ensured rb sid) as Hst.
  destruct (getOrCreateStream_spec rb sid) as (_ & _ & Hcap & Hesz & _ & Hat).
  unfold size_ok in *. pose proof (stored_set (ensured rb sid) sid) as Hset. rewrite Hat, Hst in Hset.
  inversion Ho as [|Hfit|v segs' Hfit _ Hv Hl Hwf' He|fo d1 segs1 size1 d2 segs2 Hfit _ Hnone Hp Hn Hwf2 He|];
    subst; simpl; rewrite Hcap; (split; [|done]).
  - rewrite Hst, Hesz. done.
  - change (stored (acked rb sid offset d)) with (stored (ensured rb sid)). rewrite Hst, Hesz. done.
  - change (stored (set_size _ _)) with (stored (set_stream (ensured rb sid) sid (set_segments (stream_at rb sid) segs'))).
    rewrite Hset. unfold stream_bytes. simpl. rewrite He, map_sum_insert, Hv. simpl. unfold content in *.
    unfold seg_len in *. simpl. lia.
  - change (stored (set_size _ _)) with (stored (set_stream (ensured rb sid) sid (set_segments (stream_at rb sid) segs2))).
    destruct (prev_outcome_segment _ _ _ _ _ _ Hs Hp) as (Hs1 & Hle & Hlen).
    destruct (next_outcome_segs _ _ _ _ _ _ _ _ _ Hwf Hs1 Hn) as (Hs2 & Hd2 & Hsegs).
    rewrite Hset. unfold stream_bytes. simpl. rewrite He, map_sum_insert.
    pose proof (from_option_seg_len (smi_elems segs1 !! fo)) as Hpos.
    change (seg_len (mkRcvValue d2 now)) with (len d2).
    destruct Hsegs as [[-> ->]|(no & nv & Hno & Hdel & ->)].
    + lia.
    + assert (0 <= seg_len nv)%Z by (unfold seg_len; lia). rewrite Hdel in Hpos.
      rewrite Hdel, map_sum_delete_eq, Hno. simpl. lia.
Qed.

(** ** Exact behaviour on orderly traffic *)

(** Segments that store every byte once, none below the read position. *)
Record tidy (g : gmap Z RcvValue) (next : Z) : Prop := {
  tidy_disjoint : disjoint_segs g;
  tidy_nonempty o v : g !! o = Some v -> (0 < seg_len v)%Z;
  tidy_above o v : g !! o = Some v -> (next <= o)%Z;
}.

(** The incoming segment [offset, e) is not empty and not partly delivered
    (wholly at or after the read position, or wholly before it); every stored
    segment is apart from it, contains it, or lies inside it; and at most one
    lies inside it.  The packets of a sender that never splits a packet are
    orderly at all times ([rcv_packets_exact] below).  A sender that splits a
    packet for retransmission leaves this class when a delayed unsplit copy
    arrives after both parts, or after the left part was read: then the code
    stores the copy over the parts ([rcv_reader_stalls],
    [rcv_partly_delivered_stalls] below). *)
Definition orderly (g : gmap Z RcvValue) (next offset : Z) d : Prop :=
  let e := (offset + len d)%Z in
  (0 < len d)%Z /\ (next <= offset \/ e <= next)%Z /\
  (forall o v, g !! o = Some v ->
     (seg_end o v <= offset)%Z \/ (e <= o)%Z \/ (o <= offset /\ e <= seg_end o v)%Z \/
     (offset <= o /\ seg_end o v <= e)%Z) /\
  (forall o1 v1 o2 v2, g !! o1 = Some v1 -> g !! o2 = Some v2 ->
     (offset <= o1 /\ seg_end o1 v1 <= e)%Z -> (offset <= o2 /\ seg_end o2 v2 <= e)%Z -> o1 = o2).

Lemma covers_insert g o v x :
  covers (<[o := v]> g) x <-> (o <= x < seg_end o v)%Z \/ covers (delete o g) x.
Proof.
  unfold covers. split.
  - intros (o' & v' & Hv' & Hx). destruct (decide (o' = o)) as [->|].
    + rewrite lookup_insert_eq in Hv'. injection Hv' as <-. auto.
    + rewrite lookup_insert_ne in Hv' by done. right. exists o', v'. by rewrite lookup_delete_ne.
  - intros [Hx|(o' & v' & [? Hv']%lookup_delete_Some & Hx)].
    + exists o, v. by rewrite lookup_insert_eq.
    + exists o', v'. by rewrite lookup_insert_ne.
Qed.

Lemma covers_delete g o v x :
  g !! o = Some v -> covers g x <-> (o <= x < seg_end o v)%Z \/ covers (delete o g) x.
Proof. intros Hv. rewrite <- covers_insert. by rewrite insert_id. Qed.

Lemma tidy_delete g next o : tidy g next -> tidy (delete o g) next.
Proof.
  intros [H1 H2 H3]. constructor.
  - intros o1 v1 o2 v2 [_ ?]%lookup_delete_Some [_ ?]%lookup_delete_Some. intros; eapply H1; eauto.
  - intros o' v' [_ ?]%lookup_delete_Some. by eapply H2.
  - intros o' v' [_ ?]%lookup_delete_Some. by eapply H3.
Qed.

Lemma tidy_insert g next o v :
  tidy g next -> (0 < seg_len v)%Z -> (next <= o)%Z ->
  (forall o' v', g !! o' = Some v' -> o' <> o -> (seg_end o' v' <= o)%Z \/ (seg_end o v <= o')%Z) ->
  tidy (<[o := v]> g) next.
Proof.
  intros [H1 H2 H3] Hl Hn Hap.
  assert (forall o' v', <[o := v]> g !! o' = Some v' -> (o' = o /\ v' = v) \/ (o' <> o /\ g !! o' = Some v')) as Hins.
  { intros o' v' [[<- <-]|[? ?]]%lookup_insert_Some; auto. }
  constructor.
  - intros o1 v1 o2 v2 [[-> ->]|[Hne1 G1]]%Hins [[-> ->]|[Hne2 G2]]%Hins Hlt; [lia | | |by eapply H1].
    + destruct (Hap _ _ G2 Hne2); [|done]. specialize (H2 _ _ G2). unfold seg_end in *. lia.
    + destruct (Hap _ _ G1 Hne1); [done|]. unfold seg_end in *. lia.
  - intros o' v' [[-> ->]|[_ ?]]%Hins; [done | by eapply H2].
  - intros o' v' [[-> ->]|[_ ?]]%Hins; [done | by eapply H3].
Qed.

Lemma tidy_empty next : tidy ∅ next.
Proof. constructor; [intros ? ? ? ? H|intros ? ? H..]; by rewrite lookup_empty in H. Qed.

Section orderly.
Context (f : Z -> Z) (segs : M) (g := smi_elems segs) (next offset : Z) (d : bytes)
  (Ht : tidy g next) (Ho : orderly g next offset d) (Hn : (next < offset + len d)%Z).

(** Replacing a shorter segment at the same offset. *)
Lemma orderly_same v now :
  g !! offset = Some v -> (seg_len v < len d)%Z ->
  tidy (<[offset := mkRcvValue d now]> g) next /\
  forall x, covers (<[offset := mkRcvValue d now]> g) x <-> covers g x \/ (offset <= x < offset + len d)%Z.
Proof.
  intros Hv Hl. destruct Ho as (Hpos & Hne & Hlam & Hsingle). split.
  - apply tidy_insert; [done | done | lia |]. intros o' v' Hv' Hneq. unfold seg_end. simpl.
    change (seg_len (mkRcvValue d now)) with (len d). pose proof (tidy_nonempty _ _ Ht _ _ Hv') as Hpos'.
    destruct (Hlam _ _ Hv') as [?|[?|[[? ?]|[? ?]]]]; [auto | auto | |].
    + pose proof (tidy_disjoint _ _ Ht o' v' offset v Hv' Hv). unfold seg_end in *. lia.
    + exfalso. apply Hneq. eapply Hsingle; try done; unfold seg_end; lia.
  - intros x. rewrite covers_insert, (covers_delete g offset v x Hv). unfold seg_end at 1 2.
    change (seg_len (mkRcvValue d now)) with (len d). split; [tauto|].
    intros [[?|?]|?]; [left; lia | tauto | tauto].
Qed.

Lemma orderly_no_cut fo d1 :
  prev_outcome f segs offset d (Ok (Some (fo, d1))) -> fo = offset /\ d1 = d /\
  (forall o v, g !! o = Some v -> o < offset -> seg_end o v <= offset)%Z.
Proof.
  intros Hp. destruct Ho as (Hpos & Hne & Hlam & Hsingle).
  inversion Hp as [r Hr Hle| |po pv d' Hr Hcut]; subst.
  - split_and!; [done..|]. intros o v Hv Hlt. destruct r as [[po pv]|]; cycle 1.
    { assert (fo <= o)%Z; [apply Hr; eauto | lia]. }
    specialize (Hle po pv eq_refl). destruct Hr as (Hpo & ? & Hmax).
    destruct (decide (o = po)) as [->|]; [injection (eq_trans (eq_sym Hv) Hpo) as ->; lia|].
    assert (o <= po)%Z by (apply Hmax; [eauto|lia]). pose proof (tidy_disjoint _ _ Ht o v po pv Hv Hpo ltac:(lia)).
    lia.
  - exfalso. destruct Hr as (Hpo & ? & _). destruct (Hlam _ _ Hpo) as [?|[?|[[? ?]|[? ?]]]]; lia.
Qed.

(** Storing a new segment. *)
Lemma orderly_store size fo d1 segs1 size1 d2 now :
  g !! offset = None ->
  prev_outcome f segs offset d (Ok (Some (fo, d1))) ->
  next_outcome f segs size offset fo d1 (Ok (segs1, size1, d2)) ->
  fo = offset /\ d2 = d /\ tidy (<[fo := mkRcvValue d2 now]> (smi_elems segs1)) next /\
  smi_elems segs1 !! fo = None /\
  (size1 = size - (map_sum seg_len g - map_sum seg_len (smi_elems segs1)))%Z /\
  forall x, covers (<[fo := mkRcvValue d2 now]> (smi_elems segs1)) x <->
    covers g x \/ (offset <= x < offset + len d)%Z.
Proof.
  intros Hnone Hp Hnx. destruct (orderly_no_cut _ _ Hp) as (-> & -> & Hbelow).
  destruct Ho as (Hpos & Hne & Hlam & Hsingle).
  inversion Hnx as [Hfar|no nv segs' Hr _ Hlt Hcov Hwf' He|no nv d' Hr Hge Hcut Hlen|]; subst.
  - change (smi_elems segs1) with g. split_and!; try done; try lia.
    + apply tidy_insert; [done | done | lia|]. intros o' v' Hv' Hneq. unfold seg_end at 2.
      change (seg_len (mkRcvValue d2 now)) with (len d2).
      destruct (decide (o' < offset)%Z); [left; by apply Hbelow | right; apply (Hfar o' v' Hv'); lia].
    + intros x. rewrite covers_insert, delete_id by done. unfold seg_end at 1.
      change (seg_len (mkRcvValue d2 now)) with (len d2). tauto.
  - destruct Hr as (Hno & Hlt' & Hmin). fold g in He. rewrite He.
    split_and!; try done.
    + apply tidy_insert; [by apply tidy_delete | done | lia|]. intros o' v' [Hno' Hv']%lookup_delete_Some Hneq.
      unfold seg_end at 2. change (seg_len (mkRcvValue d2 now)) with (len d2).
      destruct (decide (o' < offset)%Z); [left; by apply Hbelow|]. right.
      pose proof (tidy_nonempty _ _ Ht _ _ Hv') as Hpos'.
      destruct (Hlam _ _ Hv') as [?|[?|[[? ?]|[? ?]]]]; unfold seg_end in *; try lia.
      exfalso. apply Hno'. eapply Hsingle; unfold seg_end; try done; lia.
    + by rewrite lookup_delete_ne by lia.
    + rewrite map_sum_delete_eq. change (smi_elems segs !! no) with (g !! no) in Hno. rewrite Hno. simpl. lia.
    + intros x. rewrite covers_insert, delete_delete, (delete_id g offset) by done.
      rewrite (covers_delete g no nv x Hno). unfold seg_end at 1. change (seg_len (mkRcvValue d2 now)) with (len d2).
      split; [tauto|]. intros [[?|?]|?]; [left; lia | tauto | tauto].
  - exfalso. destruct Hr as (Hno & ? & _). destruct (Hlam _ _ Hno) as [?|[?|[[? ?]|[? ?]]]];
      unfold seg_end in *; pose proof (tidy_nonempty _ _ Ht _ _ Hno); lia.
Qed.
End orderly.

(** The buffer stores every byte once and counts exactly what it stores. *)
Record rcv_exact (f : Z -> Z -> Z) rb : Prop := {
  re_ok : rcv_ok f rb;
  re_tidy sid : tidy (content rb sid) (next_of rb sid);
  re_size : rb_size rb = stored rb;
  re_capacity : (rb_size rb <= capacity rb)%Z;
}.

Lemma stream_at_set rb sid st sid' :
  stream_at (set_stream rb sid st) sid' = if decide (sid' = sid) then st else stream_at rb sid'.
Proof.
  unfold stream_at. simpl. case_decide as E; [subst; by rewrite lookup_insert_eq|].
  by rewrite lookup_insert_ne.
Qed.

(** A step that replaces the segments of one stream. *)
Lemma rcv_exact_step f rb rb1 sid st size :
  rcv_exact f rb -> rcv_ok f (set_stream rb1 sid st) ->
  (forall sid', stream_at rb1 sid' = stream_at rb sid') -> stored rb1 = stored rb -> capacity rb1 = capacity rb ->
  tidy (smi_elems (segments st)) (nextInOrderOffsetToWaitFor st) ->
  (size = rb_size rb + stream_bytes st - stream_bytes (stream_at rb sid))%Z -> (size <= capacity rb)%Z ->
  rcv_exact f (set_size (set_stream rb1 sid st) size).
Proof.
  intros [H1 H2 H3 H4] Hok Hat Hst Hcap Ht Hsz Hle. constructor.
  - exact Hok.
  - intros sid'. unfold content, next_of.
    change (stream_at (set_size _ _) sid') with (stream_at (set_stream rb1 sid st) sid').
    rewrite stream_at_set. case_decide; [done|]. rewrite Hat. apply H2.
  - change (stored (set_size _ _)) with (stored (set_stream rb1 sid st)). rewrite stored_set, Hat, Hst. simpl. lia.
  - simpl. lia.
Qed.

Lemma rcv_exact_ensured f rb sid : rcv_exact f rb -> rcv_exact f (ensured rb sid).
Proof.
  intros [H1 H2 H3 H4]. destruct (getOrCreateStream_spec rb sid) as (_ & _ & Hcap & Hsz & _ & Hat).
  constructor; [by apply ensured_ok| |by rewrite stored_ensured, Hsz|by rewrite Hcap, Hsz].
  intros sid'. unfold content, next_of. rewrite Hat. apply H2.
Qed.

(** What the abstract buffer, a set of received positions, does on an insertion. *)
Definition insert_result rb sid offset d rb' (s : RcvInsertStatus) : Prop :=
  (forall sid', next_of rb' sid' = next_of rb sid') /\
  (forall sid', sid' <> sid -> content rb' sid' = content rb sid') /\
  match s with
  | RcvInsertBufferFull =>
      (capacity rb < rb_size rb + len d)%Z /\ content rb' sid = content rb sid /\ ackList rb' = ackList rb
  | RcvInsertDuplicate =>
      (forall x, offset <= x < offset + len d -> x < next_of rb sid \/ covers (content rb sid) x)%Z /\
      content rb' sid = content rb sid /\ ackList rb' = ackList rb ++ [mkAck sid offset (u16 (len d)) 0]
  | RcvInsertOk =>
      (next_of rb sid <= offset)%Z /\
      (forall x, covers (content rb' sid) x <-> covers (content rb sid) x \/ (offset <= x < offset + len d)%Z) /\
      ackList rb' = ackList rb ++ [mkAck sid offset (u16 (len d)) 0] /\
      (forall o v, content rb' sid !! o = Some v -> content rb sid !! o = Some v \/ o = offset /\ rv_data v = d)
  end.

Lemma insert_result_stored rb sid offset d segs' size :
  (next_of rb sid <= offset)%Z ->
  (forall x, covers (smi_elems segs') x <-> covers (content rb sid) x \/ (offset <= x < offset + len d)%Z) ->
  (forall o v, smi_elems segs' !! o = Some v -> content rb sid !! o = Some v \/ o = offset /\ rv_data v = d) ->
  insert_result rb sid offset d
    (set_size (set_stream (acked rb sid offset d) sid (set_segments (stream_at rb sid) segs')) size) RcvInsertOk.
Proof.
  intros Hn Hc Hnew. destruct (getOrCreateStream_spec rb sid) as (_ & _ & _ & _ & Hacks & Hat).
  set (rb' := set_size _ _).
  assert (forall sid', stream_at rb' sid' = if decide (sid' = sid) then set_segments (stream_at rb sid) segs'
                                           else stream_at rb sid') as E.
  { intros sid'. etrans; [apply (stream_at_set (acked rb sid offset d))|]. case_decide; [done|]. apply Hat. }
  split_and!; try done.
  - intros sid'. unfold next_of. rewrite E. by case_decide; [subst|].
  - intros sid' Hne. unfold content. by rewrite E, decide_False.
  - intros x. unfold content at 1. by rewrite E, decide_True.
  - simpl. by rewrite Hacks.
  - intros o v. unfold content at 1. rewrite E, decide_True by done. apply Hnew.
Qed.

(** A segment put over those left of the old ones. *)
Lemma insert_new (g g1 : gmap Z RcvValue) o d now o' v' :
  g1 ⊆ g -> <[o := mkRcvValue d now]> g1 !! o' = Some v' -> g !! o' = Some v' \/ o' = o /\ rv_data v' = d.
Proof. intros Hsub [[<- <-]|[_ H]]%lookup_insert_Some; [by right | left; by eapply lookup_weaken]. Qed.

Lemma Insert_exact f rb sid offset now d :
  rcv_exact f rb -> segment_of (f sid) offset d -> orderly (content rb sid) (next_of rb sid) offset d ->
  exists rb' s, Insert rb sid offset now d = Ok (rb', s) /\ rcv_exact f rb' /\ insert_result rb sid offset d rb' s.
Proof.
  intros He Hs Ho. pose proof (re_ok _ _ He) as Hr. pose proof (re_tidy _ _ He sid) as Ht.
  pose proof (rcv_exact_ensured f rb sid He) as Hens. pose proof (stored_ensured rb sid) as Hst.
  destruct (getOrCreateStream_spec rb sid) as (_ & _ & Hcap & Hsz & Hacks & Hat).
  pose proof (Insert_spec f rb sid offset now d Hr Hs) as Hio.
  pose proof (fun rb' s E => Insert_keeps_ok f rb sid offset now d rb' s Hr Hs E) as Hkeep.
  inversion Hio as [Hfull Eq|Hfit Hdup Eq|v segs' Hfit Hnx Hv Hl Hwf' Hel Eq
    |fo d1 segs1 size1 d2 segs2 Hfit Hnx Hnone Hp Hn Hwf2 Hel Eq|fo d1 no nv Hnx Hp Hr' Hlt Eq].
  - eexists _, _. split; [done|]. split; [done|].
    split_and!; try done; intros; unfold content, next_of; by rewrite Hat.
  - eexists _, _. split; [done|]. split; [by destruct Hens|].
    split_and!; try done; intros; unfold content, next_of; try apply Hat; try (f_equal; apply Hat).
    + f_equal. f_equal. apply Hat.
    + f_equal. f_equal. apply Hat.
    + simpl. by rewrite Hacks.
  - eexists _, _. split; [done|]. destruct (orderly_same (f sid) (segments (stream_at rb sid)) _ _ _ Ht Ho Hnx v now) as [Ht' Hcov]; [done..|].
    split; [|apply insert_result_stored; [destruct Ho as (_ & [?|?] & _); lia | by rewrite Hel|]].
    2: { intros o w. rewrite Hel. by apply insert_new. }
    apply rcv_exact_step with rb; try done.
    + exact (Hkeep _ _ (eq_sym Eq)).
    + simpl. by rewrite Hel.
    + unfold stream_bytes. simpl. rewrite Hel, map_sum_insert, Hv. unfold content, seg_len. simpl. lia.
    + unfold seg_len. lia.
  - eexists _, _. split; [done|].
    destruct (orderly_store (f sid) (segments (stream_at rb sid)) _ _ _ Ht Ho Hnx _ _ _ _ _ _ now Hnone Hp Hn)
      as (-> & -> & Ht' & Hnone' & Hs1 & Hcov). subst size1.
    destruct (next_outcome_segs _ _ _ _ _ _ _ _ _ (proj1 (stream_at_ok f rb sid Hr))
                (proj1 (prev_outcome_segment _ _ _ _ _ _ Hs Hp)) Hn) as (_ & _ & Hsegs).
    assert (smi_elems segs1 ⊆ content rb sid) as Hsub.
    { destruct Hsegs as [[-> _]|(no & nv & _ & -> & _)]; [done | apply delete_subseteq]. }
    split; [|apply insert_result_stored; [destruct Ho as (_ & [?|?] & _); lia | by rewrite Hel|]].
    2: { intros o w. rewrite Hel. by apply insert_new. }
    apply rcv_exact_step with rb; try done.
    + exact (Hkeep _ _ (eq_sym Eq)).
    + simpl. by rewrite Hel.
    + unfold stream_bytes. simpl. rewrite Hel, map_sum_insert, Hnone'. unfold content, seg_len. simpl. lia.
    + destruct Hsegs as [[-> _]|(no & nv & Hno & Hdel & _)]; [lia|].
      rewrite Hdel, map_sum_delete_eq, Hno. simpl. unfold seg_len. lia.
  - exfalso. destruct (orderly_no_cut (f sid) (segments (stream_at rb sid)) _ _ _ Ht Ho Hnx _ _ Hp) as (-> & _).
    destruct Hr' as (_ & ? & _). lia.
Qed.

(** ** Closing

    The first close offset of a stream is kept; its data are not touched. *)

Lemma Close_rcv_spec f rb sid o :
  rcv_ok f rb -> size_ok rb ->
  rcv_ok f (Close rb sid o) /\ size_ok (Close rb sid o) /\
  (forall sid', next_of (Close rb sid o) sid' = next_of rb sid' /\ content (Close rb sid o) sid' = content rb sid') /\
  GetOffsetClosedAt (Close rb sid o) sid = Some (default o (GetOffsetClosedAt rb sid)).
Proof.
  intros Hr Hsz. unfold Close. destruct (getOrCreateStream_spec rb sid) as (-> & Hset & Hcap & Hrs & _ & Hat).
  assert (GetOffsetClosedAt rb sid = closeAtOffset (stream_at rb sid)) as Eg.
  { unfold GetOffsetClosedAt, stream_at. by destruct (streams rb !! sid). }
  rewrite Eg. destruct (closeAtOffset (stream_at rb sid)) as [c|] eqn:Ec.
  - split_and!; [by apply ensured_ok | unfold size_ok in *; by rewrite stored_ensured, Hcap, Hrs | | ].
    + intros sid'. unfold next_of, content. by rewrite Hat.
    + assert (ensured rb sid = rb) as ->; [|by rewrite Eg].
      unfold ensured, getOrCreateStream. unfold stream_at in Ec. by destruct (streams rb !! sid).
  - rewrite Hset. destruct (stream_at_ok f rb sid Hr) as (Hwf & Hc & Hn). split_and!.
    + by apply rcv_ok_set.
    + unfold size_ok in *. rewrite stored_set. unfold stream_bytes. simpl. lia.
    + intros sid'. unfold next_of, content, stream_at. simpl.
      destruct (decide (sid' = sid)) as [->|]; [by rewrite lookup_insert_eq | by rewrite lookup_insert_ne].
    + unfold GetOffsetClosedAt. simpl. by rewrite lookup_insert_eq.
Qed.

Lemma Close_exact f rb sid o : rcv_exact f rb -> rcv_exact f (Close rb sid o).
Proof.
  intros [H1 H2 H3 H4].
  assert (size_ok rb) as Hsz by (unfold size_ok; lia).
  destruct (Close_rcv_spec f rb sid o H1 Hsz) as (Hr & _ & Hcn & _).
  assert (stored (Close rb sid o) = stored rb /\ rb_size (Close rb sid o) = rb_size rb /\
    capacity (Close rb sid o) = capacity rb) as (Est & Esz & Ecap).
  { unfold Close. destruct (getOrCreateStream_spec rb sid) as (-> & Hset & Hcap & Hrs & _ & _).
    destruct (closeAtOffset _); [by rewrite stored_ensured|]. rewrite Hset. split_and!; try done.
    rewrite stored_set. unfold stream_bytes. simpl. lia. }
  constructor; [done | | congruence | congruence]. intros sid'. destruct (Hcn sid') as [-> ->]. apply H2.
Qed.

Lemma EmptyInsert_exact f rb sid o now : rcv_exact f rb -> rcv_exact f (EmptyInsert rb sid o now).1.
Proof. intros [H1 H2 H3 H4]. by constructor. Qed.

(** ** Reading in order *)

Inductive remove_outcome rb sid : ReceiveBuffer M * (Z * option bytes * Z) -> Prop :=
  | rm_none :
      (forall v, content rb sid !! next_of rb sid = Some v ->
         exists o, is_Some (content rb sid !! o) /\ (o < next_of rb sid)%Z) ->
      remove_outcome rb sid (rb, (0, None, 0)%Z)
  | rm_some v segs' :
      content rb sid !! next_of rb sid = Some v -> smi_wf segs' ->
      smi_elems segs' = delete (next_of rb sid) (content rb sid) ->
      remove_outcome rb sid
        (set_size (set_stream rb sid (mkRcvBuffer segs' (seg_end (next_of rb sid) v) (closeAtOffset (stream_at rb sid))))
           (rb_size rb - seg_len v),
         (next_of rb sid, Some (rv_data v), receiveTimeNano v)).

Lemma content_absent rb sid : streams rb !! sid = None -> content rb sid = ∅.
Proof. intros E. unfold content, stream_at. rewrite E. simpl. apply smi_new_spec. Qed.

Lemma RemoveOldestInOrder_spec f rb sid :
  rcv_ok f rb -> exists r, RemoveOldestInOrder rb sid = Ok r /\ remove_outcome rb sid r.
Proof.
  intros Hr. unfold RemoveOldestInOrder.
  assert (streams rb !! sid = None -> remove_outcome rb sid (rb, (0, None, 0)%Z)) as Habs.
  { intros E. apply rm_none. rewrite (content_absent rb sid E). intros v Hv. by rewrite lookup_empty in Hv. }
  case_decide as Hemp; [eexists; split; [done|]; apply Habs; by rewrite Hemp|].
  destruct (streams rb !! sid) as [st|] eqn:Est; [|eauto].
  assert (stream_at rb sid = st) as Eat by (unfold stream_at; by rewrite Est).
  destruct (Hr sid st Est) as (Hwf & Hc & Hnext).
  destruct (smi_min_spec (segments st) Hwf) as (r & -> & Hmin). cbn [mbind go_bind].
  assert (content rb sid = smi_elems (segments st)) as Ec by (unfold content; by rewrite Eat).
  assert (next_of rb sid = nextInOrderOffsetToWaitFor st) as En by (unfold next_of; by rewrite Eat).
  destruct r as [[o v]|]; cycle 1.
  { simpl in Hmin. eexists. split; [done|]. apply rm_none. rewrite Ec, Hmin. intros ? H. by rewrite lookup_empty in H. }
  destruct Hmin as [Ho Hmin]. case_decide as Heq.
  - destruct (smi_remove_spec (segments st) o Hwf) as (segs' & -> & Hwf' & Hel). cbn [mbind go_bind].
    rewrite decide_False by lia. cbn [mbind go_bind mret go_ret]. subst o. rewrite <- En in *.
    assert (u64 (next_of rb sid + len (rv_data v)) = seg_end (next_of rb sid) v) as ->.
    { apply Z.mod_small. destruct (Hc _ _ Ho) as (_ & He & _). exact He. }
    eexists. split; [done|]. rewrite <- Eat. apply rm_some; rewrite ?Ec; done.
  - assert (remove_outcome rb sid (rb, (0, None, 0)%Z)) as Hno; [|case_decide; eauto].
    apply rm_none. rewrite Ec, En. intros v' Hv'. exists o. split; [eauto|].
    assert (o <= nextInOrderOffsetToWaitFor st)%Z; [apply Hmin; eauto | lia].
Qed.

Lemma remove_keeps_ok f rb sid r : rcv_ok f rb -> remove_outcome rb sid r -> rcv_ok f r.1.
Proof.
  intros Hr [_|v segs' Hv Hwf Hel]; [done|]. destruct (stream_at_ok f rb sid Hr) as (_ & Hc & _).
  apply (rcv_ok_set f rb sid); [done|]. split_and!; simpl; [done | rewrite Hel; by apply consistent_delete|].
  by apply Hc in Hv as (_ & ? & _).
Qed.

Lemma stream_bytes_delete rb sid v segs' st :
  content rb sid !! next_of rb sid = Some v -> smi_elems segs' = delete (next_of rb sid) (content rb sid) ->
  segments st = segs' -> stream_bytes st = (stream_bytes (stream_at rb sid) - seg_len v)%Z.
Proof.
  intros Hv Hel <-. unfold stream_bytes. rewrite Hel, map_sum_delete_eq, Hv. done.
Qed.

Lemma remove_keeps_size rb sid r : size_ok rb -> remove_outcome rb sid r -> size_ok r.1.
Proof.
  intros Hsz [_|v segs' Hv Hwf Hel]; [done|]. unfold size_ok in *. simpl.
  change (stored (set_size _ _)) with (stored (set_stream rb sid (mkRcvBuffer segs' (seg_end (next_of rb sid) v) (closeAtOffset (stream_at rb sid))))).
  rewrite stored_set, (stream_bytes_delete rb sid v segs') by done.
  assert (0 <= seg_len v)%Z by (unfold seg_len; lia). lia.
Qed.

Lemma remove_keeps_exact f rb sid r : rcv_exact f rb -> remove_outcome rb sid r -> rcv_exact f r.1.
Proof.
  intros He Hro. pose proof (remove_keeps_ok f rb sid r (re_ok _ _ He) Hro) as Hok.
  pose proof (re_tidy _ _ He sid) as Ht. destruct Hro as [_|v segs' Hv Hwf Hel]; [done|].
  apply rcv_exact_step with rb; try done; simpl.
  - rewrite Hel. destruct (tidy_delete _ _ (next_of rb sid) Ht) as [H1 H2 _]. constructor; [done..|].
    intros o w [Hne Hw]%lookup_delete_Some. pose proof (tidy_above _ _ Ht _ _ Hw).
    apply (tidy_disjoint _ _ Ht (next_of rb sid) v o w Hv Hw). lia.
  - rewrite (stream_bytes_delete rb sid v segs') by done. lia.
  - assert (0 <= seg_len v)%Z by (unfold seg_len; lia). pose proof (re_capacity _ _ He). lia.
Qed.
End spec.

(** ** Properties *)

Section properties.
Context {M : Type} `{!SortedMapOps M RcvValue} `{!SortedMapSpec M RcvValue}.
Implicit Types (rb : ReceiveBuffer M) (sid offset now : Z) (d : bytes).

Lemma RemoveOldestInOrder_exact (f : Z -> Z -> Z) rb sid :
  rcv_ok f rb ->
  exists rb' off data t, RemoveOldestInOrder rb sid = Ok (rb', (off, data, t)) /\ rcv_ok f rb' /\
    match data with
    | None => rb' = rb
    | Some d => off = next_of rb sid /\ d = read_at (f sid) off (length d) /\
        next_of rb' sid = (off + len d)%Z /\ rb_size rb' = (rb_size rb - len d)%Z
    end /\
    (rcv_exact f rb ->
       rcv_exact f rb' /\ (is_Some data <-> covers (content rb sid) (next_of rb sid)) /\
       (forall d, data = Some d -> (0 < len d)%Z) /\
       forall x, covers (content rb' sid) x <-> covers (content rb sid) x /\ (next_of rb' sid <= x)%Z).
Proof.
  intros Hr. destruct (RemoveOldestInOrder_spec f rb sid Hr) as ([rb' [[off data] t]] & E & Ho).
  pose proof (remove_keeps_ok f rb sid _ Hr Ho) as Hr'.
  pose proof (fun He => remove_keeps_exact f rb sid _ He Ho) as Hex. simpl in *.
  exists rb', off, data, t. split; [done|]. split; [done|].
  pose proof (stream_at_ok f rb sid Hr) as (_ & Hc & _).
  inversion Ho as [Hno|v segs' Hv Hwf Hel]; subst.
  - split; [done|]. intros He. split; [done|]. pose proof (re_tidy _ _ He sid) as Ht. split_and!; [|done|].
    + split; [by intros [? ?]|]. intros (o & v & Hov & Hx). pose proof (tidy_above _ _ Ht o v Hov).
      assert (o = next_of rb' sid) as -> by lia. destruct (Hno v Hov) as (o' & [w Hw] & Hlt).
      pose proof (tidy_above _ _ Ht o' w Hw). lia.
    + intros x. split; [|tauto]. intros Hcov. split; [done|]. destruct Hcov as (o & v & Hov & Hx).
      pose proof (tidy_above _ _ Ht o v Hov). lia.
  - set (rb' := set_size _ _) in *.
    assert (stream_at rb' sid = mkRcvBuffer segs' (seg_end (next_of rb sid) v) (closeAtOffset (stream_at rb sid))) as Eat.
    { etrans; [apply (stream_at_set rb)|]. by rewrite decide_True. }
    assert (next_of rb' sid = seg_end (next_of rb sid) v) as En by (unfold next_of at 1; by rewrite Eat).
    assert (content rb' sid = delete (next_of rb sid) (content rb sid)) as Ec by (unfold content at 1; by rewrite Eat).
    split; [split_and!; [done | by apply Hc | done | done]|].
    intros He. split; [by apply Hex|]. pose proof (re_tidy _ _ He sid) as Ht.
    pose proof (tidy_nonempty _ _ Ht _ _ Hv) as Hpos. split_and!; [|by intros ? [= <-]|].
    + split; [intros _|by eauto]. exists (next_of rb sid), v. split; [done|]. unfold seg_end. lia.
    + intros x. rewrite Ec, En, (covers_delete (content rb sid) _ v x Hv). split.
      * intros Hcov. split; [by right|]. destruct Hcov as (o & w & [Hne Hw]%lookup_delete_Some & Hx).
        pose proof (tidy_above _ _ Ht o w Hw). pose proof (tidy_disjoint _ _ Ht _ v o w Hv Hw ltac:(lia)). lia.
      * intros [[?|?] ?]; [lia | done].
Qed.

(** C13. Safety of insertion, whatever the peer's segmentation: if every packet
    carries bytes of one byte stream per stream id, then an insertion that
    returns keeps all stored segments parts of that stream and keeps the stored
    bytes within the counted size and the counted size within the capacity
    (so the advertised window is never negative); and an insertion into
    segments that do not overlap never panics. *)
Theorem rcv_insert_safe (f : Z -> Z -> Z) rb sid offset now d :
  rcv_ok f rb -> size_ok rb -> segment_of (f sid) offset d ->
  (forall rb' s, Insert rb sid offset now d = Ok (rb', s) ->
     rcv_ok f rb' /\ size_ok rb' /\ (0 <= Available rb')%Z) /\
  (disjoint_segs (content rb sid) -> exists rb' s, Insert rb sid offset now d = Ok (rb', s)).
Proof.
  intros Hr Hsz Hs. split.
  - intros rb' s E. destruct (Insert_keeps_size f rb sid offset now d rb' s Hr Hs Hsz E) as [Hsz' _].
    split; [by eapply Insert_keeps_ok|]. split; [done|]. unfold Available, size_ok in *. lia.
  - intros Hdis. pose proof (Insert_spec f rb sid offset now d Hr Hs) as Ho.
    inversion Ho as [| | | |fo d1 no nv _ Hp Hnx Hlt]; subst; eauto. exfalso.
    destruct Hnx as (Hno & Hgt & _). inversion Hp as [| |po pv d' Hpr]; subst; [lia|].
    destruct Hpr as (Hpo & Hlt' & _). specialize (Hdis _ _ _ _ Hpo Hno). lia.
Qed.

(** C10. Reassembly refines a set of received positions, under these conditions.
    The buffer is exact: its segments are parts of the streams, not empty, do not
    overlap and lie at or above the read position, and the size is their number
    of bytes, within the capacity.  The packet holds bytes of its stream and is
    orderly: not empty, not partly delivered, every stored segment is apart from
    it, contains it or lies inside it, and at most one lies inside it.  Then
    [Insert] returns and the buffer is exact again; the status is duplicate only
    if every byte was received before, and full only if the packet does not fit,
    and the stored bytes are then unchanged; otherwise exactly the bytes of the
    packet are added.  Unless the buffer is full one acknowledgement of the
    packet is queued.  Read positions and other streams do not change. *)
Theorem rcv_insert_exact (f : Z -> Z -> Z) rb sid offset now d :
  rcv_exact f rb -> segment_of (f sid) offset d -> orderly (content rb sid) (next_of rb sid) offset d ->
  exists rb' s, Insert rb sid offset now d = Ok (rb', s) /\ rcv_exact f rb' /\ insert_result rb sid offset d rb' s.
Proof. apply Insert_exact. Qed.

(** C12. Reading: [RemoveOldestInOrder] never panics; data it returns are exactly
    the bytes of the stream at the read position, which advances past them.  On
    exact buffers it returns data if and only if the byte at the read position
    has been received, and takes exactly the delivered positions out. *)
Theorem rcv_read_in_order (f : Z -> Z -> Z) rb sid :
  rcv_ok f rb ->
  exists rb' off data t, RemoveOldestInOrder rb sid = Ok (rb', (off, data, t)) /\ rcv_ok f rb' /\
    match data with
    | None => rb' = rb
    | Some d => off = next_of rb sid /\ d = read_at (f sid) off (length d) /\
        next_of rb' sid = (off + len d)%Z /\ rb_size rb' = (rb_size rb - len d)%Z
    end /\
    (rcv_exact f rb ->
       rcv_exact f rb' /\ (is_Some data <-> covers (content rb sid) (next_of rb sid)) /\
       (forall d, data = Some d -> (0 < len d)%Z) /\
       forall x, covers (content rb' sid) x <-> covers (content rb sid) x /\ (next_of rb' sid <= x)%Z).
Proof. apply RemoveOldestInOrder_exact. Qed.

(** [n] reads in a row, their data concatenated. *)
Fixpoint read_n (n : nat) rb sid : go (ReceiveBuffer M * bytes) :=
  match n with
  | O => mret (rb, [])
  | S n =>
      '(rb, (_, data, _)) ← RemoveOldestInOrder rb sid;
      '(rb, rest) ← read_n n rb sid;
      mret (rb, default [] data ++ rest)
  end.

Lemma read_n_prefix (f : Z -> Z -> Z) k n rb sid :
  (n <= k)%nat -> rcv_exact f rb ->
  (forall x, next_of rb sid <= x < next_of rb sid + Z.of_nat n -> covers (content rb sid) x)%Z ->
  exists rb' d, read_n k rb sid = Ok (rb', d) /\ rcv_exact f rb' /\ (n <= length d)%nat /\
    d = read_at (f sid) (next_of rb sid) (length d) /\ next_of rb' sid = (next_of rb sid + len d)%Z.
Proof.
  revert n rb. induction k as [|k IH]; intros n rb Hn He Hcov.
  { exists rb, []. simpl. split_and!; try done; lia. }
  destruct (RemoveOldestInOrder_exact f rb sid (re_ok _ _ He)) as (rb1 & off & data & t & E & _ & Hd & Hx).
  destruct (Hx He) as (He1 & Hiff & Hpos & Hc1). simpl. rewrite E. cbn [mbind go_bind].
  destruct data as [d|].
  - destruct Hd as (-> & Hd & Hnext & _).
    destruct (IH (n - length d)%nat rb1) as (rb2 & d2 & -> & He2 & Hl2 & Hd2 & Hn2); [|done|..].
    + specialize (Hpos d eq_refl). lia.
    + intros x Hxr. apply Hc1. split; [apply Hcov; lia | lia].
    + exists rb2, (d ++ d2). cbn [mbind go_bind]. split_and!; [done.. | | |].
      * rewrite length_app. lia.
      * rewrite length_app, read_at_app, <- Hd, <- Hnext, <- Hd2. done.
      * rewrite length_app. lia.
  - subst rb1. destruct n as [|n]; [|exfalso; by apply (is_Some_None (A := bytes)), Hiff, Hcov; lia].
    destruct (IH O rb) as (rb2 & d2 & -> & ? & ? & ? & ?); [lia | done | intros; lia|].
    exists rb2, d2. split_and!; done.
Qed.

(** C11. Liveness of the reader, on an exact buffer (segments of the streams, not
    empty, not overlapping, at or above the read position, exactly counted): if
    the next [n] bytes of the stream have been received, then [n] reads deliver
    at least those [n] bytes, in order and from the read position on, and the
    buffer stays exact.  On a buffer that is not exact reads may return nothing
    for ever ([rcv_reader_stalls] below). *)
Theorem rcv_drain (f : Z -> Z -> Z) (n : nat) rb sid :
  rcv_exact f rb ->
  (forall x, next_of rb sid <= x < next_of rb sid + Z.of_nat n -> covers (content rb sid) x)%Z ->
  exists rb' d, read_n n rb sid = Ok (rb', d) /\ rcv_exact f rb' /\ (n <= length d)%nat /\
    d = read_at (f sid) (next_of rb sid) (length d) /\ next_of rb' sid = (next_of rb sid + len d)%Z.
Proof. by apply read_n_prefix. Qed.

Lemma NewReceiveBuffer_exact (f : Z -> Z -> Z) cap :
  (0 <= cap)%Z -> rcv_exact f (NewReceiveBuffer cap : ReceiveBuffer M).
Proof.
  intros Hcap. constructor.
  - intros sid st Hst. unfold NewReceiveBuffer in Hst. cbn [streams] in Hst. by rewrite lookup_empty in Hst.
  - intros sid. rewrite content_absent by apply lookup_empty. apply tidy_empty.
  - unfold stored. cbn [streams NewReceiveBuffer]. by rewrite map_sum_empty.
  - done.
Qed.
(** *** Packets that are never split *)

(** A way to cut each stream into packets: offsets and lengths, not empty, and
    two packets of a stream are the same or apart. *)
Record cutting (P : Z -> Z -> Z -> Prop) : Prop := {
  cut_nonempty sid o l : P sid o l -> (0 < l)%Z;
  cut_apart sid o1 l1 o2 l2 :
    P sid o1 l1 -> P sid o2 l2 -> (o1 = o2 /\ l1 = l2) \/ (o1 + l1 <= o2)%Z \/ (o2 + l2 <= o1)%Z;
}.

(** The buffer holds whole packets and its read positions are between packets. *)
Definition whole (P : Z -> Z -> Z -> Prop) rb : Prop :=
  forall sid, (forall o v, content rb sid !! o = Some v -> P sid o (seg_len v)) /\
    (forall o l, P sid o l -> next_of rb sid <= o \/ o + l <= next_of rb sid)%Z.

(** What happens to the buffer: a packet arrives, a stream is read, the peer
    closes it. *)
Inductive rcv_event :=
  | Arrives (sid offset now : Z) (d : bytes)
  | Reads (sid : Z)
  | Closes (sid offset : Z).

Definition rcv_step rb (e : rcv_event) : go (ReceiveBuffer M) :=
  match e with
  | Arrives sid offset now d => '(rb, _) ← Insert rb sid offset now d; mret rb
  | Reads sid => '(rb, _) ← RemoveOldestInOrder rb sid; mret rb
  | Closes sid offset => mret (Close rb sid offset)
  end.

Fixpoint rcv_run rb (es : list rcv_event) : go (ReceiveBuffer M) :=
  match es with
  | [] => mret rb
  | e :: es => rb ← rcv_step rb e; rcv_run rb es
  end.

(** A packet that arrives is one of the cutting, with the bytes of the stream. *)
Definition packet_event (P : Z -> Z -> Z -> Prop) (f : Z -> Z -> Z) (e : rcv_event) : Prop :=
  match e with
  | Arrives sid offset _ d => P sid offset (len d) /\ segment_of (f sid) offset d
  | _ => True
  end.

Section packets.
Context (P : Z -> Z -> Z -> Prop) (f : Z -> Z -> Z) (HP : cutting P).

Lemma whole_orderly rb sid offset d :
  whole P rb -> P sid offset (len d) -> orderly (content rb sid) (next_of rb sid) offset d.
Proof.
  intros Hw Hd. destruct (Hw sid) as [Hseg Hnext]. split_and!; [by eapply cut_nonempty | by apply Hnext | |].
  - intros o v Hv. pose proof (cut_apart _ HP _ _ _ _ _ Hd (Hseg o v Hv)). unfold seg_end. lia.
  - intros o1 v1 o2 v2 H1 H2 Hi1 Hi2. unfold seg_end in *.
    pose proof (cut_apart _ HP _ _ _ _ _ Hd (Hseg _ _ H1)). pose proof (cut_nonempty _ HP _ _ _ (Hseg _ _ H1)).
    pose proof (cut_apart _ HP _ _ _ _ _ Hd (Hseg _ _ H2)). pose proof (cut_nonempty _ HP _ _ _ (Hseg _ _ H2)). lia.
Qed.

Lemma whole_insert rb sid offset d rb' s :
  whole P rb -> P sid offset (len d) -> insert_result rb sid offset d rb' s -> whole P rb'.
Proof.
  intros Hw Hd (Hn & Ho & Hs) sid'. rewrite Hn. split; [|apply Hw].
  destruct (decide (sid' = sid)) as [->|]; [|rewrite Ho by done; apply Hw]. destruct s.
  - destruct Hs as (_ & _ & _ & Hnew). intros o v [Hv|[-> Hv]]%Hnew; [by apply Hw|]. unfold seg_len. by rewrite Hv.
  - destruct Hs as (_ & -> & _). apply Hw.
  - destruct Hs as (_ & -> & _). apply Hw.
Qed.

Lemma whole_read rb sid r : whole P rb -> remove_outcome rb sid r -> whole P r.1.
Proof.
  intros Hw [_|v segs' Hv Hwf Hel]; [done|]. cbn [fst]. intros sid'. set (rb' := set_size _ _).
  destruct (Hw sid') as [Hseg Hnext].
  assert (stream_at rb' sid' = if decide (sid' = sid)
    then mkRcvBuffer segs' (seg_end (next_of rb sid) v) (closeAtOffset (stream_at rb sid)) else stream_at rb sid') as E
    by apply (stream_at_set rb).
  unfold content, next_of. rewrite E. case_decide as Es; [subst sid'|by split]. cbn [segments nextInOrderOffsetToWaitFor].
  rewrite Hel. split; [intros o w [_ Hw']%lookup_delete_Some; by apply Hseg|].
  intros o l Hl. specialize (Hnext o l Hl). pose proof (cut_apart _ HP _ _ _ _ _ Hl (Hseg _ _ Hv)).
  pose proof (cut_nonempty _ HP _ _ _ (Hseg _ _ Hv)). unfold seg_end, next_of in *. lia.
Qed.

Lemma rcv_step_exact rb e :
  rcv_exact f rb -> whole P rb -> packet_event P f e ->
  exists rb', rcv_step rb e = Ok rb' /\ rcv_exact f rb' /\ whole P rb'.
Proof.
  intros He Hw Hev. destruct e as [sid offset now d|sid|sid offset]; simpl in *.
  - destruct Hev as [Hd Hs].
    destruct (Insert_exact f rb sid offset now d He Hs (whole_orderly _ _ _ _ Hw Hd)) as (rb' & s & -> & He' & Hr).
    exists rb'. split_and!; [done | done | by eapply whole_insert].
  - destruct (RemoveOldestInOrder_spec f rb sid (re_ok _ _ He)) as ([rb' x] & -> & Hr).
    exists rb'. split_and!; [done | by apply (remove_keeps_exact f rb sid (rb', x)) | by apply (whole_read rb sid (rb', x))].
  - exists (Close rb sid offset). split; [done|]. split; [by apply Close_exact|].
    assert (size_ok rb) as Hsz by (destruct He; unfold size_ok; lia).
    destruct (Close_rcv_spec f rb sid offset (re_ok _ _ He) Hsz) as (_ & _ & Hcn & _).
    intros sid'. destruct (Hcn sid') as [-> ->]. apply Hw.
Qed.

(** The conditions of the two theorems above hold of a sender that never splits
    a packet: whatever its packets do on the way (loss, reordering, duplication)
    and whatever is read or closed between them, every operation returns and the
    buffer stays exact, so every packet is stored exactly and every received
    byte can be read. *)
Theorem rcv_packets_exact cap es :
  (0 <= cap)%Z -> (forall sid o l, P sid o l -> (0 <= o)%Z) -> Forall (packet_event P f) es ->
  exists rb, rcv_run (NewReceiveBuffer cap) es = Ok rb /\ rcv_exact f rb /\ whole P rb.
Proof.
  intros Hcap Hpos Hes.
  assert (whole P (NewReceiveBuffer cap : ReceiveBuffer M)) as Hw.
  { intros sid. rewrite content_absent by apply lookup_empty. split; [intros o v H; by rewrite lookup_empty in H|].
    intros o l Hl. left. by apply (Hpos sid o l). }
  pose proof (NewReceiveBuffer_exact f cap Hcap) as He. revert He Hw.
  generalize (NewReceiveBuffer cap : ReceiveBuffer M) as rb.
  induction Hes as [|e es Hev _ IH]; intros rb He Hw; [by exists rb|].
  destruct (rcv_step_exact rb e He Hw Hev) as (rb' & E & He' & Hw'). simpl. rewrite E. by apply IH.
Qed.
End packets.
End properties.

(** ** Witnesses, on the skip list *)

Definition empty100 : ReceiveBuffer (SortedMap RcvValue) := NewReceiveBuffer 100.

Lemma empty100_exact : rcv_exact counting empty100.
Proof. by apply NewReceiveBuffer_exact. Qed.

Lemma counting_segment sid : segment_of (counting sid) 3 [3; 4]%Z.
Proof. split_and!; [compute_done..|reflexivity]. Qed.

Lemma rcv_insert_safe_witness :
  exists rb s, Insert empty100 7 3 0 [3; 4]%Z = Ok (rb, s).
Proof.
  apply (rcv_insert_safe counting empty100 7 3 0 [3; 4]%Z).
  - apply empty100_exact.
  - unfold size_ok. rewrite <- (re_size _ _ empty100_exact). simpl. lia.
  - apply counting_segment.
  - intros o1 v1 o2 v2 H. exfalso. revert H. rewrite content_absent by reflexivity. by rewrite lookup_empty.
Defined.

Lemma rcv_insert_exact_witness :
  exists rb s, Insert empty100 7 3 0 [3; 4]%Z = Ok (rb, s) /\ s = RcvInsertOk /\
    insert_result empty100 7 3 [3; 4]%Z rb s.
Proof.
  destruct (rcv_insert_exact counting empty100 7 3 0 [3; 4]%Z) as (rb & s & E & _ & Hr).
  - apply empty100_exact.
  - apply counting_segment.
  - rewrite content_absent by reflexivity. split_and!; [simpl; lia | left; vm_compute; discriminate | |];
      intros; exfalso; match goal with H : ∅ !! _ = Some _ |- _ => by rewrite lookup_empty in H end.
  - exists rb, s. split; [exact E|]. split; [|exact Hr]. vm_compute in E. congruence.
Defined.

(** The buffer after the packet with bytes 0 to 2 arrived. *)
Definition got3 : ReceiveBuffer (SortedMap RcvValue) :=
  match Insert empty100 7 0 0 [0; 1; 2]%Z with Ok (rb, _) => rb | _ => empty100 end.

Lemma got3_spec : rcv_exact counting got3 /\ insert_result empty100 7 0 [0; 1; 2]%Z got3 RcvInsertOk.
Proof.
  destruct (Insert_exact counting empty100 7 0 0 [0; 1; 2]%Z) as (rb & s & E & He & Hr).
  - apply empty100_exact.
  - split_and!; [compute_done..|reflexivity].
  - rewrite content_absent by reflexivity. split_and!; [simpl; lia | left; vm_compute; discriminate | |];
      intros; exfalso; match goal with H : ∅ !! _ = Some _ |- _ => by rewrite lookup_empty in H end.
  - assert (s = RcvInsertOk) as -> by (vm_compute in E; congruence).
    assert (rb = got3) as -> by (unfold got3; by rewrite E). done.
Qed.

Lemma got3_covers x : (next_of got3 7 <= x < next_of got3 7 + 3)%Z -> covers (content got3 7) x.
Proof.
  destruct got3_spec as [_ (Hn & _ & _ & Hc & _)]. intros Hx. rewrite Hn in Hx. apply Hc. right.
  change (next_of empty100 7) with 0%Z in Hx. simpl. lia.
Qed.

Lemma rcv_read_in_order_witness :
  exists rb off data t, RemoveOldestInOrder got3 7 = Ok (rb, (off, data, t)) /\ data = Some [0; 1; 2]%Z /\
    rcv_exact counting rb /\ next_of rb 7 = 3%Z.
Proof.
  destruct got3_spec as [He _].
  destruct (rcv_read_in_order counting got3 7 (re_ok _ _ He)) as (rb & off & data & t & E & _ & Hd & Hx).
  destruct (Hx He) as [He' _]. exists rb, off, data, t. split; [exact E|].
  assert (data = Some [0; 1; 2]%Z) as -> by (vm_compute in E; congruence). split; [reflexivity|].
  split; [exact He'|]. destruct Hd as (-> & _ & -> & _). reflexivity.
Defined.

Lemma rcv_drain_witness : exists rb d, read_n 3 got3 7 = Ok (rb, d) /\ d = [0; 1; 2]%Z.
Proof.
  destruct (rcv_drain counting 3 got3 7 (proj1 got3_spec) got3_covers) as (rb & d & E & _).
  exists rb, d. split; [exact E|]. vm_compute in E. congruence.
Defined.

(** Packets of three bytes: the second arrives first, then the first, and the
    first again after it was read. *)
Definition threes (_ o l : Z) : Prop := (0 <= o /\ o mod 3 = 0 /\ l = 3)%Z.

Lemma threes_cutting : cutting threes.
Proof. constructor; unfold threes; intros; [lia | Z.to_euclidean_division_equations; lia]. Qed.

Lemma rcv_packets_exact_witness :
  exists rb, rcv_run (NewReceiveBuffer 100 : ReceiveBuffer (SortedMap RcvValue))
    [Arrives 7 3 0 [3; 4; 5]; Arrives 7 0 1 [0; 1; 2]; Reads 7; Arrives 7 0 2 [0; 1; 2]]%Z = Ok rb /\
    rcv_exact counting rb /\ next_of rb 7 = 3%Z.
Proof.
  destruct (rcv_packets_exact threes counting threes_cutting 100
    [Arrives 7 3 0 [3; 4; 5]; Arrives 7 0 1 [0; 1; 2]; Reads 7; Arrives 7 0 2 [0; 1; 2]]%Z) as (rb & E & He & _).
  - lia.
  - unfold threes. intros; lia.
  - repeat constructor; unfold threes; (compute_done || reflexivity || (cbn; lia)).
  - exists rb. split; [exact E|]. split; [exact He|]. vm_compute in E. injection E as <-. reflexivity.
Defined.

(** ** Traffic that is not orderly *)

(** A run of insertions on stream 7 (offset and data), with their statuses. *)
Fixpoint insert_all (rb : ReceiveBuffer (SortedMap RcvValue)) (ps : list (Z * bytes))
    : go (ReceiveBuffer (SortedMap RcvValue) * list RcvInsertStatus) :=
  match ps with
  | [] => mret (rb, [])
  | (o, d) :: ps =>
      '(rb, s) ← Insert rb 7 o 0 d; '(rb, ss) ← insert_all rb ps; mret (rb, s :: ss)
  end.

(** A packet that was split for retransmission, and whose unsplit copy arrives
    after both parts: the copy replaces the first part and overlaps the second.
    The reader delivers it, then finds the second part below its position and
    returns nothing for ever after, also when the next packet is there. *)
Theorem rcv_reader_stalls :
  match insert_all empty100 [(0, [0; 1; 2]); (3, [3; 4]); (0, [0; 1; 2; 3; 4])]%Z with
  | Ok (rb, statuses) =>
      match RemoveOldestInOrder rb 7 with
      | Ok (rb, (_, data, _)) =>
          statuses = [RcvInsertOk; RcvInsertOk; RcvInsertOk] /\ data = Some [0; 1; 2; 3; 4]%Z /\
          match insert_all rb [(5, [5; 6])]%Z with
          | Ok (rb, statuses) => statuses = [RcvInsertOk] /\ RemoveOldestInOrder rb 7 = Ok (rb, (0, None, 0)%Z)
          | _ => False
          end
      | _ => False
      end
  | _ => False
  end.
Proof. vm_compute. split_and!; reflexivity. Qed.

(** In the same state a packet that starts inside the copy panics. *)
Theorem rcv_insert_panics :
  insert_all empty100 [(0, [0; 1; 2]); (3, [3; 4]); (0, [0; 1; 2; 3; 4]); (1, [1; 2; 3; 4; 5; 6])]%Z
  = Panic SliceOutOfRange.
Proof. vm_compute. reflexivity. Qed.

(** A packet that overlaps the end of one stored segment and the start of the
    adjacent one overwrites the latter with an empty segment: bytes that were
    acknowledged are gone and their room is never given back. *)
Theorem rcv_insert_loses_data :
  match insert_all empty100 [(0, [0; 1; 2]); (3, [3; 4; 5]); (1, [1; 2; 3; 4])]%Z with
  | Ok (rb, statuses) =>
      statuses = [RcvInsertOk; RcvInsertOk; RcvInsertOk] /\ Size rb = 6%Z /\ stored rb = 3%Z /\
      match read_n 3 rb 7 with Ok (rb, d) => d = [0; 1; 2]%Z /\ Size rb = 3%Z | _ => False end
  | _ => False
  end.
Proof. vm_compute. split_and!; reflexivity. Qed.

(** A segment that starts below the read position and ends above it (bytes 0
    to 3 after 0 to 2 were read) is stored below it and stops the reader. *)
Theorem rcv_partly_delivered_stalls :
  match RemoveOldestInOrder got3 7 with
  | Ok (rb, _) =>
      match insert_all rb [(0, [0; 1; 2; 3])]%Z with
      | Ok (rb, statuses) => statuses = [RcvInsertOk] /\ RemoveOldestInOrder rb 7 = Ok (rb, (0, None, 0)%Z)
      | _ => False
      end
  | _ => False
  end.
Proof. vm_compute. split_and!; reflexivity. Qed.
