(* ===== verification/Crypto.v ===== *)
(** * Crypto: the packet layer of src/crypto.go

    The five message types, their encryption and decryption, and the room a
    message type leaves for user data.

    The primitives (X25519, ChaCha20-Poly1305 and its X variant, the bare
    XChaCha20 key stream) are library code: the class [CryptoPrims] has them as
    operations and [CryptoLaws] states what the packet layer relies on (they are
    inverse to each other, have the documented lengths, both ends derive the same
    secret, and a packet does not open under another nonce).  [toy_prims] is an
    instance, so the laws can hold.

    A nil key is [None].  Where the code reslices a packet beyond its length,
    [rest] is what the buffer holds behind the packet. *)

From stdpp Require Import prelude list numbers strings.
From S2P Require Import Prelude Wire Proto.
Open Scope Z_scope.

(** ** The code *)

Inductive CryptoMsgType := InitSnd | InitRcv | InitCryptoSnd | InitCryptoRcv | Data.

#[export] Instance CryptoMsgType_eq_dec : EqDecision CryptoMsgType.
Proof. solve_decision. Defined.

Definition CryptoVersion : Z := 0.
Definition MacSize : Z := 16.
Definition SnSize : Z := 6.
Definition PubKeySize : Z := 32.
Definition HeaderSize : Z := 1.
Definition ConnIdSize : Z := 8.
Definition MsgInitFillLenSize : Z := 2.
Definition MinInitRcvSizeHdr : Z := HeaderSize + ConnIdSize + 2 * PubKeySize.
Definition MinInitCryptoSndSizeHdr : Z := HeaderSize + 2 * PubKeySize.
Definition MinInitCryptoRcvSizeHdr : Z := HeaderSize + ConnIdSize + PubKeySize.
Definition MinDataSizeHdr : Z := HeaderSize + ConnIdSize.
Definition FooterDataSize : Z := SnSize + MacSize.
Definition MinPacketSize : Z := MinDataSizeHdr + FooterDataSize + MinProtoSize.

(** Bytes of a packet that are not user data; [-1] for the unencrypted
    message, which carries none. *)
Definition calcCryptoOverheadWithData (msgType : CryptoMsgType) (ack : option Ack) (offset : Z) : Z :=
  let hasAck := bool_decide (is_Some ack) in
  let needsExtension := match ack with Some a => ack_offset a >? 0xFFFFFF | None => false end
                        || (offset >? 0xFFFFFF) in
  let overhead := calcProtoOverhead hasAck needsExtension false in
  match msgType with
  | InitSnd => -1
  | InitRcv => overhead + (MinInitRcvSizeHdr + FooterDataSize)
  | InitCryptoSnd => overhead + (MinInitCryptoSndSizeHdr + FooterDataSize + MsgInitFillLenSize)
  | InitCryptoRcv => overhead + (MinInitCryptoRcvSizeHdr + FooterDataSize)
  | Data => overhead + (MinDataSizeHdr + FooterDataSize)
  end.

(** *** The cryptographic library *)

Class CryptoPrims (PubKey PrvKey : Type) := {
  pub_bytes : PubKey -> bytes;                       (* PublicKey.Bytes *)
  new_pub_key : bytes -> go_error + PubKey;          (* ecdh.X25519().NewPublicKey *)
  public_key : PrvKey -> PubKey;                     (* PrivateKey.PublicKey *)
  ecdh : PrvKey -> PubKey -> go_error + bytes;       (* PrivateKey.ECDH *)
  aead_new : bytes -> option go_error;               (* chacha20poly1305.New, NewX: the error *)
  seal : bytes -> bytes -> bytes -> bytes -> bytes;  (* key, nonce, plaintext, additional data *)
  open : bytes -> bytes -> bytes -> bytes -> go_error + bytes;
  xseal : bytes -> bytes -> bytes -> bytes;          (* NewX: key, nonce, plaintext *)
  xor_stream : bytes -> bytes -> bytes -> go_error + bytes; (* XChaCha20 from block 1: key, nonce, text *)
}.

Class CryptoLaws (PubKey PrvKey : Type) `{!CryptoPrims PubKey PrvKey} : Prop := {
  pub_bytes_length k : len (pub_bytes k) = PubKeySize;
  pub_bytes_u8 k : Forall is_u8 (pub_bytes k);
  new_pub_key_bytes k : new_pub_key (pub_bytes k) = inr k;
  ecdh_agree a b s : ecdh a (public_key b) = inr s -> ecdh b (public_key a) = inr s;
  ecdh_length a b s : ecdh a b = inr s -> len s = 32;
  aead_new_ok k : len k = 32 -> aead_new k = None;
  seal_length k n p ad : len (seal k n p ad) = len p + MacSize;
  open_seal k n p ad : len k = 32 -> len n = 12 -> open k n (seal k n p ad) ad = inr p;
  open_other_nonce k n n' p ad : len k = 32 -> len n = 12 -> len n' = 12 -> n <> n' ->
    exists e, open k n' (seal k n p ad) ad = inl e;
  xseal_length k n p : len (xseal k n p) = len p + MacSize;
  xor_stream_length k n t r : xor_stream k n t = inr r -> len r = len t;
  xor_xseal k n p : len k = 32 -> len n = 24 -> xor_stream k n (take (length p) (xseal k n p)) = inr p;
}.

Record Message := mkMessage {
  SnConn : Z;
  currentEpochCrypt : Z;
  PayloadRaw : bytes;
}.

(** [(uint8(msgType) << 5) | CryptoVersion]. *)
Definition msg_code (t : CryptoMsgType) : Z :=
  match t with InitSnd => 0 | InitRcv => 1 | InitCryptoSnd => 2 | InitCryptoRcv => 3 | Data => 4 end.
Definition msg_header (t : CryptoMsgType) : Z := (u8 (msg_code t << 5) .| CryptoVersion)%go.

(** [copy(buf[i:], src)]. *)
Definition copy_at (buf : bytes) (i : Z) (src : bytes) : go bytes :=
  '(b, _) ← on_slice buf i (fun s => Ok (go_copy s src)); mret b.

Definition make_bytes (n : Z) : bytes := replicate (Z.to_nat n) 0.

(** The deterministic nonce: epoch, sequence number, and the direction in the
    top bit of the first byte. *)
Definition nonce_det (epoch sn : Z) (highBit : bool) : go bytes :=
  '(nonce, _) ← PutUint48 (make_bytes 12) epoch;
  '(nonce, _) ← on_slice nonce 6 (fun b => PutUint48 b sn);
  b0 ← at_ nonce 0;
  set_at nonce 0 (if highBit then b0 .| 0x80 else Z.ldiff b0 0x80)%go.

Section code.
Context {PubKey PrvKey : Type} `{!CryptoPrims PubKey PrvKey}.

Definition nil_keys {A} : go A := Panic (PanicWith "handshake keys cannot be nil").

(** *** Encoder *)

Definition chainedEncrypt (snCrypt epochConn : Z) (isSender : bool) (sharedSecret headerAndCrypto packetData : bytes)
    : go (go_error + bytes) :=
  nonceDet ← nonce_det epochConn snCrypt isSender;
  match aead_new sharedSecret with
  | Some err => mret (inl err)
  | None =>
      let sealed := seal sharedSecret nonceDet packetData headerAndCrypto in
      let encData := make_bytes (len headerAndCrypto + SnSize + len sealed) in
      encData ← copy_at encData 0 headerAndCrypto;
      nonceRand ← slice sealed 0 24;
      sn ← slice nonceDet 6 12;
      let encSn := xseal sharedSecret nonceRand sn in
      encSn ← slice_to encSn SnSize;
      encData ← copy_at encData (len headerAndCrypto) encSn;
      encData ← copy_at encData (len headerAndCrypto + SnSize) sealed;
      mret (inr encData)
  end.

Definition encryptInitSnd (pubKeyIdSnd pubKeyEpSnd : option PubKey) (mtu : Z) : go (Z * bytes) :=
  match pubKeyIdSnd, pubKeyEpSnd with
  | Some pubKeyIdSnd, Some pubKeyEpSnd =>
      buf ← set_at (make_bytes mtu) 0 (msg_header InitSnd);
      buf ← copy_at buf HeaderSize (pub_bytes pubKeyEpSnd);
      buf ← copy_at buf (HeaderSize + PubKeySize) (pub_bytes pubKeyIdSnd);
      b ← slice_from buf HeaderSize;
      connId ← Uint64 b;
      mret (connId, buf)
  | _, _ => nil_keys
  end.

Definition encryptInitRcv (connId : Z) (pubKeyIdSnd pubKeyEpRcv : option PubKey) (prvKeyEpSnd : option PrvKey)
    (snCrypto : Z) (packetData : bytes) : go (go_error + bytes) :=
  match pubKeyIdSnd, pubKeyEpRcv, prvKeyEpSnd with
  | Some pubKeyIdSnd, Some pubKeyEpRcv, Some prvKeyEpSnd =>
      hdr ← set_at (make_bytes MinInitRcvSizeHdr) 0 (msg_header InitRcv);
      '(hdr, _) ← on_slice hdr HeaderSize (fun b => PutUint64 b connId);
      hdr ← copy_at hdr (HeaderSize + ConnIdSize) (pub_bytes (public_key prvKeyEpSnd));
      hdr ← copy_at hdr (HeaderSize + ConnIdSize + PubKeySize) (pub_bytes pubKeyIdSnd);
      match ecdh prvKeyEpSnd pubKeyEpRcv with
      | inl err => mret (inl err)
      | inr sharedSecret => chainedEncrypt snCrypto 0 false sharedSecret hdr packetData
      end
  | _, _, _ => nil_keys
  end.

Definition encryptInitCryptoSnd (pubKeyIdRcv pubKeyIdSnd : option PubKey) (prvKeyEpSnd : option PrvKey)
    (snCrypto mtu : Z) (packetData : bytes) : go (go_error + Z * bytes) :=
  match pubKeyIdRcv, pubKeyIdSnd, prvKeyEpSnd with
  | Some pubKeyIdRcv, Some pubKeyIdSnd, Some prvKeyEpSnd =>
      hdr ← set_at (make_bytes MinInitCryptoSndSizeHdr) 0 (msg_header InitCryptoSnd);
      hdr ← copy_at hdr HeaderSize (pub_bytes (public_key prvKeyEpSnd));
      hdr ← copy_at hdr (HeaderSize + PubKeySize) (pub_bytes pubKeyIdSnd);
      let fillLen := mtu - (MinInitCryptoSndSizeHdr + FooterDataSize + MsgInitFillLenSize + len packetData) in
      if decide (fillLen < 0) then mret (inl "packet dataToSend cannot be larger than MTU"%string) else
      '(padded, _) ← PutUint16 (make_bytes (len packetData + MsgInitFillLenSize + fillLen)) (u16 fillLen);
      padded ← copy_at padded (2 + fillLen) packetData;
      match ecdh prvKeyEpSnd pubKeyIdRcv with
      | inl err => mret (inl err)
      | inr nonForwardSecretKey =>
          r ← chainedEncrypt snCrypto 0 true nonForwardSecretKey hdr padded;
          b ← slice_from hdr HeaderSize;
          connId ← Uint64 b;
          mret (match r with inl err => inl err | inr encData => inr (connId, encData) end)
      end
  | _, _, _ => nil_keys
  end.

Definition encryptInitCryptoRcv (connId : Z) (pubKeyEpRcv : option PubKey) (prvKeyEpSnd : option PrvKey)
    (snCrypto : Z) (packetData : bytes) : go (go_error + bytes) :=
  match pubKeyEpRcv, prvKeyEpSnd with
  | Some pubKeyEpRcv, Some prvKeyEpSnd =>
      hdr ← set_at (make_bytes MinInitCryptoRcvSizeHdr) 0 (msg_header InitCryptoRcv);
      '(hdr, _) ← on_slice hdr HeaderSize (fun b => PutUint64 b connId);
      hdr ← copy_at hdr (HeaderSize + ConnIdSize) (pub_bytes (public_key prvKeyEpSnd));
      match ecdh prvKeyEpSnd pubKeyEpRcv with
      | inl err => mret (inl err)
      | inr sharedSecret => chainedEncrypt snCrypto 0 false sharedSecret hdr packetData
      end
  | _, _ => nil_keys
  end.

Definition encryptData (connId : Z) (isSender : bool) (sharedSecret : option bytes) (snCrypto epochCrypto : Z)
    (packetData : bytes) : go (go_error + bytes) :=
  match sharedSecret with
  | Some sharedSecret =>
      hdr ← set_at (make_bytes (HeaderSize + ConnIdSize)) 0 (msg_header Data);
      '(hdr, _) ← on_slice hdr HeaderSize (fun b => PutUint64 b connId);
      chainedEncrypt snCrypto epochCrypto isSender sharedSecret hdr packetData
  | None => Panic (PanicWith "pubKeyEpSnd/pubKeyEpRcv keys cannot be nil")
  end.

(** *** Decoder *)

Definition openNoVerify (sharedSecret nonce encoded : bytes) : go_error + bytes := xor_stream sharedSecret nonce encoded.

(** [for _, epochTry := range epochs]: the first epoch under which the packet
    opens, or the last error. *)
Fixpoint try_epochs (epochs : list Z) (isSender : bool) (snConn : Z) (sharedSecret header encData : bytes)
    (err : go_error) : go (go_error + Z * bytes) :=
  match epochs with
  | [] => mret (inl err)
  | epochTry :: epochs =>
      nonceDet ← nonce_det epochTry snConn (negb isSender);
      match open sharedSecret nonceDet encData header with
      | inr packetData => mret (inr (epochTry, packetData))
      | inl err => try_epochs epochs isSender snConn sharedSecret header encData err
      end
  end.

Definition chainedDecrypt (isSender : bool) (epochCrypt : Z) (sharedSecret header encData rest : bytes)
    : go (go_error + Z * Z * bytes) :=
  encSn ← slice encData 0 SnSize;
  encData ← slice_from encData SnSize;
  nonceRand ← slice_to (encData ++ rest) 24;
  match openNoVerify sharedSecret nonceRand encSn with
  | inl err => mret (inl err)
  | inr snConnBytes =>
      snConn ← Uint48 snConnBytes;
      let epochs := [epochCrypt] ++ (if decide (0 < epochCrypt) then [epochCrypt - 1] else [])
                    ++ [u64 (epochCrypt + 1)] in
      match aead_new sharedSecret with
      | Some err => mret (inl err)
      | None =>
          r ← try_epochs epochs isSender snConn sharedSecret header encData ""%string;
          mret (match r with
                | inl err => inl err
                | inr (epochTry, packetData) => inr (snConn, epochTry, packetData)
                end)
      end
  end.

(** The two public keys of a handshake message, from [encData[i : i+32]]. *)
Definition key_at (encData : bytes) (i : Z) : go (go_error + PubKey) :=
  b ← slice encData i (i + PubKeySize); mret (new_pub_key b).

Definition decryptInitSnd (encData : bytes) (mtu : Z) : go (go_error + PubKey * PubKey) :=
  if decide (len encData < mtu) then mret (inl "size is below minimum init"%string) else
  ep ← key_at encData HeaderSize;
  match ep with
  | inl err => mret (inl err)
  | inr pubKeyEpSnd =>
      id ← key_at encData (HeaderSize + PubKeySize);
      mret (match id with inl err => inl err | inr pubKeyIdSnd => inr (pubKeyIdSnd, pubKeyEpSnd) end)
  end.

(** Decryption of the part behind a header of [n] bytes. *)
Definition decrypt_tail (isSender : bool) (epoch : Z) (secret encData rest : bytes) (n : Z)
    : go (go_error + Message) :=
  header ← slice encData 0 n;
  tail ← slice_from encData n;
  r ← chainedDecrypt isSender epoch secret header tail rest;
  mret (match r with
        | inl err => inl err
        | inr (snConn, epoch, packetData) => inr (mkMessage snConn epoch packetData)
        end).

Definition decryptInitRcv (encData rest : bytes) (prvKeyEpSnd : PrvKey)
    : go (go_error + bytes * PubKey * PubKey * Message) :=
  if decide (len encData < MinInitRcvSizeHdr + FooterDataSize) then
    mret (inl "size is below minimum init reply"%string) else
  ep ← key_at encData (HeaderSize + ConnIdSize);
  match ep with
  | inl err => mret (inl err)
  | inr pubKeyEpRcv =>
      id ← key_at encData (HeaderSize + ConnIdSize + PubKeySize);
      match id with
      | inl err => mret (inl err)
      | inr pubKeyIdRcv =>
          match ecdh prvKeyEpSnd pubKeyEpRcv with
          | inl err => mret (inl err)
          | inr sharedSecret =>
              m ← decrypt_tail true 0 sharedSecret encData rest (HeaderSize + ConnIdSize + 2 * PubKeySize);
              mret (match m with inl err => inl err | inr m => inr (sharedSecret, pubKeyIdRcv, pubKeyEpRcv, m) end)
          end
      end
  end.

Definition decryptInitCryptoSnd (encData rest : bytes) (prvKeyIdRcv : PrvKey) (mtu : Z)
    : go (go_error + PubKey * PubKey * Message) :=
  if decide (len encData < mtu) then mret (inl "size is below minimum init"%string) else
  ep ← key_at encData HeaderSize;
  match ep with
  | inl err => mret (inl err)
  | inr pubKeyEpSnd =>
      id ← key_at encData (HeaderSize + PubKeySize);
      match id with
      | inl err => mret (inl err)
      | inr pubKeyIdSnd =>
          match ecdh prvKeyIdRcv pubKeyEpSnd with
          | inl err => mret (inl err)
          | inr nonForwardSecretKey =>
              m ← decrypt_tail false 0 nonForwardSecretKey encData rest (HeaderSize + 2 * PubKeySize);
              match m with
              | inl err => mret (inl err)
              | inr m =>
                  fillerLen ← Uint16 (PayloadRaw m);
                  actualData ← slice_from (PayloadRaw m) (2 + fillerLen);
                  mret (inr (pubKeyIdSnd, pubKeyEpSnd, mkMessage (SnConn m) (currentEpochCrypt m) actualData))
              end
          end
      end
  end.

Definition decryptInitCryptoRcv (encData rest : bytes) (prvKeyEpSnd : PrvKey)
    : go (go_error + bytes * PubKey * Message) :=
  if decide (len encData < MinInitCryptoRcvSizeHdr + FooterDataSize) then
    mret (inl "size is below minimum init reply"%string) else
  ep ← key_at encData (HeaderSize + ConnIdSize);
  match ep with
  | inl err => mret (inl err)
  | inr pubKeyEpRcv =>
      match ecdh prvKeyEpSnd pubKeyEpRcv with
      | inl err => mret (inl err)
      | inr sharedSecret =>
          m ← decrypt_tail true 0 sharedSecret encData rest (HeaderSize + ConnIdSize + PubKeySize);
          mret (match m with inl err => inl err | inr m => inr (sharedSecret, pubKeyEpRcv, m) end)
      end
  end.

Definition decryptData (encData rest : bytes) (isSender : bool) (epochCrypt : Z) (sharedSecret : bytes)
    : go (go_error + Message) :=
  if decide (len encData < MinDataSizeHdr + FooterDataSize) then mret (inl "size is below minimum"%string) else
  decrypt_tail isSender epochCrypt sharedSecret encData rest (HeaderSize + ConnIdSize).
End code.


(** ** Nonces *)

(** The reference layout: the low seven bits of the epoch and the direction,
    the other epoch bytes, the sequence number. *)
Definition nonce_bytes (epoch sn : Z) (highBit : bool) : bytes :=
  (epoch mod 128 + if highBit then 128 else 0) :: le_bytes 5 (epoch / 256) ++ le_bytes 6 sn.

Lemma direction_bit : Forall (fun b => Z.lor b 0x80 = b mod 128 + 128 /\ Z.ldiff b 0x80 = b mod 128) (seqZ 0 256).
Proof. compute_done. Qed.

Lemma nonce_det_spec epoch sn highBit : nonce_det epoch sn highBit = Ok (nonce_bytes epoch sn highBit).
Proof.
  unfold nonce_det, make_bytes. rewrite PutUint48_spec by (rewrite length_replicate; lia). cbn [mbind go_bind].
  rewrite drop_replicate. rewrite (on_slice_app (le_bytes 6 epoch) _ _ _ (le_bytes 6 sn) 6);
    [|by rewrite length_le_bytes|by rewrite PutUint48_spec by (simpl; lia); rewrite app_nil_r].
  cbn [mbind go_bind le_bytes at_ app]. unfold at_. rewrite decide_True by lia. simpl.
  unfold set_at. rewrite decide_True by (simpl; rewrite ?length_app; lia). simpl. f_equal. unfold nonce_bytes. simpl. f_equal.
  pose proof (proj1 (Forall_forall _ _) direction_bit (epoch mod 256)) as Hb.
  destruct Hb as [H1 H2]; [apply elem_of_seqZ; pose proof (Z.mod_pos_bound epoch 256); lia|].
  assert (epoch mod 256 mod 128 = epoch mod 128) as E by (Z.div_mod_to_equations; lia).
  rewrite E in H1, H2. destruct highBit; [done | lia].
Qed.

Lemma nonce_bytes_length epoch sn b : len (nonce_bytes epoch sn b) = 12.
Proof. unfold nonce_bytes. simpl. rewrite ?length_app, ?length_le_bytes. done. Qed.

Lemma le_bytes_inj n a b : 0 <= a < 256 ^ Z.of_nat n -> 0 <= b < 256 ^ Z.of_nat n -> le_bytes n a = le_bytes n b -> a = b.
Proof.
  intros Ha Hb E. apply (f_equal le_value) in E. rewrite !le_value_bytes, !Z.mod_small in E by done. done.
Qed.

(** Exactly the low bit lost to the direction is missing from the nonce. *)
Lemma nonce_bytes_inj e1 s1 b1 e2 s2 b2 :
  is_u48 e1 -> is_u48 e2 -> is_u48 s1 -> is_u48 s2 ->
  nonce_bytes e1 s1 b1 = nonce_bytes e2 s2 b2 <->
  b1 = b2 /\ s1 = s2 /\ e1 mod 128 = e2 mod 128 /\ e1 / 256 = e2 / 256.
Proof.
  intros He1 He2 Hs1 Hs2. split; [|by intros (-> & -> & E1 & E2); unfold nonce_bytes; rewrite E1, E2].
  unfold nonce_bytes. intros Ec. assert (forall (a b : Z) l1 l2, a :: l1 = b :: l2 -> a = b /\ l1 = l2) as Hcons by naive_solver.
  apply Hcons in Ec as [E0 E]. apply app_inj_1 in E as [E1 E2]; [|by rewrite !length_le_bytes].
  apply le_bytes_inj in E2; [|widths; simpl; lia..].
  apply le_bytes_inj in E1; [|widths; simpl; Z.div_mod_to_equations; lia..].
  pose proof (Z.mod_pos_bound e1 128). pose proof (Z.mod_pos_bound e2 128). destruct b1, b2; split_and!; try done; lia.
Qed.

(** ** Slices of known layout *)

Lemma copy_at_app (l1 l2 src : bytes) i :
  i = len l1 -> (length src <= length l2)%nat -> copy_at (l1 ++ l2) i src = Ok (l1 ++ src ++ drop (length src) l2).
Proof.
  intros -> Hl. unfold copy_at.
  rewrite (on_slice_app l1 l2 _ _ (src ++ drop (length src) l2) (len src)); [done | done|].
  unfold go_copy. rewrite Nat.min_r by lia. by rewrite take_ge by lia.
Qed.

Lemma slice_mid (l1 l2 l3 l : bytes) i j :
  l = l1 ++ l2 ++ l3 -> i = len l1 -> j = len l1 + len l2 -> slice l i j = Ok l2.
Proof.
  intros -> -> ->. rewrite slice_Ok; [|lia | rewrite !length_app; lia].
  f_equal. rewrite Nat2Z.id, drop_app_length. replace (Z.to_nat _) with (length l2) by lia. by rewrite take_app_length.
Qed.

Section laws.
Context {PubKey PrvKey : Type} `{!CryptoPrims PubKey PrvKey} `{!CryptoLaws PubKey PrvKey}.

(** The encrypted packet: header, encrypted sequence number, sealed payload. *)
Definition sealed_bytes (sn epoch : Z) (isSender : bool) (secret hdr d : bytes) : bytes :=
  seal secret (nonce_bytes epoch sn isSender) d hdr.
Definition sn_bytes (sn : Z) (secret sealed : bytes) : bytes :=
  take 6 (xseal secret (take 24 sealed) (le_bytes 6 sn)).
Definition packet_bytes (sn epoch : Z) (isSender : bool) (secret hdr d : bytes) : bytes :=
  let sealed := sealed_bytes sn epoch isSender secret hdr d in hdr ++ sn_bytes sn secret sealed ++ sealed.

Lemma sealed_length sn epoch isSender secret hdr d : len (sealed_bytes sn epoch isSender secret hdr d) = len d + 16.
Proof. apply seal_length. Qed.

Lemma sn_bytes_length sn secret sealed : length (sn_bytes sn secret sealed) = 6%nat.
Proof.
  unfold sn_bytes. rewrite length_take_le; [done|]. pose proof (xseal_length secret (take 24 sealed) (le_bytes 6 sn)) as H.
  rewrite length_le_bytes in H. unfold MacSize in H. lia.
Qed.

Lemma packet_length sn epoch isSender secret hdr d :
  len (packet_bytes sn epoch isSender secret hdr d) = len hdr + FooterDataSize + len d.
Proof.
  unfold packet_bytes. rewrite !length_app, sn_bytes_length. pose proof (sealed_length sn epoch isSender secret hdr d).
  unfold FooterDataSize, SnSize, MacSize. lia.
Qed.

Lemma chainedEncrypt_spec sn epoch isSender secret hdr d :
  len secret = 32 -> 8 <= len d ->
  chainedEncrypt sn epoch isSender secret hdr d = Ok (inr (packet_bytes sn epoch isSender secret hdr d)).
Proof.
  intros Hk Hd. unfold chainedEncrypt. rewrite nonce_det_spec. cbn [mbind go_bind]. rewrite aead_new_ok by done.
  fold (sealed_bytes sn epoch isSender secret hdr d). set (sealed := sealed_bytes _ _ _ _ _ _).
  pose proof (sealed_length sn epoch isSender secret hdr d) as Hs. fold sealed in Hs.
  unfold make_bytes. set (buf := replicate _ 0).
  assert (length buf = (length hdr + 6 + length sealed)%nat) as Hb
    by (unfold buf; rewrite length_replicate; unfold SnSize; lia).
  assert (copy_at buf 0 hdr = Ok (hdr ++ drop (length hdr) buf)) as -> by (apply (copy_at_app [] buf); [done | lia]).
  cbn [mbind go_bind].
  rewrite (slice_mid [] (take 24 sealed) (drop 24 sealed) sealed);
    [|by rewrite app_nil_l, take_drop | done | rewrite length_take_le by lia; done]. cbn [mbind go_bind].
  rewrite (slice_mid (take 6 (nonce_bytes epoch sn isSender)) (le_bytes 6 sn) [] (nonce_bytes epoch sn isSender));
    [|by rewrite app_nil_r | done | done]. cbn [mbind go_bind].
  pose proof (xseal_length secret (take 24 sealed) (le_bytes 6 sn)) as Hx. rewrite length_le_bytes in Hx. unfold MacSize in Hx.
  rewrite slice_to_Ok by (unfold SnSize; lia). cbn [mbind go_bind]. change (Z.to_nat SnSize) with 6%nat. fold (sn_bytes sn secret sealed).
  pose proof (sn_bytes_length sn secret sealed) as Hsn.
  rewrite (copy_at_app hdr (drop (length hdr) buf)) by (done || rewrite length_drop; lia). cbn [mbind go_bind].
  rewrite app_assoc. rewrite copy_at_app by (rewrite ?length_app, ?length_drop; unfold SnSize; lia). cbn [mbind go_bind].
  do 2 f_equal. unfold packet_bytes. fold sealed. rewrite <- app_assoc. do 2 f_equal.
  rewrite drop_ge; [by rewrite app_nil_r|]. rewrite !length_drop. lia.
Qed.

(** ** Decryption inverts encryption *)

Lemma try_epochs_spec epochs e sn isSender secret hdr d err :
  len secret = 32 -> e ∈ epochs ->
  (forall x, x ∈ epochs -> x = e \/ nonce_bytes x sn isSender <> nonce_bytes e sn isSender) ->
  try_epochs epochs (negb isSender) sn secret hdr (sealed_bytes sn e isSender secret hdr d) err = Ok (inr (e, d)).
Proof.
  intros Hk Hin Hdist. revert err. induction epochs as [|x epochs IH]; intros err; [by apply not_elem_of_nil in Hin|].
  cbn [try_epochs]. rewrite negb_involutive, nonce_det_spec. cbn [mbind go_bind].
  destruct (decide (x = e)) as [->|Hne].
  - unfold sealed_bytes. by rewrite open_seal by (done || apply nonce_bytes_length).
  - destruct (Hdist x) as [?|Hn]; [left | done|].
    destruct (open_other_nonce secret (nonce_bytes e sn isSender) (nonce_bytes x sn isSender) d hdr) as [err' E];
      [done | apply nonce_bytes_length | apply nonce_bytes_length | done|].
    unfold sealed_bytes. rewrite E. fold (sealed_bytes sn e isSender secret hdr d). apply IH.
    + apply elem_of_cons in Hin as [->|?]; done.
    + intros y Hy. apply Hdist. by right.
Qed.

(** The epochs a receiver tries. *)
Definition epoch_window (epochCrypt e : Z) : Prop := Z.abs (e - epochCrypt) <= 1.

Lemma window_distinct sn isSender er e x :
  is_u48 sn -> is_u48 e -> is_u48 x -> epoch_window er e -> epoch_window er x ->
  x = e \/ nonce_bytes x sn isSender <> nonce_bytes e sn isSender.
Proof.
  intros Hsn He Hx Hwe Hwx. destruct (decide (x = e)) as [->|Hne]; [by left | right]. intros E.
  apply nonce_bytes_inj in E as (_ & _ & E & _); [|done..]. unfold epoch_window in *.
  apply Hne. Z.div_mod_to_equations. lia.
Qed.

Lemma chainedDecrypt_spec sn e er isSender secret hdr d rest :
  len secret = 32 -> 8 <= len d -> is_u48 sn -> is_u48 e -> 0 <= er -> er + 1 < 2 ^ 48 -> epoch_window er e ->
  let sealed := sealed_bytes sn e isSender secret hdr d in
  chainedDecrypt (negb isSender) er secret hdr (sn_bytes sn secret sealed ++ sealed) rest = Ok (inr (sn, e, d)).
Proof.
  intros Hk Hd Hsn He Her0 Her Hw sealed. unfold chainedDecrypt.
  pose proof (sn_bytes_length sn secret sealed) as Hsl. pose proof (sealed_length sn e isSender secret hdr d) as Hs. fold sealed in Hs.
  rewrite (slice_mid [] (sn_bytes sn secret sealed) sealed) by (done || rewrite Hsl; done). cbn [mbind go_bind].
  rewrite slice_from_app by (rewrite Hsl; done). cbn [mbind go_bind].
  rewrite slice_to_Ok by (rewrite length_app; lia). cbn [mbind go_bind].
  rewrite take_app_le by lia. change (Z.to_nat 24) with 24%nat. unfold openNoVerify, sn_bytes.
  assert (xor_stream secret (take 24 sealed) (take 6 (xseal secret (take 24 sealed) (le_bytes 6 sn)))
    = inr (le_bytes 6 sn)) as -> by (apply (xor_xseal secret _ (le_bytes 6 sn)); [done | rewrite length_take_le; lia]).
  rewrite <- (app_nil_r (le_bytes 6 sn)), Uint48_le. cbn [mbind go_bind].
  rewrite Z.mod_small by done. rewrite aead_new_ok by done. unfold sealed.
  rewrite (try_epochs_spec _ e); [done | done | |].
  - unfold epoch_window in Hw. rewrite !elem_of_app, !list_elem_of_singleton.
    assert (u64 (er + 1) = er + 1) as -> by (widths; apply Z.mod_small; lia).
    destruct (decide (e = er)); [tauto|]. destruct (decide (e = er + 1)); [tauto|]. right. left.
    rewrite decide_True by (widths; lia). apply list_elem_of_singleton. lia.
  - intros x Hx. apply (window_distinct sn isSender er); try done.
    + assert (u64 (er + 1) = er + 1) as Eu by (widths; apply Z.mod_small; lia).
      rewrite !elem_of_app, !list_elem_of_singleton, Eu in Hx. destruct Hx as [->|[Hx| ->]]; [widths; lia| |widths; lia].
      case_decide; [|by apply not_elem_of_nil in Hx]. apply list_elem_of_singleton in Hx as ->. widths. lia.
    + assert (u64 (er + 1) = er + 1) as Eu by (widths; apply Z.mod_small; lia). unfold epoch_window.
      rewrite !elem_of_app, !list_elem_of_singleton, Eu in Hx. destruct Hx as [->|[Hx| ->]]; [lia| |lia].
      case_decide; [|by apply not_elem_of_nil in Hx]. apply list_elem_of_singleton in Hx as ->. lia.
Qed.

Lemma decrypt_tail_spec sn e er isSender secret hdr d rest n :
  len secret = 32 -> 8 <= len d -> is_u48 sn -> is_u48 e -> 0 <= er -> er + 1 < 2 ^ 48 -> epoch_window er e -> n = len hdr ->
  decrypt_tail (negb isSender) er secret (packet_bytes sn e isSender secret hdr d) rest n = Ok (inr (mkMessage sn e d)).
Proof.
  intros Hk Hd Hsn He H0 H1 Hw ->. unfold decrypt_tail, packet_bytes.
  set (sealed := sealed_bytes _ _ _ _ _ _).
  rewrite (slice_mid [] hdr (sn_bytes sn secret sealed ++ sealed)) by done. cbn [mbind go_bind].
  rewrite slice_from_app by done. cbn [mbind go_bind]. unfold sealed.
  by rewrite (chainedDecrypt_spec sn e er isSender secret hdr d rest).
Qed.

(** Whatever epochs are tried, a packet that opens yields what was sealed. *)
Lemma try_epochs_sound epochs e sn isSender secret hdr d err x d' :
  len secret = 32 ->
  try_epochs epochs (negb isSender) sn secret hdr (sealed_bytes sn e isSender secret hdr d) err = Ok (inr (x, d')) -> d' = d.
Proof.
  intros Hk. revert err. induction epochs as [|y epochs IH]; intros err; [done|].
  cbn [try_epochs]. rewrite negb_involutive, nonce_det_spec. cbn [mbind go_bind]. unfold sealed_bytes at 1.
  destruct (decide (nonce_bytes y sn isSender = nonce_bytes e sn isSender)) as [->|Hne].
  - rewrite open_seal by (done || apply nonce_bytes_length). by intros [= _ <-].
  - destruct (open_other_nonce secret (nonce_bytes e sn isSender) (nonce_bytes y sn isSender) d hdr) as [err' ->];
      [done | apply nonce_bytes_length | apply nonce_bytes_length | congruence | apply IH].
Qed.

Lemma decrypt_tail_sound sn e er isSender secret hdr d rest n msg :
  len secret = 32 -> 8 <= len d -> is_u48 sn -> n = len hdr ->
  decrypt_tail (negb isSender) er secret (packet_bytes sn e isSender secret hdr d) rest n = Ok (inr msg) -> PayloadRaw msg = d.
Proof.
  intros Hk Hd Hsn ->. unfold decrypt_tail, packet_bytes. set (sealed := sealed_bytes _ _ _ _ _ _).
  pose proof (sn_bytes_length sn secret sealed) as Hsl. pose proof (sealed_length sn e isSender secret hdr d) as Hs. fold sealed in Hs.
  rewrite (slice_mid [] hdr (sn_bytes sn secret sealed ++ sealed)) by done. cbn [mbind go_bind].
  rewrite slice_from_app by done. cbn [mbind go_bind]. unfold chainedDecrypt.
  rewrite (slice_mid [] (sn_bytes sn secret sealed) sealed) by (done || rewrite Hsl; done). cbn [mbind go_bind].
  rewrite slice_from_app by (rewrite Hsl; done). cbn [mbind go_bind].
  rewrite slice_to_Ok by (rewrite length_app; lia). cbn [mbind go_bind].
  rewrite take_app_le by lia. change (Z.to_nat 24) with 24%nat. unfold openNoVerify, sn_bytes.
  assert (xor_stream secret (take 24 sealed) (take 6 (xseal secret (take 24 sealed) (le_bytes 6 sn)))
    = inr (le_bytes 6 sn)) as -> by (apply (xor_xseal secret _ (le_bytes 6 sn)); [done | rewrite length_take_le; lia]).
  rewrite <- (app_nil_r (le_bytes 6 sn)), Uint48_le. cbn [mbind go_bind].
  rewrite Z.mod_small by done. rewrite aead_new_ok by done. unfold sealed.
  destruct (try_epochs _ _ _ _ _ _ _) as [[err|[x d']]| |] eqn:E; cbn; try done.
  apply try_epochs_sound in E as ->; [|done]. by intros [= <-].
Qed.

(** *** Headers *)


(** The header byte and the connection id. *)
Definition conn_header (t : CryptoMsgType) (connId : Z) : bytes := msg_header t :: le_bytes 8 connId.

Lemma conn_header_length t connId : len (conn_header t connId) = HeaderSize + ConnIdSize.
Proof. unfold conn_header. cbn [length]. by rewrite length_le_bytes. Qed.

Lemma set_first n t : 0 < n -> set_at (make_bytes n) 0 (msg_header t) = Ok (msg_header t :: make_bytes (n - 1)).
Proof.
  intros Hn. unfold make_bytes. assert (Z.to_nat n = S (Z.to_nat (n - 1))) as -> by lia. done.
Qed.

Lemma write_conn_id t n connId :
  8 <= n -> on_slice (msg_header t :: make_bytes n) HeaderSize (fun b => PutUint64 b connId)
  = Ok (conn_header t connId ++ make_bytes (n - 8), 8).
Proof.
  intros Hn. rewrite (on_slice_app [msg_header t] (make_bytes n) HeaderSize _ (le_bytes 8 connId ++ make_bytes (n - 8)) 8);
    [done | done|]. rewrite PutUint64_spec by (unfold make_bytes; rewrite length_replicate; lia).
  unfold make_bytes. rewrite drop_replicate. do 4 f_equal. lia.
Qed.

Lemma copy_key (l : bytes) n i (k : PubKey) :
  i = len l -> 32 <= n -> copy_at (l ++ make_bytes n) i (pub_bytes k) = Ok ((l ++ pub_bytes k) ++ make_bytes (n - 32)).
Proof.
  intros Hi Hn. pose proof (pub_bytes_length k) as Hk. unfold PubKeySize in Hk.
  rewrite copy_at_app by (done || (unfold make_bytes; rewrite length_replicate; lia)).
  rewrite <- app_assoc. unfold make_bytes. rewrite drop_replicate. do 4 f_equal. lia.
Qed.

Lemma key_at_mid (l1 l2 : bytes) (k : PubKey) l i :
  l = l1 ++ pub_bytes k ++ l2 -> i = len l1 -> key_at l i = Ok (inr k).
Proof.
  intros -> ->. unfold key_at. rewrite (slice_mid l1 (pub_bytes k) l2) by (done || rewrite pub_bytes_length; done).
  cbn [mbind go_bind]. by rewrite new_pub_key_bytes.
Qed.

(** The connection id of a handshake: the first bytes of the ephemeral key. *)
Definition key_conn_id (k : PubKey) : Z := le_value (take 8 (pub_bytes k)).

Lemma key_conn_id_spec (k : PubKey) l : Uint64 (pub_bytes k ++ l) = Ok (key_conn_id k).
Proof.
  pose proof (pub_bytes_length k) as Hk. unfold PubKeySize in Hk. unfold key_conn_id.
  rewrite Uint64_spec; rewrite ?take_app_le by lia; [done | rewrite length_app; lia | apply Forall_take, pub_bytes_u8].
Qed.

(** *** The messages *)

Definition init_rcv_header (connId : Z) (ep id : PubKey) : bytes := (conn_header InitRcv connId ++ pub_bytes ep) ++ pub_bytes id.
Definition init_crypto_snd_header (ep id : PubKey) : bytes := ([msg_header InitCryptoSnd] ++ pub_bytes ep) ++ pub_bytes id.
Definition init_crypto_rcv_header (connId : Z) (ep : PubKey) : bytes := conn_header InitCryptoRcv connId ++ pub_bytes ep.

Lemma make_bytes_0 n : n <= 0 -> make_bytes n = [].
Proof. intros. unfold make_bytes. by replace (Z.to_nat n) with 0%nat by lia. Qed.

Lemma encryptData_spec connId isSender secret sn e d :
  len secret = 32 -> 8 <= len d ->
  encryptData connId isSender (Some secret) sn e d
  = Ok (inr (packet_bytes sn e isSender secret (conn_header Data connId) d)).
Proof.
  intros Hk Hd. unfold encryptData. rewrite set_first by (vm_compute; done). cbn [mbind go_bind].
  rewrite write_conn_id by (vm_compute; discriminate). cbn [mbind go_bind]. rewrite make_bytes_0, app_nil_r by (vm_compute; discriminate).
  by apply chainedEncrypt_spec.
Qed.

Lemma encryptInitRcv_spec connId (id epRcv : PubKey) (prv : PrvKey) secret sn d :
  ecdh prv epRcv = inr secret -> 8 <= len d ->
  encryptInitRcv connId (Some id) (Some epRcv) (Some prv) sn d
  = Ok (inr (packet_bytes sn 0 false secret (init_rcv_header connId (public_key prv) id) d)).
Proof.
  intros Hs Hd. unfold encryptInitRcv. rewrite set_first by (vm_compute; done). cbn [mbind go_bind].
  rewrite write_conn_id by (vm_compute; discriminate). cbn [mbind go_bind].
  rewrite copy_key by (by rewrite ?conn_header_length; vm_compute). cbn [mbind go_bind].
  pose proof (pub_bytes_length (public_key prv)) as Hp.
  rewrite copy_key; [|rewrite length_app, Nat2Z.inj_add, conn_header_length, Hp; done | vm_compute; discriminate].
  cbn [mbind go_bind]. rewrite make_bytes_0, app_nil_r by (vm_compute; discriminate). rewrite Hs.
  apply chainedEncrypt_spec; [by eapply ecdh_length | done].
Qed.

Lemma encryptInitCryptoRcv_spec connId (epRcv : PubKey) (prv : PrvKey) secret sn d :
  ecdh prv epRcv = inr secret -> 8 <= len d ->
  encryptInitCryptoRcv connId (Some epRcv) (Some prv) sn d
  = Ok (inr (packet_bytes sn 0 false secret (init_crypto_rcv_header connId (public_key prv)) d)).
Proof.
  intros Hs Hd. unfold encryptInitCryptoRcv. rewrite set_first by (vm_compute; done). cbn [mbind go_bind].
  rewrite write_conn_id by (vm_compute; discriminate). cbn [mbind go_bind].
  rewrite copy_key by (by rewrite ?conn_header_length; vm_compute). cbn [mbind go_bind].
  rewrite make_bytes_0, app_nil_r by (vm_compute; discriminate). rewrite Hs.
  apply chainedEncrypt_spec; [by eapply ecdh_length | done].
Qed.

(** The first message is padded to the MTU. *)
Definition padded (fillLen : Z) (d : bytes) : bytes := le_bytes 2 fillLen ++ make_bytes fillLen ++ d.

Definition fill_len (mtu : Z) (d : bytes) : Z :=
  mtu - (MinInitCryptoSndSizeHdr + FooterDataSize + MsgInitFillLenSize + len d).

Lemma padded_length fillLen d : 0 <= fillLen -> len (padded fillLen d) = 2 + fillLen + len d.
Proof. intros. unfold padded, make_bytes. rewrite !length_app, length_le_bytes, length_replicate. lia. Qed.

Lemma encryptInitCryptoSnd_spec (idRcv id : PubKey) (prv : PrvKey) secret sn mtu d :
  ecdh prv idRcv = inr secret -> 8 <= len d -> 0 <= fill_len mtu d < 2 ^ 16 ->
  encryptInitCryptoSnd (Some idRcv) (Some id) (Some prv) sn mtu d
  = Ok (inr (key_conn_id (public_key prv),
             packet_bytes sn 0 true secret (init_crypto_snd_header (public_key prv) id) (padded (fill_len mtu d) d))).
Proof.
  intros Hs Hd Hf. unfold encryptInitCryptoSnd. rewrite set_first by (vm_compute; done). cbn [mbind go_bind].
  pose proof (pub_bytes_length (public_key prv)) as Hp.
  assert (forall n, msg_header InitCryptoSnd :: make_bytes n = [msg_header InitCryptoSnd] ++ make_bytes n) as E by done. rewrite E.
  rewrite copy_key by (by vm_compute). cbn [mbind go_bind].
  rewrite copy_key; [|rewrite length_app, Nat2Z.inj_add, Hp; done | vm_compute; discriminate]. cbn [mbind go_bind].
  rewrite make_bytes_0, app_nil_r by (vm_compute; discriminate).
  fold (init_crypto_snd_header (public_key prv) id) (fill_len mtu d). set (fl := fill_len mtu d) in *.
  rewrite decide_False by lia. rewrite PutUint16_spec by (unfold make_bytes, MsgInitFillLenSize; rewrite length_replicate; lia).
  cbn [mbind go_bind]. assert (u16 fl = fl) as -> by (apply Z.mod_small; done).
  assert (copy_at (le_bytes 2 fl ++ drop 2 (make_bytes (len d + MsgInitFillLenSize + fl))) (2 + fl) d = Ok (padded fl d)) as ->.
  { assert (le_bytes 2 fl ++ drop 2 (make_bytes (len d + MsgInitFillLenSize + fl))
      = (le_bytes 2 fl ++ make_bytes fl) ++ make_bytes (len d)) as ->.
    { rewrite <- app_assoc. f_equal. unfold make_bytes, MsgInitFillLenSize. rewrite drop_replicate, <- replicate_add. f_equal. lia. }
    rewrite copy_at_app; [|rewrite length_app, length_le_bytes; unfold make_bytes; rewrite length_replicate; lia
      | unfold make_bytes; rewrite length_replicate; lia].
    unfold padded. rewrite <- app_assoc. do 3 f_equal. rewrite drop_ge, app_nil_r; [done|].
    unfold make_bytes. rewrite length_replicate. lia. }
  cbn [mbind go_bind]. rewrite Hs. rewrite chainedEncrypt_spec;
    [|by eapply ecdh_length | rewrite padded_length; lia].
  cbn [mbind go_bind]. unfold init_crypto_snd_header. rewrite <- app_assoc.
  rewrite slice_from_app by done. cbn [mbind go_bind]. rewrite key_conn_id_spec. done.
Qed.
(** The lengths of the headers. *)
Lemma init_rcv_header_length connId (ep id : PubKey) : len (init_rcv_header connId ep id) = MinInitRcvSizeHdr.
Proof. unfold init_rcv_header. rewrite !length_app, !Nat2Z.inj_add, conn_header_length, !pub_bytes_length. done. Qed.

Lemma init_crypto_snd_header_length (ep id : PubKey) : len (init_crypto_snd_header ep id) = MinInitCryptoSndSizeHdr.
Proof. unfold init_crypto_snd_header. rewrite !length_app, !Nat2Z.inj_add, !pub_bytes_length. done. Qed.

Lemma init_crypto_rcv_header_length connId (ep : PubKey) : len (init_crypto_rcv_header connId ep) = MinInitCryptoRcvSizeHdr.
Proof. unfold init_crypto_rcv_header. rewrite !length_app, !Nat2Z.inj_add, conn_header_length, pub_bytes_length. done. Qed.

(** The unencrypted first message: type, the two keys, and zeros up to the MTU. *)
Definition init_snd_bytes (ep id : PubKey) (mtu : Z) : bytes :=
  (([msg_header InitSnd] ++ pub_bytes ep) ++ pub_bytes id) ++ make_bytes (mtu - 65).

Lemma init_snd_bytes_length (ep id : PubKey) mtu : MinInitCryptoSndSizeHdr <= mtu -> len (init_snd_bytes ep id mtu) = mtu.
Proof.
  intros Hm. pose proof (pub_bytes_length ep). pose proof (pub_bytes_length id).
  unfold init_snd_bytes, make_bytes, MinInitCryptoSndSizeHdr, HeaderSize, PubKeySize in *.
  rewrite !length_app, length_replicate. simpl. lia.
Qed.

Lemma encryptInitSnd_spec (ep id : PubKey) mtu :
  MinInitCryptoSndSizeHdr <= mtu ->
  encryptInitSnd (Some id) (Some ep) mtu = Ok (key_conn_id ep, init_snd_bytes ep id mtu).
Proof.
  intros Hm. pose proof (pub_bytes_length ep) as He. unfold MinInitCryptoSndSizeHdr, HeaderSize, PubKeySize in *.
  unfold encryptInitSnd. rewrite set_first by lia. cbn [mbind go_bind].
  assert (forall n, msg_header InitSnd :: make_bytes n = [msg_header InitSnd] ++ make_bytes n) as E by done. rewrite E.
  rewrite copy_key by (done || lia). cbn [mbind go_bind].
  rewrite copy_key by (rewrite ?length_app, ?Nat2Z.inj_add, ?He; (done || lia)). cbn [mbind go_bind].
  replace (mtu - 1 - 32 - 32) with (mtu - 65) by lia. fold (init_snd_bytes ep id mtu).
  assert (slice_from (init_snd_bytes ep id mtu) HeaderSize = Ok (pub_bytes ep ++ pub_bytes id ++ make_bytes (mtu - 65))) as ->.
  { unfold init_snd_bytes. rewrite <- !app_assoc. by apply slice_from_app. }
  cbn [mbind go_bind]. by rewrite key_conn_id_spec.
Qed.

Lemma decryptInitSnd_spec (ep id : PubKey) mtu :
  MinInitCryptoSndSizeHdr <= mtu -> decryptInitSnd (init_snd_bytes ep id mtu) mtu = Ok (inr (id, ep)).
Proof.
  intros Hm. pose proof (pub_bytes_length ep) as He. pose proof (init_snd_bytes_length ep id mtu Hm) as Hl.
  unfold decryptInitSnd. rewrite decide_False by lia.
  assert (init_snd_bytes ep id mtu = [msg_header InitSnd] ++ pub_bytes ep ++ pub_bytes id ++ make_bytes (mtu - 65)) as Eb
    by (unfold init_snd_bytes; by rewrite <- !app_assoc).
  rewrite (key_at_mid [msg_header InitSnd] (pub_bytes id ++ make_bytes (mtu - 65)) ep _ HeaderSize); [|exact Eb | done].
  cbn [mbind go_bind].
  rewrite (key_at_mid ([msg_header InitSnd] ++ pub_bytes ep) (make_bytes (mtu - 65)) id);
    [done | by rewrite Eb, <- app_assoc | rewrite length_app, Nat2Z.inj_add, He; done].
Qed.

(** Reading back the encrypted messages. *)
Lemma decryptInitRcv_spec connId (id ep : PubKey) (prv : PrvKey) secret sn d rest :
  ecdh prv ep = inr secret -> len secret = 32 -> 8 <= len d -> is_u48 sn ->
  decryptInitRcv (packet_bytes sn 0 false secret (init_rcv_header connId ep id) d) rest prv
  = Ok (inr (secret, id, ep, mkMessage sn 0 d)).
Proof.
  intros Hs Hk Hd Hsn. unfold decryptInitRcv. pose proof (init_rcv_header_length connId ep id) as Hh.
  pose proof (pub_bytes_length ep) as He. rewrite decide_False by (rewrite packet_length; lia).
  unfold packet_bytes. set (sealed := sealed_bytes _ _ _ _ _ _). set (tl := sn_bytes sn secret sealed ++ sealed).
  rewrite (key_at_mid (conn_header InitRcv connId) (pub_bytes id ++ tl) ep _ (HeaderSize + ConnIdSize));
    [|unfold init_rcv_header; by rewrite <- !app_assoc | by rewrite conn_header_length]. cbn [mbind go_bind].
  rewrite (key_at_mid (conn_header InitRcv connId ++ pub_bytes ep) tl id);
    [|unfold init_rcv_header; by rewrite <- !app_assoc
     |rewrite length_app, Nat2Z.inj_add, conn_header_length, He; done]. cbn [mbind go_bind].
  rewrite Hs. unfold tl, sealed. fold (packet_bytes sn 0 false secret (init_rcv_header connId ep id) d).
  by rewrite (decrypt_tail_spec sn 0 0 false).
Qed.

Lemma decryptInitCryptoSnd_spec (id ep : PubKey) (prv : PrvKey) secret sn mtu d rest :
  ecdh prv ep = inr secret -> len secret = 32 -> 8 <= len d -> 0 <= fill_len mtu d < 2 ^ 16 -> is_u48 sn ->
  decryptInitCryptoSnd (packet_bytes sn 0 true secret (init_crypto_snd_header ep id) (padded (fill_len mtu d) d)) rest prv mtu
  = Ok (inr (id, ep, mkMessage sn 0 d)).
Proof.
  intros Hs Hk Hd Hf Hsn. pose proof (init_crypto_snd_header_length ep id) as Hh. pose proof (pub_bytes_length ep) as He.
  unfold decryptInitCryptoSnd. rewrite decide_False
    by (rewrite packet_length, Hh, padded_length; unfold fill_len, MsgInitFillLenSize in *; lia).
  unfold packet_bytes. set (sealed := sealed_bytes _ _ _ _ _ _). set (tl := sn_bytes sn secret sealed ++ sealed).
  rewrite (key_at_mid [msg_header InitCryptoSnd] (pub_bytes id ++ tl) ep _ HeaderSize);
    [|unfold init_crypto_snd_header; by rewrite <- !app_assoc | done]. cbn [mbind go_bind].
  rewrite (key_at_mid ([msg_header InitCryptoSnd] ++ pub_bytes ep) tl id);
    [|unfold init_crypto_snd_header; by rewrite <- !app_assoc|rewrite length_app, Nat2Z.inj_add, He; done].
  cbn [mbind go_bind]. rewrite Hs. unfold tl, sealed.
  fold (packet_bytes sn 0 true secret (init_crypto_snd_header ep id) (padded (fill_len mtu d) d)).
  rewrite (decrypt_tail_spec sn 0 0 true); try done; [|rewrite padded_length; lia]. cbn [mbind go_bind PayloadRaw].
  assert (Uint16 (padded (fill_len mtu d) d) = Ok (fill_len mtu d)) as ->
    by (unfold padded; rewrite Uint16_le, Z.mod_small; done).
  cbn [mbind go_bind]. assert (slice_from (padded (fill_len mtu d) d) (2 + fill_len mtu d) = Ok d) as ->; [|done].
  unfold padded. rewrite app_assoc. apply slice_from_app.
  rewrite length_app, length_le_bytes. unfold make_bytes. rewrite length_replicate. lia.
Qed.

Lemma decryptInitCryptoRcv_spec connId (ep : PubKey) (prv : PrvKey) secret sn d rest :
  ecdh prv ep = inr secret -> len secret = 32 -> 8 <= len d -> is_u48 sn ->
  decryptInitCryptoRcv (packet_bytes sn 0 false secret (init_crypto_rcv_header connId ep) d) rest prv
  = Ok (inr (secret, ep, mkMessage sn 0 d)).
Proof.
  intros Hs Hk Hd Hsn. pose proof (init_crypto_rcv_header_length connId ep) as Hh.
  unfold decryptInitCryptoRcv. rewrite decide_False by (rewrite packet_length; lia).
  unfold packet_bytes. set (sealed := sealed_bytes _ _ _ _ _ _). set (tl := sn_bytes sn secret sealed ++ sealed).
  rewrite (key_at_mid (conn_header InitCryptoRcv connId) tl ep);
    [|unfold init_crypto_rcv_header; by rewrite <- !app_assoc | by rewrite conn_header_length]. cbn [mbind go_bind].
  rewrite Hs. unfold tl, sealed. fold (packet_bytes sn 0 false secret (init_crypto_rcv_header connId ep) d).
  by rewrite (decrypt_tail_spec sn 0 0 false).
Qed.

Lemma decryptData_spec connId isSender e er secret sn d rest :
  len secret = 32 -> 8 <= len d -> is_u48 sn -> is_u48 e -> 0 <= er -> er + 1 < 2 ^ 48 -> epoch_window er e ->
  decryptData (packet_bytes sn e isSender secret (conn_header Data connId) d) rest (negb isSender) er secret
  = Ok (inr (mkMessage sn e d)).
Proof.
  intros Hk Hd Hsn He H0 H1 Hw. unfold decryptData.
  rewrite decide_False by (rewrite packet_length, conn_header_length; unfold MinDataSizeHdr; lia).
  by apply decrypt_tail_spec.
Qed.

(** *** Arbitrary input

    With enough capacity behind the datagram decryption returns on any bytes. *)

Lemma Uint48_returns (b : bytes) : 6 <= len b -> exists v, Uint48 b = Ok v.
Proof.
  intros Hb. do 6 (destruct b as [|? b]; [simpl in Hb; lia|]). eexists. unfold Uint48. by cbn -[Z.lor Z.shiftl u64].
Qed.

Lemma try_epochs_returns epochs isSender sn secret hdr enc err :
  exists r, try_epochs epochs isSender sn secret hdr enc err = Ok r.
Proof.
  revert err. induction epochs as [|e epochs IH]; intros err; [by eexists|]. cbn [try_epochs].
  rewrite nonce_det_spec. cbn [mbind go_bind]. destruct (open _ _ _ _); [apply IH | by eexists].
Qed.

Lemma chainedDecrypt_returns isSender epoch secret hdr enc rest :
  6 <= len enc -> 30 <= len enc + len rest ->
  exists r, chainedDecrypt isSender epoch secret hdr enc rest = Ok r.
Proof.
  intros H6 H30. unfold chainedDecrypt. rewrite slice_Ok by (unfold SnSize; lia). cbn [mbind go_bind].
  rewrite slice_from_Ok by (unfold SnSize; lia). cbn [mbind go_bind].
  rewrite slice_to_Ok by (rewrite length_app, length_drop; unfold SnSize; lia). cbn [mbind go_bind].
  set (encSn := take (Z.to_nat (SnSize - 0)) _). assert (len encSn = 6) as Hl.
  { unfold encSn, SnSize. rewrite length_take, length_drop. lia. }
  unfold openNoVerify. destruct (xor_stream _ _ encSn) as [e|b] eqn:E; [by eexists|].
  apply xor_stream_length in E. destruct (Uint48_returns b) as [sn ->]; [lia|]. cbn [mbind go_bind].
  destruct (aead_new secret); [by eexists|]. 
  match goal with |- context [try_epochs ?a ?b ?c ?d ?e ?f ?g] => destruct (try_epochs_returns a b c d e f g) as [r ->] end.
  by eexists.
Qed.

Lemma decryptData_sound connId isSender e er secret sn d rest msg :
  len secret = 32 -> 8 <= len d -> is_u48 sn ->
  decryptData (packet_bytes sn e isSender secret (conn_header Data connId) d) rest (negb isSender) er secret = Ok (inr msg) ->
  PayloadRaw msg = d.
Proof.
  intros Hk Hd Hsn. unfold decryptData.
  rewrite decide_False by (rewrite packet_length, conn_header_length; unfold MinDataSizeHdr; lia). by apply decrypt_tail_sound.
Qed.

Lemma decrypt_tail_returns isSender epoch secret enc rest n :
  0 <= n -> n + 6 <= len enc -> n + 30 <= len enc + len rest ->
  exists r, decrypt_tail isSender epoch secret enc rest n = Ok r.
Proof.
  intros H0 H6 H30. unfold decrypt_tail. rewrite slice_Ok by lia. cbn [mbind go_bind].
  rewrite slice_from_Ok by lia. cbn [mbind go_bind].
  match goal with |- context [chainedDecrypt ?a ?b ?c ?d ?e ?f] =>
    destruct (chainedDecrypt_returns a b c d e f) as [r ->]; [rewrite length_drop; lia..|] end.
  by eexists.
Qed.

Lemma key_at_returns enc i : 0 <= i -> i + 32 <= len enc -> exists r, key_at enc i = Ok r.
Proof. intros H0 Hl. unfold key_at. rewrite slice_Ok by (unfold PubKeySize; lia). by eexists. Qed.

Lemma decryptInitSnd_returns enc mtu : 65 <= mtu -> exists r, decryptInitSnd enc mtu = Ok r.
Proof.
  intros Hm. unfold decryptInitSnd. case_decide; [by eexists|].
  destruct (key_at_returns enc HeaderSize) as [[e|ep] ->]; [done | unfold HeaderSize; lia | by eexists |]. cbn [mbind go_bind].
  destruct (key_at_returns enc (HeaderSize + PubKeySize)) as [[e|id] ->];
    [done | unfold HeaderSize, PubKeySize; lia | by eexists | by eexists].
Qed.

Lemma decryptInitRcv_returns enc rest prv :
  MinInitRcvSizeHdr + 30 <= len enc + len rest -> exists r, decryptInitRcv enc rest prv = Ok r.
Proof.
  change MinInitRcvSizeHdr with 73. intros Hr. unfold decryptInitRcv. case_decide as Hl; [by eexists|].
  change (MinInitRcvSizeHdr + FooterDataSize) with 95 in Hl.
  destruct (key_at_returns enc (HeaderSize + ConnIdSize)) as [[e|ep] ->]; [done | change (HeaderSize + ConnIdSize) with 9; lia | by eexists |].
  cbn [mbind go_bind].
  destruct (key_at_returns enc (HeaderSize + ConnIdSize + PubKeySize)) as [[e|id] ->];
    [done | change (HeaderSize + ConnIdSize + PubKeySize) with 41; lia | by eexists |]. cbn [mbind go_bind].
  destruct (ecdh prv ep) as [e|s]; [by eexists|]. change (HeaderSize + ConnIdSize + 2 * PubKeySize) with 73.
  destruct (decrypt_tail_returns true 0 s enc rest 73) as [r ->]; [lia..|]. by eexists.
Qed.

Lemma decryptInitCryptoRcv_returns enc rest prv :
  MinInitCryptoRcvSizeHdr + 30 <= len enc + len rest -> exists r, decryptInitCryptoRcv enc rest prv = Ok r.
Proof.
  change MinInitCryptoRcvSizeHdr with 41. intros Hr. unfold decryptInitCryptoRcv. case_decide as Hl; [by eexists|].
  change (MinInitCryptoRcvSizeHdr + FooterDataSize) with 63 in Hl.
  destruct (key_at_returns enc (HeaderSize + ConnIdSize)) as [[e|ep] ->]; [done | change (HeaderSize + ConnIdSize) with 9; lia | by eexists |].
  cbn [mbind go_bind]. destruct (ecdh prv ep) as [e|s]; [by eexists|]. change (HeaderSize + ConnIdSize + PubKeySize) with 41.
  destruct (decrypt_tail_returns true 0 s enc rest 41) as [r ->]; [lia..|]. by eexists.
Qed.

Lemma decryptData_returns enc rest isSender epoch secret :
  MinDataSizeHdr + 30 <= len enc + len rest -> exists r, decryptData enc rest isSender epoch secret = Ok r.
Proof.
  change MinDataSizeHdr with 9. intros Hr. unfold decryptData. case_decide as Hl; [by eexists|].
  change (MinDataSizeHdr + FooterDataSize) with 31 in Hl. change (HeaderSize + ConnIdSize) with 9.
  apply decrypt_tail_returns; lia.
Qed.
End laws.

(** ** Properties *)

(** C33. Nonces repeat only with the epoch bit that the direction bit replaces:
    two packets of a connection use the same nonce if and only if they go in the
    same direction, have the same sequence number, and epochs that agree except
    for bit 7.  In particular, within 128 epochs no nonce repeats, and the two
    directions never share one. *)
Theorem nonce_reuse (e1 s1 e2 s2 : Z) (b1 b2 : bool) :
  is_u48 e1 -> is_u48 e2 -> is_u48 s1 -> is_u48 s2 ->
  (nonce_det e1 s1 b1 = nonce_det e2 s2 b2 <->
     b1 = b2 /\ s1 = s2 /\ e1 mod 128 = e2 mod 128 /\ e1 / 256 = e2 / 256) /\
  (e1 < 128 -> e2 < 128 -> nonce_det e1 s1 b1 = nonce_det e2 s2 b2 -> e1 = e2 /\ s1 = s2 /\ b1 = b2).
Proof.
  intros H1 H2 H3 H4. rewrite !nonce_det_spec.
  assert (Ok (nonce_bytes e1 s1 b1) = Ok (nonce_bytes e2 s2 b2) <-> nonce_bytes e1 s1 b1 = nonce_bytes e2 s2 b2)
    as -> by (split; congruence).
  rewrite nonce_bytes_inj by done. split; [done|]. intros L1 L2 (-> & -> & E & _). split_and!; try done.
  widths. rewrite !Z.mod_small in E; lia.
Qed.

Lemma nonce_reuse_witness : nonce_det 3 7 true <> nonce_det 4 7 true.
Proof.
  intros E. destruct (nonce_reuse 3 7 4 7 true true) as [_ H]; [by widths..|].
  destruct H as [H _]; [lia | lia | exact E | discriminate].
Defined.

Section properties.
Context {PubKey PrvKey : Type} `{!CryptoPrims PubKey PrvKey} `{!CryptoLaws PubKey PrvKey}.

(** C32. Data packets: for a 32-byte secret and a payload of at least 8 bytes,
    encryption succeeds, the packet is longer than the payload by exactly header
    and footer, and the other end, at the same epoch or one off, recovers the
    sequence number, the epoch of the sender and the payload. *)
Theorem data_packet_roundtrip (connId sn e er : Z) (isSender : bool) (secret d rest : bytes) :
  len secret = 32 -> 8 <= len d -> is_u48 sn -> is_u48 e -> 0 <= er -> er + 1 < 2 ^ 48 -> epoch_window er e ->
  exists b, encryptData connId isSender (Some secret) sn e d = Ok (inr b) /\
    len b = MinDataSizeHdr + FooterDataSize + len d /\
    decryptData b rest (negb isSender) er secret = Ok (inr (mkMessage sn e d)).
Proof.
  intros Hk Hd Hsn He H0 H1 Hw. eexists. split; [by apply encryptData_spec|].
  rewrite packet_length, conn_header_length. split; [done | by apply decryptData_spec].
Qed.

(** The unencrypted handshake: the first message is exactly one MTU long and
    yields the two keys of the initiator and the connection id; the reply
    yields the keys of the responder, the shared secret (the same at both ends),
    and the payload. *)
Theorem handshake_roundtrip (idSnd idRcv : PubKey) (epSnd epRcv : PrvKey) (secret : bytes) (mtu sn connId : Z) (d rest : bytes) :
  MinInitCryptoSndSizeHdr <= mtu -> 8 <= len d -> is_u48 sn -> ecdh epRcv (public_key epSnd) = inr secret ->
  (exists b, encryptInitSnd (Some idSnd) (Some (public_key epSnd)) mtu = Ok (key_conn_id (public_key epSnd), b) /\
     len b = mtu /\ decryptInitSnd b mtu = Ok (inr (idSnd, public_key epSnd))) /\
  (exists b, encryptInitRcv connId (Some idRcv) (Some (public_key epSnd)) (Some epRcv) sn d = Ok (inr b) /\
     len b = MinInitRcvSizeHdr + FooterDataSize + len d /\
     decryptInitRcv b rest epSnd = Ok (inr (secret, idRcv, public_key epRcv, mkMessage sn 0 d))).
Proof.
  intros Hmtu Hd Hsn Hs. split; eexists.
  - split; [by apply encryptInitSnd_spec|]. split; [by apply init_snd_bytes_length | by apply decryptInitSnd_spec].
  - split; [by apply encryptInitRcv_spec|]. rewrite packet_length, init_rcv_header_length. split; [done|].
    apply decryptInitRcv_spec; try done; [by apply ecdh_agree | by eapply ecdh_length].
Qed.

(** The encrypted handshake: the first message is padded to exactly one MTU
    and yields keys, connection id and payload without the padding; the reply
    yields the key of the responder, the shared secret and the payload. *)
Theorem crypto_handshake_roundtrip (idSnd : PubKey) (idRcv epSnd epRcv : PrvKey) (s0 secret : bytes)
    (mtu sn connId : Z) (d rest : bytes) :
  8 <= len d -> 0 <= fill_len mtu d < 2 ^ 16 -> is_u48 sn ->
  ecdh epSnd (public_key idRcv) = inr s0 -> ecdh epRcv (public_key epSnd) = inr secret ->
  (exists b, encryptInitCryptoSnd (Some (public_key idRcv)) (Some idSnd) (Some epSnd) sn mtu d
               = Ok (inr (key_conn_id (public_key epSnd), b)) /\
     len b = mtu /\ decryptInitCryptoSnd b rest idRcv mtu = Ok (inr (idSnd, public_key epSnd, mkMessage sn 0 d))) /\
  (exists b, encryptInitCryptoRcv connId (Some (public_key epSnd)) (Some epRcv) sn d = Ok (inr b) /\
     len b = MinInitCryptoRcvSizeHdr + FooterDataSize + len d /\
     decryptInitCryptoRcv b rest epSnd = Ok (inr (secret, public_key epRcv, mkMessage sn 0 d))).
Proof.
  intros Hd Hf Hsn Hs0 Hs. split; eexists.
  - split; [by apply encryptInitCryptoSnd_spec|].
    rewrite packet_length, init_crypto_snd_header_length, padded_length by lia.
    split; [unfold fill_len, MsgInitFillLenSize; lia|].
    apply decryptInitCryptoSnd_spec; try done; [by apply ecdh_agree | by eapply ecdh_length].
  - split; [by apply encryptInitCryptoRcv_spec|]. rewrite packet_length, init_crypto_rcv_header_length. split; [done|].
    apply decryptInitCryptoRcv_spec; try done; [by apply ecdh_agree | by eapply ecdh_length].
Qed.
End properties.

(** ** An instance of the library's laws *)

(** Two key pairs; the tag of a sealed message is its nonce, and nothing is
    secret.  It shows that the laws can hold together. *)
Definition toy_key (b : bool) : bytes := replicate 32 (if b then 1 else 0).
Definition toy_tag (n : bytes) : bytes := take 16 (n ++ replicate 16 0).

#[export] Instance toy_prims : CryptoPrims bool bool := {
  pub_bytes := toy_key;
  new_pub_key l := if decide (l = toy_key true) then inr true
                   else if decide (l = toy_key false) then inr false else inl "invalid public key"%string;
  public_key b := b;
  ecdh a b := inr (toy_key (xorb a b));
  aead_new k := if decide (len k = 32) then None else Some "bad key length"%string;
  seal k n p ad := p ++ toy_tag n;
  open k n c ad := if decide (drop (length c - 16) c = toy_tag n) then inr (take (length c - 16) c)
                   else inl "message authentication failed"%string;
  xseal k n p := p ++ replicate 16 0;
  xor_stream k n t := inr t;
}.

Lemma toy_tag_length n : length (toy_tag n) = 16%nat.
Proof. unfold toy_tag. rewrite length_take, length_app, length_replicate. lia. Qed.

Lemma toy_tag_inj n n' : len n = 12 -> len n' = 12 -> toy_tag n = toy_tag n' -> n = n'.
Proof.
  unfold toy_tag. intros H1 H2 E. apply (f_equal (take 12)) in E. rewrite !take_take in E.
  change (12 `min` 16)%nat with 12%nat in E. by rewrite !take_app_length' in E by lia.
Qed.

#[export] Instance toy_laws : CryptoLaws bool bool.
Proof.
  constructor; cbn [pub_bytes new_pub_key public_key ecdh aead_new seal open xseal xor_stream toy_prims].
  - by intros [].
  - intros []; compute_done.
  - intros []; vm_compute; done.
  - intros a b s. by rewrite xorb_comm.
  - intros a b s [= <-]. by destruct (xorb a b).
  - intros k Hk. by rewrite decide_True.
  - intros k n p ad. rewrite length_app, toy_tag_length. unfold MacSize. lia.
  - intros k n p ad _ _. rewrite length_app, toy_tag_length. replace (length p + 16 - 16)%nat with (length p) by lia.
    by rewrite drop_app_length, decide_True, take_app_length.
  - intros k n n' p ad _ H1 H2 Hne. rewrite length_app, toy_tag_length. replace (length p + 16 - 16)%nat with (length p) by lia.
    rewrite drop_app_length, decide_False; [eauto|]. intros E. by apply Hne, toy_tag_inj.
  - intros k n p. rewrite length_app, length_replicate. unfold MacSize. lia.
  - by intros k n t r [= ->].
  - intros k n p _ _. by rewrite take_app_length.
Qed.

Lemma data_packet_roundtrip_witness :
  exists b, encryptData 77 true (Some (toy_key true)) 5 1 [1; 2; 3; 4; 5; 6; 7; 8] = Ok (inr b) /\ len b = 39 /\
    decryptData b [] false 2 (toy_key true) = Ok (inr (mkMessage 5 1 [1; 2; 3; 4; 5; 6; 7; 8])).
Proof.
  destruct (data_packet_roundtrip 77 5 1 2 true (toy_key true) [1; 2; 3; 4; 5; 6; 7; 8] []) as (b & E & Hl & Hd);
    [reflexivity | simpl; lia | by widths | by widths | lia | lia | unfold epoch_window; lia|].
  exists b. split; [exact E|]. split; [exact Hl | exact Hd].
Defined.

Lemma handshake_roundtrip_witness :
  exists b, encryptInitRcv 77 (Some true) (Some false) (Some true) 0 [1; 2; 3; 4; 5; 6; 7; 8] = Ok (inr b) /\
    decryptInitRcv b [] false = Ok (inr (toy_key true, true, true, mkMessage 0 0 [1; 2; 3; 4; 5; 6; 7; 8])).
Proof.
  destruct (handshake_roundtrip true true false true (toy_key true) 1400 0 77 [1; 2; 3; 4; 5; 6; 7; 8] [])
    as [_ (b & E & _ & Hd)]; [vm_compute; discriminate | simpl; lia | by widths | reflexivity|].
  exists b. split; [exact E | exact Hd].
Defined.

Lemma crypto_handshake_roundtrip_witness :
  exists b, encryptInitCryptoSnd (Some true) (Some true) (Some false) 0 200 [1; 2; 3; 4; 5; 6; 7; 8] = Ok (inr b) /\
    decryptInitCryptoSnd b.2 [] true 200 = Ok (inr (true, false, mkMessage 0 0 [1; 2; 3; 4; 5; 6; 7; 8])).
Proof.
  destruct (crypto_handshake_roundtrip true true false true (toy_key true) (toy_key true) 200 0 77 [1; 2; 3; 4; 5; 6; 7; 8] [])
    as [(b & E & _ & Hd) _];
    [simpl; lia | vm_compute; split; congruence | by widths | reflexivity | reflexivity|].
  eexists. split; [exact E | exact Hd].
Defined.

(** ** Corner cases of the code *)

(** The direction is stored in bit 7 of the epoch, not above it: epochs 0 and
    128 use the same nonces. *)
Theorem nonce_epoch_collision (sn : Z) (b : bool) : nonce_det 0 sn b = nonce_det 128 sn b.
Proof. rewrite !nonce_det_spec. reflexivity. Qed.

(** The filler length of the first encrypted message is not checked against
    the message: a packet anyone can build for the receiver's public key makes
    the receiver panic. *)
Theorem filler_length_panics :
  match chainedEncrypt 0 0 true (toy_key true) (init_crypto_snd_header (PubKey := bool) false true)
          (le_bytes 2 65535 ++ make_bytes 109) with
  | Ok (inr b) => len b = 198 /\ decryptInitCryptoSnd b [] true 198 = Panic SliceOutOfRange
  | _ => False
  end.
Proof. vm_compute. split; reflexivity. Qed.

(** A reply that passes the minimal length check can be too short for the
    sequence number nonce: without spare capacity behind the packet the decoder
    panics. *)
Theorem short_reply_panics :
  decryptInitRcv (init_rcv_header 77 true true ++ make_bytes 22) [] false = Panic SliceOutOfRange.
Proof. vm_compute. reflexivity. Qed.
