(* ===== verification/Snd.v ===== *)
(** * Snd: the send buffer of src/snd.go

    Per stream: the bytes queued by the application, and the packets in flight
    in the linked map, by packet key (offset and length) in the order they were
    first sent.  The definitions use the linked map through [LinkedMapOps] and
    the theorems through [LinkedMapSpec].

    The in-flight entries are pointers to [SendInfo]; an assignment to a field
    of the first entry is an update of its value under its key.  Slices of the
    queue that become packet data are never written to again, so they are
    values.  The mutex makes each method atomic and is not modelled. *)

From stdpp Require Import prelude gmap list numbers strings.
From S2P Require Import Prelude Proto Measurement Interfaces LinkedMap Crypto.
Open Scope Z_scope.

(** ** The code *)

Inductive InsertStatus := InsertStatusOk | InsertStatusSndFull | InsertStatusNoData.
Inductive AckStatus := AckStatusOk | AckNoStream | AckDup.

#[export] Instance InsertStatus_eq_dec : EqDecision InsertStatus.
Proof. solve_decision. Defined.
#[export] Instance AckStatus_eq_dec : EqDecision AckStatus.
Proof. solve_decision. Defined.

Record SendInfo := mkSendInfo {
  si_data : bytes;
  sentTimeNano : Z;
  sentNr : Z;
  si_pingRequest : bool;
}.

#[export] Instance SendInfo_inhabited : Inhabited SendInfo := populate (mkSendInfo [] 0 0 false).

(** *** Packet keys: 48 bits of offset, 16 bits of length *)

Definition packetKey := Z.

Definition createPacketKey (offset length : Z) : packetKey := u64 (u64 (offset << 16)%go .| length)%go.
Definition key_offset (p : packetKey) : Z := (p >> 16)%go.
Definition key_length (p : packetKey) : Z := u16 (p .& 0xFFFF)%go.

Section code.
Context {M : Type} `{!LinkedMapOps M packetKey SendInfo}.

Record StreamBuffer := mkStreamBuffer {
  dataInFlightMap : M;
  queuedData : bytes;
  bytesSentOffset : Z;
  pingRequest : bool;
  sb_closeAtOffset : option Z;
}.

Record SendBuffer := mkSendBuffer {
  sb_streams : gmap Z StreamBuffer;
  sb_capacity : Z;
  sb_size : Z;
}.

Definition NewStreamBuffer : StreamBuffer := mkStreamBuffer lmi_new [] 0 false None.

Definition NewSendBuffer (capacity : Z) : SendBuffer := mkSendBuffer ∅ capacity 0.

Definition sb_set (sb : SendBuffer) (streamID : Z) (stream : StreamBuffer) : SendBuffer :=
  mkSendBuffer (<[streamID := stream]> (sb_streams sb)) (sb_capacity sb) (sb_size sb).

Definition sb_with_size (sb : SendBuffer) (size : Z) : SendBuffer :=
  mkSendBuffer (sb_streams sb) (sb_capacity sb) size.

Definition with_inflight (s : StreamBuffer) (m : M) : StreamBuffer :=
  mkStreamBuffer m (queuedData s) (bytesSentOffset s) (pingRequest s) (sb_closeAtOffset s).

Definition with_ping (s : StreamBuffer) (b : bool) : StreamBuffer :=
  mkStreamBuffer (dataInFlightMap s) (queuedData s) (bytesSentOffset s) b (sb_closeAtOffset s).

Definition with_queue (s : StreamBuffer) (q : bytes) (offset : Z) : StreamBuffer :=
  mkStreamBuffer (dataInFlightMap s) q offset (pingRequest s) (sb_closeAtOffset s).

Definition getOrCreateStream (sb : SendBuffer) (streamID : Z) : SendBuffer * StreamBuffer :=
  match sb_streams sb !! streamID with
  | Some stream => (sb, stream)
  | None => (sb_set sb streamID NewStreamBuffer, NewStreamBuffer)
  end.

Definition newSendInfo (data : bytes) (nowNano : Z) (isPing : bool) : SendInfo := mkSendInfo data nowNano 1 isPing.

Definition QueueData (sb : SendBuffer) (streamId : Z) (userData : bytes) : go (SendBuffer * (Z * InsertStatus)) :=
  if decide (len userData <= 0) then mret (sb, (0, InsertStatusNoData)) else
  let remainingCapacitySnd := sb_capacity sb - sb_size sb in
  if decide (remainingCapacitySnd = 0) then mret (sb, (0, InsertStatusSndFull)) else
  '(chunk, status) ←
    (if decide (remainingCapacitySnd < len userData) then
       chunk ← slice_to userData remainingCapacitySnd; mret (chunk, InsertStatusSndFull)
     else mret (userData, InsertStatusOk));
  let n := len chunk in
  let '(sb, stream) := getOrCreateStream sb streamId in
  let stream := with_queue stream (queuedData stream ++ chunk) (bytesSentOffset stream) in
  mret (sb_with_size (sb_set sb streamId stream) (sb_size sb + n), (n, status)).

Definition QueuePing (sb : SendBuffer) (streamId : Z) : SendBuffer :=
  let '(sb, stream) := getOrCreateStream sb streamId in sb_set sb streamId (with_ping stream true).

(** [closeAtOffset != nil && end >= *closeAtOffset]. *)
Definition reaches_close (s : StreamBuffer) (endOffset : Z) : bool :=
  match sb_closeAtOffset s with Some c => c <=? endOffset | None => false end.

(** [maxData], the room for user data in the packet. *)
Definition max_data (msgType : CryptoMsgType) (ack : option Ack) (mtu offset : Z) : Z :=
  if decide (msgType = InitSnd) then 0 else mtu - calcCryptoOverheadWithData msgType ack offset.

(** Returns the packet data (nil is [None]), its offset and the close flag. *)
Definition ReadyToSend (sb : SendBuffer) (streamID : Z) (msgType : CryptoMsgType) (ack : option Ack) (mtu nowNano : Z)
    : go (SendBuffer * (option bytes * Z * bool)) :=
  if decide (sb_streams sb = ∅) then mret (sb, (None, 0, false)) else
  match sb_streams sb !! streamID with
  | None => mret (sb, (None, 0, false))
  | Some stream =>
      if pingRequest stream then
        let stream := with_ping stream false in
        let key := createPacketKey (bytesSentOffset stream) 0 in
        m ← lmi_put (dataInFlightMap stream) key (newSendInfo [] nowNano true);
        mret (sb_set sb streamID (with_inflight stream m), (Some [], 0, false))
      else if decide (queuedData stream = []) then
        if negb (reaches_close stream (bytesSentOffset stream)) then mret (sb, (None, 0, false)) else
        let key := createPacketKey (bytesSentOffset stream) 0 in
        m ← lmi_put (dataInFlightMap stream) key (newSendInfo [] nowNano false);
        mret (sb_set sb streamID (with_inflight stream m), (Some [], key_offset key, true))
      else
        let maxData := max_data msgType ack mtu (bytesSentOffset stream) in
        let length := Z.min (u64 maxData) (len (queuedData stream)) in
        packetData ← slice_to (queuedData stream) length;
        let key := createPacketKey (bytesSentOffset stream) (u16 length) in
        m ← lmi_put (dataInFlightMap stream) key (newSendInfo packetData nowNano false);
        rest ← slice_from (queuedData stream) length;
        let stream := with_queue (with_inflight stream m) rest (u64 (bytesSentOffset stream + length)) in
        mret (sb_set sb streamID stream,
              (Some packetData, key_offset key, reaches_close stream (bytesSentOffset stream)))
  end.

Definition nothing : option bytes * Z * bool := (None, 0, false).

(** The timed-out packet fits: send it again, with the time and count of its
    entry updated in place. *)
Definition resend (sb : SendBuffer) (streamID : Z) (stream : StreamBuffer) (key : packetKey) (rtoData : SendInfo)
    (length nowNano : Z) : go (SendBuffer * (go_error + option bytes * Z * bool)) :=
  m ← lmi_put (dataInFlightMap stream) key
        (mkSendInfo (si_data rtoData) nowNano (sentNr rtoData + 1) (si_pingRequest rtoData));
  let packetEnd := u64 (key_offset key + length) in
  mret (sb_set sb streamID (with_inflight stream m),
        inr (Some (si_data rtoData), key_offset key, reaches_close stream packetEnd)).

(** It does not fit: send the left part under a key of its own; the entry
    keeps the right part, and is renamed. *)
Definition resend_split (sb : SendBuffer) (streamID : Z) (stream : StreamBuffer) (key : packetKey)
    (rtoData : SendInfo) (maxData nowNano : Z) : go (SendBuffer * (go_error + option bytes * Z * bool)) :=
  leftData ← slice_to (si_data rtoData) maxData;
  rightData ← slice_from (si_data rtoData) maxData;
  let leftKey := createPacketKey (key_offset key) (u16 maxData) in
  m ← lmi_put (dataInFlightMap stream) leftKey (mkSendInfo leftData nowNano (sentNr rtoData + 1) false);
  let remainingOffset := u64 (key_offset key + u64 maxData) in
  let rightKey := createPacketKey remainingOffset (u16 (len rightData)) in
  let rtoData := mkSendInfo rightData (sentTimeNano rtoData) (sentNr rtoData) (si_pingRequest rtoData) in
  m ← lmi_put m key rtoData;
  '(m, _) ← lmi_replace m key rightKey rtoData;
  mret (sb_set sb streamID (with_inflight stream m), inr (Some leftData, key_offset key, false)).

Definition ReadyToRetransmit (sb : SendBuffer) (streamID : Z) (ack : option Ack) (mtu expectedRtoNano : Z)
    (msgType : CryptoMsgType) (nowNano : Z) : go (SendBuffer * (go_error + option bytes * Z * bool)) :=
  if decide (sb_streams sb = ∅) then mret (sb, inr nothing) else
  match sb_streams sb !! streamID with
  | None => mret (sb, inr nothing)
  | Some stream =>
      first ← lmi_first (dataInFlightMap stream);
      match first with
      | None => mret (sb, inr nothing)
      | Some (key, rtoData) =>
          match backoff expectedRtoNano (sentNr rtoData) with
          | inl err => mret (sb, inl err)
          | inr expectedRtoBackoffNano =>
              let actualRtoNano := u64 (nowNano - sentTimeNano rtoData) in
              if decide (actualRtoNano <= expectedRtoBackoffNano) then mret (sb, inr nothing) else
              if si_pingRequest rtoData then
                '(m, _) ← lmi_remove (dataInFlightMap stream) key;
                mret (sb_set sb streamID (with_inflight stream m), inr nothing)
              else
                let length := u16 (len (si_data rtoData)) in
                let maxData := max_data msgType ack mtu (key_offset key) in
                if decide (length <= u16 maxData)
                then resend sb streamID stream key rtoData length nowNano
                else resend_split sb streamID stream key rtoData maxData nowNano
          end
      end
  end.

Definition AcknowledgeRange (sb : SendBuffer) (ack : Ack) : go (SendBuffer * (AckStatus * Z)) :=
  match sb_streams sb !! ack_streamID ack with
  | None => mret (sb, (AckNoStream, 0))
  | Some stream =>
      let key := createPacketKey (ack_offset ack) (ack_len ack) in
      '(m, sendInfo) ← lmi_remove (dataInFlightMap stream) key;
      let sb := sb_set sb (ack_streamID ack) (with_inflight stream m) in
      match sendInfo with
      | None => mret (sb, (AckDup, 0))
      | Some i => mret (sb_with_size sb (sb_size sb - len (si_data i)), (AckStatusOk, sentTimeNano i))
      end
  end.

Definition GetOffsetAcked (sb : SendBuffer) (streamID : Z) : go Z :=
  match sb_streams sb !! streamID with
  | None => mret 0
  | Some stream =>
      first ← lmi_first (dataInFlightMap stream);
      match first with
      | Some (firstKey, _) => mret (key_offset firstKey)
      | None => mret (bytesSentOffset stream)
      end
  end.

Definition GetOffsetClosedAt (sb : SendBuffer) (streamID : Z) : option Z :=
  match sb_streams sb !! streamID with
  | None => None
  | Some stream => sb_closeAtOffset stream
  end.

Definition Close (sb : SendBuffer) (streamID : Z) : SendBuffer :=
  let '(sb, stream) := getOrCreateStream sb streamID in
  match sb_closeAtOffset stream with
  | Some _ => sb
  | None =>
      let offset := u64 (bytesSentOffset stream + len (queuedData stream)) in
      sb_set sb streamID (mkStreamBuffer (dataInFlightMap stream) (queuedData stream) (bytesSentOffset stream)
                            (pingRequest stream) (Some offset))
  end.
End code.

Arguments StreamBuffer : clear implicits.
Arguments SendBuffer : clear implicits.

(** ** Packet keys *)

Lemma createPacketKey_val o l : 0 <= o < 2 ^ 48 -> is_u16 l -> createPacketKey o l = o * 2 ^ 16 + l.
Proof.
  intros Ho Hl. unfold createPacketKey. assert (u64 (Z.shiftl o 16) = Z.shiftl o 16) as ->.
  { rewrite Z.shiftl_mul_pow2 by lia. widths. apply Z.mod_small. lia. }
  rewrite Z.lor_comm, lor_shiftl_add by (widths; lia). widths. rewrite Z.mod_small; lia.
Qed.

Lemma key_offset_create o l : 0 <= o < 2 ^ 48 -> is_u16 l -> key_offset (createPacketKey o l) = o.
Proof.
  intros Ho Hl. rewrite createPacketKey_val by done. unfold key_offset. rewrite shiftr_div by lia.
  widths. rewrite Z.div_add_l by lia. rewrite Z.div_small; lia.
Qed.

Lemma key_length_create o l : 0 <= o < 2 ^ 48 -> is_u16 l -> key_length (createPacketKey o l) = l.
Proof.
  intros Ho Hl. rewrite createPacketKey_val by done. unfold key_length.
  change 65535 with (Z.ones 16). rewrite Z.land_ones by lia. widths.
  change (2 ^ 16) with 65536. rewrite Z.mod_mod by lia. rewrite Z.add_comm, Z.mod_add by lia. apply Z.mod_small. lia.
Qed.

(** ** The packets in flight *)

Definition flight := list (packetKey * SendInfo).
Definition pk_len (i : SendInfo) : Z := len (si_data i).
Definition pk_end (e : packetKey * SendInfo) : Z := key_offset e.1 + pk_len e.2.

(** An entry holds the bytes of the stream [f] its key names, all sent before. *)
Record entry_ok (f : Z -> Z) (sent : Z) (e : packetKey * SendInfo) : Prop := {
  eo_offset : 0 <= key_offset e.1;
  eo_end : pk_end e <= sent;
  eo_len : is_u16 (pk_len e.2);
  eo_key : e.1 = createPacketKey (key_offset e.1) (pk_len e.2);
  eo_data : si_data e.2 = read_at f (key_offset e.1) (length (si_data e.2));
  eo_ping : si_pingRequest e.2 = true -> pk_len e.2 = 0;
}.

Record flight_ok (f : Z -> Z) (sent : Z) (l : flight) : Prop := {
  fo_keys : NoDup l.*1;
  fo_sent : 0 <= sent < 2 ^ 48;
  fo_entry e : e ∈ l -> entry_ok f sent e;
  fo_disjoint e1 e2 : e1 ∈ l -> e2 ∈ l -> e1.1 <> e2.1 -> 0 < pk_len e1.2 -> 0 < pk_len e2.2 ->
    pk_end e1 <= key_offset e2.1 \/ pk_end e2 <= key_offset e1.1;
}.

(** The positions a packet in flight will deliver again when it is lost. *)
Definition in_flight (l : flight) (x : Z) : Prop := exists e, e ∈ l /\ key_offset e.1 <= x < pk_end e.

Lemma pk_len_nonneg i : 0 <= pk_len i.
Proof. unfold pk_len. lia. Qed.

Section flight.
Context (f : Z -> Z) (sent : Z) (l : flight) (Hf : flight_ok f sent l).

Lemma NoDup_put k i : NoDup (al_put k i l).*1.
Proof.
  destruct (al_split_cases k l (fo_keys _ _ _ Hf)) as [[_ Hk]|(v & l1 & l2 & _ & -> & H1 & H2)].
  - rewrite al_put_notin by done. rewrite fmap_app. simpl. apply NoDup_app. split_and!.
    + apply Hf.
    + set_solver.
    + apply NoDup_singleton.
  - rewrite al_put_middle by done. pose proof (fo_keys _ _ _ Hf) as Hnd. by rewrite fmap_app in *.
Qed.

Lemma elem_put k i e : e ∈ al_put k i l <-> e = (k, i) \/ (e ∈ l /\ e.1 <> k).
Proof. apply elem_al_put, Hf. Qed.

(** An entry put under its key is apart from the others that carry data. *)
Lemma flight_put f' sent' k i :
  0 <= sent' < 2 ^ 48 -> entry_ok f' sent' (k, i) ->
  (forall e, e ∈ l -> e.1 <> k -> entry_ok f' sent' e) ->
  (forall e, e ∈ l -> e.1 <> k -> 0 < pk_len i -> 0 < pk_len e.2 ->
     pk_end e <= key_offset k \/ key_offset k + pk_len i <= key_offset e.1) ->
  flight_ok f' sent' (al_put k i l).
Proof.
  intros Hs He Hother Hap. constructor; [apply NoDup_put | done | |].
  - intros e [->|[? ?]]%elem_put; [done | by apply Hother].
  - intros e1 e2 [->|[H1 N1]]%elem_put [->|[H2 N2]]%elem_put Hne L1 L2; simpl in *.
    + done.
    + destruct (Hap e2); auto.
    + destruct (Hap e1); auto.
    + by apply Hf.
Qed.

Lemma in_flight_put k i x :
  in_flight (al_put k i l) x <->
  (key_offset k <= x < key_offset k + pk_len i) \/ exists e, e ∈ l /\ e.1 <> k /\ key_offset e.1 <= x < pk_end e.
Proof.
  unfold in_flight. split.
  - intros (e & [->|[? ?]]%elem_put & Hx); [left; done | right; eauto].
  - intros [Hx|(e & ? & ? & Hx)]; [exists (k, i)|exists e]; (split; [apply elem_put; tauto | done]).
Qed.

Lemma entry_mono sent' e : sent <= sent' -> e ∈ l -> entry_ok f sent' e.
Proof. intros Hs He. destruct (fo_entry _ _ _ Hf e He). constructor; try done. lia. Qed.

(** The entries that carry no data do not matter for the bytes. *)
Lemma in_flight_put_empty k i x :
  pk_len i = 0 -> (forall e, e ∈ l -> e.1 = k -> pk_len e.2 = 0) -> in_flight (al_put k i l) x <-> in_flight l x.
Proof.
  intros Hi He. rewrite in_flight_put. split.
  - intros [?|(e & ? & ? & ?)]; [lia|]. by exists e.
  - intros (e & Hin & Hx). right. exists e. split; [done|]. split; [|done]. intros E.
    specialize (He e Hin E). unfold pk_end in Hx. lia.
Qed.

(** The key determines offset and length of an entry. *)
Lemma entry_key_eq e o n :
  e ∈ l -> e.1 = createPacketKey o n -> 0 <= o < 2 ^ 48 -> is_u16 n -> key_offset e.1 = o /\ pk_len e.2 = n.
Proof.
  intros He Ek Ho Hn. destruct (fo_entry _ _ _ Hf e He) as [H1 H2 H3 H4 _ _].
  pose proof (fo_sent _ _ _ Hf) as Hs. pose proof (pk_len_nonneg e.2). unfold pk_end in H2.
  assert (key_offset e.1 = o) as E by (rewrite Ek; by apply key_offset_create). split; [done|].
  rewrite <- (key_length_create o n), <- Ek, H4 by done. rewrite key_length_create by (done || lia). done.
Qed.

Lemma get_elem k i : al_get k l = Some i <-> (k, i) ∈ l.
Proof. apply al_get_is_elem, Hf. Qed.

(** Sending the next [n] bytes (none for a ping or a close). *)
Lemma flight_send n now ping (i := newSendInfo (read_at f sent n) now ping) (k := createPacketKey sent (Z.of_nat n)) :
  is_u16 (Z.of_nat n) -> sent + Z.of_nat n < 2 ^ 48 -> (ping = true -> n = 0%nat) ->
  flight_ok f (sent + Z.of_nat n) (al_put k i l) /\
  (forall x, in_flight (al_put k i l) x <-> in_flight l x \/ sent <= x < sent + Z.of_nat n) /\
  al_sum pk_len (al_put k i l) = al_sum pk_len l + Z.of_nat n /\ key_offset k = sent.
Proof.
  intros Hn Hlt Hping. pose proof (fo_sent _ _ _ Hf) as Hs.
  assert (pk_len i = Z.of_nat n) as Hi by (unfold pk_len; simpl; by rewrite read_at_length).
  assert (key_offset k = sent) as Hk by (by apply key_offset_create).
  assert (forall e, e ∈ l -> e.1 = k -> pk_len e.2 = 0 /\ Z.of_nat n = 0) as Hsame.
  { intros e He Ek. destruct (entry_key_eq e sent (Z.of_nat n) He Ek) as [Eo El]; [done..|].
    pose proof (eo_end _ _ _ (fo_entry _ _ _ Hf e He)) as Hend. unfold pk_end in Hend. lia. }
  split_and!; [| | |done].
  - apply flight_put; [lia | | |].
    + constructor; unfold pk_end; simpl; rewrite ?Hk, ?Hi; try done; try lia; [by rewrite read_at_length|].
      intros E. by rewrite (Hping E).
    + intros e He _. apply entry_mono; [lia | done].
    + intros e He _ _ _. left. rewrite Hk. apply (fo_entry _ _ _ Hf e He).
  - intros x. rewrite in_flight_put, Hk, Hi. split.
    + intros [?|(e & ? & ? & ?)]; [tauto|]. left. by exists e.
    + intros [(e & He & Hx)|?]; [|tauto]. right. exists e. split; [done|]. split; [|done].
      intros Ek. destruct (Hsame e He Ek). unfold pk_end in Hx. lia.
  - rewrite al_sum_put, Hi. destruct (al_get k l) as [j|] eqn:Ej; simpl; [|lia].
    apply get_elem in Ej. destruct (Hsame _ Ej eq_refl) as [E _]. simpl in E. lia.
Qed.

(** Sending a packet again changes only its time and count. *)
Lemma flight_touch k i i' :
  al_get k l = Some i -> si_data i' = si_data i -> si_pingRequest i' = si_pingRequest i ->
  flight_ok f sent (al_put k i' l) /\ (forall x, in_flight (al_put k i' l) x <-> in_flight l x) /\
  al_sum pk_len (al_put k i' l) = al_sum pk_len l.
Proof.
  intros Hg Hd Hp. pose proof Hg as Hin. apply get_elem in Hin.
  assert (pk_len i' = pk_len i) as Hl by (unfold pk_len; by rewrite Hd).
  pose proof (fo_entry _ _ _ Hf _ Hin) as He. split_and!.
  - apply flight_put; [apply Hf | | |].
    + destruct He as [H1 H2 H3 H4 H5 H6]. unfold pk_end in *. simpl in *.
      constructor; unfold pk_end; simpl; rewrite ?Hl, ?Hd, ?Hp; done.
    + intros e He' _. by apply Hf.
    + intros e He' Hne L1 L2. rewrite Hl in *.
      destruct (fo_disjoint _ _ _ Hf e (k, i) He' Hin Hne L2 L1); auto.
  - intros x. rewrite in_flight_put, Hl. split.
    + intros [?|(e & ? & ? & ?)]; [by exists (k, i) | by exists e].
    + intros (e & He' & Hx). destruct (decide (e.1 = k)) as [E|Hne]; [|right; by exists e].
      left. destruct e as [k' j]. simpl in E. subst k'. apply get_elem in He'.
      assert (j = i) as -> by congruence. done.
  - rewrite al_sum_put, Hg. simpl. lia.
Qed.

Lemma flight_remove k :
  flight_ok f sent (al_remove k l) /\
  (forall x, in_flight (al_remove k l) x <->
     in_flight l x /\ forall i, al_get k l = Some i -> ~ (key_offset k <= x < key_offset k + pk_len i)) /\
  al_sum pk_len (al_remove k l) = al_sum pk_len l - from_option pk_len 0 (al_get k l).
Proof.
  assert (forall e, e ∈ al_remove k l <-> e ∈ l /\ e.1 <> k) as Hel by (intros; apply elem_al_remove, Hf).
  split_and!; [| |apply al_sum_remove].
  - constructor.
    + pose proof (fo_keys _ _ _ Hf) as Hnd. destruct (al_split_cases k l Hnd) as [[_ Hk]|(v & l1 & l2 & _ & -> & H1 & H2)].
      * by rewrite al_remove_notin.
      * rewrite al_remove_middle by done. rewrite fmap_app in Hnd |- *. simpl in Hnd.
        rewrite <- Permutation_middle in Hnd. by apply NoDup_cons in Hnd as [_ ?].
    + apply Hf.
    + intros e [? ?]%Hel. by apply Hf.
    + intros e1 e2 [? ?]%Hel [? ?]%Hel. by apply Hf.
  - intros x. split.
    + intros (e & [He Hne]%Hel & Hx). split; [by exists e|]. intros i Hg Hx'. apply get_elem in Hg.
      destruct (fo_disjoint _ _ _ Hf e (k, i) He Hg Hne); unfold pk_end in *; simpl in *; lia.
    + intros [(e & He & Hx) Hno]. exists e. split; [|done]. apply Hel. split; [done|]. intros E.
      destruct e as [k' j]. simpl in E. subst k'. apply (Hno j); [by apply get_elem | done].
Qed.
End flight.

(** Splitting a packet at [m]: the left part gets an entry of its own, the
    entry keeps the right part under a new key, at its position. *)
Section split.
Context (f : Z -> Z) (sent : Z) (l : flight) (Hf : flight_ok f sent l) (k : packetKey) (i left right : SendInfo)
  (m : nat) (Hg : al_get k l = Some i) (Hm : Z.of_nat m < pk_len i)
  (Hleft : si_data left = take m (si_data i)) (Hright : si_data right = drop m (si_data i))
  (Hlp : si_pingRequest left = false) (Hrp : si_pingRequest right = si_pingRequest i).

Let leftKey := createPacketKey (key_offset k) (Z.of_nat m).
Let rightKey := createPacketKey (key_offset k + Z.of_nat m) (pk_len i - Z.of_nat m).
Let l1 := al_put leftKey left l.
Let l2 := al_put k right l1.

Lemma split_facts :
  entry_ok f sent (k, i) /\ pk_len left = Z.of_nat m /\ pk_len right = pk_len i - Z.of_nat m /\
  0 <= key_offset k /\ key_offset k + pk_len i < 2 ^ 48 /\ is_u16 (pk_len i) /\ k = createPacketKey (key_offset k) (pk_len i) /\
  key_offset leftKey = key_offset k /\ key_offset rightKey = key_offset k + Z.of_nat m.
Proof.
  pose proof Hg as Hin. apply (get_elem f sent l Hf) in Hin. pose proof (fo_entry _ _ _ Hf _ Hin) as He.
  pose proof (fo_sent _ _ _ Hf). pose proof (pk_len_nonneg i).
  destruct He as [H1 H2 H3 H4 H5 H6]. unfold pk_end in *. simpl in *.
  split_and!; try done; try lia.
  - unfold pk_len in *. rewrite Hleft, length_take. lia.
  - unfold pk_len in *. rewrite Hright, length_drop. lia.
  - unfold leftKey. apply key_offset_create; [lia | widths; lia].
  - unfold rightKey. apply key_offset_create; [lia | widths; lia].
Qed.

(** An entry that already has the key of a part carries no data. *)
Lemma split_same_key e :
  e ∈ l -> e.1 = leftKey -> e.1 <> k /\ pk_len e.2 = 0 /\ m = 0%nat.
Proof.
  intros He Ek. destruct split_facts as (_ & _ & _ & Ho & Hend & Hu & Hk & Hlo & _).
  destruct (entry_key_eq f sent l Hf e (key_offset k) (Z.of_nat m) He Ek) as [Eo El]; [lia | widths; lia|].
  assert (e.1 <> k) as Hne.
  { intros E. destruct (entry_key_eq f sent l Hf e (key_offset k) (pk_len i) He) as [_ E']; [by rewrite E | lia | done | lia]. }
  split; [done|]. destruct m as [|m']; [done|]. exfalso.
  pose proof Hg as Hin. apply (get_elem f sent l Hf) in Hin.
  destruct (fo_disjoint _ _ _ Hf e (k, i) He Hin Hne); unfold pk_end in *; simpl in *; lia.
Qed.

Lemma split_right_key e : e ∈ l -> e.1 = rightKey -> e.1 = k /\ m = 0%nat.
Proof.
  intros He Ek. destruct split_facts as (_ & _ & _ & Ho & Hend & Hu & Hk & _ & Hro).
  destruct (entry_key_eq f sent l Hf e (key_offset k + Z.of_nat m) (pk_len i - Z.of_nat m) He Ek) as [Eo El]; [lia | widths; lia|].
  destruct (decide (e.1 = k)) as [E|Hne].
  - split; [done|]. destruct (entry_key_eq f sent l Hf e (key_offset k) (pk_len i) He) as [E' _]; [by rewrite E | lia | done | lia].
  - exfalso. pose proof Hg as Hin. apply (get_elem f sent l Hf) in Hin.
    destruct (fo_disjoint _ _ _ Hf e (k, i) He Hin Hne); unfold pk_end in *; simpl in *; lia.
Qed.

Lemma leftKey_ne : leftKey <> k.
Proof.
  destruct split_facts as (_ & _ & _ & Ho & Hend & Hu & Hk & _). intros E.
  assert (Z.of_nat m = pk_len i); [|lia].
  rewrite <- (key_length_create (key_offset k) (Z.of_nat m)) by (lia || (widths; lia)). fold leftKey. rewrite E, Hk.
  apply key_length_create; [lia | done].
Qed.

Lemma split_nodup1 : NoDup l1.*1.
Proof. by eapply NoDup_put. Qed.

Lemma split_get : al_get k l2 = Some right /\ al_get k l1 = Some i.
Proof.
  assert (al_get k l1 = Some i) as H1.
  { apply al_get_is_elem; [apply split_nodup1|]. apply (elem_put f sent l Hf). right. split; [|apply not_eq_sym, leftKey_ne].
    by apply (get_elem f sent l Hf). }
  split; [|done]. apply al_get_split in H1 as (a & b & E & Ha). unfold l2. rewrite E, al_put_middle by done.
  by apply al_get_middle.
Qed.

Lemma split_elem2 e : e ∈ l2 <-> e = (k, right) \/ ((e = (leftKey, left) \/ (e ∈ l /\ e.1 <> leftKey)) /\ e.1 <> k).
Proof. unfold l2. rewrite elem_al_put by apply split_nodup1. unfold l1. by rewrite (elem_put f sent l Hf). Qed.

Lemma split_nodup2 : NoDup l2.*1.
Proof.
  destruct split_get as [_ H1]. unfold l2. apply al_get_split in H1 as (a & b & E & Ha).
  rewrite E, al_put_middle by done. pose proof split_nodup1 as Hnd. rewrite E in Hnd. by rewrite fmap_app in *.
Qed.

Lemma split_replace : (al_replace k rightKey right l2) = (al_rename k rightKey right l2, true).
Proof.
  unfold al_replace, al_mem. rewrite (proj1 split_get). rewrite bool_decide_true by eauto.
  case_decide as E; [done|]. rewrite bool_decide_false; [done|].
  intros [v Hv]. apply al_get_elem, split_elem2 in Hv as [[= E' _]|[[[= E' _]|[Hin _]] _]].
  - done.
  - destruct split_facts as (_ & _ & _ & Ho & Hend & Hu & _ & Hlo & Hro).
    rewrite E' in Hro. rewrite Hlo in Hro. assert (m = 0%nat) by lia.
    assert (key_length leftKey = Z.of_nat m) as E1 by (apply key_length_create; [lia | widths; lia]).
    assert (key_length rightKey = pk_len i - Z.of_nat m) as E2 by (apply key_length_create; [lia | widths; lia]).
    rewrite E' in E2. lia.
  - destruct (split_right_key _ Hin eq_refl) as [E' _]. by apply E.
Qed.

Let l3 := al_rename k rightKey right l2.

Lemma split_elem3 e :
  e ∈ l3 <-> e = (rightKey, right) \/ e = (leftKey, left) \/ (e ∈ l /\ e.1 <> leftKey /\ e.1 <> k).
Proof.
  unfold l3. rewrite (elem_al_rename k rightKey right right l2) by (apply split_nodup2 || apply split_get).
  rewrite split_elem2. pose proof leftKey_ne. split.
  - intros [->|[[->|[[->|?] ?]] ?]]; simpl in *; tauto.
  - intros [->|[->|(? & ? & ?)]]; simpl; [tauto | right; split; [right; split; [by left | done] | done]|].
    right. split; [|done]. right. tauto.
Qed.

Lemma split_nodup3 : NoDup l3.*1.
Proof.
  destruct split_get as [H2 _]. pose proof split_nodup2 as Hnd. pose proof split_replace as Hrep.
  unfold l3. apply al_get_split in H2 as (a & b & E & Ha). rewrite E in Hnd, Hrep |- *.
  rewrite al_rename_middle by done. rewrite fmap_app in Hnd |- *. simpl in *.
  rewrite <- Permutation_middle in Hnd |- *. apply NoDup_cons in Hnd as [Hk Hnd]. apply NoDup_cons. split; [|done].
  intros Hin. destruct (decide (k = rightKey)) as [E'|Hne]; [by rewrite <- E' in Hin|].
  assert (exists v, (rightKey, v) ∈ l2) as [v Hv].
  { rewrite <- fmap_app in Hin. apply list_elem_of_fmap in Hin as ([k' v] & E' & Hin). simpl in E'. subst k'.
    exists v. rewrite E. apply elem_of_app in Hin as [?|?]; apply elem_of_app; [by left | right; by right]. }
  rewrite <- E in Hrep. unfold al_replace in Hrep.
  assert (al_mem rightKey l2 = true) as Hmem.
  { unfold al_mem. apply bool_decide_true. exists v. apply al_get_is_elem; [apply split_nodup2 | done]. }
  rewrite decide_False in Hrep by done. rewrite Hmem in Hrep. by destruct (al_mem k l2).
Qed.

Lemma flight_split :
  al_replace k rightKey right l2 = (l3, true) /\ flight_ok f sent l3 /\
  (forall x, in_flight l3 x <-> in_flight l x) /\ al_sum pk_len l3 = al_sum pk_len l.
Proof.
  destruct split_facts as (He & Ell & Elr & Ho & Hend & Hu & Hk & Hlo & Hro).
  pose proof Hg as Hin. apply (get_elem f sent l Hf) in Hin.
  pose proof (eo_end _ _ _ He) as Hes. unfold pk_end in Hes. cbn [fst snd] in Hes.
  pose proof (eo_data _ _ _ He) as Hdat. cbn [fst snd] in Hdat.
  assert (si_pingRequest right = false) as Hrp'.
  { rewrite Hrp. destruct (si_pingRequest i) eqn:E; [|done]. pose proof (eo_ping _ _ _ He E) as E0. cbn [fst snd] in E0. lia. }
  assert (forall e, e ∈ l -> e.1 <> k -> 0 < pk_len e.2 -> pk_end e <= key_offset k \/ key_offset k + pk_len i <= key_offset e.1) as Hap.
  { intros e Hein Hne L. apply (fo_disjoint _ _ _ Hf e (k, i)); try done. pose proof (Zle_0_nat m). simpl. lia. }
  split; [apply split_replace|]. split_and!.
  - constructor; [apply split_nodup3 | apply Hf | |].
    + intros e [->|[->|(Hein & _ & _)]]%split_elem3; [| |by apply Hf].
      * constructor; unfold pk_end; cbn [fst snd]; rewrite ?Hro, ?Elr, ?Hrp'; try lia; try (widths; lia); try done.
        rewrite Hright, length_drop. rewrite Hdat at 1. by rewrite read_at_drop by (unfold pk_len in Hm; lia).
      * constructor; unfold pk_end; cbn [fst snd]; rewrite ?Hlo, ?Ell, ?Hlp; try lia; try (widths; lia); try done.
        rewrite Hleft, length_take_le by (unfold pk_len in Hm; lia). rewrite Hdat at 1.
        by rewrite read_at_take by (unfold pk_len in Hm; lia).
    + assert (forall e, e ∈ l -> e.1 <> k -> 0 < pk_len e.2 ->
        (pk_end e <= key_offset leftKey \/ key_offset leftKey + pk_len left <= key_offset e.1) /\
        (pk_end e <= key_offset rightKey \/ key_offset rightKey + pk_len right <= key_offset e.1)) as Hparts.
      { intros e H1 H2 H3. destruct (Hap e H1 H2 H3); lia. }
      intros e1 e2 [->|[->|(H1 & N1 & K1)]]%split_elem3 [->|[->|(H2 & N2 & K2)]]%split_elem3 Hne L1 L2;
        unfold pk_end in *; cbn [fst snd] in *; try done; try lia.
      * destruct (Hparts e2 H2 K2 L2); lia.
      * destruct (Hparts e2 H2 K2 L2); lia.
      * destruct (Hparts e1 H1 K1 L1); lia.
      * destruct (Hparts e1 H1 K1 L1); lia.
      * by apply Hf.
  - intros x. unfold in_flight. split.
    + intros (e & [->|[->|(Hein & _ & _)]]%split_elem3 & Hx); [| |by exists e];
        exists (k, i); unfold pk_end in *; cbn [fst snd] in *; (split; [done | lia]).
    + intros (e & Hein & Hx). destruct (decide (e.1 = k)) as [E|Hne].
      * destruct e as [k' j]. cbn [fst] in E. subst k'. apply (get_elem f sent l Hf) in Hein.
        assert (j = i) as -> by congruence. unfold pk_end in Hx. cbn [fst snd] in Hx.
        destruct (decide (x < key_offset k + Z.of_nat m)).
        -- exists (leftKey, left). split; [apply split_elem3; tauto | unfold pk_end; cbn [fst snd]; lia].
        -- exists (rightKey, right). split; [apply split_elem3; tauto | unfold pk_end; cbn [fst snd]; lia].
      * exists e. split; [|done]. apply split_elem3. right. right. split_and!; try done.
        intros E. destruct (split_same_key e Hein E) as (_ & E0 & _). unfold pk_end in Hx. lia.
  - destruct split_get as [G2 G1]. unfold l3. rewrite (al_sum_rename _ _ _ _ right) by done.
    unfold l2. rewrite al_sum_put, G1. unfold l1. rewrite al_sum_put. simpl. rewrite Ell, Elr.
    destruct (al_get leftKey l) as [j|] eqn:Ej; simpl; [|lia].
    apply (get_elem f sent l Hf) in Ej. destruct (split_same_key _ Ej eq_refl) as (_ & E0 & _). simpl in E0. lia.
Qed.
End split.

(** ** The buffer *)

Section spec.
Context {M : Type} `{!LinkedMapOps M packetKey SendInfo} `{!LinkedMapSpec M packetKey SendInfo}.
Implicit Types (sb : SendBuffer M) (st : StreamBuffer M) (sid : Z).

Definition sstream sb sid : StreamBuffer M := default NewStreamBuffer (sb_streams sb !! sid).
Definition flight_of sb sid : flight := lmi_elems (dataInFlightMap (sstream sb sid)).
Definition sent_of sb sid : Z := bytesSentOffset (sstream sb sid).
Definition queue_of sb sid : bytes := queuedData (sstream sb sid).

(** Queue and packets in flight are consecutive parts of the byte stream [f]. *)
Record stream_inv (f : Z -> Z) st : Prop := {
  si_wf : lmi_wf (dataInFlightMap st);
  si_flight : flight_ok f (bytesSentOffset st) (lmi_elems (dataInFlightMap st));
  si_queue : queuedData st = read_at f (bytesSentOffset st) (length (queuedData st));
  si_end : bytesSentOffset st + len (queuedData st) < 2 ^ 48;
}.

Definition stream_total st : Z := len (queuedData st) + al_sum pk_len (lmi_elems (dataInFlightMap st)).

Record snd_inv (f : Z -> Z -> Z) sb : Prop := {
  sv_stream sid st : sb_streams sb !! sid = Some st -> stream_inv (f sid) st;
  sv_size : sb_size sb = map_sum stream_total (sb_streams sb);
  sv_capacity : sb_size sb <= sb_capacity sb;
}.

Lemma NewStreamBuffer_inv f : stream_inv f NewStreamBuffer.
Proof.
  destruct lmi_new_spec as [Hwf He]. constructor; simpl; try done. rewrite He.
  constructor; [constructor | lia | intros e He' | intros e1 e2 He']; by apply not_elem_of_nil in He'.
Qed.

Lemma stream_total_new : stream_total NewStreamBuffer = 0.
Proof. unfold stream_total. simpl. rewrite (proj2 lmi_new_spec). done. Qed.

Lemma sstream_inv f sb sid : snd_inv f sb -> stream_inv (f sid) (sstream sb sid).
Proof.
  intros Hi. unfold sstream. destruct (sb_streams sb !! sid) eqn:E; simpl; [by apply Hi | apply NewStreamBuffer_inv].
Qed.

Lemma sstream_set sb sid st sid' :
  sstream (sb_set sb sid st) sid' = if decide (sid' = sid) then st else sstream sb sid'.
Proof.
  unfold sstream. simpl. case_decide as E; [subst; by rewrite lookup_insert_eq|]. by rewrite lookup_insert_ne.
Qed.

Lemma stream_total_nonneg st : 0 <= stream_total st.
Proof. unfold stream_total. pose proof (al_sum_nonneg pk_len (lmi_elems (dataInFlightMap st)) pk_len_nonneg). lia. Qed.

(** One stream changes; the size follows it. *)
Lemma snd_step f sb sid st size :
  snd_inv f sb -> stream_inv (f sid) st ->
  size = sb_size sb + stream_total st - stream_total (sstream sb sid) -> size <= sb_capacity sb ->
  snd_inv f (sb_with_size (sb_set sb sid st) size).
Proof.
  intros [H1 H2 H3] Hst -> Hle. constructor; simpl; [|rewrite map_sum_insert|done].
  - intros sid' st'. destruct (decide (sid' = sid)) as [->|]; [rewrite lookup_insert_eq; by intros [= <-]|].
    rewrite lookup_insert_ne by done. apply H1.
  - rewrite H2. unfold sstream. destruct (sb_streams sb !! sid); simpl; [done|]. by rewrite stream_total_new.
Qed.

Lemma snd_step_same f sb sid st :
  snd_inv f sb -> stream_inv (f sid) st -> stream_total st = stream_total (sstream sb sid) ->
  snd_inv f (sb_set sb sid st).
Proof.
  intros Hi Hst Ht. apply (snd_step f sb sid st (sb_size sb) Hi Hst); [lia | apply Hi].
Qed.

Definition sensured sb sid : SendBuffer M := (getOrCreateStream sb sid).1.

Lemma sgetOrCreateStream_spec sb sid :
  getOrCreateStream sb sid = (sensured sb sid, sstream sb sid) /\
  (forall st, sb_set (sensured sb sid) sid st = sb_set sb sid st) /\
  sb_capacity (sensured sb sid) = sb_capacity sb /\ sb_size (sensured sb sid) = sb_size sb.
Proof.
  unfold sensured, getOrCreateStream, sstream. destruct (sb_streams sb !! sid) as [st|]; [done|].
  split_and!; try done. intros st. unfold sb_set. simpl. by rewrite insert_insert_eq.
Qed.

(** *** Queueing *)

Lemma QueueData_spec f sb sid d :
  snd_inv f sb ->
  let n := Z.min (len d) (sb_capacity sb - sb_size sb) in
  take (Z.to_nat n) d = read_at (f sid) (sent_of sb sid + len (queue_of sb sid)) (Z.to_nat n) ->
  sent_of sb sid + len (queue_of sb sid) + len d < 2 ^ 48 ->
  exists sb' status, QueueData sb sid d = Ok (sb', (n, status)) /\ snd_inv f sb' /\ sb_size sb' = sb_size sb + n /\
    sb_capacity sb' = sb_capacity sb /\
    queue_of sb' sid = queue_of sb sid ++ take (Z.to_nat n) d /\
    sent_of sb' sid = sent_of sb sid /\ flight_of sb' sid = flight_of sb sid /\
    (forall sid', sid' <> sid -> sstream sb' sid' = sstream sb sid') /\
    (status = InsertStatusNoData <-> d = []) /\ (status = InsertStatusSndFull <-> n < len d).
Proof.
  intros Hi n Hd Hlt. pose proof (sv_capacity _ _ Hi) as Hcap. unfold QueueData. case_decide as Hemp.
  { assert (d = []) as -> by (by apply nil_length_inv; lia). assert (n = 0) as -> by (subst n; simpl; lia).
    exists sb, InsertStatusNoData. simpl. rewrite app_nil_r. split_and!; try done; try lia. }
  case_decide as Hfull.
  { assert (n = 0) as -> by lia.
    exists sb, InsertStatusSndFull. simpl. rewrite app_nil_r. split_and!; try done; try lia.
    - split; [done|]. intros ->. simpl in *. lia.
    - split; [lia | done]. }
  assert ((if decide (sb_capacity sb - sb_size sb < len d)
     then chunk ← slice_to d (sb_capacity sb - sb_size sb); mret (chunk, InsertStatusSndFull)
     else mret (d, InsertStatusOk)) =
    Ok (take (Z.to_nat n) d, if decide (n < len d) then InsertStatusSndFull else InsertStatusOk)) as ->.
  { case_decide as Hc.
    - rewrite slice_to_Ok by lia. simpl. rewrite decide_True by lia. do 2 f_equal. f_equal. lia.
    - rewrite decide_False by lia. by rewrite take_ge by lia. }
  cbn [mbind go_bind]. destruct (sgetOrCreateStream_spec sb sid) as (-> & Hset & Ec & Es).
  rewrite Hset, Es. assert (len (take (Z.to_nat n) d) = n) as Hn by (rewrite length_take; lia). rewrite Hn.
  eexists _, _. split; [done|]. destruct (sstream_inv f sb sid Hi) as [Hwf Hfl Hq Hend].
  pose proof (sstream_set sb sid (with_queue (sstream sb sid) (queuedData (sstream sb sid) ++ take (Z.to_nat n) d)
    (bytesSentOffset (sstream sb sid)))) as Eset.
  unfold queue_of, sent_of, flight_of in *. split_and!; try done.
  - apply snd_step; [done | | |simpl; lia].
    + constructor; simpl; [done | done | | rewrite length_app; lia].
      rewrite Hq at 1. rewrite Hd. rewrite length_app, read_at_length, read_at_app. done.
    + unfold stream_total. simpl. rewrite length_app. lia.
  - etrans; [apply (f_equal queuedData), Eset|]. by rewrite decide_True.
  - etrans; [apply (f_equal bytesSentOffset), Eset|]. by rewrite decide_True.
  - etrans; [apply (f_equal (lmi_elems ∘ dataInFlightMap)), Eset|]. by rewrite decide_True.
  - intros sid' Hne. etrans; [apply Eset|]. by rewrite decide_False.
  - split; [by case_decide|]. intros ->. simpl in *. lia.
  - case_decide; split; (done || lia).
Qed.

(** Requests that leave the bytes of the stream alone. *)
Lemma snd_touch f sb sid st :
  snd_inv f sb -> dataInFlightMap st = dataInFlightMap (sstream sb sid) ->
  queuedData st = queuedData (sstream sb sid) -> bytesSentOffset st = bytesSentOffset (sstream sb sid) ->
  snd_inv f (sb_set sb sid st) /\
  forall sid', sent_of (sb_set sb sid st) sid' = sent_of sb sid' /\ queue_of (sb_set sb sid st) sid' = queue_of sb sid' /\
    flight_of (sb_set sb sid st) sid' = flight_of sb sid'.
Proof.
  intros Hi E1 E2 E3. destruct (sstream_inv f sb sid Hi) as [Hwf Hfl Hq Hend]. split.
  - apply snd_step_same; [done | by constructor; rewrite ?E1, ?E2, ?E3|]. unfold stream_total. by rewrite E1, E2.
  - intros sid'. unfold sent_of, queue_of, flight_of. rewrite sstream_set.
    case_decide; [subst; by rewrite E1, E2, E3 | done].
Qed.

Lemma sensured_inv f sb sid : snd_inv f sb -> snd_inv f (sensured sb sid) /\
  forall sid', sstream (sensured sb sid) sid' = sstream sb sid'.
Proof.
  intros Hi. unfold sensured, getOrCreateStream. destruct (sb_streams sb !! sid) eqn:E; [done|]. cbn [fst].
  assert (sstream sb sid = NewStreamBuffer) as E' by (unfold sstream; by rewrite E). split.
  - apply (snd_touch f sb sid NewStreamBuffer Hi); by rewrite E'.
  - intros sid'. rewrite sstream_set. case_decide; [by subst | done].
Qed.

Lemma QueuePing_spec f sb sid :
  snd_inv f sb -> snd_inv f (QueuePing sb sid) /\
  forall sid', sent_of (QueuePing sb sid) sid' = sent_of sb sid' /\ queue_of (QueuePing sb sid) sid' = queue_of sb sid' /\
    flight_of (QueuePing sb sid) sid' = flight_of sb sid'.
Proof.
  intros Hi. unfold QueuePing. destruct (sgetOrCreateStream_spec sb sid) as (-> & Hset & _). rewrite Hset.
  by apply snd_touch.
Qed.

(** The close offset is where the written bytes end, and is set once. *)
Lemma Close_spec f sb sid :
  snd_inv f sb -> snd_inv f (Close sb sid) /\
  (forall sid', sent_of (Close sb sid) sid' = sent_of sb sid' /\ queue_of (Close sb sid) sid' = queue_of sb sid' /\
     flight_of (Close sb sid) sid' = flight_of sb sid') /\
  GetOffsetClosedAt (Close sb sid) sid =
    Some (default (sent_of sb sid + len (queue_of sb sid)) (GetOffsetClosedAt sb sid)).
Proof.
  intros Hi. unfold Close. destruct (sgetOrCreateStream_spec sb sid) as (-> & Hset & _).
  assert (GetOffsetClosedAt sb sid = sb_closeAtOffset (sstream sb sid)) as Eg.
  { unfold GetOffsetClosedAt, sstream. by destruct (sb_streams sb !! sid). }
  rewrite Eg. destruct (sb_closeAtOffset (sstream sb sid)) as [c|] eqn:Ec.
  - destruct (sensured_inv f sb sid Hi) as [Hi' Hs]. split; [done|]. split.
    + intros sid'. unfold sent_of, queue_of, flight_of. by rewrite Hs.
    + assert (sensured sb sid = sb) as ->; [|by rewrite Eg].
      unfold sensured, getOrCreateStream. unfold sstream in Ec. by destruct (sb_streams sb !! sid).
  - rewrite Hset. destruct (sstream_inv f sb sid Hi) as [_ Hfl _ Hend]. 
    split; [by apply (snd_touch f)|]. split; [by apply (snd_touch f)|].
    unfold GetOffsetClosedAt. simpl. rewrite lookup_insert_eq. simpl. f_equal.
    pose proof (fo_sent _ _ _ Hfl). unfold sent_of, queue_of. apply Z.mod_small. widths. lia.
Qed.

(** Queueing data does not touch the close offsets. *)
Lemma QueueData_close sb sid d sb' r :
  QueueData sb sid d = Ok (sb', r) -> forall sid', GetOffsetClosedAt sb' sid' = GetOffsetClosedAt sb sid'.
Proof.
  unfold QueueData. intros H sid'. repeat (case_decide; [by go_inv|]).
  apply go_bind_Ok in H as ([chunk st] & _ & H). unfold getOrCreateStream in H.
  destruct (sb_streams sb !! sid) as [s|] eqn:E; injection H as <- _; unfold GetOffsetClosedAt; simpl;
    destruct (decide (sid' = sid)) as [->|]; rewrite ?insert_insert_eq, ?lookup_insert_eq, ?E, ?lookup_insert_ne by done; done.
Qed.

Lemma Close_other sb sid sid' : sid' <> sid -> GetOffsetClosedAt (Close sb sid) sid' = GetOffsetClosedAt sb sid'.
Proof.
  intros Hne. unfold Close, GetOffsetClosedAt, getOrCreateStream.
  destruct (sb_streams sb !! sid) as [st|]; simpl;
    [destruct (sb_closeAtOffset st); [done|]; simpl; by rewrite lookup_insert_ne|].
  by rewrite !lookup_insert_ne.
Qed.

(** *** Sending *)

Lemma send_put f st n now ping :
  stream_inv f st -> (n <= length (queuedData st))%nat -> is_u16 (Z.of_nat n) -> (ping = true -> n = 0%nat) ->
  exists m, lmi_put (dataInFlightMap st) (createPacketKey (bytesSentOffset st) (Z.of_nat n))
              (newSendInfo (read_at f (bytesSentOffset st) n) now ping) = Ok m /\
    key_offset (createPacketKey (bytesSentOffset st) (Z.of_nat n)) = bytesSentOffset st /\
    (forall x, in_flight (lmi_elems m) x <->
       in_flight (lmi_elems (dataInFlightMap st)) x \/ bytesSentOffset st <= x < bytesSentOffset st + Z.of_nat n) /\
    (forall st', dataInFlightMap st' = m -> queuedData st' = drop n (queuedData st) ->
       bytesSentOffset st' = bytesSentOffset st + Z.of_nat n ->
       stream_inv f st' /\ stream_total st' = stream_total st).
Proof.
  intros [Hwf Hfl Hq Hend] Hn Hu Hping.
  destruct (flight_send f _ _ Hfl n now ping Hu) as (Hfl' & Hin & Hsum & Hko); [lia | done|].
  destruct (lmi_put_spec (dataInFlightMap st) (createPacketKey (bytesSentOffset st) (Z.of_nat n))
    (newSendInfo (read_at f (bytesSentOffset st) n) now ping) Hwf) as (m & Hm & Hwf' & Hel).
  exists m. split; [done|]. split; [done|]. split; [by rewrite Hel|]. intros st' <- Eq Es. split.
  - constructor; [done | by rewrite Hel, Es | | rewrite Eq, Es, length_drop; lia].
    rewrite Eq, Es. rewrite Hq at 1. rewrite read_at_drop by done. by rewrite length_drop.
  - unfold stream_total. rewrite Hel, Hsum, Eq, length_drop. lia.
Qed.

(** What a send does to the stream: [d] leaves the queue and is in flight. *)
Definition sends f sb sid sb' (d : bytes) : Prop :=
  d = read_at (f sid) (sent_of sb sid) (length d) /\ (length d <= length (queue_of sb sid))%nat /\
  sent_of sb' sid = sent_of sb sid + len d /\ queue_of sb' sid = drop (length d) (queue_of sb sid) /\
  (forall x, in_flight (flight_of sb' sid) x <->
     in_flight (flight_of sb sid) x \/ sent_of sb sid <= x < sent_of sb sid + len d) /\
  (forall sid', sid' <> sid -> sstream sb' sid' = sstream sb sid') /\
  (exists i, flight_of sb' sid = al_put (createPacketKey (sent_of sb sid) (len d)) i (flight_of sb sid)).

Lemma send_step f sb sid st' m n now ping :
  snd_inv f sb -> (n <= length (queue_of sb sid))%nat -> is_u16 (Z.of_nat n) -> (ping = true -> n = 0%nat) ->
  lmi_put (dataInFlightMap (sstream sb sid)) (createPacketKey (sent_of sb sid) (Z.of_nat n))
    (newSendInfo (read_at (f sid) (sent_of sb sid) n) now ping) = Ok m ->
  dataInFlightMap st' = m -> queuedData st' = drop n (queue_of sb sid) ->
  bytesSentOffset st' = sent_of sb sid + Z.of_nat n ->
  snd_inv f (sb_set sb sid st') /\ sends f sb sid (sb_set sb sid st') (read_at (f sid) (sent_of sb sid) n).
Proof.
  intros Hi Hn Hu Hping Hm Em Eq Es. pose proof (sstream_inv f sb sid Hi) as Hst.
  destruct (send_put (f sid) (sstream sb sid) n now ping Hst Hn Hu Hping) as (m' & Hm' & _ & Hin & Hnext).
  unfold sent_of, queue_of in *. assert (m' = m) as -> by congruence.
  destruct (Hnext st' Em Eq Es) as [Hst' Htot]. split; [by apply snd_step_same|].
  unfold sends, sent_of, queue_of, flight_of. rewrite sstream_set, decide_True, read_at_length by done.
  split_and!; try done; [by rewrite Em | |].
  - intros sid' Hne. by rewrite sstream_set, decide_False.
  - destruct (lmi_put_spec (dataInFlightMap (sstream sb sid)) (createPacketKey (bytesSentOffset (sstream sb sid)) (Z.of_nat n))
      (newSendInfo (read_at (f sid) (bytesSentOffset (sstream sb sid)) n) now ping) (si_wf _ _ Hst)) as (m1 & Hm1 & _ & Hel).
    assert (m1 = m) as -> by congruence. rewrite Em. eauto.
Qed.

Definition room_ok msgType ack mtu : Prop := forall o, 0 <= max_data msgType ack mtu o < 2 ^ 16.

Lemma ReadyToSend_spec f sb sid msgType ack mtu now :
  snd_inv f sb -> room_ok msgType ack mtu ->
  exists sb' data off close,
    ReadyToSend sb sid msgType ack mtu now = Ok (sb', (data, off, close)) /\ snd_inv f sb' /\ sb_size sb' = sb_size sb /\
    match data with
    | None => sb' = sb /\ queue_of sb sid = []
    | Some d => sends f sb sid sb' d /\ len d <= max_data msgType ack mtu (sent_of sb sid) /\
        (off = sent_of sb sid \/ d = [] /\ off = 0) /\
        (len d = if pingRequest (sstream sb sid) then 0
                 else Z.min (max_data msgType ack mtu (sent_of sb sid)) (len (queue_of sb sid))) /\
        (close = true -> exists c, sb_closeAtOffset (sstream sb sid) = Some c /\ c <= sent_of sb' sid)
    end.
Proof.
  intros Hi Hroom. pose proof (Hroom (sent_of sb sid)) as Hmax. unfold ReadyToSend.
  assert (sb_streams sb !! sid = None -> queue_of sb sid = []) as Habs.
  { intros E. unfold queue_of, sstream. by rewrite E. }
  case_decide as Hemp.
  { exists sb, None, 0, false. split_and!; try done. apply Habs. by rewrite Hemp. }
  destruct (sb_streams sb !! sid) as [st|] eqn:Est; [|exists sb, None, 0, false; split_and!; auto].
  assert (sstream sb sid = st) as Ess by (unfold sstream; by rewrite Est).
  pose proof (sstream_inv f sb sid Hi) as Hst.
  subst st.
  assert (forall n ping, (n <= length (queue_of sb sid))%nat -> is_u16 (Z.of_nat n) -> (ping = true -> n = 0%nat) -> exists m,
    lmi_put (dataInFlightMap (sstream sb sid)) (createPacketKey (sent_of sb sid) (Z.of_nat n))
      (newSendInfo (read_at (f sid) (sent_of sb sid) n) now ping) = Ok m /\
    key_offset (createPacketKey (sent_of sb sid) (Z.of_nat n)) = sent_of sb sid) as Hput.
  { intros n ping Hn Hu Hp. destruct (send_put (f sid) (sstream sb sid) n now ping Hst Hn Hu Hp) as (m & Hm & Hk & _). eauto. }
  assert (forall off, reaches_close (sstream sb sid) off = true ->
    exists c, sb_closeAtOffset (sstream sb sid) = Some c /\ c <= off) as Hclose.
  { intros off. unfold reaches_close. destruct (sb_closeAtOffset _) as [c|]; [|done]. exists c. split; [done|lia]. }
  destruct (pingRequest (sstream sb sid)) eqn:Ep; [|case_decide as Hq; [destruct (negb _) eqn:Ec|]].
  - destruct (Hput 0%nat true) as (m & Hm & _); [lia | by widths | done|].
    destruct (send_step f sb sid (with_inflight (with_ping (sstream sb sid) false) m) m 0 now true) as [Hi' Hs];
      [first [done | lia | by widths | simpl; unfold sent_of; lia]..|].
    change (lmi_put (dataInFlightMap (sstream sb sid)) (createPacketKey (bytesSentOffset (sstream sb sid)) 0)
      (newSendInfo [] now true) = Ok m) in Hm.
    cbn [with_ping bytesSentOffset dataInFlightMap]. rewrite Hm. cbn [mbind go_bind].
    eexists _, _, _, _. split; [done|]. split; [done|]. split; [done|]. split; [done|]. split; [simpl; lia|]. split; [by right | done].
  - exists sb, None, 0, false. done.
  - destruct (Hput 0%nat false) as (m & Hm & Hk); [lia | by widths | done|].
    destruct (send_step f sb sid (with_inflight (sstream sb sid) m) m 0 now false) as [Hi' Hs];
      [first [done | lia | by widths | simpl; unfold sent_of; lia]..|].
    change (lmi_put (dataInFlightMap (sstream sb sid)) (createPacketKey (bytesSentOffset (sstream sb sid)) 0)
      (newSendInfo [] now false) = Ok m) in Hm.
    rewrite Hm. cbn [mbind go_bind].
    eexists _, _, _, _. split; [done|]. split; [done|]. split; [done|]. split; [done|]. split; [simpl; lia|]. split; [by left|].
    unfold queue_of. rewrite Hq. split; [simpl; lia|]. intros _. destruct (Hclose (sent_of sb sid)) as (c & ? & ?); [by apply negb_false_iff in Ec|].
    exists c. split; [done|]. destruct Hs as (_ & _ & -> & _). simpl. lia.
  - set (n := Z.to_nat (Z.min (max_data msgType ack mtu (sent_of sb sid)) (len (queue_of sb sid)))).
    assert (u64 (max_data msgType ack mtu (sent_of sb sid)) = max_data msgType ack mtu (sent_of sb sid)) as Eu
      by (widths; apply Z.mod_small; lia).
    change (bytesSentOffset (sstream sb sid)) with (sent_of sb sid). rewrite Eu.
    change (queuedData (sstream sb sid)) with (queue_of sb sid) in *.
    replace (Z.min (max_data msgType ack mtu (sent_of sb sid)) (len (queue_of sb sid))) with (Z.of_nat n) by lia.
    assert (is_u16 (Z.of_nat n)) as Hu by (widths; lia).
    assert (u16 (Z.of_nat n) = Z.of_nat n) as -> by (apply Z.mod_small, Hu).
    rewrite slice_to_Ok, Nat2Z.id by lia. cbn [mbind go_bind].
    assert (take n (queue_of sb sid) = read_at (f sid) (sent_of sb sid) n) as Etake.
    { unfold queue_of. rewrite (si_queue _ _ Hst), read_at_take by (unfold queue_of in *; lia). done. }
    rewrite Etake. destruct (Hput n false) as (m & Hm & Hk); [lia | done | done|]. rewrite Hm. cbn [mbind go_bind].
    rewrite slice_from_Ok, Nat2Z.id by lia. cbn [mbind go_bind]. rewrite Hk.
    assert (u64 (sent_of sb sid + Z.of_nat n) = sent_of sb sid + Z.of_nat n) as Es.
    { pose proof (si_end _ _ Hst). pose proof (fo_sent _ _ _ (si_flight _ _ Hst)). unfold sent_of, queue_of in *.
      widths. apply Z.mod_small. lia. }
    rewrite Es. destruct (send_step f sb sid (with_queue (with_inflight (sstream sb sid) m)
      (drop n (queue_of sb sid)) (sent_of sb sid + Z.of_nat n)) m n now false) as [Hi' Hs]; try done; [lia|].
    eexists _, _, _, _. split; [done|]. split; [done|]. split; [done|]. split; [done|].
    split; [|split; [by left|split]].
    + rewrite read_at_length. lia.
    + rewrite read_at_length. lia.
    + intros Hc. destruct (Hclose (sent_of sb sid + Z.of_nat n)) as (c & ? & ?); [done|].
      exists c. split; [done|]. destruct Hs as (_ & _ & -> & _). rewrite read_at_length. lia.
Qed.

(** *** Retransmission *)

(** Replacing the packets in flight by others with the same bytes. *)
Lemma flight_step f sb sid m :
  snd_inv f sb -> lmi_wf m -> flight_ok (f sid) (sent_of sb sid) (lmi_elems m) ->
  al_sum pk_len (lmi_elems m) = al_sum pk_len (flight_of sb sid) ->
  snd_inv f (sb_set sb sid (with_inflight (sstream sb sid) m)).
Proof.
  intros Hi Hwf Hfl Hsum. destruct (sstream_inv f sb sid Hi) as [_ _ Hq Hend].
  apply snd_step_same; [done | by constructor|]. unfold stream_total. simpl. by rewrite Hsum.
Qed.

(** The stream keeps its bytes: what is in flight, sent and queued. *)
Definition keeps sb sid sb' : Prop :=
  (forall x, in_flight (flight_of sb' sid) x <-> in_flight (flight_of sb sid) x) /\
  sent_of sb' sid = sent_of sb sid /\ queue_of sb' sid = queue_of sb sid /\
  (forall sid', sid' <> sid -> sstream sb' sid' = sstream sb sid').

Lemma keeps_refl sb sid : keeps sb sid sb.
Proof. by split_and!. Qed.

Lemma keeps_flight sb sid m :
  (forall x, in_flight (lmi_elems m) x <-> in_flight (flight_of sb sid) x) ->
  keeps sb sid (sb_set sb sid (with_inflight (sstream sb sid) m)).
Proof.
  intros Hin. unfold keeps, sent_of, queue_of, flight_of in *. rewrite sstream_set, decide_True by done.
  split_and!; try done. intros sid' Hne. by rewrite sstream_set, decide_False.
Qed.

(** The packet handed out for retransmission. *)
Definition resends (f : Z -> Z) (l : flight) (maxData : Z -> Z) (d : bytes) (off : Z) : Prop :=
  d = read_at f off (length d) /\ len d <= maxData off /\
  (forall x, off <= x < off + len d -> in_flight l x) /\
  exists k i, head l = Some (k, i) /\ off = key_offset k /\ (0 < pk_len i -> 0 < maxData off -> d <> []).

Lemma resend_spec f sb sid k i length now md :
  snd_inv f sb -> head (flight_of sb sid) = Some (k, i) ->
  pk_len i <= md (key_offset k) -> length = pk_len i ->
  exists sb' close, resend sb sid (sstream sb sid) k i length now =
      Ok (sb', inr (Some (si_data i), key_offset k, close)) /\
    snd_inv f sb' /\ sb_size sb' = sb_size sb /\ keeps sb sid sb' /\
    resends (f sid) (flight_of sb sid) md (si_data i) (key_offset k).
Proof.
  intros Hi Hh Hfit ->. destruct (sstream_inv f sb sid Hi) as [Hwf Hfl Hq Hend]. fold (flight_of sb sid) in Hfl.
  assert ((k, i) ∈ flight_of sb sid) as Hin by (by apply head_Some_elem_of).
  assert (al_get k (flight_of sb sid) = Some i) as Hg by (by apply (get_elem (f sid) _ _ Hfl)).
  set (i' := mkSendInfo (si_data i) now (sentNr i + 1) (si_pingRequest i)).
  destruct (flight_touch (f sid) _ _ Hfl k i i' Hg eq_refl eq_refl) as (Hfl' & Hsame & Hsum).
  destruct (lmi_put_spec (dataInFlightMap (sstream sb sid)) k i' Hwf) as (m & Hm & Hwf' & Hel).
  fold (flight_of sb sid) in Hel. unfold resend. fold i'. rewrite Hm. cbn [mbind go_bind].
  eexists _, _. split; [done|]. split; [apply flight_step; by rewrite ?Hel|]. split; [done|].
  split; [apply keeps_flight; by rewrite Hel|]. split_and!.
  - apply (fo_entry _ _ _ Hfl (k, i) Hin).
  - done.
  - intros x Hx. exists (k, i). done.
  - exists k, i. split_and!; try done. intros Hpos _ E. unfold pk_len in Hpos. rewrite E in Hpos. simpl in Hpos. lia.
Qed.

Lemma resend_split_spec f sb sid k i maxData now md :
  snd_inv f sb -> head (flight_of sb sid) = Some (k, i) ->
  0 <= maxData < pk_len i -> maxData = md (key_offset k) ->
  exists sb' d, resend_split sb sid (sstream sb sid) k i maxData now = Ok (sb', inr (Some d, key_offset k, false)) /\
    snd_inv f sb' /\ sb_size sb' = sb_size sb /\ keeps sb sid sb' /\
    resends (f sid) (flight_of sb sid) md d (key_offset k).
Proof.
  intros Hi Hh Hmax Emd. destruct (sstream_inv f sb sid Hi) as [Hwf Hfl Hq Hend]. fold (flight_of sb sid) in Hfl.
  assert ((k, i) ∈ flight_of sb sid) as Hin by (by apply head_Some_elem_of).
  assert (al_get k (flight_of sb sid) = Some i) as Hg by (by apply (get_elem (f sid) _ _ Hfl)).
  pose proof (fo_entry _ _ _ Hfl (k, i) Hin) as He. pose proof (fo_sent _ _ _ Hfl) as Hsent.
  destruct He as [Ho Hen Hlen Hkey Hdat _]. unfold pk_end in Hen. cbn [fst snd] in *.
  unfold pk_len in Hmax. unfold resend_split. rewrite slice_to_Ok by lia. cbn [mbind go_bind].
  rewrite slice_from_Ok by lia. cbn [mbind go_bind]. set (mm := Z.to_nat maxData).
  assert (maxData = Z.of_nat mm) as Emm by lia.
  set (left := mkSendInfo (take mm (si_data i)) now (sentNr i + 1) false).
  set (right := mkSendInfo (drop mm (si_data i)) (sentTimeNano i) (sentNr i) (si_pingRequest i)).
  destruct (flight_split (f sid) _ _ Hfl k i left right mm Hg) as (Erep & Hfl' & Hsame & Hsum);
    [unfold pk_len; lia | done..|].
  assert (u16 maxData = Z.of_nat mm) as -> by (rewrite Emm; apply Z.mod_small; unfold pk_len in *; widths; lia).
  assert (u64 (key_offset k + u64 maxData) = key_offset k + Z.of_nat mm) as ->.
  { assert (u64 maxData = maxData) as -> by (apply Z.mod_small; unfold pk_len in *; widths; lia).
    rewrite Emm. apply Z.mod_small. unfold pk_len in *. widths. lia. }
  assert (u16 (len (drop mm (si_data i))) = pk_len i - Z.of_nat mm) as ->.
  { rewrite length_drop. unfold pk_len in *. widths. rewrite Z.mod_small; lia. }
  destruct (lmi_put_spec (dataInFlightMap (sstream sb sid)) (createPacketKey (key_offset k) (Z.of_nat mm)) left Hwf)
    as (m1 & -> & Hwf1 & Hel1). cbn [mbind go_bind].
  destruct (lmi_put_spec m1 k right Hwf1) as (m2 & -> & Hwf2 & Hel2). cbn [mbind go_bind].
  destruct (lmi_replace_spec m2 k (createPacketKey (key_offset k + Z.of_nat mm) (pk_len i - Z.of_nat mm)) right Hwf2)
    as (m3 & -> & Hwf3 & Hel3). cbn [mbind go_bind].
  fold (flight_of sb sid) in Hel1. rewrite Hel2, Hel1, Erep in Hel3. cbn [fst] in Hel3.
  eexists _, _. split; [done|]. split; [apply flight_step; by rewrite ?Hel3|]. split; [done|].
  split; [apply keeps_flight; by rewrite Hel3|]. split_and!.
  - rewrite length_take_le by lia. rewrite Hdat, read_at_take by lia. done.
  - rewrite length_take. lia.
  - intros x Hx. exists (k, i). split; [done|]. unfold pk_end, pk_len. cbn [fst snd]. rewrite length_take in Hx. lia.
  - exists k, i. split_and!; try done. intros Hpos Hmd E. apply (f_equal length) in E. rewrite length_take in E.
    simpl in E. lia.
Qed.

(** The outcome of a retransmission check. *)
Definition retransmits f sb sid (rto : Z) (md : Z -> Z) (now : Z) (r : go_error + option bytes * Z * bool) : Prop :=
  match r with
  | inl _ => exists k i, head (flight_of sb sid) = Some (k, i) /\ ~ (1 <= sentNr i <= maxRetry)
  | inr (None, _, _) => True
  | inr (Some d, off, _) =>
      resends (f sid) (flight_of sb sid) md d off /\
      exists k i r, head (flight_of sb sid) = Some (k, i) /\ backoff rto (sentNr i) = inr r /\
        r < u64 (now - sentTimeNano i)
  end.

Lemma backoff_error rto n e : backoff rto n = inl e -> ~ (1 <= n <= maxRetry).
Proof. unfold backoff. destruct (n <=? 0) eqn:E1; [lia|]. destruct (n >? maxRetry) eqn:E2; [lia | done]. Qed.

Lemma ReadyToRetransmit_spec f sb sid ack mtu rto msgType now :
  snd_inv f sb -> room_ok msgType ack mtu ->
  exists sb' r, ReadyToRetransmit sb sid ack mtu rto msgType now = Ok (sb', r) /\ snd_inv f sb' /\
    sb_size sb' = sb_size sb /\ keeps sb sid sb' /\ retransmits f sb sid rto (max_data msgType ack mtu) now r.
Proof.
  intros Hi Hroom. unfold ReadyToRetransmit.
  assert (exists sb' r, (mret (sb, inr nothing) : go (SendBuffer M * (go_error + option bytes * Z * bool))) = Ok (sb', r) /\
    snd_inv f sb' /\ sb_size sb' = sb_size sb /\ keeps sb sid sb' /\
    retransmits f sb sid rto (max_data msgType ack mtu) now r) as Hnothing.
  { eexists _, _. split; [done|]. by split_and!. }
  case_decide; [done|]. destruct (sb_streams sb !! sid) as [st|] eqn:Est; [|done].
  assert (sstream sb sid = st) as Ess by (unfold sstream; by rewrite Est). subst st.
  destruct (sstream_inv f sb sid Hi) as [Hwf Hfl Hq Hend]. fold (flight_of sb sid) in Hfl.
  rewrite (lmi_first_spec _ Hwf). fold (flight_of sb sid). cbn [mbind go_bind].
  destruct (head (flight_of sb sid)) as [[k i]|] eqn:Hh; [|done].
  assert ((k, i) ∈ flight_of sb sid) as Hin by (by apply head_Some_elem_of).
  destruct (backoff rto (sentNr i)) as [err|r] eqn:Eb.
  { eexists _, _. split; [done|]. split_and!; try done. exists k, i. split; [done|]. by eapply backoff_error. }
  case_decide as Ht; [done|]. pose proof (fo_entry _ _ _ Hfl (k, i) Hin) as He. destruct (si_pingRequest i) eqn:Eping.
  - destruct (lmi_remove_spec (dataInFlightMap (sstream sb sid)) k Hwf) as (m & -> & Hwf' & Hel). cbn [mbind go_bind].
    fold (flight_of sb sid) in Hel. destruct (flight_remove (f sid) _ _ Hfl k) as (Hfl' & Hrem & Hsum).
    assert (al_get k (flight_of sb sid) = Some i) as Hg by (by apply (get_elem (f sid) _ _ Hfl)).
    pose proof (eo_ping _ _ _ He Eping) as E0. cbn [fst snd] in E0.
    eexists _, _. split; [done|]. split; [apply flight_step; rewrite ?Hel; try done; rewrite Hsum, Hg; simpl; lia|].
    split; [done|]. split; [|done]. apply keeps_flight. intros x. rewrite Hel, Hrem. split; [tauto|].
    intros Hx. split; [done|]. intros j Hj. assert (j = i) as -> by congruence. lia.
  - pose proof (Hroom (key_offset k)) as Hmd. pose proof (eo_len _ _ _ He) as Hlen. cbn [fst snd] in Hlen.
    assert (u16 (len (si_data i)) = pk_len i) as -> by (apply Z.mod_small, Hlen).
    assert (u16 (max_data msgType ack mtu (key_offset k)) = max_data msgType ack mtu (key_offset k)) as ->
      by (apply Z.mod_small; done).
    assert (exists k0 i0 r0, Some (k, i) = Some (k0, i0) /\ backoff rto (sentNr i0) = inr r0 /\ r0 < u64 (now - sentTimeNano i0))
      as Hexp by (exists k, i, r; split_and!; [done | done | lia]).
    case_decide as Hfit.
    + destruct (resend_spec f sb sid k i (pk_len i) now (max_data msgType ack mtu) Hi Hh Hfit eq_refl)
        as (sb' & close & -> & ? & ? & ? & ?).
      eexists _, _. split; [done|]. split_and!; try done. split; [done | by rewrite Hh].
    + destruct (resend_split_spec f sb sid k i (max_data msgType ack mtu (key_offset k)) now (max_data msgType ack mtu) Hi Hh)
        as (sb' & d & -> & ? & ? & ? & ?); [lia | done|].
      eexists _, _. split; [done|]. split_and!; try done. split; [done | by rewrite Hh].
Qed.

(** *** Acknowledgements *)

Definition acks (sb : SendBuffer M) (a : Ack) (sb' : SendBuffer M) (s : AckStatus) : Prop :=
  let sid := ack_streamID a in
  let key := createPacketKey (ack_offset a) (ack_len a) in
  sent_of sb' sid = sent_of sb sid /\ queue_of sb' sid = queue_of sb sid /\
  (forall sid', sid' <> sid -> sstream sb' sid' = sstream sb sid') /\
  match s with
  | AckStatusOk =>
      key ∈ (flight_of sb sid).*1 /\ sb_size sb' = sb_size sb - ack_len a /\
      (forall x, in_flight (flight_of sb' sid) x <->
         in_flight (flight_of sb sid) x /\ ~ (ack_offset a <= x < ack_offset a + ack_len a)) /\
      flight_of sb' sid = al_remove key (flight_of sb sid)
  | AckDup => is_Some (sb_streams sb !! sid) /\ key ∉ (flight_of sb sid).*1 /\
      sb_size sb' = sb_size sb /\ flight_of sb' sid = flight_of sb sid
  | AckNoStream => sb_streams sb !! sid = None /\ sb' = sb
  end.

Lemma AcknowledgeRange_spec f sb a :
  snd_inv f sb -> 0 <= ack_offset a < 2 ^ 48 -> is_u16 (ack_len a) ->
  exists sb' s t, AcknowledgeRange sb a = Ok (sb', (s, t)) /\ snd_inv f sb' /\ acks sb a sb' s.
Proof.
  intros Hi Ho Hl. unfold AcknowledgeRange. set (sid := ack_streamID a).
  destruct (sb_streams sb !! sid) as [st|] eqn:Est; [|exists sb, AckNoStream, 0; by split_and!].
  assert (sstream sb sid = st) as Ess by (unfold sstream; by rewrite Est). subst st.
  destruct (sstream_inv f sb sid Hi) as [Hwf Hfl Hq Hend]. fold (flight_of sb sid) in Hfl.
  set (k := createPacketKey (ack_offset a) (ack_len a)).
  destruct (lmi_remove_spec (dataInFlightMap (sstream sb sid)) k Hwf) as (m & -> & Hwf' & Hel). cbn [mbind go_bind].
  fold (flight_of sb sid) in Hel |- *. destruct (flight_remove (f sid) _ _ Hfl k) as (Hfl' & Hrem & Hsum).
  set (sb1 := sb_set sb sid (with_inflight (sstream sb sid) m)).
  assert (forall sid', sstream sb1 sid' = if decide (sid' = sid) then with_inflight (sstream sb sid) m else sstream sb sid')
    as Eat by (intros; apply sstream_set).
  assert (flight_of sb1 sid = al_remove k (flight_of sb sid)) as Ef by (unfold flight_of at 1; by rewrite Eat, decide_True).
  assert (sent_of sb1 sid = sent_of sb sid /\ queue_of sb1 sid = queue_of sb sid /\
    (forall sid', sid' <> sid -> sstream sb1 sid' = sstream sb sid')) as (Es & Eq & Eo).
  { unfold sent_of, queue_of. rewrite Eat, decide_True by done. split_and!; try done.
    intros sid' Hne. by rewrite Eat, decide_False. }
  destruct (al_get k (flight_of sb sid)) as [i|] eqn:Hg.
  - pose proof Hg as Hin. apply (get_elem (f sid) _ _ Hfl) in Hin.
    destruct (entry_key_eq (f sid) _ _ Hfl (k, i) _ _ Hin eq_refl Ho Hl) as [Eko Elen]. cbn [fst snd] in Eko, Elen.
    eexists _, _, _. split; [done|]. split.
    + apply snd_step; [done | | |].
      * constructor; simpl; [done | by rewrite Hel | done | done].
      * unfold stream_total. simpl. rewrite Hel, Hsum. simpl. unfold pk_len in *. fold (flight_of sb sid). lia.
      * pose proof (sv_capacity _ _ Hi). simpl. lia.
    + split_and!; try done.
      * fold sid k. apply list_elem_of_fmap. by exists (k, i).
      * simpl. unfold pk_len in Elen. lia.
      * intros x. change (in_flight (flight_of sb1 sid) x <->
          in_flight (flight_of sb sid) x /\ ~ (ack_offset a <= x < ack_offset a + ack_len a)).
        rewrite Ef, Hrem, Eko. split; (intros [? Hn]; split; [done|]).
        -- specialize (Hn i eq_refl). by rewrite Elen in Hn.
        -- intros j [= <-]. by rewrite Elen.
  - apply al_get_None in Hg. rewrite al_remove_notin in * by done.
    eexists _, _, _. split; [done|]. split; [apply flight_step; by rewrite ?Hel|]. split_and!; done.
Qed.
End spec.

(** ** Properties *)

(** Packet keys: offset (48 bits) and length (16 bits) are recovered from the
    key, so distinct packets have distinct keys. *)
Theorem packet_key_roundtrip (o l : Z) :
  0 <= o < 2 ^ 48 -> is_u16 l ->
  key_offset (createPacketKey o l) = o /\ key_length (createPacketKey o l) = l /\
  is_u64 (createPacketKey o l).
Proof.
  intros Ho Hl. split_and!; [by apply key_offset_create | by apply key_length_create|].
  rewrite createPacketKey_val by done. widths. lia.
Qed.

Lemma packet_key_roundtrip_witness :
  key_offset (createPacketKey (2 ^ 48 - 1) 65535) = 2 ^ 48 - 1 /\ key_length (createPacketKey (2 ^ 48 - 1) 65535) = 65535.
Proof.
  destruct (packet_key_roundtrip (2 ^ 48 - 1) 65535) as (H1 & H2 & _); [lia | by widths|]. split; [exact H1 | exact H2].
Defined.

Section properties.
Context {M : Type} `{!LinkedMapOps M packetKey SendInfo} `{!LinkedMapSpec M packetKey SendInfo}.
Implicit Types (sb : SendBuffer M) (sid : Z).

(** C17. Queueing: the buffer takes exactly the bytes that fit ([n] is the smaller
    of the length and the free capacity), appends them to the queue of the
    stream, and counts them; the status says whether all were taken.  The
    invariant (queue and packets in flight are parts of the written stream, and
    the size is exactly their bytes, within the capacity) is kept. *)
Theorem snd_queue_exact (f : Z -> Z -> Z) sb sid (d : bytes) :
  snd_inv f sb ->
  let n := Z.min (len d) (sb_capacity sb - sb_size sb) in
  take (Z.to_nat n) d = read_at (f sid) (sent_of sb sid + len (queue_of sb sid)) (Z.to_nat n) ->
  sent_of sb sid + len (queue_of sb sid) + len d < 2 ^ 48 ->
  exists sb' status, QueueData sb sid d = Ok (sb', (n, status)) /\ snd_inv f sb' /\ sb_size sb' = sb_size sb + n /\
    sb_capacity sb' = sb_capacity sb /\
    queue_of sb' sid = queue_of sb sid ++ take (Z.to_nat n) d /\
    sent_of sb' sid = sent_of sb sid /\ flight_of sb' sid = flight_of sb sid /\
    (forall sid', sid' <> sid -> sstream sb' sid' = sstream sb sid') /\
    (status = InsertStatusNoData <-> d = []) /\ (status = InsertStatusSndFull <-> n < len d).
Proof. apply QueueData_spec. Qed.

(** C15. Sending: [ReadyToSend] returns; a packet it hands out holds the next bytes
    of the stream, as many as the room the message type leaves and the queue
    allow (none for a ping), they are taken off the queue and are in flight;
    nothing is handed out only when the queue is empty; the close flag is set only when everything up to the close offset is sent. *)
Theorem snd_send_next (f : Z -> Z -> Z) sb sid msgType ack mtu now :
  snd_inv f sb -> room_ok msgType ack mtu ->
  exists sb' data off close,
    ReadyToSend sb sid msgType ack mtu now = Ok (sb', (data, off, close)) /\ snd_inv f sb' /\ sb_size sb' = sb_size sb /\
    match data with
    | None => sb' = sb /\ queue_of sb sid = []
    | Some d => sends f sb sid sb' d /\ len d <= max_data msgType ack mtu (sent_of sb sid) /\
        (off = sent_of sb sid \/ d = [] /\ off = 0) /\
        (len d = if pingRequest (sstream sb sid) then 0
                 else Z.min (max_data msgType ack mtu (sent_of sb sid)) (len (queue_of sb sid))) /\
        (close = true -> exists c, sb_closeAtOffset (sstream sb sid) = Some c /\ c <= sent_of sb' sid)
    end.
Proof. apply ReadyToSend_spec. Qed.

(** C14. Retransmission loses nothing: whatever [ReadyToRetransmit] decides (wait,
    resend, split the packet for a smaller room, drop a ping, give up), exactly
    the same positions stay in flight, the size does not change, and the packet
    handed out holds bytes of the stream that are in flight, fits, and its timeout
    with backoff has passed; it gives up only after the maximal number of
    retries. *)
Theorem snd_retransmit_keeps_data (f : Z -> Z -> Z) sb sid ack mtu rto msgType now :
  snd_inv f sb -> room_ok msgType ack mtu ->
  exists sb' r, ReadyToRetransmit sb sid ack mtu rto msgType now = Ok (sb', r) /\ snd_inv f sb' /\
    sb_size sb' = sb_size sb /\ keeps sb sid sb' /\ retransmits f sb sid rto (max_data msgType ack mtu) now r.
Proof. apply ReadyToRetransmit_spec. Qed.

(** C16. Acknowledgement: an acknowledgement of a packet in flight takes exactly
    its positions out of flight and its bytes out of the size and is reported as
    accepted; one that names no packet in flight of a stream the buffer has is
    reported as duplicate, and one of a stream the buffer does not have as
    [AckNoStream], and these two change nothing.  The three cases exclude each
    other, so each status is reported in exactly its case.  The queue, the next
    offset and all other streams stay as they are. *)
Theorem snd_ack_exact (f : Z -> Z -> Z) sb (a : Ack) :
  snd_inv f sb -> 0 <= ack_offset a < 2 ^ 48 -> is_u16 (ack_len a) ->
  exists sb' s t, AcknowledgeRange sb a = Ok (sb', (s, t)) /\ snd_inv f sb' /\ acks sb a sb' s.
Proof. apply AcknowledgeRange_spec. Qed.

Lemma NewSendBuffer_inv (f : Z -> Z -> Z) cap : 0 <= cap -> snd_inv f (NewSendBuffer cap : SendBuffer M).
Proof.
  intros Hc. constructor; [|unfold NewSendBuffer; cbn [sb_streams sb_size]; by rewrite map_sum_empty|done].
  intros sid st Hst. unfold NewSendBuffer in Hst. cbn [sb_streams] in Hst. by rewrite lookup_empty in Hst.
Qed.
End properties.

(** ** Witnesses, on the linked map of the program *)

Definition snd100 : SendBuffer (LinkedMap Z SendInfo) := NewSendBuffer 100.

Definition ok_or {A} (a : A) (x : go A) : A := match x with Ok b => b | _ => a end.

(** Five bytes queued on stream 7, then sent. *)
Definition queued5 : SendBuffer (LinkedMap Z SendInfo) :=
  (ok_or (snd100, (0, InsertStatusOk)) (QueueData snd100 7 [0; 1; 2; 3; 4])).1.
Definition sent5 : SendBuffer (LinkedMap Z SendInfo) :=
  (ok_or (queued5, nothing) (ReadyToSend queued5 7 Data None 1400 1000)).1.

Lemma snd100_inv : snd_inv counting snd100.
Proof. by apply NewSendBuffer_inv. Qed.

Lemma room_1400 : room_ok Data None 1400.
Proof.
  intros o. unfold max_data. rewrite decide_False by done. unfold calcCryptoOverheadWithData. simpl.
  destruct (o >? 16777215); vm_compute; split; congruence.
Qed.

Lemma queued5_inv : snd_inv counting queued5.
Proof.
  destruct (QueueData_spec counting snd100 7 [0; 1; 2; 3; 4]) as (sb & st & E & Hi & _);
    [apply snd100_inv | reflexivity | reflexivity|].
  unfold queued5. by rewrite E.
Qed.

Lemma sent5_inv : snd_inv counting sent5.
Proof.
  destruct (ReadyToSend_spec counting queued5 7 Data None 1400 1000 queued5_inv room_1400)
    as (sb & d & off & c & E & Hi & _).
  unfold sent5. by rewrite E.
Qed.

Lemma snd_queue_exact_witness :
  exists sb n st, QueueData snd100 7 [0; 1; 2; 3; 4] = Ok (sb, (n, st)) /\ n = 5 /\ snd_inv counting sb.
Proof.
  destruct (snd_queue_exact counting snd100 7 [0; 1; 2; 3; 4]) as (sb & st & E & Hi & _);
    [apply snd100_inv | reflexivity | reflexivity|].
  exists sb, 5, st. split; [exact E|]. split; [reflexivity | exact Hi].
Defined.

Lemma snd_send_next_witness :
  exists sb data off close, ReadyToSend queued5 7 Data None 1400 1000 = Ok (sb, (data, off, close)) /\
    data = Some [0; 1; 2; 3; 4] /\ snd_inv counting sb.
Proof.
  destruct (snd_send_next counting queued5 7 Data None 1400 1000 queued5_inv room_1400)
    as (sb & d & off & c & E & Hi & _).
  exists sb, d, off, c. split; [exact E|]. split; [|exact Hi]. vm_compute in E. congruence.
Defined.

Lemma snd_retransmit_keeps_data_witness :
  exists sb r, ReadyToRetransmit sent5 7 None 1400 1000 Data 5000 = Ok (sb, r) /\
    r = inr (Some [0; 1; 2; 3; 4], 0, false) /\ keeps sent5 7 sb.
Proof.
  destruct (snd_retransmit_keeps_data counting sent5 7 None 1400 1000 Data 5000 sent5_inv room_1400)
    as (sb & r & E & _ & _ & Hk & _).
  exists sb, r. split; [exact E|]. split; [|exact Hk]. vm_compute in E. congruence.
Defined.

Lemma snd_ack_exact_witness :
  exists sb s t, AcknowledgeRange sent5 (mkAck 7 0 5 0) = Ok (sb, (s, t)) /\ s = AckStatusOk /\
    acks sent5 (mkAck 7 0 5 0) sb s.
Proof.
  destruct (snd_ack_exact counting sent5 (mkAck 7 0 5 0)) as (sb & s & t & E & _ & Ha);
    [exact sent5_inv | simpl; lia | by widths|].
  exists sb, s, t. split; [exact E|]. split; [|exact Ha]. vm_compute in E. congruence.
Defined.

(** ** Corner cases of the code *)

(** After a split the left part is the last entry, so the reported
    acknowledged offset is that of the right part although the left part is
    still in flight. *)
Theorem snd_acked_offset_skips_left_part :
  match ReadyToRetransmit sent5 7 None 42 1000 Data 5000 with
  | Ok (sb, r) => r = inr (Some [0; 1; 2], 0, false) /\ GetOffsetAcked sb 7 = Ok 3 /\
      al_mem (createPacketKey 0 3) (flight_of sb 7) = true
  | _ => False
  end.
Proof. vm_compute. split_and!; reflexivity. Qed.

(** A ping is in flight under the current offset but is sent with offset 0:
    once data was sent, its acknowledgement is taken for a duplicate. *)
Theorem snd_ping_ack_is_duplicate :
  match ReadyToSend (QueuePing sent5 7) 7 Data None 1400 2000 with
  | Ok (sb, r) => r = (Some [], 0, false) /\
      match AcknowledgeRange sb (mkAck 7 0 0 0) with Ok (_, (s, _)) => s = AckDup | _ => False end
  | _ => False
  end.
Proof. vm_compute. split; reflexivity. Qed.

(** Without room (the overhead exceeds the MTU) the negative room becomes a
    huge unsigned length and the whole queue is sent in one packet. *)
Theorem snd_negative_room_sends_all :
  match ReadyToSend queued5 7 Data None 10 1000 with
  | Ok (_, r) => max_data Data None 10 0 < 0 /\ r = (Some [0; 1; 2; 3; 4], 0, false)
  | _ => False
  end.
Proof. vm_compute. split; reflexivity. Qed.
