(* ===== verification/Delivery.v ===== *)
(** * Delivery: sender, network and receiver together

    One direction of a connection: the application writes to the send buffer
    (src/snd.go), the connection turns what [ReadyToSend] and
    [ReadyToRetransmit] hand out into payloads (src/proto.go, as
    [Conn.sendPacket] in src/conn.go does), the network loses, reorders and
    duplicates payloads at will, the receiver decodes them and inserts the data
    into the receive buffer (src/rcv.go, as [Conn.decode] does), and the
    application reads.  Acknowledgements are arbitrary values of the wire ranges:
    the safety of the delivered bytes does not depend on them.  The system is a
    step relation; the theorem is an invariant of its reachable states. *)

From stdpp Require Import prelude gmap list numbers strings relations.
From S2P Require Import Prelude Proto Measurement Interfaces LinkedMap SortedMap Rcv Crypto Snd.
Open Scope Z_scope.

Record system := mkSystem {
  sys_snd : SendBuffer (LinkedMap Z SendInfo);
  sys_rcv : ReceiveBuffer (SortedMap RcvValue);
  sys_net : list bytes;             (* every payload ever sent *)
  sys_written : Z -> bytes;         (* accepted from the application, by stream *)
  sys_delivered : Z -> bytes;       (* returned to the application, by stream *)
}.

Definition init (sndCap rcvCap : Z) : system :=
  mkSystem (NewSendBuffer sndCap) (NewReceiveBuffer rcvCap) [] (fun _ => []) (fun _ => []).

(** Append to the bytes of one stream. *)
Definition extend (w : Z -> bytes) (sid : Z) (d : bytes) : Z -> bytes :=
  fun s => if decide (s = sid) then w s ++ d else w s.

(** The payload of a data packet. *)
Definition packet sid off close (ack : option Ack) : PayloadHeader := mkPayloadHeader close ack sid off.

Inductive step (s : system) : system -> Prop :=
  | step_write sid d snd' n status :
      is_u32 sid -> len (sys_written s sid) + len d < 2 ^ 48 ->
      QueueData (sys_snd s) sid d = Ok (snd', (n, status)) ->
      step s (mkSystem snd' (sys_rcv s) (sys_net s) (extend (sys_written s) sid (take (Z.to_nat n) d)) (sys_delivered s))
  | step_ping sid :
      step s (mkSystem (QueuePing (sys_snd s) sid) (sys_rcv s) (sys_net s) (sys_written s) (sys_delivered s))
  | step_close sid :
      step s (mkSystem (Snd.Close (sys_snd s) sid) (sys_rcv s) (sys_net s) (sys_written s) (sys_delivered s))
  | step_send sid msgType ack mtu now snd' d off close b n :
      is_u32 sid -> room_ok msgType ack mtu -> wf_payload (packet 0 0 close ack) ->
      ReadyToSend (sys_snd s) sid msgType ack mtu now = Ok (snd', (Some d, off, close)) ->
      EncodePayload (packet sid off close ack) (Some d) = Ok (b, n) ->
      step s (mkSystem snd' (sys_rcv s) (b :: sys_net s) (sys_written s) (sys_delivered s))
  | step_retransmit sid msgType ack mtu rto now snd' d off close b n :
      is_u32 sid -> room_ok msgType ack mtu -> wf_payload (packet 0 0 close ack) ->
      ReadyToRetransmit (sys_snd s) sid ack mtu rto msgType now = Ok (snd', inr (Some d, off, close)) ->
      EncodePayload (packet sid off close ack) (Some d) = Ok (b, n) ->
      step s (mkSystem snd' (sys_rcv s) (b :: sys_net s) (sys_written s) (sys_delivered s))
  | step_retransmit_idle sid msgType ack mtu rto now snd' r :
      room_ok msgType ack mtu ->
      ReadyToRetransmit (sys_snd s) sid ack mtu rto msgType now = Ok (snd', r) ->
      (forall d off close, r <> inr (Some d, off, close)) ->
      step s (mkSystem snd' (sys_rcv s) (sys_net s) (sys_written s) (sys_delivered s))
  | step_send_ack sid ack close b n :
      is_u32 sid -> wf_payload (packet 0 0 close ack) ->
      EncodePayload (packet sid 0 close ack) None = Ok (b, n) ->
      step s (mkSystem (sys_snd s) (sys_rcv s) (b :: sys_net s) (sys_written s) (sys_delivered s))
  | step_receive b p d now rcv' status :
      b ∈ sys_net s -> DecodePayload b = Ok (inr (p, Some d)) -> d <> [] ->
      Insert (sys_rcv s) (StreamID p) (StreamOffset p) now d = Ok (rcv', status) ->
      step s (mkSystem (sys_snd s) rcv' (sys_net s) (sys_written s) (sys_delivered s))
  | step_receive_empty b p ud now :
      b ∈ sys_net s -> DecodePayload b = Ok (inr (p, ud)) ->
      step s (mkSystem (sys_snd s) (EmptyInsert (sys_rcv s) (StreamID p) (StreamOffset p) now).1 (sys_net s)
                (sys_written s) (sys_delivered s))
  | step_receive_close b p ud :
      b ∈ sys_net s -> DecodePayload b = Ok (inr (p, ud)) -> IsClose p = true ->
      step s (mkSystem (sys_snd s) (Rcv.Close (sys_rcv s) (StreamID p) (StreamOffset p)) (sys_net s)
                (sys_written s) (sys_delivered s))
  | step_take_ack rcv' a :
      GetSndAck (sys_rcv s) = (rcv', a) ->
      step s (mkSystem (sys_snd s) rcv' (sys_net s) (sys_written s) (sys_delivered s))
  | step_ack a snd' r :
      wf_ack a -> AcknowledgeRange (sys_snd s) a = Ok (snd', r) ->
      step s (mkSystem snd' (sys_rcv s) (sys_net s) (sys_written s) (sys_delivered s))
  | step_read sid rcv' off data t :
      RemoveOldestInOrder (sys_rcv s) sid = Ok (rcv', (off, data, t)) ->
      step s (mkSystem (sys_snd s) rcv' (sys_net s) (sys_written s) (extend (sys_delivered s) sid (default [] data))).

(** ** The invariant *)

(** [f] continues the written bytes of every stream. *)
Definition continues (f : Z -> Z -> Z) (w : Z -> bytes) : Prop :=
  forall sid, w sid = read_at (f sid) 0 (length (w sid)).

(** A payload in the network carries bytes of the stream it names. *)
Definition payload_ok (f : Z -> Z -> Z) (b : bytes) : Prop :=
  forall p d, DecodePayload b = Ok (inr (p, Some d)) -> d <> [] -> segment_of (f (StreamID p)) (StreamOffset p) d.

Record sys_inv (s : system) : Prop := {
  inv_written sid : len (sys_written s sid) = sent_of (sys_snd s) sid + len (queue_of (sys_snd s) sid);
  inv_delivered sid : len (sys_delivered s sid) = next_of (sys_rcv s) sid;
  inv_snd f : continues f (sys_written s) -> snd_inv f (sys_snd s);
  inv_rcv f : continues f (sys_written s) -> rcv_ok f (sys_rcv s);
  inv_size : size_ok (sys_rcv s);
  inv_net f b : continues f (sys_written s) -> b ∈ sys_net s -> payload_ok f b;
  inv_out f sid : continues f (sys_written s) ->
    sys_delivered s sid = read_at (f sid) 0 (length (sys_delivered s sid));
}.

(** Some stream continues the written bytes. *)
Definition written_stream (w : Z -> bytes) (x0 : Z) : Z -> Z -> Z :=
  fun sid x => default x0 (w sid !! Z.to_nat x).

Lemma written_stream_continues w x0 : continues (written_stream w x0) w.
Proof.
  intros sid. apply list_eq. intros i. destruct (decide (i < length (w sid))%nat) as [Hi|Hi].
  - rewrite read_at_lookup by done. unfold written_stream. rewrite Z.add_0_l, Nat2Z.id.
    destruct (lookup_lt_is_Some_2 (w sid) i Hi) as [v ->]. done.
  - rewrite !lookup_ge_None_2; rewrite ?read_at_length; (done || lia).
Qed.

Lemma continues_extend f w sid d : continues f (extend w sid d) -> continues f w.
Proof.
  intros Hc s. specialize (Hc s). unfold extend in Hc. case_decide; [|done].
  rewrite length_app, read_at_app in Hc. apply app_inj_1 in Hc as [? _]; [done|]. by rewrite read_at_length.
Qed.

Lemma extend_bytes f w sid d : continues f (extend w sid d) -> d = read_at (f sid) (len (w sid)) (length d).
Proof.
  intros Hc. specialize (Hc sid). unfold extend in Hc. rewrite decide_True in Hc by done.
  rewrite length_app, read_at_app in Hc. apply app_inj_1 in Hc as [_ ?]; [done|]. by rewrite read_at_length.
Qed.

(** Bytes that every continuation agrees on were written. *)
Lemma forced_prefix (w : Z -> bytes) sid (out : bytes) :
  (forall f, continues f w -> out = read_at (f sid) 0 (length out)) -> out `prefix_of` w sid.
Proof.
  intros Hall. pose proof (Hall _ (written_stream_continues w 0)) as H0.
  destruct (decide (length out <= length (w sid))%nat) as [Hle|Hgt].
  - exists (drop (length out) (w sid)). rewrite <- (take_drop (length out) (w sid)) at 1. f_equal.
    etrans; [exact (f_equal (take (length out)) (written_stream_continues w 0 sid))|].
    by rewrite read_at_take by done.
  - exfalso. pose proof (Hall _ (written_stream_continues w 1)) as H1. rewrite H0 in H1 at 1.
    apply (f_equal (lookup (length (w sid)))) in H1. rewrite !read_at_lookup in H1 by lia.
    unfold written_stream in H1. rewrite Z.add_0_l, Nat2Z.id, lookup_ge_None_2 in H1 by lia. done.
Qed.

(** ** Every step keeps it *)

Lemma inv_init sndCap rcvCap : 0 <= sndCap -> 0 <= rcvCap -> sys_inv (init sndCap rcvCap).
Proof.
  intros H1 H2. constructor.
  - intros sid. unfold sent_of, queue_of, sstream. simpl. by rewrite lookup_empty.
  - intros sid. unfold next_of, stream_at. simpl. by rewrite lookup_empty.
  - intros f _. by apply NewSendBuffer_inv.
  - intros f _. by apply NewReceiveBuffer_exact.
  - pose proof (NewReceiveBuffer_exact (M := SortedMap RcvValue) counting rcvCap H2) as He.
    unfold size_ok. cbn [init sys_rcv]. rewrite <- (re_size _ _ He). simpl. lia.
  - intros f b _ Hb. by apply not_elem_of_nil in Hb.
  - done.
Qed.

(** A continuation of the written bytes, to read off what does not depend on it. *)
Definition some_stream (s : system) : Z -> Z -> Z := written_stream (sys_written s) 0.

Lemma some_snd s : sys_inv s -> snd_inv (some_stream s) (sys_snd s).
Proof. intros Hi. apply Hi, written_stream_continues. Qed.

Lemma some_rcv s : sys_inv s -> rcv_ok (some_stream s) (sys_rcv s).
Proof. intros Hi. apply Hi, written_stream_continues. Qed.

(** The sender changes, the written bytes stay. *)
Lemma inv_sender s snd' net' :
  sys_inv s ->
  (forall sid, sent_of snd' sid + len (queue_of snd' sid) = sent_of (sys_snd s) sid + len (queue_of (sys_snd s) sid)) ->
  (forall f, continues f (sys_written s) -> snd_inv f snd') ->
  (forall f b, continues f (sys_written s) -> b ∈ net' -> payload_ok f b) ->
  sys_inv (mkSystem snd' (sys_rcv s) net' (sys_written s) (sys_delivered s)).
Proof. intros [] Hlen Hsnd Hnet. constructor; try done. intros sid. cbn [sys_written sys_snd]. rewrite Hlen. auto. Qed.

(** A payload built by the sender decodes to the bytes it carries. *)
Lemma sent_payload_ok f sid off close ack d b n :
  is_u32 sid -> is_u48 off -> wf_payload (packet 0 0 close ack) ->
  EncodePayload (packet sid off close ack) (Some d) = Ok (b, n) ->
  (d <> [] -> segment_of (f sid) off d) -> payload_ok f b.
Proof.
  intros Hs Ho Hw He Hd. assert (wf_payload (packet sid off close ack)) as Hwf by (destruct Hw as (_ & _ & ?); by split_and!).
  rewrite EncodePayload_spec in He by done. injection He as <- _. intros p d' Hdec Hne.
  rewrite DecodePayload_spec in Hdec by done. unfold received, ack_only in Hdec.
  rewrite (bool_decide_false (Some d = None)), andb_false_r in Hdec by done. injection Hdec as <- <-. by apply Hd.
Qed.

Lemma segment_of_sent f o d sent : 0 <= o -> o + len d <= sent -> sent < 2 ^ 48 -> d = read_at f o (length d) -> segment_of f o d.
Proof. intros. split_and!; try done; widths; lia. Qed.

Lemma step_write_inv s sid d snd' n status :
  sys_inv s -> is_u32 sid -> len (sys_written s sid) + len d < 2 ^ 48 ->
  QueueData (sys_snd s) sid d = Ok (snd', (n, status)) ->
  sys_inv (mkSystem snd' (sys_rcv s) (sys_net s) (extend (sys_written s) sid (take (Z.to_nat n) d)) (sys_delivered s)).
Proof.
  intros Hi Hsid Hlt E. pose proof (inv_written _ Hi sid) as Hw.
  set (n0 := Z.min (len d) (sb_capacity (sys_snd s) - sb_size (sys_snd s))).
  pose proof (sv_capacity _ _ (some_snd s Hi)) as Hcap.
  assert (forall f, continues f (extend (sys_written s) sid (take (Z.to_nat n0) d)) ->
    exists sb' st, QueueData (sys_snd s) sid d = Ok (sb', (n0, st)) /\ snd_inv f sb' /\
      queue_of sb' sid = queue_of (sys_snd s) sid ++ take (Z.to_nat n0) d /\ sent_of sb' sid = sent_of (sys_snd s) sid /\
      (forall sid', sid' <> sid -> sstream sb' sid' = sstream (sys_snd s) sid')) as Hq.
  { intros f Hc. pose proof (continues_extend _ _ _ _ Hc) as Hc0. pose proof (extend_bytes _ _ _ _ Hc) as Hb.
    destruct (QueueData_spec f (sys_snd s) sid d (inv_snd _ Hi f Hc0)) as (sb' & st & ? & ? & ? & ? & ? & ? & ? & ? & ?).
    - fold n0. rewrite <- Hw. rewrite Hb at 1. f_equal. rewrite length_take. lia.
    - rewrite <- Hw. done.
    - exists sb', st. split_and!; done. }
  destruct (Hq _ (written_stream_continues _ 0)) as (sb' & st & E' & _ & Equ & Es & Eo).
  rewrite E in E'. injection E' as -> -> _. destruct Hi as [I1 I2 I3 I4 I5 I6 I7]. constructor; cbn; try done.
  - intros sid'. unfold extend. case_decide as Hs.
    + subst. rewrite length_app, Equ, Es, length_app. rewrite Nat2Z.inj_add, Hw. lia.
    + unfold sent_of, queue_of. rewrite Eo by done. apply I1.
  - intros f Hc. destruct (Hq f Hc) as (sb2 & st2 & E2 & Hinv & _). rewrite E in E2. by injection E2 as -> _.
  - intros f Hc. by apply I4, (continues_extend _ _ sid (take (Z.to_nat n0) d)).
  - intros f b Hc. by apply I6, (continues_extend _ _ sid (take (Z.to_nat n0) d)).
  - intros f sid' Hc. by apply I7, (continues_extend _ _ sid (take (Z.to_nat n0) d)).
Qed.

Lemma step_send_inv s sid msgType ack mtu now snd' d off close b n :
  sys_inv s -> is_u32 sid -> room_ok msgType ack mtu -> wf_payload (packet 0 0 close ack) ->
  ReadyToSend (sys_snd s) sid msgType ack mtu now = Ok (snd', (Some d, off, close)) ->
  EncodePayload (packet sid off close ack) (Some d) = Ok (b, n) ->
  sys_inv (mkSystem snd' (sys_rcv s) (b :: sys_net s) (sys_written s) (sys_delivered s)).
Proof.
  intros Hi Hsid Hroom Hack E Eb.
  assert (forall f, continues f (sys_written s) -> snd_inv f snd' /\ sends f (sys_snd s) sid snd' d /\
    (off = sent_of (sys_snd s) sid \/ d = [] /\ off = 0)) as Hs.
  { intros f Hc. destruct (ReadyToSend_spec f (sys_snd s) sid msgType ack mtu now (inv_snd _ Hi f Hc) Hroom)
      as (sb & data & o & c & E' & ? & _ & Hd). rewrite E in E'. injection E' as <- <- <- <-.
    destruct Hd as (? & _ & ? & _). done. }
  destruct (Hs _ (written_stream_continues _ 0)) as (Hinv0 & (_ & Hle & Es & Eq & _ & Eo & _) & Hoff).
  pose proof (si_flight _ _ (sstream_inv _ _ sid (some_snd s Hi))) as Hfl. pose proof (fo_sent _ _ _ Hfl) as Hsent.
  pose proof (si_flight _ _ (sstream_inv _ _ sid Hinv0)) as Hfl'. pose proof (fo_sent _ _ _ Hfl') as Hsent'.
  fold (sent_of (sys_snd s) sid) in Hsent. fold (sent_of snd' sid) in Hsent'. apply inv_sender; [done | | |].
  - intros sid'. destruct (decide (sid' = sid)) as [->|Hne]; [|unfold sent_of, queue_of; by rewrite Eo].
    rewrite Es, Eq, length_drop. lia.
  - intros f Hc. by apply Hs.
  - intros f b' Hc [->|Hb]%elem_of_cons; [|by apply (inv_net _ Hi)].
    destruct (Hs f Hc) as (_ & (Hd & _) & _). eapply sent_payload_ok; [done | | done | done |].
    + destruct Hoff as [->|[_ ->]]; [widths; lia | by widths].
    + intros Hne. destruct Hoff as [->|[? _]]; [|done]. apply segment_of_sent with (sent_of snd' sid); [lia | lia | lia | done].
Qed.

(** Retransmission: the bytes of the stream stay where they are. *)
Lemma retransmit_inv s sid msgType ack mtu rto now snd' r f :
  sys_inv s -> room_ok msgType ack mtu -> continues f (sys_written s) ->
  ReadyToRetransmit (sys_snd s) sid ack mtu rto msgType now = Ok (snd', r) ->
  snd_inv f snd' /\ keeps (sys_snd s) sid snd' /\
  retransmits f (sys_snd s) sid rto (max_data msgType ack mtu) now r.
Proof.
  intros Hi Hroom Hc E.
  destruct (ReadyToRetransmit_spec f (sys_snd s) sid ack mtu rto msgType now (inv_snd _ Hi f Hc) Hroom)
    as (sb & r' & E' & ? & _ & ? & ?). rewrite E in E'. injection E' as <- <-. done.
Qed.

Lemma keeps_len (sb sb' : SendBuffer (LinkedMap Z SendInfo)) sid sid' :
  keeps sb sid sb' -> sent_of sb' sid' + len (queue_of sb' sid') = sent_of sb sid' + len (queue_of sb sid').
Proof.
  intros (_ & Es & Eq & Eo). destruct (decide (sid' = sid)) as [->|Hne]; [by rewrite Es, Eq|].
  unfold sent_of, queue_of. by rewrite Eo.
Qed.

Lemma step_retransmit_inv s sid msgType ack mtu rto now snd' r net' :
  sys_inv s -> room_ok msgType ack mtu ->
  ReadyToRetransmit (sys_snd s) sid ack mtu rto msgType now = Ok (snd', r) ->
  (forall f b, continues f (sys_written s) ->
     retransmits f (sys_snd s) sid rto (max_data msgType ack mtu) now r -> b ∈ net' -> payload_ok f b) ->
  sys_inv (mkSystem snd' (sys_rcv s) net' (sys_written s) (sys_delivered s)).
Proof.
  intros Hi Hroom E Hnet. apply inv_sender; [done | | |].
  - intros sid'. apply keeps_len with sid.
    by destruct (retransmit_inv s sid msgType ack mtu rto now snd' r _ Hi Hroom (written_stream_continues _ 0) E) as (_ & ? & _).
  - intros f Hc. by destruct (retransmit_inv s sid msgType ack mtu rto now snd' r f Hi Hroom Hc E) as (? & _).
  - intros f b Hc. apply Hnet; [done|].
    by destruct (retransmit_inv s sid msgType ack mtu rto now snd' r f Hi Hroom Hc E) as (_ & _ & ?).
Qed.

Lemma resent_payload_ok s f sid d off close ack b n md :
  sys_inv s -> continues f (sys_written s) -> is_u32 sid -> wf_payload (packet 0 0 close ack) ->
  resends (f sid) (flight_of (sys_snd s) sid) md d off ->
  EncodePayload (packet sid off close ack) (Some d) = Ok (b, n) -> payload_ok f b.
Proof.
  intros Hi Hc Hsid Hack (Hd & _ & Hin & k & i & Hh & Eoff & _) Eb.
  pose proof (si_flight _ _ (sstream_inv _ _ sid (inv_snd _ Hi f Hc))) as Hfl.
  fold (flight_of (sys_snd s) sid) (sent_of (sys_snd s) sid) in Hfl. pose proof (fo_sent _ _ _ Hfl) as Hsent.
  assert ((k, i) ∈ flight_of (sys_snd s) sid) as Hki by (by apply head_Some_elem_of).
  destruct (fo_entry _ _ _ Hfl _ Hki) as [Ho He _ _ _ _]. unfold pk_end in He. cbn [fst snd] in Ho, He.
  pose proof (pk_len_nonneg i). rewrite <- Eoff in *.
  apply (sent_payload_ok f sid off close ack d b n); [done | widths; lia | done | done|]. intros Hne.
  apply segment_of_sent with (sent_of (sys_snd s) sid); [done | | lia | done].
  destruct (Hin (off + len d - 1)) as (e & Hein & Hx).
  - assert (0 < len d); [destruct d; [done | simpl; lia] | lia].
  - pose proof (eo_end _ _ _ (fo_entry _ _ _ Hfl e Hein)). lia.
Qed.

(** The receiver changes, nothing is read. *)
Lemma inv_receiver s rcv' :
  sys_inv s -> (forall sid, next_of rcv' sid = next_of (sys_rcv s) sid) ->
  (forall f, continues f (sys_written s) -> rcv_ok f rcv') -> size_ok rcv' ->
  sys_inv (mkSystem (sys_snd s) rcv' (sys_net s) (sys_written s) (sys_delivered s)).
Proof. intros [] Hn Hok Hsz. constructor; try done. intros sid. cbn [sys_rcv sys_delivered]. rewrite Hn. auto. Qed.

Lemma step_receive_inv s b p d now rcv' status :
  sys_inv s -> b ∈ sys_net s -> DecodePayload b = Ok (inr (p, Some d)) -> d <> [] ->
  Insert (sys_rcv s) (StreamID p) (StreamOffset p) now d = Ok (rcv', status) ->
  sys_inv (mkSystem (sys_snd s) rcv' (sys_net s) (sys_written s) (sys_delivered s)).
Proof.
  intros Hi Hb Hdec Hne E.
  assert (forall f, continues f (sys_written s) -> segment_of (f (StreamID p)) (StreamOffset p) d) as Hseg.
  { intros f Hc. by apply (inv_net _ Hi f b). }
  pose proof (Hseg _ (written_stream_continues _ 0)) as Hseg0. apply inv_receiver; [done | | |].
  - intros sid. by eapply Insert_keeps_next; [apply some_rcv, Hi | exact Hseg0 |].
  - intros f Hc. eapply Insert_keeps_ok; [by apply (inv_rcv _ Hi) | by apply Hseg | done].
  - by eapply Insert_keeps_size; [apply some_rcv, Hi | exact Hseg0 | apply Hi |].
Qed.

Lemma step_receive_close_inv s sid off :
  sys_inv s -> sys_inv (mkSystem (sys_snd s) (Rcv.Close (sys_rcv s) sid off) (sys_net s) (sys_written s) (sys_delivered s)).
Proof.
  intros Hi. pose proof (inv_size _ Hi) as Hsz. apply inv_receiver; [done | | |].
  - intros sid'. destruct (Close_rcv_spec _ _ sid off (some_rcv s Hi) Hsz) as (_ & _ & H & _). apply H.
  - intros f Hc. by apply (Close_rcv_spec f), Hsz; apply Hi.
  - by apply (Close_rcv_spec _ _ _ _ (some_rcv s Hi) Hsz).
Qed.

(** A payload without data carries no byte of a stream. *)
Lemma ack_payload_ok f sid close ack b n :
  is_u32 sid -> wf_payload (packet 0 0 close ack) -> EncodePayload (packet sid 0 close ack) None = Ok (b, n) -> payload_ok f b.
Proof.
  intros Hs Hw He. assert (wf_payload (packet sid 0 close ack)) as Hwf by (destruct Hw as (_ & ? & ?); by split_and!).
  rewrite EncodePayload_spec in He. injection He as <- _. intros p d Hdec Hne.
  rewrite DecodePayload_spec in Hdec by done. unfold received in Hdec. destruct (ack_only _ _); [done|].
  by injection Hdec as <- <-.
Qed.

Lemma step_read_inv s sid rcv' off data t :
  sys_inv s -> RemoveOldestInOrder (sys_rcv s) sid = Ok (rcv', (off, data, t)) ->
  sys_inv (mkSystem (sys_snd s) rcv' (sys_net s) (sys_written s) (extend (sys_delivered s) sid (default [] data))).
Proof.
  intros Hi E. destruct (RemoveOldestInOrder_spec _ (sys_rcv s) sid (some_rcv s Hi)) as (r & E' & Ho).
  rewrite E in E'. injection E' as <-. pose proof (remove_keeps_size _ _ _ (inv_size _ Hi) Ho) as Hsz.
  pose proof (fun f Hc => remove_keeps_ok f _ _ _ (inv_rcv _ Hi f Hc) Ho) as Hok. cbn [fst] in Hsz, Hok.
  destruct Hi as [I1 I2 I3 I4 I5 I6 I7]. inversion Ho as [_|v segs' Hv Hwf Hel]; subst.
  - constructor; cbn; try done; intros; unfold extend; case_decide; rewrite ?app_nil_r; auto.
  - set (rcv' := set_size _ _) in *.
    assert (forall sid', next_of rcv' sid' = if decide (sid' = sid) then seg_end (next_of (sys_rcv s) sid) v
                                             else next_of (sys_rcv s) sid') as En.
    { intros sid'. unfold next_of at 1. etrans; [apply f_equal, (stream_at_set (sys_rcv s))|]. by case_decide. }
    constructor; cbn; try done.
    + intros sid'. rewrite En. unfold extend. case_decide; [|apply I2]. subst.
      rewrite length_app, Nat2Z.inj_add, I2. done.
    + intros f sid' Hc. unfold extend. case_decide; [|by apply I7]. subst.
      rewrite length_app, read_at_app, <- I7, Z.add_0_l, I2 by done. f_equal.
      destruct (stream_at_ok f (sys_rcv s) sid (I4 f Hc)) as (_ & Hcons & _). by apply Hcons in Hv as (_ & _ & ?).
Qed.

Lemma step_inv s s' : sys_inv s -> step s s' -> sys_inv s'.
Proof.
  intros Hi Hs. destruct Hs as [sid d snd' n status Hsid Hlt E|sid|sid
    |sid msgType ack mtu now snd' d off close b n Hsid Hroom Hack E Eb
    |sid msgType ack mtu rto now snd' d off close b n Hsid Hroom Hack E Eb
    |sid msgType ack mtu rto now snd' r Hroom E Hr
    |sid ack close b n Hsid Hack Eb
    |b p d now rcv' status Hb Hdec Hne E|b p ud now Hb Hdec|b p ud Hb Hdec Hcl|rcv' a E|a snd' r Ha E|sid rcv' off data t E].
  - by eapply step_write_inv.
  - apply inv_sender; [done | | |apply Hi].
    + intros sid'. by destruct (proj2 (QueuePing_spec _ _ sid (some_snd s Hi)) sid') as (-> & -> & _).
    + intros f Hc. by apply QueuePing_spec, Hi.
  - apply inv_sender; [done | | |apply Hi].
    + intros sid'. destruct (Close_spec _ _ sid (some_snd s Hi)) as (_ & H & _). by destruct (H sid') as (-> & -> & _).
    + intros f Hc. by apply Close_spec, Hi.
  - by eapply step_send_inv.
  - eapply step_retransmit_inv; [done | done | done|]. intros f b' Hc Hret [->|Hb]%elem_of_cons; [|by apply (inv_net _ Hi)].
    destruct Hret as [Hres _]. by eapply resent_payload_ok.
  - eapply step_retransmit_inv; [done | done | done|]. intros f b' Hc _. by apply (inv_net _ Hi).
  - apply inv_sender; [done | done | apply Hi|]. intros f b' Hc [->|Hb]%elem_of_cons; [by eapply ack_payload_ok | by apply (inv_net _ Hi)].
  - by eapply step_receive_inv.
  - by apply inv_receiver; destruct Hi.
  - by apply step_receive_close_inv.
  - unfold GetSndAck in E. destruct (ackList (sys_rcv s)); injection E as <- <-; apply inv_receiver; try done; apply Hi.
  - assert (forall f, continues f (sys_written s) -> snd_inv f snd' /\
      forall sid, sent_of snd' sid = sent_of (sys_snd s) sid /\ queue_of snd' sid = queue_of (sys_snd s) sid) as Hack.
    { intros f Hc. destruct Ha as (_ & Ho & Hl).
      destruct (AcknowledgeRange_spec f (sys_snd s) a (inv_snd _ Hi f Hc)) as (sb' & st & t & E' & Hinv & Hs1 & Hs2 & Hs3 & _);
        [widths; lia | done|]. rewrite E in E'. injection E' as <- _. split; [done|]. intros sid.
      destruct (decide (sid = ack_streamID a)) as [->|Hne]; [done|]. unfold sent_of, queue_of. by rewrite Hs3. }
    apply inv_sender; [done | | |apply Hi].
    + intros sid. by destruct (proj2 (Hack _ (written_stream_continues _ 0)) sid) as [-> ->].
    + intros f Hc. by apply Hack.
  - by eapply step_read_inv.
Qed.

Lemma steps_inv s s' : sys_inv s -> rtc step s s' -> sys_inv s'.
Proof. intros Hi Hreach. revert Hi. induction Hreach as [|s0 s1 s2 Hs _ IH]; intros Hi; [done|]. apply IH. by eapply step_inv. Qed.

Lemma delivery_inv (sndCap rcvCap : Z) (s : system) :
  0 <= sndCap -> 0 <= rcvCap -> rtc step (init sndCap rcvCap) s -> sys_inv s.
Proof. intros H1 H2. by apply steps_inv, inv_init. Qed.

Lemma inv_prefix s : sys_inv s ->
  (forall sid, sys_delivered s sid `prefix_of` sys_written s sid) /\
  sb_size (sys_snd s) <= sb_capacity (sys_snd s) /\ 0 <= Available (sys_rcv s).
Proof.
  intros Hi. split_and!.
  - intros sid. apply forced_prefix. intros f Hc. by apply (inv_out _ Hi).
  - apply (sv_capacity _ _ (some_snd s Hi)).
  - pose proof (inv_size _ Hi) as Hsz. unfold size_ok, Available in *. lia.
Qed.

(** ** Property *)

(** C1. End-to-end safety: in every reachable state of sender, lossy, reordering
    and duplicating network, and receiver, for every stream, the bytes returned
    to the reading application are a prefix of the bytes accepted from the
    writing application; and both buffers stay within their capacities. *)
Theorem delivered_is_prefix (sndCap rcvCap : Z) (s : system) :
  0 <= sndCap -> 0 <= rcvCap -> rtc step (init sndCap rcvCap) s ->
  (forall sid, sys_delivered s sid `prefix_of` sys_written s sid) /\
  sb_size (sys_snd s) <= sb_capacity (sys_snd s) /\ 0 <= Available (sys_rcv s).
Proof. intros H1 H2 Hreach. exact (inv_prefix s (delivery_inv _ _ s H1 H2 Hreach)). Qed.

(** A run: five bytes are written on stream 7, sent, received and read. *)
Definition after_write : system :=
  mkSystem queued5 (sys_rcv (init 100 100)) [] (extend (fun _ => []) 7 [0; 1; 2; 3; 4]) (fun _ => []).
Definition wire5 : bytes :=
  (ok_or ([], 0) (EncodePayload (packet 7 0 false None) (Some [0; 1; 2; 3; 4]))).1.
Definition after_send : system :=
  mkSystem sent5 (sys_rcv after_write) [wire5] (sys_written after_write) (fun _ => []).
Definition after_receive : system :=
  mkSystem sent5 (ok_or (sys_rcv after_send, RcvInsertOk) (Insert (sys_rcv after_send) 7 0 2000 [0; 1; 2; 3; 4])).1
    [wire5] (sys_written after_write) (fun _ => []).
Definition after_read : system :=
  mkSystem sent5 (ok_or (sys_rcv after_receive, (0, None, 0)) (RemoveOldestInOrder (sys_rcv after_receive) 7)).1
    [wire5] (sys_written after_write) (extend (fun _ => []) 7 [0; 1; 2; 3; 4]).

Lemma delivered_is_prefix_witness :
  rtc step (init 100 100) after_read /\ sys_delivered after_read 7 = [0; 1; 2; 3; 4] /\
  sys_delivered after_read 7 `prefix_of` sys_written after_read 7.
Proof.
  assert (rtc step (init 100 100) after_read) as Hrun.
  { apply rtc_l with after_write.
    { apply (step_write (init 100 100) 7 [0; 1; 2; 3; 4] queued5 5 InsertStatusOk); [compute_done | reflexivity | reflexivity]. }
    apply rtc_l with after_send.
    { apply (step_send after_write 7 Data None 1400 1000 sent5 [0; 1; 2; 3; 4] 0 false wire5 13);
        [compute_done | apply room_1400 | compute_done | reflexivity | reflexivity]. }
    apply rtc_l with after_receive.
    { apply (step_receive after_send wire5 (packet 7 0 false None) [0; 1; 2; 3; 4] 2000
               (sys_rcv after_receive) RcvInsertOk); [left | reflexivity | discriminate | vm_compute; reflexivity]. }
    apply rtc_once.
    apply (step_read after_receive 7 (sys_rcv after_read) 0 (Some [0; 1; 2; 3; 4]) 2000). vm_compute. reflexivity. }
  destruct (delivered_is_prefix 100 100 after_read) as [Hp _]; [lia | lia | exact Hrun|].
  split; [exact Hrun|]. split; [reflexivity | apply Hp].
Defined.
