(* ===== verification/Conn.v ===== *)
(** * Conn: a connection (src/conn.go, the encoder of src/codec.go)

    The state of a connection and its operations: which message type is due,
    encoding a packet and advancing the packet counter ([encode]), processing a
    decoded payload ([decode]), and deciding what to send next ([Flush] with
    [sendPacket] and [writeAck]).

    The listener a connection belongs to contributes its identity key and the
    MTU ([ListenerCfg]); sending a datagram to the remote address is the argument
    [write], which may return an error, and the result lists the datagrams
    written.  The streams of
    the connection are values in the linked map; logging and locks are not
    modelled. *)

From stdpp Require Import prelude gmap list numbers strings.
From S2P Require Import Prelude Wire Proto Measurement Interfaces LinkedMap SortedMap Rcv Crypto Snd.
Open Scope Z_scope.

(** ** The code *)

(** [int(x)] of a 64-bit unsigned value. *)
Definition to_int (x : Z) : Z := if decide (x < 2 ^ 63) then x else x - 2 ^ 64.

(** Arithmetic on [int], 64 bits wide. *)
Definition i64 (x : Z) : Z := to_int (u64 x).

(** [netip.AddrPort]: the bytes of the address and the port. *)
Record AddrPort := mkAddrPort {
  ap_addr : bytes;
  ap_port : Z;
}.

#[export] Instance AddrPort_eq_dec : EqDecision AddrPort.
Proof. solve_decision. Defined.

Definition no_addr : AddrPort := mkAddrPort [] 0.

Record Stream := mkStream {
  st_streamID : Z;
  closedAtNano : Z;
}.

#[export] Instance Stream_inhabited : Inhabited Stream := populate (mkStream 0 0).

Section code.
Context {PubKey PrvKey : Type} `{!CryptoPrims PubKey PrvKey}.

Record ListenerCfg := mkListenerCfg {
  prvKeyId : PrvKey;
  l_mtu : Z;
}.

Record Conn := mkConn {
  connId : Z;
  remoteAddr : AddrPort;
  streams : LinkedMap Z Stream;
  prvKeyEpSnd : option PrvKey;
  pubKeyEpRcv : option PubKey;
  pubKeyIdRcv : option PubKey;
  sharedSecret : option bytes;
  c_snd : SendBuffer (LinkedMap Z SendInfo);
  c_rcv : ReceiveBuffer (SortedMap RcvValue);
  dataInFlight : Z;
  rcvWndSize : Z;
  isSenderOnInit : bool;
  isWithCryptoOnInit : bool;
  isHandshakeDoneOnRcv : bool;
  isInitSentOnSnd : bool;
  nextWriteTime : Z;
  snCrypto : Z;
  epochCryptoSnd : Z;
  epochCryptoRcv : Z;
  c_meas : Measurements;
}.

(** Assignments to the fields. *)
Definition set_streams (c : Conn) x := mkConn (connId c) (remoteAddr c) x (prvKeyEpSnd c) (pubKeyEpRcv c) (pubKeyIdRcv c)
  (sharedSecret c) (c_snd c) (c_rcv c) (dataInFlight c) (rcvWndSize c) (isSenderOnInit c) (isWithCryptoOnInit c)
  (isHandshakeDoneOnRcv c) (isInitSentOnSnd c) (nextWriteTime c) (snCrypto c) (epochCryptoSnd c) (epochCryptoRcv c) (c_meas c).
Definition set_snd (c : Conn) x := mkConn (connId c) (remoteAddr c) (streams c) (prvKeyEpSnd c) (pubKeyEpRcv c) (pubKeyIdRcv c)
  (sharedSecret c) x (c_rcv c) (dataInFlight c) (rcvWndSize c) (isSenderOnInit c) (isWithCryptoOnInit c)
  (isHandshakeDoneOnRcv c) (isInitSentOnSnd c) (nextWriteTime c) (snCrypto c) (epochCryptoSnd c) (epochCryptoRcv c) (c_meas c).
Definition set_rcv (c : Conn) x := mkConn (connId c) (remoteAddr c) (streams c) (prvKeyEpSnd c) (pubKeyEpRcv c) (pubKeyIdRcv c)
  (sharedSecret c) (c_snd c) x (dataInFlight c) (rcvWndSize c) (isSenderOnInit c) (isWithCryptoOnInit c)
  (isHandshakeDoneOnRcv c) (isInitSentOnSnd c) (nextWriteTime c) (snCrypto c) (epochCryptoSnd c) (epochCryptoRcv c) (c_meas c).
Definition set_flow (c : Conn) inFlight wnd nextWrite := mkConn (connId c) (remoteAddr c) (streams c) (prvKeyEpSnd c) (pubKeyEpRcv c) (pubKeyIdRcv c)
  (sharedSecret c) (c_snd c) (c_rcv c) inFlight wnd (isSenderOnInit c) (isWithCryptoOnInit c)
  (isHandshakeDoneOnRcv c) (isInitSentOnSnd c) nextWrite (snCrypto c) (epochCryptoSnd c) (epochCryptoRcv c) (c_meas c).
Definition set_counter (c : Conn) initSent sn epoch := mkConn (connId c) (remoteAddr c) (streams c) (prvKeyEpSnd c) (pubKeyEpRcv c) (pubKeyIdRcv c)
  (sharedSecret c) (c_snd c) (c_rcv c) (dataInFlight c) (rcvWndSize c) (isSenderOnInit c) (isWithCryptoOnInit c)
  (isHandshakeDoneOnRcv c) initSent (nextWriteTime c) sn epoch (epochCryptoRcv c) (c_meas c).
Definition set_meas (c : Conn) x := mkConn (connId c) (remoteAddr c) (streams c) (prvKeyEpSnd c) (pubKeyEpRcv c) (pubKeyIdRcv c)
  (sharedSecret c) (c_snd c) (c_rcv c) (dataInFlight c) (rcvWndSize c) (isSenderOnInit c) (isWithCryptoOnInit c)
  (isHandshakeDoneOnRcv c) (isInitSentOnSnd c) (nextWriteTime c) (snCrypto c) (epochCryptoSnd c) (epochCryptoRcv c) x.

Definition msgType (c : Conn) : CryptoMsgType :=
  if isHandshakeDoneOnRcv c then Data
  else if isWithCryptoOnInit c && isSenderOnInit c then InitCryptoSnd
  else if isWithCryptoOnInit c && negb (isSenderOnInit c) then InitCryptoRcv
  else if isSenderOnInit c then InitSnd
  else InitRcv.

(** [Conn.Stream]: the stream of the id, created on first use. *)
Definition conn_Stream (c : Conn) (streamID : Z) : go (Conn * Stream) :=
  v ← LinkedMap.Get (streams c) streamID;
  match v with
  | Some s => mret (c, s)
  | None =>
      let s := mkStream streamID 0 in
      m ← LinkedMap.Put (streams c) streamID s;
      mret (set_streams c m, s)
  end.

(** *** Encoding (codec.go) *)

(** The packet of a message type; the second component is [isInitSentOnSnd]
    after it. *)
Definition encode_msg (l : ListenerCfg) (c : Conn) (p : PayloadHeader) (userData : option bytes) (t : CryptoMsgType)
    : go (go_error + bytes * bool) :=
  let sent (b : bool) (r : go_error + bytes) : go_error + bytes * bool :=
    match r with inl err => inl err | inr encData => inr (encData, b) end in
  match t with
  | InitSnd =>
      prv ← go_deref NilDereference (prvKeyEpSnd c);
      '(_, encData) ← encryptInitSnd (Some (public_key (prvKeyId l))) (Some (public_key prv)) (l_mtu l);
      mret (inr (encData, true))
  | InitCryptoSnd =>
      '(packetData, _) ← EncodePayload p userData;
      r ← encryptInitCryptoSnd (pubKeyIdRcv c) (Some (public_key (prvKeyId l))) (prvKeyEpSnd c) (snCrypto c) (l_mtu l) packetData;
      mret (match r with inl err => inl err | inr (_, encData) => inr (encData, true) end)
  | InitCryptoRcv =>
      '(packetData, _) ← EncodePayload p userData;
      r ← encryptInitCryptoRcv (connId c) (pubKeyEpRcv c) (prvKeyEpSnd c) (snCrypto c) packetData;
      mret (sent true r)
  | InitRcv =>
      '(packetData, _) ← EncodePayload p userData;
      r ← encryptInitRcv (connId c) (Some (public_key (prvKeyId l))) (pubKeyEpRcv c) (prvKeyEpSnd c) (snCrypto c) packetData;
      mret (sent true r)
  | Data =>
      '(packetData, _) ← EncodePayload p userData;
      r ← encryptData (connId c) (isSenderOnInit c) (sharedSecret c) (snCrypto c) (epochCryptoSnd c) packetData;
      mret (sent (isInitSentOnSnd c) r)
  end.

Definition exhausted_msg : go_error := "exhausted 2^95 sn number, cannot continue".

(** The counter after a packet; [inl] when it is exhausted. *)
Definition advance (sn epoch : Z) : (go_error * (Z * Z)) + Z * Z :=
  let sn := u64 (sn + 1) in
  if decide (2 ^ 48 - 1 < sn) then
    if decide (2 ^ 47 - 1 < u64 (epoch + 1)) then inl (exhausted_msg, (sn, epoch))
    else inr (0, u64 (epoch + 1))
  else inr (sn, epoch).

Definition encode (l : ListenerCfg) (c : Conn) (p : PayloadHeader) (userData : option bytes) (t : CryptoMsgType)
    : go (Conn * (go_error + bytes)) :=
  r ← encode_msg l c p userData t;
  match r with
  | inl err => mret (c, inl err)
  | inr (encData, initSent) =>
      match advance (snCrypto c) (epochCryptoSnd c) with
      | inl (err, (sn, epoch)) => mret (set_counter c initSent sn epoch, inl err)
      | inr (sn, epoch) => mret (set_counter c initSent sn epoch, inr encData)
      end
  end.

(** *** Processing a payload *)

Definition checkStreamFullyAcked (c : Conn) (streamID : Z) : go bool :=
  match Snd.GetOffsetClosedAt (c_snd c) streamID with
  | None => mret false
  | Some closeOffset => acked ← GetOffsetAcked (c_snd c) streamID; mret (closeOffset <=? acked)
  end.

(** The acknowledgement part of [decode]; [s] is the stream of the packet. *)
Definition decode_ack (c : Conn) (s : Stream) (a : Ack) (rawLen nowNano : Z) : go (Conn * Stream) :=
  '(snd, (ackStatus, sentTimeNano)) ← AcknowledgeRange (c_snd c) a;
  let c := set_snd c snd in
  let c := match ackStatus with
           | AckStatusOk => set_flow c (i64 (dataInFlight c - rawLen)) (rcvWndSize c) (nextWriteTime c)
           | AckDup => set_meas c (onDuplicateAck (c_meas c))
           | AckNoStream => c
           end in
  let c := set_flow c (dataInFlight c) (ack_rcvWnd a) (nextWriteTime c) in
  full ← checkStreamFullyAcked c (st_streamID s);
  '(c, s) ← (if (full : bool) then
               let s := mkStream (st_streamID s) nowNano in
               m ← LinkedMap.Put (streams c) (st_streamID s) s; mret (set_streams c m, s)
             else mret (c, s));
  if decide (sentTimeNano < nowNano /\ ackStatus = AckStatusOk) then
    meas ← updateMeasurements (c_meas c) (u64 (nowNano - sentTimeNano)) (ack_len a) nowNano;
    mret (set_meas c meas, s)
  else mret (c, s).

Definition decode (c : Conn) (p : PayloadHeader) (userData : option bytes) (rawLen nowNano : Z) : go (Conn * Stream) :=
  '(c, s) ← conn_Stream c (StreamID p);
  '(c, s) ← match pAck p with
            | Some a => decode_ack c s a rawLen nowNano
            | None => mret (c, s)
            end;
  c ← (if decide (0 < len (default [] userData)) then
         '(rcv, _) ← Insert (c_rcv c) (st_streamID s) (StreamOffset p) nowNano (default [] userData);
         mret (set_rcv c rcv)
       else if IsClose p || bool_decide (is_Some userData) then
         mret (set_rcv c (EmptyInsert (c_rcv c) (st_streamID s) (StreamOffset p) nowNano).1)
       else mret c);
  if IsClose p then
    let c := set_rcv c (Rcv.Close (c_rcv c) (st_streamID s) (StreamOffset p)) in
    mret (set_snd c (Snd.Close (c_snd c) (st_streamID s)), s)
  else mret (c, s).

(** *** Sending *)

(** What a flush returns: the datagrams written, and the bytes of user data
    sent with the pacing time, or an error. *)
Definition flush_result : Type := list bytes * (go_error + Z * Z).

Definition sendPacket (write : AddrPort -> bytes -> option go_error) (l : ListenerCfg) (c : Conn) (s : Stream) (ack : option Ack)
    (splitData : bytes) (offset : Z) (isClose : bool) (t : CryptoMsgType) (nowNano : Z) (trackInFlight : bool)
    : go (Conn * flush_result) :=
  let p := mkPayloadHeader isClose ack (st_streamID s) offset in
  '(c, r) ← encode l c p (Some splitData) t;
  match r with
  | inl err => mret (c, ([], inl err))
  | inr encData =>
      match write (remoteAddr c) encData with
      | Some err => mret (c, ([encData], inl err))
      | None =>
          let packetLen := len splitData in
          '(c, pacingNano) ←
            (if trackInFlight then
               let c := set_flow c (i64 (dataInFlight c + packetLen)) (rcvWndSize c) (nextWriteTime c) in
               pacing ← calcPacing (c_meas c) (len encData); mret (c, pacing)
             else pacing ← calcPacing (c_meas c) packetLen; mret (c, pacing));
          mret (set_flow c (dataInFlight c) (rcvWndSize c) (u64 (nowNano + pacingNano)),
                ([encData], inr (packetLen, pacingNano)))
      end
  end.

Definition writeAck (write : AddrPort -> bytes -> option go_error) (l : ListenerCfg) (c : Conn) (s : Stream) (ack : option Ack)
    (nowNano : Z) : go (Conn * flush_result) :=
  isClose ← checkStreamFullyAcked c (st_streamID s);
  let p := mkPayloadHeader isClose ack (st_streamID s) 0 in
  '(c, r) ← encode l c p None (msgType c);
  match r with
  | inl err => mret (c, ([], inl err))
  | inr encData =>
      match write (remoteAddr c) encData with
      | Some err => mret (c, ([encData], inl err))
      | None =>
          pacingNano ← calcPacing (c_meas c) (len encData);
          mret (set_flow c (dataInFlight c) (rcvWndSize c) (u64 (nowNano + pacingNano)),
                ([encData], inr (0, pacingNano)))
      end
  end.

(** The rest of [Flush] when nothing is due for retransmission. *)
Definition flush_send (write : AddrPort -> bytes -> option go_error) (l : ListenerCfg) (c : Conn) (s : Stream) (ack : option Ack)
    (t : CryptoMsgType) (nowNano : Z) : go (Conn * flush_result) :=
  let idle (c : Conn) : go (Conn * flush_result) :=
    match ack with
    | Some _ => writeAck write l c s ack nowNano
    | None => mret (c, ([], inr (0, MinDeadLine)))
    end in
  if isHandshakeDoneOnRcv c || negb (isInitSentOnSnd c) then
    '(snd, (splitData, offset, isClose)) ← ReadyToSend (c_snd c) (st_streamID s) t ack (l_mtu l) nowNano;
    let c := set_snd c snd in
    match splitData with
    | Some splitData => sendPacket write l c s ack splitData offset isClose t nowNano true
    | None =>
        if bool_decide (is_Some ack) || negb (isInitSentOnSnd c)
        then writeAck write l c s ack nowNano
        else idle c
    end
  else idle c.

Definition Flush (write : AddrPort -> bytes -> option go_error) (l : ListenerCfg) (c : Conn) (s : Stream) (nowNano : Z)
    : go (Conn * flush_result) :=
  let '(rcv, ack) := GetSndAck (c_rcv c) in
  let c := set_rcv c rcv in
  let ack := (fun a => mkAck (ack_streamID a) (ack_offset a) (ack_len a)
                (u64 (u64 (capacity (c_rcv c)) - u64 (Rcv.Size (c_rcv c))))) <$> ack in
  if decide (nowNano < nextWriteTime c) then mret (c, ([], inr (0, u64 (nextWriteTime c - nowNano)))) else
  if decide (to_int (rcvWndSize c) < i64 (dataInFlight c + l_mtu l)) then
    match ack with
    | Some _ => writeAck write l c s ack nowNano
    | None => mret (c, ([], inr (0, MinDeadLine)))
    end
  else
    let t := msgType c in
    '(snd, r) ← ReadyToRetransmit (c_snd c) (st_streamID s) ack (l_mtu l) (rtoNano (c_meas c)) t nowNano;
    let c := set_snd c snd in
    match r with
    | inl err => mret (c, ([], inl err))
    | inr (Some splitData, offset, isClose) =>
        let c := set_meas c (onPacketLoss (c_meas c)) in
        sendPacket write l c s ack splitData offset isClose t nowNano false
    | inr (None, _, _) => flush_send write l c s ack t nowNano
    end.
End code.

Arguments ListenerCfg : clear implicits.
Arguments Conn : clear implicits.

(** ** Encoding *)

Lemma to_int_small x : 0 <= x < 2 ^ 63 -> to_int x = x.
Proof. intros. unfold to_int. by rewrite decide_True by lia. Qed.

Lemma i64_small x : - 2 ^ 63 <= x < 2 ^ 63 -> i64 x = x.
Proof.
  intros Hx. unfold i64, to_int, u64. destruct (decide (0 <= x)).
  - rewrite Z.mod_small by lia. by rewrite decide_True by lia.
  - assert (x mod 2 ^ 64 = x + 2 ^ 64) as -> by (symmetry; apply (Z.mod_unique _ _ (-1)); lia).
    rewrite decide_False; lia.
Qed.

(** The packet counter as one number. *)
Definition counter_ok (sn epoch : Z) : Prop := is_u48 sn /\ 0 <= epoch < 2 ^ 47.
Definition counter (sn epoch : Z) : Z := epoch * 2 ^ 48 + sn.

Lemma counter_advance sn epoch :
  counter_ok sn epoch ->
  match advance sn epoch with
  | inr (sn', epoch') => counter_ok sn' epoch' /\ counter sn' epoch' = counter sn epoch + 1
  | inl (_, (sn', epoch')) => counter sn epoch = 2 ^ 95 - 1 /\ sn' = 2 ^ 48 /\ epoch' = epoch
  end.
Proof.
  unfold counter_ok, counter, advance. widths. intros [Hs He].
  rewrite !Z.mod_small by lia. repeat case_decide; split_and!; lia.
Qed.

Section laws.
Context {PubKey PrvKey : Type} `{!CryptoPrims PubKey PrvKey} `{!CryptoLaws PubKey PrvKey}.
Implicit Types (l : ListenerCfg PrvKey) (c : Conn PubKey PrvKey).

(** The keys a message type needs are there. *)
Definition keys_ok c (t : CryptoMsgType) : Prop :=
  match t with
  | InitSnd => exists prv, prvKeyEpSnd c = Some prv
  | InitCryptoSnd => exists prv id s, prvKeyEpSnd c = Some prv /\ pubKeyIdRcv c = Some id /\ ecdh prv id = inr s
  | InitRcv | InitCryptoRcv => exists prv ep s, prvKeyEpSnd c = Some prv /\ pubKeyEpRcv c = Some ep /\ ecdh prv ep = inr s
  | Data => exists s, sharedSecret c = Some s /\ len s = 32
  end.

(** Every message type has room for its headers, and lengths fit 16 bits. *)
Definition mtu_ok (mtu : Z) : Prop := 128 <= mtu < 2 ^ 16.

Lemma overhead_bounds t ack o : t <> InitSnd -> 0 <= calcCryptoOverheadWithData t ack o <= 128.
Proof.
  intros Ht. unfold calcCryptoOverheadWithData. rewrite calcProtoOverhead_parts.
  destruct (bool_decide _), (_ || _), t; vm_compute; split; congruence.
Qed.

Lemma room_mtu t ack mtu : mtu_ok mtu -> room_ok t ack mtu.
Proof.
  intros Hm o. unfold max_data. unfold mtu_ok in Hm. case_decide; [lia|].
  pose proof (overhead_bounds t ack o ltac:(done)). lia.
Qed.

(** The bytes of an encrypted packet around its user data. *)
Lemma payload_overhead p d :
  len (payload_bytes p d) <= calcProtoOverhead (is_ack p) (is_extend p) false + len (default [] d).
Proof.
  rewrite <- calcProtoOverhead_bytes, !calcProtoOverhead_parts.
  destruct (ack_only p d), (is_extend p); cbn [offsetSize]; lia.
Qed.

Definition crypto_part (t : CryptoMsgType) : Z :=
  match t with
  | InitSnd => 0
  | InitRcv => MinInitRcvSizeHdr + FooterDataSize
  | InitCryptoSnd => MinInitCryptoSndSizeHdr + FooterDataSize + MsgInitFillLenSize
  | InitCryptoRcv => MinInitCryptoRcvSizeHdr + FooterDataSize
  | Data => MinDataSizeHdr + FooterDataSize
  end.

Lemma packet_room t p d mtu :
  t <> InitSnd -> len (default [] d) <= max_data t (pAck p) mtu (StreamOffset p) ->
  crypto_part t + len (payload_bytes p d) <= mtu.
Proof.
  intros Ht. unfold max_data. rewrite decide_False by done. pose proof (payload_overhead p d) as H.
  unfold calcCryptoOverheadWithData. fold (is_ack p). rewrite orb_comm. fold (is_extend p).
  destruct t; cbn [crypto_part]; intros; try done; lia.
Qed.

(** What [encode_msg] produces: a packet of at most one MTU, the first messages
    of a handshake exactly one; a data packet is the payload sealed under the
    current counter. *)
Definition encoded l c (p : PayloadHeader) (d : option bytes) (t : CryptoMsgType) (enc : bytes) : Prop :=
  len enc <= l_mtu l /\ 0 < len enc /\ (t = InitSnd \/ t = InitCryptoSnd -> len enc = l_mtu l) /\
  (t = Data -> exists s, sharedSecret c = Some s /\
    enc = packet_bytes (snCrypto c) (epochCryptoSnd c) (isSenderOnInit c) s (conn_header Data (connId c)) (payload_bytes p d)).

Lemma encode_msg_spec l c p d t :
  keys_ok c t -> mtu_ok (l_mtu l) -> t = InitSnd \/ len (default [] d) <= max_data t (pAck p) (l_mtu l) (StreamOffset p) ->
  exists enc, encode_msg l c p d t = Ok (inr (enc, isInitSentOnSnd c || negb (bool_decide (t = Data)))) /\ encoded l c p d t enc.
Proof.
  intros Hk Hm Hd. pose proof (payload_bytes_length p d) as H8. unfold mtu_ok in Hm. unfold encode_msg.
  assert (t = InitSnd \/ crypto_part t + len (payload_bytes p d) <= l_mtu l) as Hroom.
  { destruct (decide (t = InitSnd)); [by left|right]. destruct Hd; [done|]. by apply packet_room. }
  rewrite EncodePayload_spec. cbn [mbind go_bind]. rewrite orb_comm.
  destruct t; simpl in Hk; try (destruct Hroom as [|Hroom]; [done|]); cbn [crypto_part] in Hroom.
  - destruct Hk as (prv & ->). cbn [go_deref mbind go_bind].
    assert (MinInitCryptoSndSizeHdr <= l_mtu l) as Hmin by (change MinInitCryptoSndSizeHdr with 65; lia).
    rewrite encryptInitSnd_spec by done. eexists. split; [done|].
    pose proof (init_snd_bytes_length (public_key prv) (public_key (prvKeyId l)) (l_mtu l) Hmin). split_and!; (done || lia).
  - destruct Hk as (prv & ep & s & -> & -> & Hs). rewrite (encryptInitRcv_spec _ _ _ _ s) by done.
    eexists. split; [done|]. split_and!; rewrite ?packet_length, ?init_rcv_header_length; try naive_solver lia.
  - destruct Hk as (prv & id & s & -> & -> & Hs). 
    assert (0 <= fill_len (l_mtu l) (payload_bytes p d) < 2 ^ 16) as Hf.
    { unfold fill_len. split; [lia|]. change (MinInitCryptoSndSizeHdr + FooterDataSize + MsgInitFillLenSize) with 89. lia. }
    rewrite (encryptInitCryptoSnd_spec _ _ _ s) by done. eexists. split; [done|].
    assert (forall x, MinInitCryptoSndSizeHdr + FooterDataSize + (2 + fill_len (l_mtu l) x + len x) = l_mtu l) as E.
    { intros x. unfold fill_len, MsgInitFillLenSize. lia. }
    split_and!; rewrite ?packet_length, ?init_crypto_snd_header_length, ?padded_length, ?E by lia; (done || lia).
  - destruct Hk as (prv & ep & s & -> & -> & Hs). rewrite (encryptInitCryptoRcv_spec _ _ _ s) by done.
    eexists. split; [done|]. split_and!; rewrite ?packet_length, ?init_crypto_rcv_header_length; try naive_solver lia.
  - destruct Hk as (s & Ek & Hs). rewrite Ek, encryptData_spec by done. eexists. split; [done|].
    split_and!; rewrite ?packet_length, ?conn_header_length; try naive_solver lia.
Qed.

(** [encode] succeeds until the counter is exhausted, and every packet takes the
    next counter value. *)
Lemma encode_spec l c p d t :
  keys_ok c t -> mtu_ok (l_mtu l) -> t = InitSnd \/ len (default [] d) <= max_data t (pAck p) (l_mtu l) (StreamOffset p) ->
  counter_ok (snCrypto c) (epochCryptoSnd c) -> counter (snCrypto c) (epochCryptoSnd c) < 2 ^ 95 - 1 ->
  exists enc sn epoch, encode l c p d t
      = Ok (set_counter c (isInitSentOnSnd c || negb (bool_decide (t = Data))) sn epoch, inr enc) /\
    encoded l c p d t enc /\ counter_ok sn epoch /\ counter sn epoch = counter (snCrypto c) (epochCryptoSnd c) + 1.
Proof.
  intros Hk Hm Hd Hc Hlt. unfold encode. destruct (encode_msg_spec l c p d t) as (enc & -> & He); [done..|].
  cbn [mbind go_bind]. pose proof (counter_advance _ _ Hc) as Ha.
  destruct (advance (snCrypto c) (epochCryptoSnd c)) as [[? [sn ep]]|[sn ep]]; [lia|].
  destruct Ha as [H1 H2]. by exists enc, sn, ep.
Qed.

Lemma calcPacing_total (m : Measurements) n : exists t, calcPacing m n = Ok t.
Proof.
  unfold calcPacing. destruct (bwMax m =? 0); [destruct (srtt m >? 0); eauto|].
  destruct (Z.eqb_spec (u64 (bwMax m * pacingGainPct m) / 100) 0); [eauto|]. rewrite go_div_Ok by done. eauto.
Qed.

Lemma checkStreamFullyAcked_total f c sid : snd_inv f (c_snd c) -> exists b, checkStreamFullyAcked c sid = Ok b.
Proof.
  intros Hi. unfold checkStreamFullyAcked, Snd.GetOffsetClosedAt, GetOffsetAcked.
  destruct (sb_streams (c_snd c) !! sid) as [st|] eqn:E; [|eauto]. destruct (sb_closeAtOffset st); [|eauto].
  rewrite (lmi_first_spec _ (si_wf _ _ (sv_stream _ _ Hi _ _ E))). cbn [mbind go_bind].
  destruct (head _) as [[? ?]|]; eauto.
Qed.

(** ** Sending *)

(** What sending never changes. *)
Definition same_keys c c' : Prop :=
  connId c' = connId c /\ prvKeyEpSnd c' = prvKeyEpSnd c /\ pubKeyEpRcv c' = pubKeyEpRcv c /\
  pubKeyIdRcv c' = pubKeyIdRcv c /\ sharedSecret c' = sharedSecret c /\ isSenderOnInit c' = isSenderOnInit c /\
  isWithCryptoOnInit c' = isWithCryptoOnInit c /\ isHandshakeDoneOnRcv c' = isHandshakeDoneOnRcv c /\
  epochCryptoRcv c' = epochCryptoRcv c /\ remoteAddr c' = remoteAddr c.

Definition ctr c : Z := counter (snCrypto c) (epochCryptoSnd c).
Definition ctr_ok c : Prop := counter_ok (snCrypto c) (epochCryptoSnd c).

(** The datagrams a step hands to the socket: none, and the counter stays, or
    one, and it takes the next counter value. *)
Definition emits l (t : CryptoMsgType) c (ds : list bytes) c' : Prop :=
  match ds with
  | [] => snCrypto c' = snCrypto c /\ epochCryptoSnd c' = epochCryptoSnd c
  | [enc] => (exists p d, encoded l c p d t enc) /\ ctr_ok c' /\ ctr c' = ctr c + 1
  | _ => False
  end.

(** One datagram with [n] bytes of user data was written (or refused by the
    socket). *)
Definition wrote l (t : CryptoMsgType) c (now n : Z) (track : bool) c' (fr : flush_result) : Prop :=
  len fr.1 = 1 /\ emits l t c fr.1 c' /\ same_keys c c' /\ c_snd c' = c_snd c /\ c_rcv c' = c_rcv c /\
  c_meas c' = c_meas c /\ rcvWndSize c' = rcvWndSize c /\
  match fr.2 with
  | inl _ => dataInFlight c' = dataInFlight c /\ nextWriteTime c' = nextWriteTime c
  | inr (n', pacing) => n' = n /\ nextWriteTime c' = u64 (now + pacing) /\
      dataInFlight c' = if track then i64 (dataInFlight c + n) else dataInFlight c
  end.

Ltac wrote_done := eexists _, _; split; [done|]; unfold wrote, emits; cbn [fst snd]; split_and!; try done; eauto.

Section send.
Context (write : AddrPort -> bytes -> option go_error) l c (Hm : mtu_ok (l_mtu l)) (Hc : ctr_ok c) (Hlt : ctr c < 2 ^ 95 - 1).

Lemma sendPacket_spec s ack d off close t now track :
  keys_ok c t -> t = InitSnd \/ len d <= max_data t ack (l_mtu l) off ->
  exists c' fr, sendPacket write l c s ack d off close t now track = Ok (c', fr) /\ wrote l t c now (len d) track c' fr.
Proof.
  intros Hk Hd. unfold sendPacket.
  destruct (encode_spec l c (mkPayloadHeader close ack (st_streamID s) off) (Some d) t) as (enc & sn & ep & -> & He & H1 & H2);
    [done..|].
  cbn [mbind go_bind]. destruct (write _ enc) as [err|].
  - wrote_done.
  - destruct track; cbn [set_flow set_counter c_meas].
    + destruct (calcPacing_total (c_meas c) (len enc)) as [pc ->]. cbn [mbind go_bind].
      wrote_done.
    + destruct (calcPacing_total (c_meas c) (len d)) as [pc ->]. cbn [mbind go_bind].
      wrote_done.
Qed.

Lemma writeAck_spec f s ack now :
  snd_inv f (c_snd c) -> keys_ok c (msgType c) ->
  exists c' fr, writeAck write l c s ack now = Ok (c', fr) /\ wrote l (msgType c) c now 0 false c' fr.
Proof.
  intros Hi Hk. unfold writeAck. destruct (checkStreamFullyAcked_total f c (st_streamID s) Hi) as [b ->].
  cbn [mbind go_bind].
  destruct (encode_spec l c (mkPayloadHeader b ack (st_streamID s) 0) None (msgType c)) as (enc & sn & ep & -> & He & H1 & H2);
    [done..| | done | done|].
  { right. apply room_mtu, Hm. }
  cbn [mbind go_bind]. destruct (write _ enc) as [err|].
  - wrote_done.
  - cbn [set_flow set_counter c_meas]. destruct (calcPacing_total (c_meas c) (len enc)) as [pc ->]. cbn [mbind go_bind].
    wrote_done.
Qed.
End send.

(** What a [Flush] does. *)
Record flush_ok (f : Z -> Z -> Z) l c (now : Z) c' (fr : flush_result) : Prop := {
  fk_snd : snd_inv f (c_snd c');
  fk_keys : same_keys c c';
  fk_emits : emits l (msgType c) c fr.1 c';
  fk_window : rcvWndSize c' = rcvWndSize c;
  fk_flow : dataInFlight c' = dataInFlight c \/ dataInFlight c <= dataInFlight c' <= to_int (rcvWndSize c);
  fk_paced : now < nextWriteTime c -> fr.1 = [] /\ c_snd c' = c_snd c /\ nextWriteTime c' = nextWriteTime c;
  fk_blocked : to_int (rcvWndSize c) < dataInFlight c + l_mtu l ->
    c_snd c' = c_snd c /\ dataInFlight c' = dataInFlight c /\ (ackList (c_rcv c) = [] -> fr.1 = []);
  fk_next : forall n pacing, fr.2 = inr (n, pacing) -> fr.1 <> [] -> nextWriteTime c' = u64 (now + pacing);
}.

Definition int_ok (x : Z) : Prop := Z.abs x < 2 ^ 62.

Lemma max_data_mtu t ack mtu o : mtu_ok mtu -> max_data t ack mtu o <= mtu.
Proof.
  intros Hm. unfold max_data, mtu_ok in *. case_decide; [lia|]. pose proof (overhead_bounds t ack o ltac:(done)). lia.
Qed.

(** A written datagram as the outcome of a flush. *)
Lemma wrote_flush f l c c0 now n track c' fr :
  mtu_ok (l_mtu l) -> int_ok (dataInFlight c) -> snd_inv f (c_snd c0) -> same_keys c c0 ->
  snCrypto c0 = snCrypto c -> epochCryptoSnd c0 = epochCryptoSnd c ->
  dataInFlight c0 = dataInFlight c -> rcvWndSize c0 = rcvWndSize c ->
  nextWriteTime c <= now -> 0 <= n <= l_mtu l ->
  (dataInFlight c + l_mtu l <= to_int (rcvWndSize c) \/ track = false /\ c_snd c0 = c_snd c /\ ackList (c_rcv c) <> []) ->
  wrote l (msgType c) c0 now n track c' fr -> flush_ok f l c now c' fr.
Proof.
  intros Hm Hint Hi Hk Hsn Hep Hdf Hw Hnow Hn Hbl (H1 & Hem & Hk' & Hs & Hr & Hms & Hw' & Hres).
  assert (dataInFlight c' = dataInFlight c \/
    track = true /\ dataInFlight c' = i64 (dataInFlight c + n)) as Hdf'.
  { destruct fr.2 as [|[? ?]]; destruct track; rewrite Hdf in Hres; intuition. }
  unfold int_ok, mtu_ok in *.
  constructor; try done.
  - congruence.
  - unfold same_keys in *. naive_solver congruence.
  - unfold emits, encoded, ctr_ok, ctr in *. destruct fr.1 as [|enc [|]]; [congruence | | done].
    rewrite Hsn, Hep in Hem. unfold same_keys in Hk. destruct Hk as (E1 & _ & _ & _ & E2 & E3 & _).
    rewrite E1, E2, E3 in Hem. exact Hem.
  - congruence.
  - destruct Hdf' as [|[-> Hdf']]; [by left|]. destruct Hbl as [Hb|[? _]]; [|done].
    right. rewrite Hdf', i64_small by lia. lia.
  - lia.
  - intros Hover. destruct Hbl as [|(Ht & Hs0 & Ha)]; [lia|]. split_and!; [congruence | | done].
    destruct Hdf' as [|[? _]]; [done | congruence].
  - intros n' pc Hr2 _. rewrite Hr2 in Hres. apply Hres.
Qed.

Lemma quiet_flush f l c c' now (r : go_error + Z * Z) :
  snd_inv f (c_snd c') -> same_keys c c' -> snCrypto c' = snCrypto c -> epochCryptoSnd c' = epochCryptoSnd c ->
  dataInFlight c' = dataInFlight c -> rcvWndSize c' = rcvWndSize c -> nextWriteTime c' = nextWriteTime c ->
  (c_snd c' = c_snd c \/ nextWriteTime c <= now /\ dataInFlight c + l_mtu l <= to_int (rcvWndSize c)) ->
  flush_ok f l c now c' ([], r).
Proof.
  intros Hi Hk Hsn Hep Hdf Hw Hn Hor. constructor; try done; [by left | | ].
  - intros Hp. destruct Hor as [|[? ?]]; [done | lia].
  - intros Hp. destruct Hor as [|[? ?]]; [done | lia].
Qed.

(** The connection is in a state from which it can send. *)
Record conn_ready (f : Z -> Z -> Z) l c : Prop := {
  cr_mtu : mtu_ok (l_mtu l);
  cr_snd : snd_inv f (c_snd c);
  cr_keys : keys_ok c (msgType c);
  cr_ctr : ctr_ok c;
  cr_left : ctr c < 2 ^ 95 - 1;
  cr_int : int_ok (dataInFlight c);
}.

Section flush.
Context (write : AddrPort -> bytes -> option go_error) (f : Z -> Z -> Z) l c (now : Z) (Hready : conn_ready f l c).
Context (Htime : nextWriteTime c <= now).

(** The state a flush has reached when it writes: only the send buffer, the
    acknowledgement list and the measurements have changed. *)
Definition flush_point (c0 : Conn PubKey PrvKey) : Prop :=
  exists rcv snd meas, c0 = set_meas (set_snd (set_rcv c rcv) snd) meas /\ snd_inv f snd.

Definition fits : Prop := dataInFlight c + l_mtu l <= to_int (rcvWndSize c).

Lemma flush_packet c0 s ack d off close track :
  flush_point c0 -> fits -> len d <= max_data (msgType c) ack (l_mtu l) off ->
  exists c' fr, sendPacket write l c0 s ack d off close (msgType c) now track = Ok (c', fr) /\ flush_ok f l c now c' fr.
Proof.
  intros (rcv & snd & meas & -> & Hi) Hfit Hd. destruct Hready as [Hm _ Hk Hc Hlt Hint].
  set (c0 := set_meas _ _).
  destruct (sendPacket_spec write l c0 Hm Hc Hlt s ack d off close (msgType c) now track) as (c' & fr & -> & Hw); [done | by right|].
  exists c', fr. split; [done|]. pose proof (max_data_mtu (msgType c) ack (l_mtu l) off Hm).
  apply (wrote_flush f l c c0 now (len d) track); try done; [lia | by left].
Qed.

Lemma flush_ack c0 s ack :
  flush_point c0 -> (c_snd c0 = c_snd c /\ ackList (c_rcv c) <> [] \/ fits) ->
  exists c' fr, writeAck write l c0 s ack now = Ok (c', fr) /\ flush_ok f l c now c' fr.
Proof.
  intros (rcv & snd & meas & -> & Hi) Hfit. destruct Hready as [Hm _ Hk Hc Hlt Hint].
  set (c0 := set_meas _ _) in *.
  destruct (writeAck_spec write l c0 Hm Hc Hlt f s ack now) as (c' & fr & -> & Hw); [done | done|].
  exists c', fr. split; [done|]. unfold mtu_ok in *.
  apply (wrote_flush f l c c0 now 0 false); try done; [lia|]. destruct Hfit as [[? ?]|?]; [by right | by left].
Qed.

Lemma flush_send_spec c0 s ack :
  flush_point c0 -> fits ->
  exists c' fr, flush_send write l c0 s ack (msgType c) now = Ok (c', fr) /\ flush_ok f l c now c' fr.
Proof.
  intros Hp Hfit. pose proof Hp as (rcv & snd & meas & E & Hi).
  assert (forall c1 r, flush_point c1 -> flush_ok f l c now c1 ([], r)) as Hquiet.
  { intros c1 r (rcv1 & snd1 & meas1 & -> & Hi1). apply quiet_flush; try done. by right. }
  assert (forall c1, flush_point c1 -> exists c' fr,
    match ack with Some _ => writeAck write l c1 s ack now | None => mret (c1, ([], inr (0, MinDeadLine))) end = Ok (c', fr) /\
    flush_ok f l c now c' fr) as Hidle.
  { intros c1 H1. destruct ack; [apply flush_ack; auto|]. eexists _, _. split; [done|]. by apply Hquiet. }
  unfold flush_send. destruct (_ || _); [|by apply Hidle].
  assert (snd_inv f (c_snd c0)) as Hi0 by (by rewrite E).
  destruct (ReadyToSend_spec f (c_snd c0) (st_streamID s) (msgType c) ack (l_mtu l) now Hi0
    (room_mtu _ _ _ (cr_mtu _ _ _ Hready))) as (sb & d & off & close & -> & Hi' & _ & Hd). cbn [mbind go_bind].
  assert (flush_point (set_snd c0 sb)) as Hp' by (rewrite E; by exists rcv, sb, meas).
  destruct d as [d|].
  - destruct Hd as (_ & Hlen & Hoff & _). apply flush_packet; [done | done|].
    destruct Hoff as [->|[-> ->]]; [done|]. apply room_mtu, Hready.
  - destruct (_ || _); [apply flush_ack; auto | by apply Hidle].
Qed.
End flush.

Lemma Flush_spec write f l c s now :
  conn_ready f l c ->
  exists c' fr, Flush write l c s now = Ok (c', fr) /\ flush_ok f l c now c' fr.
Proof.
  intros Hready. pose proof Hready as [Hm Hi Hk Hc Hlt Hint]. unfold Flush.
  destruct (GetSndAck (c_rcv c)) as [rcv ack0] eqn:Eack.
  set (ack := _ <$> ack0). cbn [nextWriteTime set_rcv].
  case_decide as Hpace.
  { eexists _, _. split; [done|]. apply quiet_flush; try done. by left. }
  assert (nextWriteTime c <= now) as Htime by lia.
  assert (flush_point f c (set_rcv c rcv)) as Hp by (exists rcv, (c_snd c), (c_meas c); by destruct c).
  cbn [dataInFlight rcvWndSize set_rcv]. unfold mtu_ok, int_ok in *. rewrite i64_small by lia.
  case_decide as Hwnd.
  { destruct ack as [a|] eqn:E; [|eexists _, _; split; [done|]; apply quiet_flush; try done; by left].
    apply flush_ack; try done. left. split; [done|]. intros E0. unfold GetSndAck in Eack. rewrite E0 in Eack.
    injection Eack as <- <-. done. }
  assert (fits l c) as Hfit by (unfold fits; lia).
  change (msgType (set_rcv c rcv)) with (msgType c). cbn [c_snd c_meas set_rcv].
  destruct (ReadyToRetransmit_spec f (c_snd c) (st_streamID s) ack (l_mtu l) (rtoNano (c_meas c)) (msgType c) now Hi
    (room_mtu _ _ _ Hm)) as (sb & r & -> & Hi' & _ & _ & Hr). cbn [mbind go_bind].
  assert (forall meas, flush_point f c (set_meas (set_snd (set_rcv c rcv) sb) meas)) as Hp'
    by (intros meas; by exists rcv, sb, meas).
  destruct r as [err|[[[d|] off] close]].
  - eexists _, _. split; [done|]. apply quiet_flush; try done. by right.
  - destruct Hr as [(_ & Hlen & _) _]. by apply flush_packet.
  - apply flush_send_spec; try done. exact (Hp' (c_meas c)).
Qed.
End laws.

(** ** The counter over the life of a connection *)

Section run.
Context {PubKey PrvKey : Type} `{!CryptoPrims PubKey PrvKey}.
Implicit Types (l : ListenerCfg PrvKey) (c : Conn PubKey PrvKey).

(** A packet as the outside sees it: its type, the counter it was encrypted
    under, and the datagram. *)
Definition packet : Type := CryptoMsgType * Z * Z * bytes.

Definition same_counter c c' : Prop :=
  snCrypto c' = snCrypto c /\ epochCryptoSnd c' = epochCryptoSnd c /\ isSenderOnInit c' = isSenderOnInit c /\
  connId c' = connId c /\ prvKeyEpSnd c' = prvKeyEpSnd c.

(** The datagram was made by [encode] in state [c], which advanced the counter. *)
Definition made c (t : CryptoMsgType) (enc : bytes) c' : Prop :=
  ctr_ok c' /\ ctr c' = ctr c + 1 /\ isSenderOnInit c' = isSenderOnInit c /\
  (t = Data -> exists secret p,
     encryptData (connId c) (isSenderOnInit c) (Some secret) (snCrypto c) (epochCryptoSnd c) p = Ok (inr enc)).

Definition counts c (t : CryptoMsgType) (ds : list bytes) c' : Prop :=
  ds = [] /\ same_counter c c' \/ exists enc, ds = [enc] /\ made c t enc c'.

Lemma encode_data l c p d enc b :
  encode_msg l c p d Data = Ok (inr (enc, b)) ->
  exists secret q, encryptData (connId c) (isSenderOnInit c) (Some secret) (snCrypto c) (epochCryptoSnd c) q = Ok (inr enc).
Proof.
  unfold encode_msg. rewrite EncodePayload_spec. cbn [mbind go_bind].
  destruct (sharedSecret c) as [s|]; [|done].
  destruct (encryptData _ _ _ _ _ _) as [[e|x]| |] eqn:E; simpl; intros [=]. subst. eexists _, _. exact E.
Qed.

Lemma encode_counts l c p d t c' r :
  ctr_ok c -> ctr c < 2 ^ 95 - 1 -> encode l c p d t = Ok (c', r) ->
  match r with inl _ => c' = c | inr enc => made c t enc c' end.
Proof.
  intros Hc Hlt. unfold encode. destruct (encode_msg l c p d t) as [[err|[enc b]]| |] eqn:E; simpl; [by intros [= <- <-]| | done | done].
  pose proof (counter_advance _ _ Hc) as Ha. destruct (advance _ _) as [[e [sn ep]]|[sn ep]].
  - unfold ctr in Hlt. lia.
  - destruct Ha as [H1 H2]. intros [= <- <-]. split_and!; try done. intros ->. by eapply encode_data.
Qed.

Lemma sendPacket_counts write l c s ack d off close t now track c' fr :
  ctr_ok c -> ctr c < 2 ^ 95 - 1 -> sendPacket write l c s ack d off close t now track = Ok (c', fr) -> counts c t fr.1 c'.
Proof.
  intros Hc Hlt. unfold sendPacket. intros H. apply go_bind_Ok in H as ([c1 r] & E & H).
  apply encode_counts in E; [|done..]. destruct r as [err|enc].
  - injection H as <- <-. subst. left. by split_and!.
  - right. exists enc. destruct (write _ enc); [by injection H as <- <-|].
    apply go_bind_Ok in H as ([c2 pc] & E2 & [= <- <-]). split; [done|].
    destruct track; apply go_bind_Ok in E2 as (? & ? & [= <- <-]); exact E.
Qed.

Lemma writeAck_counts write l c s ack now c' fr :
  ctr_ok c -> ctr c < 2 ^ 95 - 1 -> writeAck write l c s ack now = Ok (c', fr) -> counts c (msgType c) fr.1 c'.
Proof.
  intros Hc Hlt. unfold writeAck. intros H. apply go_bind_Ok in H as (b & _ & H).
  apply go_bind_Ok in H as ([c1 r] & E & H). apply encode_counts in E; [|done..]. destruct r as [err|enc].
  - injection H as <- <-. subst. left. by split_and!.
  - right. exists enc. destruct (write _ enc); [by injection H as <- <-|].
    apply go_bind_Ok in H as (pc & _ & [= <- <-]). split; [done | exact E].
Qed.

Lemma idle_counts write l c s (ack : option Ack) now c' fr :
  ctr_ok c -> ctr c < 2 ^ 95 - 1 ->
  match ack with Some _ => writeAck write l c s ack now | None => mret (c, ([], inr (0, MinDeadLine))) end = Ok (c', fr) ->
  counts c (msgType c) fr.1 c'.
Proof.
  intros Hc Hlt. destruct ack; [by apply writeAck_counts|]. intros [= <- <-]. left. by split_and!.
Qed.

Lemma flush_send_counts write l c s ack now c' fr :
  ctr_ok c -> ctr c < 2 ^ 95 - 1 -> flush_send write l c s ack (msgType c) now = Ok (c', fr) -> counts c (msgType c) fr.1 c'.
Proof.
  intros Hc Hlt. unfold flush_send. destruct (_ || _); [|by apply idle_counts].
  intros H. apply go_bind_Ok in H as ([sb [[d off] close]] & _ & H). destruct d as [d|].
  - apply sendPacket_counts in H; [exact H | done | done].
  - destruct (_ || _); [apply writeAck_counts in H | apply idle_counts in H]; (exact H || done).
Qed.

Lemma Flush_counts write l c s now c' fr :
  ctr_ok c -> ctr c < 2 ^ 95 - 1 -> Flush write l c s now = Ok (c', fr) -> counts c (msgType c) fr.1 c'.
Proof.
  intros Hc Hlt. unfold Flush. destruct (GetSndAck (c_rcv c)) as [rcv ack]. cbv zeta.
  case_decide as Hp; [intros [= <- <-]; left; by split_and!|].
  case_decide as Hw; [intros H1; apply idle_counts in H1; (exact H1 || done)|].
  intros H. apply go_bind_Ok in H as ([sb r] & _ & H). destruct r as [err|[[[d|] off] close]].
  - injection H as <- <-. left. by split_and!.
  - apply sendPacket_counts in H; (exact H || done).
  - exact (flush_send_counts write l (set_snd (set_rcv c rcv) sb) s _ now c' fr Hc Hlt H).
Qed.

Lemma conn_Stream_counter c sid c' s : conn_Stream c sid = Ok (c', s) -> same_counter c c'.
Proof.
  unfold conn_Stream. intros H. apply go_bind_Ok in H as ([x|] & _ & H); [by injection H as <- <-|].
  apply go_bind_Ok in H as (m & _ & [= <- <-]). done.
Qed.

Lemma decode_ack_counter c s a rawLen now c' s' : decode_ack c s a rawLen now = Ok (c', s') -> same_counter c c'.
Proof.
  unfold decode_ack. intros H. apply go_bind_Ok in H as ([sb [st t]] & _ & H). cbv zeta in H.
  apply go_bind_Ok in H as (full & _ & H). apply go_bind_Ok in H as ([c1 s1] & H1 & H).
  assert (same_counter c c1) as Hc1.
  { destruct full; [apply go_bind_Ok in H1 as (m & _ & [= <- _]) | injection H1 as <- _]; by destruct st. }
  case_decide; [apply go_bind_Ok in H as (ms & _ & [= <- _]) | injection H as <- _]; exact Hc1.
Qed.

(** Processing a payload does not touch the send counter and the identity of
    the connection. *)
Lemma decode_counter c p d rawLen now c' s : decode c p d rawLen now = Ok (c', s) -> same_counter c c'.
Proof.
  unfold decode. intros H. apply go_bind_Ok in H as ([c1 s1] & H1 & H). apply conn_Stream_counter in H1.
  apply go_bind_Ok in H as ([c2 s2] & H2 & H).
  assert (same_counter c1 c2) as Hc2.
  { destruct (pAck p); [by apply decode_ack_counter in H2 | by injection H2 as <- <-]. }
  apply go_bind_Ok in H as (c3 & H3 & H).
  assert (same_counter c2 c3) as Hc3.
  { case_decide; [apply go_bind_Ok in H3 as ([? ?] & _ & [= <-]) | destruct (_ || _); injection H3 as <-]; done. }
  assert (same_counter c3 c') as Hc4 by (destruct (IsClose p); injection H as <- _; done).
  unfold same_counter in *. naive_solver congruence.
Qed.

(** What can happen to a connection: a flush, an incoming payload, the
    application using the buffers, and the listener completing the handshake
    (keys, the handshake flag and the receive epoch; never the send counter). *)
Inductive conn_step (write : AddrPort -> bytes -> option go_error) l : Conn PubKey PrvKey -> list packet -> Conn PubKey PrvKey -> Prop :=
  | step_flush c s now c' fr :
      Flush write l c s now = Ok (c', fr) ->
      conn_step write l c ((fun enc => (msgType c, epochCryptoSnd c, snCrypto c, enc)) <$> fr.1) c'
  | step_decode c p d rawLen now c' s :
      decode c p d rawLen now = Ok (c', s) -> conn_step write l c [] c'
  | step_stream c sid c' s :
      conn_Stream c sid = Ok (c', s) -> conn_step write l c [] c'
  | step_buffers c snd rcv :
      conn_step write l c [] (set_rcv (set_snd c snd) rcv)
  | step_handshake c ep id secret done epoch :
      conn_step write l c []
        (mkConn (connId c) (remoteAddr c) (streams c) (prvKeyEpSnd c) ep id secret (c_snd c) (c_rcv c) (dataInFlight c) (rcvWndSize c)
           (isSenderOnInit c) (isWithCryptoOnInit c) done (isInitSentOnSnd c) (nextWriteTime c) (snCrypto c)
           (epochCryptoSnd c) epoch (c_meas c)).

Inductive conn_run (write : AddrPort -> bytes -> option go_error) l : Conn PubKey PrvKey -> list packet -> Conn PubKey PrvKey -> Prop :=
  | run_nil c : conn_run write l c [] c
  | run_step c ps1 c1 ps2 c2 : conn_step write l c ps1 c1 -> conn_run write l c1 ps2 c2 -> conn_run write l c (ps1 ++ ps2) c2.

Definition packet_ctr (p : packet) : Z := let '(_, e, s, _) := p in counter s e.

(** A packet of a connection: its counter is in range, and a data packet is
    sealed under it. *)
Definition packet_ok (isSender : bool) (p : packet) : Prop :=
  let '(t, e, s, enc) := p in
  counter_ok s e /\
  (t = Data -> exists cid secret q, encryptData cid isSender (Some secret) s e q = Ok (inr enc)).

Lemma conn_step_counts write l c ps c' :
  conn_step write l c ps c' -> ctr_ok c -> ctr c < 2 ^ 95 - 1 ->
  isSenderOnInit c' = isSenderOnInit c /\ ctr_ok c' /\ ctr c' = ctr c + len ps /\
  (ps = [] \/ exists p, ps = [p] /\ packet_ctr p = ctr c /\ packet_ok (isSenderOnInit c) p).
Proof.
  assert (forall c c', same_counter c c' -> ctr_ok c -> isSenderOnInit c' = isSenderOnInit c /\ ctr_ok c' /\ ctr c' = ctr c + 0) as Hsame.
  { unfold ctr_ok, ctr. intros ? ? (-> & -> & -> & _) ?. split_and!; try done. lia. }
  intros Hs Hc Hlt. destruct Hs.
  - apply Flush_counts in H; [|done..]. destruct H as [[-> H]|(enc & -> & H1 & H2 & H3 & H4)].
    + destruct (Hsame _ _ H Hc) as (? & ? & ?). split_and!; auto.
    + split_and!; try done. right. eexists. split; [done|]. split; [done|]. split; [done|]. intros Ht.
      destruct (H4 Ht) as (secret & q & E). eauto.
  - apply decode_counter in H. destruct (Hsame _ _ H Hc) as (? & ? & ?). split_and!; auto.
  - apply conn_Stream_counter in H. destruct (Hsame _ _ H Hc) as (? & ? & ?). split_and!; auto.
  - split_and!; try done; [cbn; unfold ctr; cbn; lia | by left].
  - split_and!; try done; [cbn; unfold ctr; cbn; lia | by left].
Qed.

(** The packets of a run carry consecutive counters. *)
Lemma conn_run_counts write l c ps c' :
  conn_run write l c ps c' -> ctr_ok c -> ctr c + len ps < 2 ^ 95 - 1 ->
  packet_ctr <$> ps = seqZ (ctr c) (len ps) /\ Forall (packet_ok (isSenderOnInit c)) ps.
Proof.
  induction 1 as [c|c ps1 c1 ps2 c2 Hst Hrun IH]; intros Hc Hlt; [done|].
  rewrite length_app in *.
  destruct (conn_step_counts _ _ _ _ _ Hst Hc) as (Hs & Hc1 & Hct & Hps).
  { lia. }
  destruct IH as [IH1 IH2]; [done | lia|].
  rewrite Hs in IH2. destruct Hps as [->|(p & -> & Hp & Hok)]; cbn [app length] in *.
  - rewrite Hct in IH1. rewrite Z.add_0_r in IH1. done.
  - cbn [fmap list_fmap]. rewrite IH1, Hp, Hct. split; [|by constructor].
    rewrite (seqZ_cons _ (Z.of_nat (S (length ps2)))) by lia. do 2 f_equal; lia.
Qed.

Lemma Ok_inj {A} (a b : A) : Ok a = Ok b -> a = b.
Proof. by intros [= ->]. Qed.

(** Packets with consecutive counters below 2^55 have different nonces. *)
Lemma nonces_nodup (b : bool) (ps : list packet) :
  packet_ctr <$> ps = seqZ 0 (len ps) -> len ps < 2 ^ 55 ->
  Forall (fun '(_, e, s, _) => counter_ok s e) ps ->
  NoDup ((fun '(_, e, s, _) => nonce_det e s b) <$> ps).
Proof.
  intros Hseq Hlen Hok. rewrite Forall_forall in Hok.
  assert (forall p, p ∈ ps -> 0 <= packet_ctr p < 2 ^ 55) as Hbound.
  { intros p Hp. assert (packet_ctr p ∈ seqZ 0 (len ps)) as Hin by (rewrite <- Hseq; by apply list_elem_of_fmap_2).
    apply elem_of_seqZ in Hin. lia. }
  assert (NoDup (packet_ctr <$> ps)) as Hnd by (rewrite Hseq; apply NoDup_seqZ).
  apply NoDup_alt. intros i j x Hi Hj.
  apply list_lookup_fmap_Some in Hi as ([[[t1 e1] s1] d1] & Hi & E1).
  apply list_lookup_fmap_Some in Hj as ([[[t2 e2] s2] d2] & Hj & E2).
  subst x. rewrite !nonce_det_spec in Hj.
  assert (nonce_bytes e1 s1 b = nonce_bytes e2 s2 b) as Hn by (by apply Ok_inj).
  pose proof (list_elem_of_lookup_2 _ _ _ E1) as M1. pose proof (list_elem_of_lookup_2 _ _ _ E2) as M2.
  destruct (Hok _ M1) as [Hs1 He1]. destruct (Hok _ M2) as [Hs2 He2].
  pose proof (Hbound _ M1) as B1. pose proof (Hbound _ M2) as B2. simpl in B1, B2. unfold counter in *.
  apply nonce_bytes_inj in Hn as (_ & <- & Ee & _); [|widths; lia..].
  assert (e1 = e2) as -> by (widths; rewrite !Z.mod_small in Ee; lia).
  apply (NoDup_lookup _ _ _ (counter s1 e2) Hnd); apply list_lookup_fmap_Some;
    [by exists (t1, e2, s1, d1) | by exists (t2, e2, s1, d2)].
Qed.
End run.

(** ** Processing a payload *)

Section receive.
Context {PubKey PrvKey : Type}.
Implicit Types (c : Conn PubKey PrvKey) (p : PayloadHeader) (d : option bytes) (f g : Z -> Z -> Z).

(** The streams are filed under their ids. *)
Definition streams_ok (m : LinkedMap Z Stream) : Prop :=
  lm_wf m /\ forall e, e ∈ lm_elems m -> st_streamID e.2 = e.1.

(** The invariant of a connection whose application writes [f] and whose peer
    sends [g]. *)
Record conn_inv f g c : Prop := {
  ci_snd : snd_inv f (c_snd c);
  ci_rcv : rcv_exact g (c_rcv c);
  ci_meas : meas_inv (c_meas c);
  ci_streams : streams_ok (streams c);
}.

Definition filed c (s : Stream) (sid : Z) : Prop := st_streamID s = sid /\ (sid, s) ∈ lm_elems (streams c).

Lemma file_stream m (s : Stream) :
  streams_ok m -> exists m', LinkedMap.Put m (st_streamID s) s = Ok m' /\ streams_ok m' /\ (st_streamID s, s) ∈ lm_elems m'.
Proof.
  intros [Hwf Hid]. destruct (lm_put_ok m (st_streamID s) s Hwf) as (m' & Hp & Hwf' & He).
  exists m'. split; [done|]. rewrite He. split; [split; [done|]; rewrite He|].
  - intros e [->|[? _]]%elem_al_put; [done | by apply Hid | by apply lm_nodup].
  - apply elem_al_put; [by apply lm_nodup | by left].
Qed.

(** The step changes only the table of streams. *)
Definition only_streams c c' : Prop := exists m, c' = set_streams c m /\ streams_ok m.

Lemma conn_Stream_spec c sid :
  streams_ok (streams c) -> exists c' s, conn_Stream c sid = Ok (c', s) /\ only_streams c c' /\ filed c' s sid.
Proof.
  intros Hs. pose proof Hs as [Hwf Hid]. unfold conn_Stream. rewrite lm_get_ok by done. cbn [mbind go_bind].
  destruct (al_get sid (lm_elems (streams c))) as [s|] eqn:E.
  - exists c, s. split; [done|]. split; [exists (streams c); by destruct c|].
    apply al_get_elem in E. split; [exact (Hid _ E) | done].
  - destruct (file_stream (streams c) (mkStream sid 0) Hs) as (m & Hp & Hm & Hin). cbn [st_streamID] in Hp. rewrite Hp.
    eexists _, _. split; [done|]. split; [by exists m | by split].
Qed.

(** What an acknowledgement does to the sending side. *)
Definition ack_done c (a : Ack) (rawLen : Z) c' : Prop :=
  exists sb st, acks (c_snd c) a sb st /\ c_snd c' = sb /\ c_rcv c' = c_rcv c /\ rcvWndSize c' = ack_rcvWnd a /\
    dataInFlight c' = if decide (st = AckStatusOk) then i64 (dataInFlight c - rawLen) else dataInFlight c.

Lemma decode_ack_spec f g c s a rawLen now :
  conn_inv f g c -> filed c s (st_streamID s) -> wf_ack a -> is_u64 now ->
  exists c' s', decode_ack c s a rawLen now = Ok (c', s') /\ conn_inv f g c' /\ filed c' s' (st_streamID s) /\
    ack_done c a rawLen c'.
Proof.
  intros [Hi Hr Hm Hs] [_ Hf] (_ & Ho & Hl) Hnow. unfold decode_ack.
  destruct (AcknowledgeRange_spec f (c_snd c) a Hi Ho Hl) as (sb & st & t & -> & Hi' & Hacks). cbn [mbind go_bind].
  set (c1 := set_flow _ _ _ _).
  assert (c_snd c1 = sb /\ c_rcv c1 = c_rcv c /\ streams c1 = streams c /\ rcvWndSize c1 = ack_rcvWnd a /\ meas_inv (c_meas c1) /\
    dataInFlight c1 = if decide (st = AckStatusOk) then i64 (dataInFlight c - rawLen) else dataInFlight c)
    as (E1 & E2 & E3 & E4 & Hm1 & E5).
  { subst c1. destruct st; split_and!; try done. eapply meas_inv_step; [done | apply step_dup]. }
  clearbody c1. assert (snd_inv f (c_snd c1)) as Hi1 by congruence.
  destruct (checkStreamFullyAcked_total f c1 (st_streamID s) Hi1) as [full ->]. cbn [mbind go_bind].
  assert (exists c2 s2, (if full
      then m ← LinkedMap.Put (streams c1) (st_streamID (mkStream (st_streamID s) now)) (mkStream (st_streamID s) now);
           mret (set_streams c1 m, mkStream (st_streamID s) now)
      else mret (c1, s)) = Ok (c2, s2) /\ only_streams c1 c2 /\ filed c2 s2 (st_streamID s)) as (c2 & s2 & H2 & (m & -> & Hm2) & Hf2).
  { destruct full.
    - destruct (file_stream (streams c1) (mkStream (st_streamID s) now)) as (m & -> & Hok & Hin); [by rewrite E3|].
      eexists _, _. split; [done|]. split; [by exists m | by split].
    - exists c1, s. split; [done|]. split; [|split; [done | by rewrite E3]].
      exists (streams c1). split; [by destruct c1 | by rewrite E3]. }
  rewrite H2. cbn [mbind go_bind]. destruct (decide (t < now /\ st = AckStatusOk)) as [Hup|Hup].
  - destruct (updateMeasurements_spec (c_meas c1) (u64 (now - t)) (ack_len a) now) as (ms & Hu & Hms & _);
      [done | width_lia | done | done|].
    cbn [set_streams c_meas]. rewrite Hu. cbn [mbind go_bind]. eexists _, _. split; [done|].
    split; [by constructor; cbn; rewrite ?E2|]. split; [done|]. by exists sb, st.
  - eexists _, _. split; [done|]. split; [by constructor; cbn; rewrite ?E2|]. split; [done|]. by exists sb, st.
Qed.

(** The data of a payload, when there are any, are bytes of the peer's stream
    and orderly with respect to the receive buffer, as exact insertion needs. *)
Definition fresh_data g c p d : Prop :=
  let u := default [] d in
  0 < len u ->
  segment_of (g (StreamID p)) (StreamOffset p) u /\
  orderly (content (c_rcv c) (StreamID p)) (next_of (c_rcv c) (StreamID p)) (StreamOffset p) u.

(** What a payload does to the receiving side, before the close flag. *)
Definition data_done (rb : ReceiveBuffer (SortedMap RcvValue)) p d rb' : Prop :=
  let u := default [] d in
  (0 < len u -> exists st, insert_result rb (StreamID p) (StreamOffset p) u rb' st) /\
  (len u = 0 -> (forall sid, content rb' sid = content rb sid /\ next_of rb' sid = next_of rb sid) /\
     ackList rb' = ackList rb ++
       (if IsClose p || bool_decide (is_Some d) then [mkAck (StreamID p) (StreamOffset p) 0 0] else [])).

Definition close_rcv p (rb : ReceiveBuffer (SortedMap RcvValue)) :=
  if IsClose p then Rcv.Close rb (StreamID p) (StreamOffset p) else rb.
Definition close_snd p (sb : SendBuffer (LinkedMap Z SendInfo)) :=
  if IsClose p then Snd.Close sb (StreamID p) else sb.

(** The data part of [decode]. *)
Lemma decode_data g c c2 p d now :
  rcv_exact g (c_rcv c) -> c_rcv c2 = c_rcv c -> fresh_data g c p d ->
  exists rb,
    (if decide (0 < len (default [] d))
     then '(rcv, _) ← Insert (c_rcv c) (StreamID p) (StreamOffset p) now (default [] d); mret (set_rcv c2 rcv)
     else if IsClose p || bool_decide (is_Some d)
          then mret (set_rcv c2 (EmptyInsert (c_rcv c) (StreamID p) (StreamOffset p) now).1) else mret c2)
    = Ok (set_rcv c2 rb) /\ rcv_exact g rb /\ data_done (c_rcv c) p d rb.
Proof.
  intros He Er Hd. unfold data_done. case_decide as Hpos.
  - destruct (Hd Hpos) as [Hseg Hord].
    destruct (Insert_exact g (c_rcv c) (StreamID p) (StreamOffset p) now _ He Hseg Hord) as (rb & st & -> & He' & Hres).
    exists rb. split; [done|]. split; [done|]. split; [eauto | lia].
  - destruct (_ || _).
    + eexists. split; [done|]. split; [by apply EmptyInsert_exact|]. split; [lia|]. by split.
    + exists (c_rcv c). split; [rewrite <- Er; by destruct c2|]. split; [done|]. split; [lia|].
      split; [done|]. by rewrite app_nil_r.
Qed.

Lemma decode_spec f g c p d rawLen now :
  conn_inv f g c -> (forall a, pAck p = Some a -> wf_ack a) -> fresh_data g c p d -> is_u64 now ->
  exists c' s, decode c p d rawLen now = Ok (c', s) /\ conn_inv f g c' /\ filed c' s (StreamID p) /\
    (exists rb, data_done (c_rcv c) p d rb /\ c_rcv c' = close_rcv p rb) /\
    match pAck p with
    | Some a => exists c1, ack_done c a rawLen c1 /\ c_snd c' = close_snd p (c_snd c1) /\
        rcvWndSize c' = ack_rcvWnd a /\ dataInFlight c' = dataInFlight c1
    | None => c_snd c' = close_snd p (c_snd c) /\ rcvWndSize c' = rcvWndSize c /\ dataInFlight c' = dataInFlight c
    end.
Proof.
  intros Hc Ha Hd Hnow. unfold decode.
  destruct (conn_Stream_spec c (StreamID p) (ci_streams _ _ _ Hc)) as (c1 & s1 & -> & (m & -> & Hm) & Hf1).
  cbn [mbind go_bind]. assert (conn_inv f g (set_streams c m)) as Hc1 by (destruct Hc; by constructor).
  assert (exists c2 s2, match pAck p with
      | Some a => decode_ack (set_streams c m) s1 a rawLen now
      | None => mret (set_streams c m, s1) end = Ok (c2, s2) /\ conn_inv f g c2 /\ filed c2 s2 (StreamID p) /\ c_rcv c2 = c_rcv c /\
    match pAck p with
    | Some a => ack_done (set_streams c m) a rawLen c2
    | None => c_snd c2 = c_snd c /\ rcvWndSize c2 = rcvWndSize c /\ dataInFlight c2 = dataInFlight c end)
    as (c2 & s2 & -> & Hc2 & [Hid Hf2] & Er & Hack).
  { destruct (pAck p) as [a|].
    - destruct Hf1 as [Hid Hin].
      assert (filed (set_streams c m) s1 (st_streamID s1)) as Hf1 by (split; [done | by rewrite Hid]).
      destruct (decode_ack_spec f g _ s1 a rawLen now Hc1 Hf1 (Ha a eq_refl) Hnow) as (c2 & s2 & -> & ? & Hf & Hk).
      rewrite Hid in Hf. exists c2, s2. split_and!; try done. by destruct Hk as (? & ? & _ & _ & ? & _).
    - by exists (set_streams c m), s1. }
  cbn [mbind go_bind]. rewrite Er, Hid. clear Hf1 Hc1 Hm.
  destruct (decode_data g c c2 p d now (ci_rcv _ _ _ Hc) Er Hd) as (rb & -> & Hrb & Hdone).
  cbn [mbind go_bind].
  assert (exists c3, (if IsClose p
      then mret (set_snd (set_rcv (set_rcv c2 rb) (Rcv.Close rb (StreamID p) (StreamOffset p))) (Snd.Close (c_snd c2) (StreamID p)), s2)
      else mret (set_rcv c2 rb, s2)) = (Ok (c3, s2) : go (Conn PubKey PrvKey * Stream)) /\ c_rcv c3 = close_rcv p rb /\
      c_snd c3 = close_snd p (c_snd c2) /\ streams c3 = streams c2 /\ c_meas c3 = c_meas c2 /\
      rcvWndSize c3 = rcvWndSize c2 /\ dataInFlight c3 = dataInFlight c2) as (c3 & E3 & F1 & F2 & F3 & F4 & F5 & F6).
  { unfold close_rcv, close_snd. destruct (IsClose p); eexists; by split_and!. }
  exists c3, s2. split; [done|]. destruct Hc2 as [G1 G2 G3 G4]. split; [|split; [|split]].
  - constructor; rewrite ?F1, ?F2, ?F3, ?F4; try done; unfold close_rcv, close_snd; destruct (IsClose p); try done.
    + by apply Close_spec.
    + by apply Close_exact.
  - split; [done | by rewrite F3].
  - by exists rb.
  - rewrite F2, F5, F6. destruct (pAck p) as [a|].
    + destruct Hack as (sb & st & H1 & H2 & H3 & H4 & H5). exists c2. split_and!; try done. by exists sb, st.
    + destruct Hack as (-> & -> & ->). done.
Qed.
End receive.

(** ** Properties *)

Section properties.
Context {PubKey PrvKey : Type} `{!CryptoPrims PubKey PrvKey} `{!CryptoLaws PubKey PrvKey}.
Implicit Types (l : ListenerCfg PrvKey) (c : Conn PubKey PrvKey).

(** C19. Datagrams: a connection with its keys and room in its counter can always
    flush; at most one datagram is written, never longer than the MTU, and
    exactly the MTU for the first message of either handshake; it takes exactly
    one value of the packet counter, the keys and the message type stay, and the
    send buffer keeps its invariant. *)
Theorem flush_datagrams (write : AddrPort -> bytes -> option go_error) (f : Z -> Z -> Z) l c s now :
  conn_ready f l c ->
  exists c' ds r, Flush write l c s now = Ok (c', (ds, r)) /\ snd_inv f (c_snd c') /\ same_keys c c' /\
    ctr c' = ctr c + len ds /\ len ds <= 1 /\
    Forall (fun d => 0 < len d <= l_mtu l /\ (msgType c = InitSnd \/ msgType c = InitCryptoSnd -> len d = l_mtu l)) ds.
Proof.
  intros Hr. destruct (Flush_spec write f l c s now Hr) as (c' & [ds r] & E & Hf). exists c', ds, r.
  split; [done|]. pose proof (fk_emits _ _ _ _ _ _ Hf) as He. cbn [fst] in He.
  split; [apply Hf|]. split; [apply Hf|]. destruct ds as [|d [|]]; cbn [emits] in He; [|destruct He as ((p & u & Hl) & _ & Hc)|done].
  - destruct He as [E1 E2]. unfold ctr. rewrite E1, E2. cbn [length]. split_and!; [lia | lia | constructor].
  - cbn [length]. split_and!; [done | lia|]. constructor; [|constructor]. destruct Hl as (H1 & H2 & H3 & _). done.
Qed.

(** C20. Flow control: while the pacing time is not reached nothing is written or
    taken from the send buffer; while a full packet does not fit into the peer's
    window no data leave the send buffer, and only a pending acknowledgement can
    be written; data in flight never grow beyond the window; and after a write
    the next one is allowed exactly one pacing interval later. *)
Theorem flush_flow_control (write : AddrPort -> bytes -> option go_error) (f : Z -> Z -> Z) l c s now :
  conn_ready f l c ->
  exists c' ds r, Flush write l c s now = Ok (c', (ds, r)) /\
    (now < nextWriteTime c -> ds = [] /\ c_snd c' = c_snd c /\ nextWriteTime c' = nextWriteTime c) /\
    (to_int (rcvWndSize c) < dataInFlight c + l_mtu l ->
       c_snd c' = c_snd c /\ dataInFlight c' = dataInFlight c /\ (ackList (c_rcv c) = [] -> ds = [])) /\
    (dataInFlight c' = dataInFlight c \/ dataInFlight c <= dataInFlight c' <= to_int (rcvWndSize c)) /\
    (forall n pacing, r = inr (n, pacing) -> ds <> [] -> nextWriteTime c' = u64 (now + pacing)).
Proof.
  intros Hr. destruct (Flush_spec write f l c s now Hr) as (c' & [ds r] & E & []). by exists c', ds, r.
Qed.

(** C18. Nonces: over any run of a connection from its creation, through flushes,
    incoming payloads, use of the buffers and the handshake, with fewer than 2^55
    packets, every packet takes the next counter value, no two packets have
    the same nonce, and each data packet is sealed under its own. *)
Theorem conn_nonces_unique (write : AddrPort -> bytes -> option go_error) l c ps c' :
  conn_run write l c ps c' -> snCrypto c = 0 -> epochCryptoSnd c = 0 -> len ps < 2 ^ 55 ->
  packet_ctr <$> ps = seqZ 0 (len ps) /\
  NoDup ((fun '(_, e, s, _) => nonce_det e s (isSenderOnInit c)) <$> ps) /\
  forall e s enc, (Data, e, s, enc) ∈ ps ->
    exists cid secret q, encryptData cid (isSenderOnInit c) (Some secret) s e q = Ok (inr enc).
Proof.
  intros Hrun Hs He Hlen.
  destruct (conn_run_counts write l c ps c' Hrun) as [Hseq Hok].
  { unfold ctr_ok, counter_ok. rewrite Hs, He. by widths. }
  { unfold ctr, counter. rewrite Hs, He. lia. }
  assert (ctr c = 0) as E0 by (unfold ctr, counter; rewrite Hs, He; lia). rewrite E0 in Hseq.
  split; [done|]. split.
  - apply nonces_nodup; [done | done|]. eapply Forall_impl; [exact Hok|]. by intros [[[? ?] ?] ?] [? _].
  - intros e s enc Hin. rewrite Forall_forall in Hok. by apply (Hok _ Hin).
Qed.

(** C21. Receiving: for a connection that satisfies the invariant (its receive
    buffer exact) and a payload whose data, when there are any, are bytes of the
    peer's stream [g] and orderly with respect to the receive buffer
    ([fresh_data]: not partly delivered, every stored segment apart from them,
    containing them or inside them, and at most one inside them), [decode]
    returns and keeps the invariant; the data enter the receive buffer as
    [insert_result] says (an empty payload only queues an acknowledgement), an
    acknowledgement has exactly its effect on the send buffer and sets the
    window, and a close is applied to both directions.  A delayed unsplit copy of
    a packet that was split meanwhile is not orderly ([Rcv.rcv_reader_stalls]). *)
Theorem conn_decode_exact (f g : Z -> Z -> Z) c p d rawLen now :
  conn_inv f g c -> (forall a, pAck p = Some a -> wf_ack a) -> fresh_data g c p d -> is_u64 now ->
  exists c' s, decode c p d rawLen now = Ok (c', s) /\ conn_inv f g c' /\ filed c' s (StreamID p) /\
    (exists rb, data_done (c_rcv c) p d rb /\ c_rcv c' = close_rcv p rb) /\
    match pAck p with
    | Some a => exists c1, ack_done c a rawLen c1 /\ c_snd c' = close_snd p (c_snd c1) /\
        rcvWndSize c' = ack_rcvWnd a /\ dataInFlight c' = dataInFlight c1
    | None => c_snd c' = close_snd p (c_snd c) /\ rcvWndSize c' = rcvWndSize c /\ dataInFlight c' = dataInFlight c
    end.
Proof. apply decode_spec. Qed.
End properties.

(** ** Witnesses *)

Definition listener1400 : ListenerCfg bool := mkListenerCfg true 1400.

(** A connection after the handshake, with the send buffer [sb]. *)
Definition conn_with (sb : SendBuffer (LinkedMap Z SendInfo)) : Conn bool bool :=
  mkConn 77 no_addr NewLinkedMap (Some true) None None (Some (toy_key true)) sb (NewReceiveBuffer 100)
    0 2000 true false true true 0 0 0 0 NewMeasurements.

Lemma conn_with_ready sb : snd_inv counting sb -> conn_ready counting listener1400 (conn_with sb).
Proof.
  intros Hi. constructor; try done.
  - by exists (toy_key true).
Qed.

Definition discard (to : AddrPort) (d : bytes) : option go_error := None.
Definition flushed : Conn bool bool * flush_result :=
  ok_or (conn_with queued5, ([], inr (0, 0))) (Flush discard listener1400 (conn_with queued5) (mkStream 7 0) 1000).

Lemma flush_datagrams_witness :
  exists c' ds r, Flush discard listener1400 (conn_with queued5) (mkStream 7 0) 1000 = Ok (c', (ds, r)) /\
    snd_inv counting (c_snd c') /\ ctr c' = 0 + len ds.
Proof.
  destruct (flush_datagrams discard counting listener1400 (conn_with queued5) (mkStream 7 0) 1000
    (conn_with_ready _ queued5_inv)) as (c' & ds & r & E & Hi & _ & Hc & _).
  exists c', ds, r. split; [exact E|]. split; [exact Hi | exact Hc].
Defined.

Lemma flush_flow_control_witness :
  exists c' ds r, Flush discard listener1400 (conn_with queued5) (mkStream 7 0) 1000 = Ok (c', (ds, r)) /\
    (dataInFlight c' = 0 \/ 0 <= dataInFlight c' <= 2000).
Proof.
  destruct (flush_flow_control discard counting listener1400 (conn_with queued5) (mkStream 7 0) 1000
    (conn_with_ready _ queued5_inv)) as (c' & ds & r & E & _ & _ & Hc & _).
  exists c', ds, r. split; [exact E | exact Hc].
Defined.

(** One flush of the five queued bytes writes one data packet. *)
Lemma conn_nonces_unique_witness :
  exists enc, conn_run discard listener1400 (conn_with queued5) [(Data, 0, 0, enc)] flushed.1 /\
    exists cid secret q, encryptData cid true (Some secret) 0 0 q = Ok (inr enc).
Proof.
  assert (Flush discard listener1400 (conn_with queued5) (mkStream 7 0) 1000 = Ok (flushed.1, flushed.2)) as E
    by (vm_compute; reflexivity).
  assert (exists enc, flushed.2.1 = [enc]) as [enc Henc] by (eexists; vm_compute; reflexivity).
  assert (conn_run discard listener1400 (conn_with queued5) [(Data, 0, 0, enc)] flushed.1) as Hrun.
  { pose proof (step_flush discard listener1400 _ _ _ _ _ E) as Hstep. rewrite Henc in Hstep.
    exact (run_step _ _ _ _ _ [] _ Hstep (run_nil _ _ _)). }
  exists enc. split; [exact Hrun|].
  destruct (conn_nonces_unique discard listener1400 _ _ _ Hrun) as (_ & _ & H); [reflexivity..|].
  apply (H 0 0 enc). apply list_elem_of_here.
Defined.

(** A payload that acknowledges the five bytes and carries three of its own. *)
Definition reply3 : PayloadHeader := mkPayloadHeader false (Some (mkAck 7 0 5 4096)) 9 0.

Lemma conn_with_inv sb : snd_inv counting sb -> conn_inv counting counting (conn_with sb).
Proof.
  intros Hi. constructor; [done | | apply meas_inv_new |].
  - by apply NewReceiveBuffer_exact.
  - destruct (lm_new_ok (K := Z) (V := Stream)) as [Hwf He]. split; [done|]. cbn [streams conn_with]. rewrite He.
    intros e He'. by apply not_elem_of_nil in He'.
Qed.

Lemma reply3_fresh sb : fresh_data counting (conn_with sb) reply3 (Some [0; 1; 2]).
Proof.
  intros _. split.
  - split; [|split; [|reflexivity]]; widths; simpl; lia.
  - split_and!; [simpl; lia | left; vm_compute; discriminate | |]; intros o v; vm_compute; discriminate.
Qed.

Lemma conn_decode_exact_witness :
  exists c' s, decode (conn_with sent5) reply3 (Some [0; 1; 2]) 60 2000 = Ok (c', s) /\
    conn_inv counting counting c' /\ rcvWndSize c' = 4096.
Proof.
  destruct (conn_decode_exact counting counting (conn_with sent5) reply3 (Some [0; 1; 2]) 60 2000
    (conn_with_inv _ sent5_inv)) as (c' & s & E & Hi & _ & _ & (c1 & _ & _ & Hw & _)).
  - intros a [= <-]. split_and!; widths; simpl; lia.
  - apply reply3_fresh.
  - widths. lia.
  - exists c', s. split; [exact E|]. split; [exact Hi | exact Hw].
Defined.

(** ** Corner cases of the code *)

(** The last counter value ends with an error, but leaves the sequence number
    one past its 48 bits: another packet would be sealed under the nonce of
    sequence number 0 of the same epoch. *)
Theorem exhausted_counter_repeats_nonce (b : bool) :
  advance (2 ^ 48 - 1) (2 ^ 47 - 1) = inl (exhausted_msg, (2 ^ 48, 2 ^ 47 - 1)) /\
  nonce_det (2 ^ 47 - 1) (2 ^ 48) b = nonce_det (2 ^ 47 - 1) 0 b.
Proof. split; [reflexivity | by destruct b]. Qed.

(** A flush that has to wait for its pacing time has already taken the pending
    acknowledgement out of the list: it is never sent. *)
Theorem paced_flush_drops_ack {PubKey PrvKey} `{!CryptoPrims PubKey PrvKey} write (l : ListenerCfg PrvKey)
    (c : Conn PubKey PrvKey) s now (a : Ack) (acks : list Ack) :
  now < nextWriteTime c -> ackList (c_rcv c) = a :: acks ->
  exists c', Flush write l c s now = Ok (c', ([], inr (0, u64 (nextWriteTime c - now)))) /\ ackList (c_rcv c') = acks.
Proof.
  intros Hn Ha. unfold Flush, GetSndAck. rewrite Ha. cbn [nextWriteTime set_rcv]. rewrite decide_True by done. eauto.
Qed.
