(* ===== verification/Streams.v ===== *)
(** * Streams: the application's side of a connection (src/stream.go,
    [Conn.Close] of src/conn.go)

    The methods of [Stream], as functions of the connection and the stream.  A
    stream object is identified with its entry in the table of its connection:
    the assignment to [closedAtNano] files the stream again under its id.
    Waking the listener ([TimeoutReadNow]) is an argument that may fail. *)

From stdpp Require Import prelude gmap list numbers strings.
From S2P Require Import Prelude Proto Measurement Interfaces LinkedMap SortedMap Rcv Crypto Snd Conn.
Open Scope Z_scope.

(** ** The code *)

Inductive stream_error := EOF | ErrUnexpectedEOF | ErrOther (e : go_error).

#[export] Instance stream_error_eq_dec : EqDecision stream_error.
Proof. solve_decision. Defined.

Section code.
Context {PubKey PrvKey : Type}.
Implicit Types (c : Conn PubKey PrvKey) (s : Stream).

Definition stream_StreamID s : Z := st_streamID s.

Definition Ping c s : Conn PubKey PrvKey := set_snd c (QueuePing (c_snd c) (st_streamID s)).

Definition Close c s : Conn PubKey PrvKey := set_snd c (Snd.Close (c_snd c) (st_streamID s)).

Definition IsClosed s : bool := negb (closedAtNano s =? 0).

Definition IsCloseRequested c s : bool := bool_decide (is_Some (Snd.GetOffsetClosedAt (c_snd c) (st_streamID s))).

Definition IsOpen c s : bool := negb (IsCloseRequested c s) && negb (IsClosed s).

Definition Read c s : go (Conn PubKey PrvKey * Stream * (option bytes * option stream_error)) :=
  let closeOffset := Rcv.GetOffsetClosedAt (c_rcv c) (st_streamID s) in
  if IsClosed s then mret (c, s, (None, Some ErrUnexpectedEOF)) else
  '(rcv, (offset, data, receiveTimeNano)) ← RemoveOldestInOrder (c_rcv c) (st_streamID s);
  let c := set_rcv c rcv in
  if match closeOffset with Some co => co <=? offset | None => false end then
    let s := mkStream (st_streamID s) receiveTimeNano in
    m ← LinkedMap.Put (streams c) (st_streamID s) s;
    mret (set_streams c m, s, (data, Some EOF))
  else mret (c, s, (data, None)).

Definition Write (wake : option go_error) c s (userData : bytes)
    : go (Conn PubKey PrvKey * (Z * option stream_error)) :=
  if IsClosed s || IsCloseRequested c s then mret (c, (0, Some ErrUnexpectedEOF)) else
  if decide (len userData = 0) then mret (c, (0, None)) else
  '(snd, (n, status)) ← QueueData (c_snd c) (st_streamID s) userData;
  let c := set_snd c snd in
  if decide (status <> InsertStatusOk) then mret (c, (n, None))
  else match wake with
       | Some err => mret (c, (0, Some (ErrOther err)))
       | None => mret (c, (n, None))
       end.

(** [Conn.Close]: every stream of the table is closed for sending. *)
Definition conn_Close c : go (Conn PubKey PrvKey) :=
  entries ← Iterator (streams c) None;
  mret (foldl (fun c e => Close c e.2) c entries).
End code.

(** ** Lemmas *)

Section spec.
Context {PubKey PrvKey : Type}.
Implicit Types (c : Conn PubKey PrvKey) (s : Stream) (f g : Z -> Z -> Z).

Lemma conn_inv_snd f g c sb : conn_inv f g c -> snd_inv f sb -> conn_inv f g (set_snd c sb).
Proof. intros [? ? ? ?] ?. by constructor. Qed.

Lemma conn_inv_rcv f g c rb : conn_inv f g c -> rcv_exact g rb -> conn_inv f g (set_rcv c rb).
Proof. intros [? ? ? ?] ?. by constructor. Qed.

(** The outcome of a read of an open stream. *)
Definition reads g c s c' (data : option bytes) (err : option stream_error) : Prop :=
  let sid := st_streamID s in
  let next := next_of (c_rcv c) sid in
  c_snd c' = c_snd c /\
  next_of (c_rcv c') sid = next + len (default [] data) /\
  (is_Some data <-> covers (content (c_rcv c) sid) next) /\
  (forall d, data = Some d -> 0 < len d /\ d = read_at (g sid) next (length d)) /\
  (err = None \/ err = Some EOF) /\
  (err = Some EOF <-> exists co, Rcv.GetOffsetClosedAt (c_rcv c) sid = Some co /\ co <= if data then next else 0).

Lemma Read_spec f g c s :
  conn_inv f g c -> filed c s (st_streamID s) -> IsClosed s = false ->
  exists c' s' data err, Read c s = Ok (c', s', (data, err)) /\ conn_inv f g c' /\ filed c' s' (st_streamID s) /\
    reads g c s c' data err.
Proof.
  intros Hc Hf Hopen. unfold Read. rewrite Hopen. set (sid := st_streamID s).
  destruct (RemoveOldestInOrder_exact g (c_rcv c) sid (re_ok _ _ (ci_rcv _ _ _ Hc)))
    as (rb & off & data & t & E & _ & Hd & Hex). rewrite E. cbn [mbind go_bind].
  destruct (Hex (ci_rcv _ _ _ Hc)) as (Hrb & Hsome & Hpos & _).
  assert (off = if data then next_of (c_rcv c) sid else 0) as Hoff.
  { destruct data; [apply Hd|]. destruct (RemoveOldestInOrder_spec g (c_rcv c) sid (re_ok _ _ (ci_rcv _ _ _ Hc))) as (r & E' & Ho).
    rewrite E in E'. injection E' as <-. by inversion Ho. }
  assert (next_of rb sid = next_of (c_rcv c) sid + len (default [] data)) as Hnext.
  { destruct data as [d|]; simpl; [destruct Hd as (-> & _ & -> & _) | subst rb]; lia. }
  assert (forall d, data = Some d -> 0 < len d /\ d = read_at (g sid) (next_of (c_rcv c) sid) (length d)) as Hbytes.
  { intros d ->. split; [by apply Hpos|]. destruct Hd as (-> & Hd & _). done. }
  pose proof (conn_inv_rcv f g c rb Hc Hrb) as Hc'. cbv zeta.
  destruct (match Rcv.GetOffsetClosedAt (c_rcv c) sid with Some co => co <=? off | None => false end) eqn:Eclose.
  - destruct (file_stream (streams c) (mkStream sid t) (ci_streams _ _ _ Hc)) as (m & Hm & Hok & Hin).
    cbn [streams set_rcv]. rewrite Hm. cbn [mbind go_bind].
    eexists _, _, _, _. split; [done|]. split; [destruct Hc'; by constructor|]. split; [by split|].
    split_and!; try done; [by right|]. split; [|done]. intros _.
    destruct (Rcv.GetOffsetClosedAt (c_rcv c) sid) as [co|] eqn:Eco; [|done]. exists co. split; [exact Eco|].
    apply Z.leb_le in Eclose. rewrite Hoff in Eclose. exact Eclose.
  - eexists _, _, _, _. split; [done|]. split; [done|]. split; [done|].
    split_and!; try done; [by left|]. split; [done|]. intros (co & Eco & Hle). fold sid in Eco. rewrite Eco in Eclose.
    apply Z.leb_gt in Eclose. rewrite Hoff in Eclose. exfalso. exact (Zlt_not_le _ _ Eclose Hle).
Qed.

(** Closing every stream of a list. *)
Lemma close_all_spec f g (l : list (Z * Stream)) c :
  conn_inv f g c ->
  let c' := foldl (fun c e => Close c e.2) c l in
  conn_inv f g c' /\ streams c' = streams c /\ c_rcv c' = c_rcv c /\
  (forall sid, sent_of (c_snd c') sid = sent_of (c_snd c) sid /\ queue_of (c_snd c') sid = queue_of (c_snd c) sid /\
     flight_of (c_snd c') sid = flight_of (c_snd c) sid) /\
  (forall sid, is_Some (Snd.GetOffsetClosedAt (c_snd c) sid) -> 
     Snd.GetOffsetClosedAt (c_snd c') sid = Snd.GetOffsetClosedAt (c_snd c) sid) /\
  (forall e, e ∈ l -> is_Some (Snd.GetOffsetClosedAt (c_snd c') (st_streamID e.2))).
Proof.
  revert c. induction l as [|e l IH]; intros c Hc; cbn [foldl].
  { split_and!; try done. intros e He. by apply not_elem_of_nil in He. }
  destruct (Close_spec f (c_snd c) (st_streamID e.2) (ci_snd _ _ _ Hc)) as (Hi & Hkeep & Hclosed).
  destruct (IH (Close c e.2)) as (H1 & H2 & H3 & H4 & H5 & H6); [by apply conn_inv_snd|].
  assert (forall sid, is_Some (Snd.GetOffsetClosedAt (c_snd c) sid) ->
    Snd.GetOffsetClosedAt (c_snd (Close c e.2)) sid = Snd.GetOffsetClosedAt (c_snd c) sid) as Hstay.
  { intros sid [o Ho]. destruct (decide (sid = st_streamID e.2)) as [->|Hne].
    - cbn [Close c_snd set_snd]. rewrite Hclosed, Ho. done.
    - cbn [Close c_snd set_snd]. by apply Close_other. }
  split_and!; try done.
  - intros sid. destruct (H4 sid) as (-> & -> & ->). apply Hkeep.
  - intros sid Hs. rewrite H5; [by apply Hstay | by rewrite Hstay].
  - intros e' [->|He']%elem_of_cons; [|by apply H6]. rewrite H5; cbn [Close c_snd set_snd]; by rewrite Hclosed.
Qed.

(** Every stream of the connection is closed for sending, nothing else changes. *)
Definition closes_all f g c c' : Prop :=
  conn_inv f g c' /\ c_rcv c' = c_rcv c /\
  (forall sid s, (sid, s) ∈ lm_elems (streams c) -> is_Some (Snd.GetOffsetClosedAt (c_snd c') sid)) /\
  (forall sid, is_Some (Snd.GetOffsetClosedAt (c_snd c) sid) ->
     Snd.GetOffsetClosedAt (c_snd c') sid = Snd.GetOffsetClosedAt (c_snd c) sid) /\
  (forall sid, sent_of (c_snd c') sid = sent_of (c_snd c) sid /\ queue_of (c_snd c') sid = queue_of (c_snd c) sid /\
     flight_of (c_snd c') sid = flight_of (c_snd c) sid).

Lemma foldl_close_keys (l : list (Z * Stream)) c :
  connId (foldl (fun c e => Close c e.2) c l) = connId c /\ prvKeyEpSnd (foldl (fun c e => Close c e.2) c l) = prvKeyEpSnd c.
Proof. revert c. induction l as [|e l IH]; intros c; [done|]. cbn [foldl]. by destruct (IH (Close c e.2)) as [-> ->]. Qed.

Lemma conn_Close_spec f g c :
  conn_inv f g c ->
  exists c', conn_Close c = Ok c' /\ closes_all f g c c' /\ connId c' = connId c /\ prvKeyEpSnd c' = prvKeyEpSnd c.
Proof.
  intros Hc. destruct (ci_streams _ _ _ Hc) as [Hwf Hid]. unfold conn_Close.
  rewrite (lm_iterate_ok _ Hwf). cbn [mbind go_bind].
  destruct (close_all_spec f g (lm_elems (streams c)) c Hc) as (H1 & _ & H3 & H4 & H5 & H6).
  eexists. split; [done|]. split; [|apply foldl_close_keys].
  split_and!; try done. intros sid s Hin. specialize (H6 _ Hin). by rewrite (Hid _ Hin) in H6.
Qed.
End spec.

(** ** Properties *)

Section properties.
Context {PubKey PrvKey : Type}.
Implicit Types (c : Conn PubKey PrvKey) (s : Stream) (f g : Z -> Z -> Z).

(** C28. Reading a stream: a closed stream reads as [ErrUnexpectedEOF] and nothing
    changes; on an open one [Read] returns and keeps the invariant of the
    connection, data come if and only if the byte at the read position was
    received, they are exactly the peer's bytes from there, the read position
    moves past them, and [EOF] is returned exactly when the segment read starts
    at or after the close offset of the peer. *)
Theorem stream_read_exact f g c s :
  conn_inv f g c -> filed c s (st_streamID s) ->
  (IsClosed s = true -> Read c s = Ok (c, s, (None, Some ErrUnexpectedEOF))) /\
  (IsClosed s = false ->
   exists c' s' data err, Read c s = Ok (c', s', (data, err)) /\ conn_inv f g c' /\ filed c' s' (st_streamID s) /\
     reads g c s c' data err).
Proof.
  intros Hc Hf. split; [|by apply Read_spec]. intros H. unfold Read. by rewrite H.
Qed.

(** C29. Writing to a stream: a stream that is closed, or whose close was
    requested, refuses the data and nothing changes; otherwise exactly the bytes
    that fit are appended to the queue of the stream and their number is
    returned, unless waking the listener fails. *)
Theorem stream_write_exact f g c s (wake : option go_error) (d : bytes) :
  conn_inv f g c ->
  let sid := st_streamID s in
  let n := Z.min (len d) (sb_capacity (c_snd c) - sb_size (c_snd c)) in
  take (Z.to_nat n) d = read_at (f sid) (sent_of (c_snd c) sid + len (queue_of (c_snd c) sid)) (Z.to_nat n) ->
  sent_of (c_snd c) sid + len (queue_of (c_snd c) sid) + len d < 2 ^ 48 ->
  (IsOpen c s = false -> Write wake c s d = Ok (c, (0, Some ErrUnexpectedEOF))) /\
  (IsOpen c s = true ->
   exists c' r, Write wake c s d = Ok (c', r) /\ conn_inv f g c' /\ IsOpen c' s = IsOpen c s /\
     queue_of (c_snd c') sid = queue_of (c_snd c) sid ++ take (Z.to_nat n) d /\
     sent_of (c_snd c') sid = sent_of (c_snd c) sid /\
     (r = (n, None) \/ exists e, wake = Some e /\ n = len d /\ r = (0, Some (ErrOther e)))).
Proof.
  intros Hc sid n Hd Hlt. unfold IsOpen, Write.
  destruct (IsClosed s), (IsCloseRequested c s) eqn:Ereq; cbn [negb andb orb]; (split; [done|]); try done. intros _.
  case_decide as H0.
  - apply Nat2Z.inj with (m := 0%nat), nil_length_inv in H0. subst d. eexists _, _. split; [done|].
    split_and!; try done; [by rewrite Ereq | by rewrite take_nil, app_nil_r|]. left. f_equal. subst n. cbn [length].
    pose proof (sv_capacity _ _ (ci_snd _ _ _ Hc)). lia.
  - destruct (QueueData_spec f (c_snd c) sid d (ci_snd _ _ _ Hc) Hd Hlt)
      as (sb & st & E & Hi & _ & _ & Hq & Hs & _ & Ho & Hnd & Hfull).
    assert (IsCloseRequested (set_snd c sb) s = false) as Ereq'.
    { rewrite <- Ereq. unfold IsCloseRequested. cbn [c_snd set_snd]. by rewrite (QueueData_close _ _ _ _ _ E). }
    fold sid n in E |- *. rewrite E. cbn [mbind go_bind]. pose proof (conn_inv_snd f g c sb Hc Hi) as Hc'.
    case_decide as Hst; [|destruct wake as [e|]]; eexists _, _; (split; [done|]); rewrite ?Ereq'; split_and!; try done; eauto.
    right. exists e. split_and!; try done. assert (st = InsertStatusOk) as -> by (destruct (decide (st = InsertStatusOk)); tauto).
    subst n. destruct Hfull as [_ Hfull].
    destruct (decide (Z.min (len d) (sb_capacity (c_snd c) - sb_size (c_snd c)) < len d)) as [Hl|]; [|lia].
    by specialize (Hfull Hl).
Qed.

(** Closing a connection: every stream in the table gets a close offset for
    sending (an earlier one stays), and no queued or unacknowledged byte and
    nothing received is lost. *)
Theorem conn_close_all f g c :
  conn_inv f g c ->
  exists c', conn_Close c = Ok c' /\ conn_inv f g c' /\ c_rcv c' = c_rcv c /\
    (forall sid s, (sid, s) ∈ lm_elems (streams c) -> is_Some (Snd.GetOffsetClosedAt (c_snd c') sid)) /\
    (forall sid, is_Some (Snd.GetOffsetClosedAt (c_snd c) sid) ->
       Snd.GetOffsetClosedAt (c_snd c') sid = Snd.GetOffsetClosedAt (c_snd c) sid) /\
    (forall sid, sent_of (c_snd c') sid = sent_of (c_snd c) sid /\ queue_of (c_snd c') sid = queue_of (c_snd c) sid /\
       flight_of (c_snd c') sid = flight_of (c_snd c) sid).
Proof.
  intros Hc. destruct (conn_Close_spec f g c Hc) as (c' & E & Hall & _). exists c'. split; [exact E | exact Hall].
Qed.
End properties.

(** ** Witnesses *)

(** A connection that received bytes 0 to 2 on stream 7, with the stream filed. *)
Definition stream7 : Stream := mkStream 7 0.
Definition filed7 : LinkedMap Z Stream := ok_or NewLinkedMap (LinkedMap.Put NewLinkedMap 7 stream7).
Definition conn7 : Conn bool bool := set_rcv (set_streams (conn_with queued5) filed7) got3.

Lemma filed7_ok : streams_ok filed7 /\ (7, stream7) ∈ lm_elems filed7.
Proof.
  destruct (lm_new_ok (K := Z) (V := Stream)) as [Hwf He].
  destruct (file_stream NewLinkedMap stream7) as (m & E & Hok & Hin).
  { split; [done|]. rewrite He. intros e He'. by apply not_elem_of_nil in He'. }
  unfold filed7. cbn [st_streamID stream7] in E. by rewrite E.
Qed.

Lemma conn7_inv : conn_inv counting counting conn7.
Proof.
  destruct (conn_with_inv queued5 queued5_inv) as [H1 _ H3 _].
  constructor; [done | apply got3_spec | done | apply filed7_ok].
Qed.

Lemma conn7_filed : filed conn7 stream7 7.
Proof. split; [done | apply filed7_ok]. Qed.

Lemma stream_read_exact_witness :
  exists c' s' data err, Read conn7 stream7 = Ok (c', s', (data, err)) /\ data = Some [0; 1; 2] /\
    next_of (c_rcv c') 7 = 3.
Proof.
  destruct (stream_read_exact counting counting conn7 stream7 conn7_inv conn7_filed) as [_ H].
  destruct (H eq_refl) as (c' & s' & data & err & E & _ & _ & _ & Hn & _). exists c', s', data, err.
  assert (data = Some [0; 1; 2]) as Hd by (vm_compute in E; congruence).
  split; [exact E|]. split; [exact Hd|]. rewrite Hd in Hn. exact Hn.
Defined.

Lemma stream_write_exact_witness :
  exists c', Write None conn7 stream7 [5; 6] = Ok (c', (2, None)) /\ conn_inv counting counting c' /\
    queue_of (c_snd c') 7 = [0; 1; 2; 3; 4; 5; 6].
Proof.
  destruct (stream_write_exact counting counting conn7 stream7 None [5; 6] conn7_inv) as [_ H];
    [reflexivity | reflexivity|].
  destruct H as (c' & r & E & Hi & _ & Hq & _ & Hr); [reflexivity|].
  exists c'. split; [destruct Hr as [->|(e & [=] & _)]; exact E|]. split; [exact Hi | exact Hq].
Defined.

Lemma conn_close_all_witness :
  exists c', conn_Close conn7 = Ok c' /\ is_Some (Snd.GetOffsetClosedAt (c_snd c') 7) /\
    queue_of (c_snd c') 7 = [0; 1; 2; 3; 4].
Proof.
  destruct (conn_close_all counting counting conn7 conn7_inv) as (c' & E & _ & _ & Hc & _ & Hk).
  exists c'. split; [exact E|]. split; [apply (Hc 7 stream7), filed7_ok | exact (proj1 (proj2 (Hk 7)))].
Defined.

(** ** Corner cases of the code *)

(** A close that arrives without data at a positive offset is never reported:
    with everything before it read, [Read] returns neither data nor [EOF]. *)
Theorem empty_close_never_eof {PubKey PrvKey} (c : Conn PubKey PrvKey) (s : Stream) co :
  Rcv.GetOffsetClosedAt (c_rcv c) (st_streamID s) = Some co -> 0 < co -> IsClosed s = false ->
  RemoveOldestInOrder (c_rcv c) (st_streamID s) = Ok (c_rcv c, (0, None, 0)) ->
  exists c', Read c s = Ok (c', s, (None, None)).
Proof.
  intros Hc Hp Ho E. unfold Read. rewrite Ho, E. cbn [mbind go_bind]. rewrite Hc.
  assert ((co <=? 0) = false) as -> by lia. eauto.
Qed.

(** When waking the listener fails, [Write] reports that nothing was written,
    but the data stay queued. *)
Theorem failed_wake_keeps_data :
  exists c', Write (Some "closed"%string) conn7 stream7 [5; 6] = Ok (c', (0, Some (ErrOther "closed"%string))) /\
    queue_of (c_snd c') 7 = [0; 1; 2; 3; 4; 5; 6].
Proof. eexists. split; vm_compute; reflexivity. Qed.
