(* ===== verification/Inversion.v ===== *)
(** * Inversion: what the operations of a connection do, read off their results

    The specifications of [Conn] and [Streams] say that an operation returns, and
    what it returns, under the invariant of the connection.  Step relations need
    the converse without that invariant: if the operation returned, which fields
    have changed and how. *)

From stdpp Require Import prelude gmap list numbers strings.
From S2P Require Import Prelude Proto Measurement Interfaces LinkedMap SortedMap Rcv Crypto Snd Conn Streams.
Open Scope Z_scope.

Section inversion.
Context {PubKey PrvKey : Type} `{!CryptoPrims PubKey PrvKey} `{!CryptoLaws PubKey PrvKey}.
Implicit Types (c : Conn PubKey PrvKey) (p : PayloadHeader) (u : option bytes).

(** The identity, secret and handshake state of a connection stay, and so do
    its counter, its epochs and its pacing time. *)
Definition same_link c c' : Prop :=
  connId c' = connId c /\ sharedSecret c' = sharedSecret c /\ isSenderOnInit c' = isSenderOnInit c /\
  isHandshakeDoneOnRcv c' = isHandshakeDoneOnRcv c /\ snCrypto c' = snCrypto c /\ epochCryptoSnd c' = epochCryptoSnd c /\
  remoteAddr c' = remoteAddr c /\ epochCryptoRcv c' = epochCryptoRcv c /\ nextWriteTime c' = nextWriteTime c.

Lemma same_link_trans c1 c2 c3 : same_link c1 c2 -> same_link c2 c3 -> same_link c1 c3.
Proof.
  intros (A1 & A2 & A3 & A4 & A5 & A6 & A7 & A8 & A9) (B1 & B2 & B3 & B4 & B5 & B6 & B7 & B8 & B9). unfold same_link. split_and!; congruence.
Qed.

(** Inserting queues at most one acknowledgement, for the packet. *)
Lemma Insert_acks (rb rb' : ReceiveBuffer (SortedMap RcvValue)) sid off now d st :
  Insert rb sid off now d = Ok (rb', st) ->
  ackList rb' = ackList rb \/ ackList rb' = ackList rb ++ [mkAck sid off (u16 (len d)) 0].
Proof.
  assert (forall rb0 stream, Rcv.getOrCreateStream rb sid = (rb0, stream) -> ackList rb0 = ackList rb) as Hget.
  { unfold Rcv.getOrCreateStream. intros rb0 stream. destruct (Rcv.streams rb !! sid); by intros [= <- _]. }
  unfold Insert. destruct (Rcv.getOrCreateStream rb sid) as [rb0 stream] eqn:E. specialize (Hget _ _ eq_refl).
  case_decide as Hfull; [intros [= <- _]; by left|]. intros H. right. revert H.
  case_decide as Hdup; [intros [= <- _]; cbn; by rewrite Hget|]. intros H. apply go_bind_Ok in H as ([v|] & _ & H).
  - unfold insert_same in H. case_decide as Hsame; [injection H as <- _; cbn; by rewrite Hget|].
    apply go_bind_Ok in H as ([segs x] & _ & H). apply go_bind_Ok in H as (segs' & _ & [= <- _]). cbn. by rewrite Hget.
  - apply go_bind_Ok in H as ([[fo fd]|] & _ & H); [|injection H as <- _; cbn; by rewrite Hget].
    apply go_bind_Ok in H as ([[segs size] fd'] & _ & H). apply go_bind_Ok in H as (segs' & _ & [= <- _]). cbn. by rewrite Hget.
Qed.

(** The receive buffer after the data part of [decode]. *)
Definition data_step (rb : ReceiveBuffer (SortedMap RcvValue)) p u now rb' : Prop :=
  if decide (0 < len (default [] u)) then exists st, Insert rb (StreamID p) (StreamOffset p) now (default [] u) = Ok (rb', st)
  else rb' = if IsClose p || bool_decide (is_Some u) then (EmptyInsert rb (StreamID p) (StreamOffset p) now).1 else rb.

(** The sending side after an acknowledgement. *)
Definition ack_flow c a rawLen c' : Prop :=
  exists st t, AcknowledgeRange (c_snd c) a = Ok (c_snd c', (st, t)) /\ rcvWndSize c' = ack_rcvWnd a /\
    dataInFlight c' = if decide (st = AckStatusOk) then i64 (dataInFlight c - rawLen) else dataInFlight c.

Definition ack_step c p rawLen c' : Prop :=
  match pAck p with
  | Some a => ack_flow c a rawLen c'
  | None => c_snd c' = c_snd c /\ rcvWndSize c' = rcvWndSize c /\ dataInFlight c' = dataInFlight c
  end.

Lemma decode_ack_inv c s a rawLen now c' s' :
  streams_ok (streams c) -> decode_ack c s a rawLen now = Ok (c', s') ->
  streams_ok (streams c') /\ st_streamID s' = st_streamID s /\ same_link c c' /\ c_rcv c' = c_rcv c /\
  ack_flow c a rawLen c'.
Proof.
  intros Hs. unfold decode_ack. intros H. apply go_bind_Ok in H as ([sb [st t]] & Eack & H). cbv zeta in H.
  set (c1 := match st with AckStatusOk => _ | AckDup => _ | AckNoStream => _ end) in H.
  assert (same_link c c1 /\ streams c1 = streams c /\ c_rcv c1 = c_rcv c /\ c_snd c1 = sb /\
    dataInFlight c1 = if decide (st = AckStatusOk) then i64 (dataInFlight c - rawLen) else dataInFlight c)
    as (L1 & S1 & R1 & B1 & F1) by (by destruct st).
  apply go_bind_Ok in H as (full & _ & H). apply go_bind_Ok in H as ([c2 s2] & H2 & H).
  assert (same_link c1 c2 /\ streams_ok (streams c2) /\ c_rcv c2 = c_rcv c /\ c_snd c2 = sb /\ st_streamID s2 = st_streamID s /\
    rcvWndSize c2 = ack_rcvWnd a /\ dataInFlight c2 = dataInFlight c1) as (L2 & S2 & R2 & B2 & I2 & W2 & F2).
  { rewrite <- S1 in Hs. destruct full; [|by injection H2 as <- <-].
    apply go_bind_Ok in H2 as (m & Em & [= <- <-]). cbn [streams set_streams c_rcv c_snd st_streamID].
    destruct (file_stream (streams c1) (mkStream (st_streamID s) now)) as (m' & Em' & Hok & _); [done|].
    change (LinkedMap.Put (streams c1) (st_streamID s) (mkStream (st_streamID s) now) = Ok m) in Em.
    cbn [st_streamID] in Em'. rewrite Em in Em'. injection Em' as <-. done. }
  assert (same_link c2 c' /\ streams c' = streams c2 /\ c_rcv c' = c_rcv c2 /\ c_snd c' = c_snd c2 /\ s' = s2 /\
    rcvWndSize c' = rcvWndSize c2 /\ dataInFlight c' = dataInFlight c2) as (L3 & S3 & R3 & B3 & -> & W3 & F3).
  { destruct (decide (t < now /\ st = AckStatusOk)); [apply go_bind_Ok in H as (ms & _ & [= <- <-]) | injection H as <- <-]; done. }
  split; [by rewrite S3|]. split; [done|]. split; [by eapply same_link_trans, same_link_trans|]. split; [congruence|].
  exists st, t. rewrite B3, B2, W3, F3, F2. done.
Qed.

Lemma decode_inv c p u rawLen now c' s :
  streams_ok (streams c) -> Conn.decode c p u rawLen now = Ok (c', s) ->
  streams_ok (streams c') /\ same_link c c' /\
  (exists c2, ack_step c p rawLen c2 /\ c_snd c' = close_snd p (c_snd c2) /\
     rcvWndSize c' = rcvWndSize c2 /\ dataInFlight c' = dataInFlight c2) /\
  (exists rb, data_step (c_rcv c) p u now rb /\ c_rcv c' = close_rcv p rb).
Proof.
  intros Hs. unfold Conn.decode. destruct (conn_Stream_spec c (StreamID p) Hs) as (c1 & s1 & -> & (m & -> & Hm) & [Hid _]).
  cbn [mbind go_bind]. intros H. apply go_bind_Ok in H as ([c2 s2] & H2 & H).
  assert (streams_ok (streams c2) /\ st_streamID s2 = StreamID p /\ same_link c c2 /\ c_rcv c2 = c_rcv c /\ ack_step c p rawLen c2)
    as (S2 & I2 & L2 & R2 & A2).
  { unfold ack_step. destruct (pAck p) as [a|]; [|by injection H2 as <- <-].
    apply decode_ack_inv in H2 as (? & ? & ? & ? & ?); [|done]. split_and!; try done. congruence. }
  rewrite R2, I2 in H. apply go_bind_Ok in H as (c3 & H3 & H).
  assert (exists rb, c3 = set_rcv c2 rb /\ data_step (c_rcv c) p u now rb) as (rb & -> & D3).
  { unfold data_step. case_decide.
    - apply go_bind_Ok in H3 as ([rb st] & E & [= <-]). exists rb. split; [done | by exists st].
    - destruct (_ || _); injection H3 as <-; [by eexists|]. exists (c_rcv c2). split; [by destruct c2 | done]. }
  unfold close_snd, close_rcv. destruct (IsClose p); injection H as <- <-.
  - split_and!; try done; [by exists c2 | by exists rb].
  - split_and!; try done; [by exists c2 | by exists rb].
Qed.

Lemma data_step_acks rb p u now rb' : wf_payload p -> data_step rb p u now rb' ->
  Forall wf_ack (ackList rb) -> Forall wf_ack (ackList (close_rcv p rb')).
Proof.
  intros (H1 & H2 & _) Hd Hall.
  assert (forall n, is_u16 n -> wf_ack (mkAck (StreamID p) (StreamOffset p) n 0)) as Hnew by (by intros n Hn).
  assert (Forall wf_ack (ackList rb')) as Hrb.
  { unfold data_step in Hd. case_decide.
    - destruct Hd as [st Hd]. apply Insert_acks in Hd as [->| ->]; [done|]. apply Forall_app. split; [done|].
      constructor; [|done]. apply Hnew. widths. apply Z.mod_pos_bound. lia.
    - subst rb'. destruct (_ || _); [|done]. apply Forall_app. split; [done|]. constructor; [|done]. apply Hnew. by widths. }
  unfold close_rcv. destruct (IsClose p); [|done]. unfold Rcv.Close, Rcv.getOrCreateStream.
  destruct (Rcv.streams rb' !! StreamID p) as [x|]; [|done]. by destruct (closeAtOffset x).
Qed.

(** ** Use of a stream *)

(** The bytes a write took: the growth of the send buffer, also when [Write]
    returns an error because the listener could not be woken. *)
Definition accepted c c' : nat := Z.to_nat (sb_size (c_snd c') - sb_size (c_snd c)).

Lemma QueueData_size (sb sb' : SendBuffer (LinkedMap Z SendInfo)) sid d n status :
  QueueData sb sid d = Ok (sb', (n, status)) -> sb_size sb' = sb_size sb + n.
Proof.
  unfold QueueData. case_decide; [intros [= <- <- _]; lia|]. case_decide; [intros [= <- <- _]; lia|].
  intros H1. apply go_bind_Ok in H1 as ([chunk st] & _ & H1).
  unfold Snd.getOrCreateStream in H1. destruct (sb_streams sb !! sid); by injection H1 as <- <- _.
Qed.

Lemma Write_inv wake c (st : Stream) d c' r :
  Write wake c st d = Ok (c', r) ->
  c' = c \/ exists sb n status, QueueData (c_snd c) (st_streamID st) d = Ok (sb, (n, status)) /\ c' = set_snd c sb /\ accepted c c' = Z.to_nat n.
Proof.
  unfold Write. destruct (_ || _); [intros [= <- _]; by left|]. case_decide; [intros [= <- _]; by left|].
  intros H1. apply go_bind_Ok in H1 as ([sb [n status]] & E & H1). right. exists sb, n, status. split; [done|].
  assert (c' = set_snd c sb) as -> by (case_decide; [|destruct wake]; by injection H1 as <- _). split; [done|].
  unfold accepted. cbn [c_snd set_snd]. rewrite (QueueData_size _ _ _ _ _ _ E). f_equal. lia.
Qed.

Lemma RemoveOldest_acks (rb rb' : ReceiveBuffer (SortedMap RcvValue)) sid x :
  RemoveOldestInOrder rb sid = Ok (rb', x) -> ackList rb' = ackList rb.
Proof.
  unfold RemoveOldestInOrder. case_decide; [by intros [= <- _]|]. destruct (Rcv.streams rb !! sid); [|by intros [= <- _]].
  intros H1. apply go_bind_Ok in H1 as ([[o v]|] & _ & H1); [|by injection H1 as <- _].
  case_decide; [|case_decide; by injection H1 as <- _]. apply go_bind_Ok in H1 as ([segs y] & _ & H1).
  by apply go_bind_Ok in H1 as ([dt nx] & _ & [= <- _]).
Qed.

(** What a read changes. *)
Definition read_step c sid (data : option bytes) c' : Prop :=
  c_rcv c' = c_rcv c /\ data = None \/
  exists off t, RemoveOldestInOrder (c_rcv c) sid = Ok (c_rcv c', (off, data, t)).

Lemma Read_inv c (st : Stream) c' st' data err :
  streams_ok (streams c) -> Read c st = Ok (c', st', (data, err)) ->
  streams_ok (streams c') /\ same_link c c' /\ c_snd c' = c_snd c /\ ackList (c_rcv c') = ackList (c_rcv c) /\
  read_step c (st_streamID st) data c'.
Proof.
  intros Hs. unfold Read, read_step. destruct (IsClosed st); [intros [= <- _ <- _]; split_and!; try done; by left|].
  intros H. apply go_bind_Ok in H as ([rcv [[off dt] t]] & E & H). pose proof (RemoveOldest_acks _ _ _ _ E) as Ha.
  destruct (match Rcv.GetOffsetClosedAt _ _ with Some co => _ | None => false end).
  - apply go_bind_Ok in H as (m & Em & [= <- _ <- _]). cbn [set_streams streams c_rcv c_snd set_rcv].
    destruct (file_stream (streams c) (mkStream (st_streamID st) t) Hs) as (m' & Em' & Hm & _).
    cbn [st_streamID streams set_rcv] in Em, Em'. rewrite Em in Em'. injection Em' as <-. split_and!; try done. right. eauto.
  - injection H as <- _ <- _. cbn [streams c_rcv c_snd set_rcv]. split_and!; try done. right. eauto.
Qed.
End inversion.
