(* ===== verification/Flow.v ===== *)
(** * Flow: the flow control of a connection over its life

    [Conn.Flush] holds data back while the bytes in flight and one more packet
    exceed the window of the peer.  [flush_flow_control] of [Conn] says what one
    flush does.  This file follows the count of bytes in flight over many steps:
    what it takes to leave a blocked state, and how a connection gets into one. *)

From stdpp Require Import prelude gmap list numbers strings relations.
From S2P Require Import Prelude Proto Measurement Interfaces LinkedMap SortedMap Rcv Crypto Snd Conn Streams Inversion.
Open Scope Z_scope.

(** ** The send buffer when nothing leaves it *)

Section buffer.
Context {M : Type} `{!LinkedMapOps M packetKey SendInfo} `{!LinkedMapSpec M packetKey SendInfo}.
Implicit Types (sb : SendBuffer M) (sid : Z).

Definition flights_wf sb : Prop := forall sid, lmi_wf (dataInFlightMap (sstream sb sid)).

(** Nothing was sent for the first time and nothing left flight. *)
Definition holds sb sb' : Prop :=
  flights_wf sb' /\ forall sid, sent_of sb' sid = sent_of sb sid /\ flight_of sb' sid = flight_of sb sid.

Lemma holds_refl sb : flights_wf sb -> holds sb sb.
Proof. by split. Qed.

Lemma holds_trans sb1 sb2 sb3 : holds sb1 sb2 -> holds sb2 sb3 -> holds sb1 sb3.
Proof. intros [_ H1] [H2 H3]. split; [done|]. intros sid. destruct (H1 sid), (H3 sid). split; congruence. Qed.

Lemma holds_set sb sid st' size :
  flights_wf sb -> lmi_wf (dataInFlightMap st') -> lmi_elems (dataInFlightMap st') = flight_of sb sid ->
  bytesSentOffset st' = sent_of sb sid -> holds sb (sb_with_size (sb_set sb sid st') size).
Proof.
  intros Hw Hwf He Hs. assert (forall sid', sstream (sb_with_size (sb_set sb sid st') size) sid' =
    if decide (sid' = sid) then st' else sstream sb sid') as E by (intros; apply (sstream_set sb)).
  split; intros sid'; unfold sent_of, flight_of in *; rewrite E; case_decide; subst; auto.
Qed.

Lemma QueueData_holds sb sid d sb' r : flights_wf sb -> QueueData sb sid d = Ok (sb', r) -> holds sb sb'.
Proof.
  intros Hw. unfold QueueData. case_decide; [intros [= <- _]; by apply holds_refl|].
  case_decide; [intros [= <- _]; by apply holds_refl|].
  intros H1. apply go_bind_Ok in H1 as ([chunk st] & _ & H1).
  destruct (sgetOrCreateStream_spec sb sid) as (E & Hset & _). rewrite E, Hset in H1. injection H1 as <- _.
  by apply holds_set; [| apply Hw|..].
Qed.

Lemma QueuePing_holds sb sid : flights_wf sb -> holds sb (QueuePing sb sid).
Proof.
  intros Hw. unfold QueuePing. destruct (sgetOrCreateStream_spec sb sid) as (-> & Hset & _). rewrite Hset.
  by apply (holds_set sb sid _ (sb_size sb)); [| apply Hw|..].
Qed.

Lemma sensured_holds sb sid : flights_wf sb -> holds sb (sensured sb sid).
Proof.
  intros Hw. unfold sensured, getOrCreateStream. destruct (sb_streams sb !! sid) eqn:E; [by apply holds_refl|].
  assert (sstream sb sid = NewStreamBuffer) as En by (unfold sstream; by rewrite E).
  apply (holds_set sb sid _ (sb_size sb)); [done | apply lmi_new_spec | |]; unfold flight_of, sent_of; by rewrite En.
Qed.

Lemma Close_holds sb sid : flights_wf sb -> holds sb (Snd.Close sb sid).
Proof.
  intros Hw. unfold Snd.Close. destruct (sgetOrCreateStream_spec sb sid) as (-> & Hset & _).
  destruct (sb_closeAtOffset (sstream sb sid)); [by apply sensured_holds|]. rewrite Hset.
  by apply (holds_set sb sid _ (sb_size sb)); [| apply Hw|..].
Qed.

(** An acknowledgement of nothing that is in flight. *)
Lemma Acknowledge_holds sb a sb' st t :
  flights_wf sb -> createPacketKey (ack_offset a) (ack_len a) ∉ (flight_of sb (ack_streamID a)).*1 ->
  AcknowledgeRange sb a = Ok (sb', (st, t)) -> holds sb sb' /\ st <> AckStatusOk.
Proof.
  intros Hw Hk. unfold AcknowledgeRange. set (sid := ack_streamID a) in *.
  destruct (sb_streams sb !! sid) as [stream|] eqn:E; [|intros [= <- <- _]; split; [by apply holds_refl | done]].
  assert (sstream sb sid = stream) as Es by (unfold sstream; by rewrite E). subst stream.
  destruct (lmi_remove_spec (dataInFlightMap (sstream sb sid)) (createPacketKey (ack_offset a) (ack_len a)) (Hw sid))
    as (m & -> & Hm & Hel). cbn [mbind go_bind]. fold (flight_of sb sid) in Hel |- *.
  rewrite (proj2 (al_get_None _ _) Hk). rewrite al_remove_notin in Hel by done.
  intros [= <- <- _]. split; [|done]. by apply (holds_set sb sid _ (sb_size sb)).
Qed.

(** *** The buffer when data leaves it *)

(** [n] bytes of stream [sid] were sent for the first time. *)
Definition moved sb sid (n : Z) sb' : Prop :=
  flights_wf sb' /\ u64 (sent_of sb' sid) = u64 (sent_of sb sid + n).

Lemma moved_set sb sid st n :
  flights_wf sb -> lmi_wf (dataInFlightMap st) -> u64 (bytesSentOffset st) = u64 (sent_of sb sid + n) ->
  moved sb sid n (sb_set sb sid st).
Proof.
  intros Hw Hst Hn. split; [|by unfold sent_of at 1; rewrite sstream_set, decide_True].
  intros sid'. rewrite sstream_set. by case_decide.
Qed.

Lemma moved_none sb sid : flights_wf sb -> moved sb sid 0 sb.
Proof. split; [done|]. by rewrite Z.add_0_r. Qed.

Lemma put_wf (m m' : M) k v : lmi_wf m -> lmi_put m k v = Ok m' -> lmi_wf m'.
Proof. intros Hm E. destruct (lmi_put_spec m k v Hm) as (m1 & E1 & Hw & _). congruence. Qed.

Lemma stream_wf sb sid st : flights_wf sb -> sb_streams sb !! sid = Some st ->
  lmi_wf (dataInFlightMap st) /\ sent_of sb sid = bytesSentOffset st.
Proof. intros Hw E. specialize (Hw sid). unfold sent_of, sstream in *. by rewrite E in *. Qed.

Lemma u64_u64_eq x : u64 (u64 x) = u64 x.
Proof. unfold u64. by rewrite Z.mod_mod. Qed.

Lemma ReadyToSend_moved sb sid mt ack mtu now sb' d off close :
  flights_wf sb -> ReadyToSend sb sid mt ack mtu now = Ok (sb', (d, off, close)) -> moved sb sid (len (default [] d)) sb'.
Proof.
  intros Hw. unfold ReadyToSend. case_decide as Hemp; [intros [= <- <- _ _]; by apply moved_none|].
  destruct (sb_streams sb !! sid) as [st|] eqn:Est; [|intros [= <- <- _ _]; by apply moved_none].
  destruct (stream_wf _ _ _ Hw Est) as [Hst Es].
  destruct (pingRequest st); [|case_decide as Hq; [destruct (negb _)|]]; cbv zeta; intros H.
  - apply go_bind_Ok in H as (m & Em & [= <- <- _ _]). apply moved_set; [done | exact (put_wf _ _ _ _ Hst Em)|].
    cbn. by rewrite Z.add_0_r, Es.
  - injection H as <- <- _ _. by apply moved_none.
  - apply go_bind_Ok in H as (m & Em & [= <- <- _ _]). apply moved_set; [done | exact (put_wf _ _ _ _ Hst Em)|].
    cbn. by rewrite Z.add_0_r, Es.
  - apply go_bind_Ok in H as (pd & Epd & H). apply go_bind_Ok in H as (m & Em & H).
    apply go_bind_Ok in H as (rest & _ & [= <- <- _ _]). apply slice_to_inv in Epd as [Hr ->].
    apply moved_set; [done | exact (put_wf _ _ _ _ Hst Em)|]. cbn [default bytesSentOffset with_queue].
    rewrite Es, u64_u64_eq. cbn [option_map from_option id]. rewrite length_take. do 2 f_equal. lia.
Qed.

Lemma ReadyToRetransmit_moved sb sid ack mtu rto mt now sb' r :
  flights_wf sb -> ReadyToRetransmit sb sid ack mtu rto mt now = Ok (sb', r) -> moved sb sid 0 sb'.
Proof.
  intros Hw. unfold ReadyToRetransmit. case_decide as Hemp; [intros [= <- _]; by apply moved_none|].
  destruct (sb_streams sb !! sid) as [st|] eqn:Est; [|intros [= <- _]; by apply moved_none].
  destruct (stream_wf _ _ _ Hw Est) as [Hst Es]. intros H. apply go_bind_Ok in H as (first & _ & H).
  destruct first as [[k i]|]; [|injection H as <- _; by apply moved_none].
  destruct (backoff _ _) as [e|b]; [injection H as <- _; by apply moved_none|]. cbv zeta in H.
  assert (forall m, lmi_wf m -> moved sb sid 0 (sb_set sb sid (with_inflight st m))) as Hset.
  { intros m Hm. apply moved_set; [done | done|]. cbn. by rewrite Z.add_0_r, Es. }
  case_decide as Ht; [injection H as <- _; by apply moved_none|]. destruct (si_pingRequest i); [|case_decide as Hl].
  - destruct (lmi_remove_spec (dataInFlightMap st) k Hst) as (m & Em & Hm & _). rewrite Em in H. cbn [mbind go_bind] in H.
    injection H as <- _. by apply Hset.
  - apply go_bind_Ok in H as (m & Em & [= <- _]). apply Hset. exact (put_wf _ _ _ _ Hst Em).
  - unfold resend_split in H. apply go_bind_Ok in H as (ld & _ & H). apply go_bind_Ok in H as (rd & _ & H).
    apply go_bind_Ok in H as (m1 & E1 & H). apply (put_wf _ _ _ _ Hst) in E1.
    apply go_bind_Ok in H as (m2 & E2 & H). apply (put_wf _ _ _ _ E1) in E2.
    match type of H with context [lmi_replace m2 k ?k2 ?v] => destruct (lmi_replace_spec m2 k k2 v E2) as (m & Em & Hm & _) end.
    rewrite Em in H. cbn [mbind go_bind] in H. injection H as <- _. by apply Hset.
Qed.

(** The acknowledgement of a packet in flight, and of anything else. *)
Lemma Acknowledge_status sb a sb' st t :
  flights_wf sb -> AcknowledgeRange sb a = Ok (sb', (st, t)) ->
  flights_wf sb' /\ (st = AckStatusOk <-> createPacketKey (ack_offset a) (ack_len a) ∈ (flight_of sb (ack_streamID a)).*1).
Proof.
  intros Hw H.
  destruct (decide (createPacketKey (ack_offset a) (ack_len a) ∈ (flight_of sb (ack_streamID a)).*1)) as [Hk|Hk].
  2: { apply Acknowledge_holds in H as [[Hf _] Hne]; [|done..]. done. }
  revert H. unfold AcknowledgeRange, flight_of, sstream in *. destruct (sb_streams sb !! ack_streamID a) as [s|] eqn:Es.
  2: { cbn in Hk. rewrite (proj2 lmi_new_spec) in Hk. by apply not_elem_of_nil in Hk. }
  cbn [default] in Hk. destruct (stream_wf _ _ _ Hw Es) as [Hs _].
  destruct (lmi_remove_spec (dataInFlightMap s) (createPacketKey (ack_offset a) (ack_len a)) Hs) as (m & -> & Hm & _).
  cbn [mbind go_bind]. destruct (al_get _ _) as [i|] eqn:E; [|by apply al_get_None in E].
  intros [= <- <- _]. split; [|done]. intros sid.
  change (lmi_wf (dataInFlightMap (sstream (sb_set sb (ack_streamID a) (with_inflight s m)) sid))).
  rewrite sstream_set. by case_decide.
Qed.
End buffer.

(** ** Steps of a connection *)

Section steps.
Context {PubKey PrvKey : Type} `{!CryptoPrims PubKey PrvKey}.
Context (write : AddrPort -> bytes -> option go_error) (cfg : ListenerCfg PrvKey).
Implicit Types (c : Conn PubKey PrvKey) (p : PayloadHeader).

(** The new bytes a flush of stream [sid] sent: those that were not sent before,
    if it returned no error. *)
Definition new_bytes c (sid : Z) c' (fr : flush_result) : Z :=
  match fr.2 with
  | inl _ => 0
  | inr _ => sent_of (c_snd c') sid - sent_of (c_snd c) sid
  end.

Definition acked_key (a : Ack) : packetKey := createPacketKey (ack_offset a) (ack_len a).

(** What a payload that came in a datagram of [rawLen] bytes takes off the count
    of bytes in flight: [rawLen], if it acknowledges a packet in flight. *)
Definition raw_acked c p (rawLen : Z) : Z :=
  match pAck p with
  | Some a => if decide (acked_key a ∈ (flight_of (c_snd c) (ack_streamID a)).*1) then rawLen else 0
  | None => 0
  end.

(** What can happen to the connection, the payloads it gets being restricted to
    [adm]; labelled with the new bytes sent and the raw bytes that acknowledged. *)
Inductive flow_step (adm : Conn PubKey PrvKey -> PayloadHeader -> Prop) c : Z * Z -> Conn PubKey PrvKey -> Prop :=
  | flow_flush st now c' fr :
      Conn.Flush write cfg c st now = Ok (c', fr) -> flow_step adm c (new_bytes c (st_streamID st) c' fr, 0) c'
  | flow_decode p u rawLen now c' st :
      adm c p -> Conn.decode c p u rawLen now = Ok (c', st) -> flow_step adm c (0, raw_acked c p rawLen) c'
  | flow_write wake st d c' r : Write wake c st d = Ok (c', r) -> flow_step adm c (0, 0) c'
  | flow_ping st : flow_step adm c (0, 0) (Ping c st)
  | flow_close st : flow_step adm c (0, 0) (Streams.Close c st)
  | flow_read st c' st' r : Read c st = Ok (c', st', r) -> flow_step adm c (0, 0) c'.

Inductive flow_run (adm : Conn PubKey PrvKey -> PayloadHeader -> Prop) c : list (Z * Z) -> Conn PubKey PrvKey -> Prop :=
  | flow_nil : flow_run adm c [] c
  | flow_cons e c1 tr c2 : flow_step adm c e c1 -> flow_run adm c1 tr c2 -> flow_run adm c (e :: tr) c2.

Definition any_payload c p : Prop := True.

(** *** What [encode], [writeAck] and [sendPacket] leave alone *)

(** Counter and pacing time aside, [encode] and [writeAck] change nothing. *)
Lemma encode_only c p d t c' r : encode cfg c p d t = Ok (c', r) -> exists b sn epoch, c' = set_counter c b sn epoch.
Proof.
  unfold encode. intros H. apply go_bind_Ok in H as ([err|[enc b]] & _ & H).
  - injection H as <- _. exists (isInitSentOnSnd c), (snCrypto c), (epochCryptoSnd c). by destruct c.
  - destruct (advance _ _) as [[e [sn ep]]|[sn ep]]; injection H as <- _; eauto.
Qed.

(** Neither buffer, streams, window nor bytes in flight have changed. *)
Definition flow_same c c' : Prop :=
  c_snd c' = c_snd c /\ streams c' = streams c /\ dataInFlight c' = dataInFlight c /\ rcvWndSize c' = rcvWndSize c.

Lemma writeAck_only c st ack now c' fr : writeAck write cfg c st ack now = Ok (c', fr) -> flow_same c c'.
Proof.
  unfold writeAck. intros H. apply go_bind_Ok in H as (close & _ & H). apply go_bind_Ok in H as ([c1 r] & E & H).
  apply encode_only in E as (b & sn & ep & ->). destruct r as [err|enc]; [by injection H as <- _|].
  destruct (write _ enc); [by injection H as <- _|]. by apply go_bind_Ok in H as (pc & _ & [= <- _]).
Qed.

Lemma sendPacket_only c st ack d off close t now track c' fr :
  sendPacket write cfg c st ack d off close t now track = Ok (c', fr) ->
  c_snd c' = c_snd c /\ streams c' = streams c /\ rcvWndSize c' = rcvWndSize c /\
  dataInFlight c' = match fr.2 with
                    | inl _ => dataInFlight c
                    | inr _ => if track then i64 (dataInFlight c + len d) else dataInFlight c
                    end.
Proof.
  unfold sendPacket. intros H. apply go_bind_Ok in H as ([c1 r] & E & H).
  apply encode_only in E as (b & sn & ep & ->). destruct r as [err|enc]; [by injection H as <- <-|].
  destruct (write _ enc); [by injection H as <- <-|]. cbv zeta in H. apply go_bind_Ok in H as ([c2 pc] & E & [= <- <-]).
  by destruct track; apply go_bind_Ok in E as (x & _ & [= <- _]).
Qed.

(** *** The ledger of one flush *)

(** [x] and [y] agree as 64-bit numbers. *)
Definition eq64 (x y : Z) : Prop := u64 x = u64 y.

Lemma eq64_i64 x : eq64 (i64 x) x.
Proof. unfold eq64, i64, to_int, u64. case_decide; [by rewrite Z.mod_mod|]. by rewrite Zminus_mod, Z_mod_same_full, Z.sub_0_r, !Z.mod_mod. Qed.

Lemma eq64_add x y z : eq64 x y -> eq64 (x + z) (y + z).
Proof. unfold eq64, u64. intros E. by rewrite Z.add_mod, E, <- Z.add_mod. Qed.

Lemma eq64_sub x y n : eq64 x (y + n) -> eq64 (x - y) n.
Proof. intros E. apply (eq64_add _ _ (- y)) in E. rewrite !Z.add_opp_r in E. by replace (y + n - y) with n in E by lia. Qed.

(** The count of bytes in flight is a signed 64-bit number. *)
Definition int64 (x : Z) : Prop := - 2 ^ 63 <= x < 2 ^ 63.

Lemma i64_int64 x : int64 (i64 x).
Proof. unfold int64, i64, to_int, u64. pose proof (Z.mod_pos_bound x (2 ^ 64)). case_decide; lia. Qed.

Lemma int64_eq x y : int64 x -> int64 y -> eq64 x y -> x = y.
Proof. intros Hx Hy E. rewrite <- (i64_small x), <- (i64_small y) by done. unfold i64. by rewrite E. Qed.

(** What every step keeps. *)
Record flow_inv c : Prop := {
  fi_int : int64 (dataInFlight c);
  fi_flights : flights_wf (c_snd c);
  fi_streams : streams_ok (streams c);
}.

(** The count follows the new bytes sent, [n], and the raw bytes, [r]. *)
Definition counted c (n r : Z) c' : Prop := flow_inv c' /\ eq64 (dataInFlight c') (dataInFlight c + (n - r)).

Lemma counted_same c c' : flow_inv c -> dataInFlight c' = dataInFlight c -> flights_wf (c_snd c') -> streams_ok (streams c') ->
  counted c 0 0 c'.
Proof. intros [Hi _ _] E Hf Hs. split; [by constructor; rewrite ?E|]. unfold eq64. rewrite E. f_equal. lia. Qed.

(** What a flush of stream [sid] with result [fr] does to the flow control: [n]
    new bytes leave the buffer, and are counted if there was no error. *)
Definition flushes c (sid : Z) c' (fr : flush_result) : Prop :=
  exists n, moved (c_snd c) sid n (c_snd c') /\ streams c' = streams c /\
    dataInFlight c' = match fr.2 with inl _ => dataInFlight c | inr _ => i64 (dataInFlight c + n) end.

Lemma flushes_same c sid c' fr : flow_inv c -> flow_same c c' -> flushes c sid c' fr.
Proof.
  intros [Hi Hf Hs] (Eb & Es & Ed & _). exists 0. rewrite Eb, Z.add_0_r, i64_small by done.
  split; [by apply moved_none|]. by destruct fr.2.
Qed.

Lemma flushes_counted c sid c' fr : flow_inv c -> flushes c sid c' fr -> counted c (new_bytes c sid c' fr) 0 c'.
Proof.
  intros [Hi Hf Hs] (n & [Hw Hn] & Es & Ed). unfold new_bytes. destruct fr.2.
  - apply counted_same; [by constructor | done | done | by rewrite Es].
  - split; [constructor; [rewrite Ed; apply i64_int64 | done | by rewrite Es]|].
    rewrite Ed. unfold eq64. rewrite (eq64_i64 (dataInFlight c + n)), !(Z.add_comm (dataInFlight c)), Z.sub_0_r.
    apply eq64_add. symmetry. by apply eq64_sub.
Qed.

Lemma flush_send_flushes c st ack t now c' fr :
  flow_inv c -> flush_send write cfg c st ack t now = Ok (c', fr) -> flushes c (st_streamID st) c' fr.
Proof.
  intros Hinv. pose proof Hinv as [Hi Hf Hs]. unfold flush_send. cbv zeta.
  assert (forall c1, flow_inv c1 ->
    match ack with Some _ => writeAck write cfg c1 st ack now | None => mret (c1, ([], inr (0, MinDeadLine))) end
    = Ok (c', fr) -> flow_same c1 c') as Hidle.
  { intros c1 H1. destruct ack; [apply writeAck_only | by intros [= <- <-]]. }
  destruct (_ || _); [|intros H; by apply flushes_same, Hidle].
  intros H. apply go_bind_Ok in H as ([sb [[d off] close]] & E & H). apply ReadyToSend_moved in E as Hm; [|done].
  destruct d as [d|].
  - apply sendPacket_only in H as (Eb & Es & _ & Ed). exists (len d). rewrite Eb. split; [exact Hm|]. done.
  - assert (flow_same (set_snd c sb) c') as (Eb & Es & Ed & _).
    { destruct (_ || _); [by apply writeAck_only in H | apply Hidle; [|done]]. by constructor; [| apply Hm|]. }
    exists 0. rewrite Eb, Ed, Z.add_0_r, i64_small by done. split; [exact Hm|]. by destruct fr.2.
Qed.

Lemma Flush_flushes c st now c' fr :
  flow_inv c -> Conn.Flush write cfg c st now = Ok (c', fr) -> flushes c (st_streamID st) c' fr.
Proof.
  intros Hinv. pose proof Hinv as [Hi Hf Hs]. unfold Conn.Flush. destruct (GetSndAck (c_rcv c)) as [rcv ack0]. cbv zeta.
  set (ack := _ <$> ack0). set (c0 := set_rcv c rcv).
  case_decide as Hpace; [intros [= <- <-]; by apply flushes_same|].
  case_decide as Hwnd.
  { destruct ack; [|intros [= <- <-]; by apply flushes_same]. intros H. apply writeAck_only in H. by apply flushes_same. }
  intros H. apply go_bind_Ok in H as ([sb r] & E & H). apply ReadyToRetransmit_moved in E as Hm; [|done].
  destruct r as [err|[[[d|] off] close]].
  - injection H as <- <-. by exists 0.
  - apply sendPacket_only in H as (Eb & Es & _ & Ed). exists 0. rewrite Eb, Ed, Z.add_0_r, i64_small by done. done.
  - apply flush_send_flushes in H as (n & [Hw Hn] & Es & Ed); [|by constructor; [| apply Hm|]].
    exists n. split; [split; [done|]|done]. rewrite Hn. apply eq64_add.
    destruct Hm as [_ Hm]. by rewrite Z.add_0_r in Hm.
Qed.

(** *** The ledger of a run *)

Lemma decode_counted c p u rawLen now c' st :
  flow_inv c -> Conn.decode c p u rawLen now = Ok (c', st) -> counted c 0 (raw_acked c p rawLen) c'.
Proof.
  intros [Hi Hf Hs] H. apply decode_inv in H as (Hs' & _ & (c2 & Hack & Esnd & _ & Ed) & _); [|done].
  assert (flights_wf (c_snd c2) /\ int64 (dataInFlight c2) /\
    eq64 (dataInFlight c2) (dataInFlight c + (0 - raw_acked c p rawLen))) as (Hw & Hi2 & He).
  { unfold ack_step, raw_acked in *. destruct (pAck p) as [a|].
    2: { destruct Hack as (-> & _ & ->). by rewrite Z.add_0_r. }
    destruct Hack as (s & t & E & _ & ->). apply Acknowledge_status in E as [Hw Hiff]; [|done]. split; [done|].
    fold (acked_key a) in Hiff. destruct (decide (s = AckStatusOk)) as [->|Hne].
    - rewrite decide_True by (by apply Hiff). split; [apply i64_int64|]. apply eq64_i64.
    - rewrite decide_False by (by rewrite <- Hiff). by rewrite Z.add_0_r. }
  split; [constructor; [by rewrite Ed | | done] | by rewrite Ed].
  rewrite Esnd. unfold close_snd. destruct (IsClose p); [by apply Close_holds | done].
Qed.

Lemma Read_flow c st c' st' r : streams_ok (streams c) -> Read c st = Ok (c', st', r) ->
  c_snd c' = c_snd c /\ streams_ok (streams c') /\ dataInFlight c' = dataInFlight c /\ rcvWndSize c' = rcvWndSize c.
Proof.
  intros Hs. destruct r as [data err]. intros H. pose proof (Read_inv _ _ _ _ _ _ Hs H) as (Hs' & _ & Eb & _).
  split; [done|]. split; [done|]. unfold Read in H. destruct (IsClosed st); [by injection H as <- _ _ _|].
  apply go_bind_Ok in H as ([rcv [[off dt] t]] & _ & H). revert H.
  destruct (match Rcv.GetOffsetClosedAt _ _ with Some co => _ | None => false end); intros H; [|by injection H as <- _ _ _].
  by apply go_bind_Ok in H as (m & _ & [= <- _ _ _]).
Qed.

Lemma Write_flow wake c st d c' r : flights_wf (c_snd c) -> Write wake c st d = Ok (c', r) ->
  holds (c_snd c) (c_snd c') /\ streams c' = streams c /\ dataInFlight c' = dataInFlight c /\ rcvWndSize c' = rcvWndSize c.
Proof.
  intros Hf H. apply Write_inv in H as [->|(sb & n & status & E & -> & _)]; [split; [by apply holds_refl | done]|].
  by apply QueueData_holds in E.
Qed.

Lemma flow_step_counted adm c n r c' : flow_inv c -> flow_step adm c (n, r) c' -> counted c n r c'.
Proof.
  intros Hinv Hst. pose proof Hinv as [Hi Hf Hs]. inversion Hst; subst.
  - by apply flushes_counted, Flush_flushes with now.
  - by eapply decode_counted.
  - edestruct Write_flow as ([Hw _] & Es & Ed & _); [done..|]. apply counted_same; try done. by rewrite Es.
  - apply counted_same; try done. by apply QueuePing_holds.
  - apply counted_same; try done. by apply Close_holds.
  - edestruct Read_flow as (Eb & Es & Ed & _); [done..|]. apply counted_same; try done. by rewrite Eb.
Qed.

Definition new_sum (tr : list (Z * Z)) : Z := foldr Z.add 0 tr.*1.
Definition raw_sum (tr : list (Z * Z)) : Z := foldr Z.add 0 tr.*2.

Lemma flow_run_counted adm c tr c' : flow_inv c -> flow_run adm c tr c' -> counted c (new_sum tr) (raw_sum tr) c'.
Proof.
  intros Hinv Hrun. revert Hinv. induction Hrun as [c|c [n r] c1 tr c2 Hst Hrun IH]; intros Hinv.
  - by apply counted_same; [|..]; try apply Hinv.
  - destruct (flow_step_counted _ _ _ _ _ Hinv Hst) as [H1 E1]. destruct (IH H1) as [H2 E2]. split; [done|].
    unfold eq64 in *. rewrite E2. apply (eq64_add _ _ (new_sum tr - raw_sum tr)) in E1. rewrite E1.
    unfold new_sum, raw_sum. cbn [fmap list_fmap foldr fst snd]. f_equal. lia.
Qed.

(** ** Blocked connections *)

Context (W : Z) (Hmtu : mtu_ok (l_mtu cfg)).

(** The count of bytes in flight leaves no room in a window of [W] bytes. *)
Record blocked c : Prop := {
  bk_inv : flow_inv c;
  bk_full : W < dataInFlight c + l_mtu cfg;
  bk_window : to_int (rcvWndSize c) <= W;
  bk_int : int_ok (dataInFlight c);
}.

(** A payload whose acknowledgement, if any, has a window of at most [W] ... *)
Definition window_below c p : Prop := forall a, pAck p = Some a -> to_int (ack_rcvWnd a) <= W.

(** ... and does not acknowledge a packet that is in flight. *)
Definition no_news c p : Prop :=
  window_below c p /\ forall a, pAck p = Some a -> acked_key a ∉ (flight_of (c_snd c) (ack_streamID a)).*1.

Lemma Flush_blocked c st now c' fr : blocked c -> Conn.Flush write cfg c st now = Ok (c', fr) -> flow_same c c'.
Proof.
  intros [_ Hfull Hwin Hint]. unfold Conn.Flush. destruct (GetSndAck (c_rcv c)) as [rcv ack]. cbv zeta.
  case_decide; [by intros [= <- _]|]. unfold int_ok, mtu_ok in *.
  rewrite decide_True by (cbn; rewrite i64_small; lia).
  destruct ack; cbn [fmap option_fmap option_map]; [|by intros [= <- _]]. intros Hw. by apply writeAck_only in Hw.
Qed.

Lemma blocked_keep c c' :
  blocked c -> flow_inv c' -> dataInFlight c' = dataInFlight c -> to_int (rcvWndSize c') <= W -> blocked c'.
Proof. intros [H1 H2 H3 H4] Hi Ed Ew. constructor; try done; by rewrite Ed. Qed.

(** A connection that is still blocked, and has sent nothing. *)
Definition still c c' : Prop := blocked c' /\ holds (c_snd c) (c_snd c') /\ dataInFlight c' = dataInFlight c.

Lemma flow_step_blocked c e c' : blocked c -> flow_step no_news c e c' -> still c c'.
Proof.
  intros Hb Hst. pose proof Hb as [Hinv Hfull Hwin Hint]. pose proof Hinv as [_ Hf Hs]. destruct e as [n r].
  pose proof (flow_step_counted _ _ _ _ _ Hinv Hst) as [Hinv' _].
  assert (holds (c_snd c) (c_snd c') /\ dataInFlight c' = dataInFlight c /\ to_int (rcvWndSize c') <= W)
    as (Hh & Ed & Ew); [|split; [by apply (blocked_keep c) | done]].
  destruct Hst as [st now c' fr H|p u rawLen now c' st [Hn Hk] H|wake st d c' x H|st|st|st c' st' x H].
  - apply Flush_blocked in H as (-> & _ & -> & ->); [|done]. split; [by apply holds_refl | done].
  - apply decode_inv in H as (_ & _ & (c2 & Hack & Esnd & Ew & Ed) & _); [|done]. rewrite Esnd, Ew, Ed.
    assert (holds (c_snd c) (c_snd c2) /\ dataInFlight c2 = dataInFlight c /\ to_int (rcvWndSize c2) <= W) as (Hh & -> & Ew2).
    { unfold ack_step in Hack. destruct (pAck p) as [a|] eqn:Ea; [|destruct Hack as (-> & -> & ->); split; [by apply holds_refl | done]].
      destruct Hack as (s' & t & Hack & -> & ->).
      apply Acknowledge_holds in Hack as [Hh Hne]; [|done | by apply Hk]. rewrite decide_False by done. auto. }
    split; [|done]. unfold close_snd. destruct (IsClose p); [|done]. eapply holds_trans; [exact Hh | apply Close_holds, Hh].
  - apply Write_flow in H as (Hh & _ & -> & ->); done.
  - split; [by apply QueuePing_holds | done].
  - split; [by apply Close_holds | done].
  - apply Read_flow in H as (-> & _ & -> & ->); [|done]. split; [by apply holds_refl | done].
Qed.

Lemma flow_run_blocked c tr c' : blocked c -> flow_run no_news c tr c' -> still c c'.
Proof.
  intros Hb Hrun. revert Hb. induction Hrun as [c|c e c1 tr c2 Hst Hrun IH]; intros Hb.
  - split; [done|]. split; [apply holds_refl, Hb | done].
  - destruct (flow_step_blocked _ _ _ Hb Hst) as (H1 & Hh & Ed). destruct (IH H1) as (H2 & Hh2 & Ed2).
    split; [done|]. split; [by eapply holds_trans | congruence].
Qed.

(** With nothing in flight, no acknowledgement can bring news. *)
Definition drained c : Prop := forall sid, flight_of (c_snd c) sid = [].

Lemma drained_run c tr c' : blocked c -> drained c -> flow_run window_below c tr c' -> flow_run no_news c tr c'.
Proof.
  intros Hb Hd Hrun. revert Hb Hd. induction Hrun as [c|c e c1 tr c2 Hst Hrun IH]; intros Hb Hd; [constructor|].
  assert (flow_step no_news c e c1) as Hst'.
  { destruct Hst; [by eapply flow_flush | eapply flow_decode; [split; [done|] | done]
                  | by eapply flow_write | by constructor | by constructor | by eapply flow_read].
    intros a _. rewrite Hd. apply not_elem_of_nil. }
  destruct (flow_step_blocked _ _ _ Hb Hst') as (H1 & [_ Hh] & _).
  econstructor; [exact Hst'|]. apply IH; [done|]. intros sid. destruct (Hh sid) as [_ ->]. apply Hd.
Qed.
End steps.

(** ** Properties *)

Section properties.
Context {PubKey PrvKey : Type} `{!CryptoPrims PubKey PrvKey}.
Context (write : AddrPort -> bytes -> option go_error) (cfg : ListenerCfg PrvKey).
Implicit Types (c : Conn PubKey PrvKey).

(** C9. The count of bytes in flight is an exact ledger: after any sequence of
    flushes, received payloads, writes, pings, closes and reads, it is its first
    value plus the bytes sent for the first time by a flush without error, minus
    the lengths of the datagrams that acknowledged a packet in flight, as a
    64-bit number. *)
Theorem flow_ledger c tr c' :
  flow_inv c -> flow_run write cfg any_payload c tr c' ->
  flow_inv c' /\ eq64 (dataInFlight c') (dataInFlight c + (new_sum tr - raw_sum tr)).
Proof. apply flow_run_counted. Qed.

Context (W : Z) (Hmtu : mtu_ok (l_mtu cfg)).

(** C8. A full window holds everything back: once the bytes in flight and a
    packet exceed the window, no sequence of steps sends a byte for the first
    time, resends a packet or gives one up, until a payload acknowledges a packet
    in flight or brings a larger window.  A packet that was lost is not resent. *)
Theorem full_window_blocks c tr c' :
  blocked cfg W c -> flow_run write cfg (no_news W) c tr c' ->
  blocked cfg W c' /\ dataInFlight c' = dataInFlight c /\
  forall sid, sent_of (c_snd c') sid = sent_of (c_snd c) sid /\ flight_of (c_snd c') sid = flight_of (c_snd c) sid.
Proof. intros Hb Hrun. by destruct (flow_run_blocked write cfg W Hmtu c tr c' Hb Hrun) as (H1 & [_ H2] & H3). Qed.

(** C7. The ledger leaks: the bytes counted when they are sent are user bytes,
    the bytes taken off are those of the datagrams that acknowledge.  When the
    difference has reached the window of the peer, the connection has stalled for
    good, although every packet was acknowledged and nothing is in flight: as
    long as the window does not grow, no byte is ever sent again. *)
Theorem acked_transfer_stalls c tr c1 tr2 c2 :
  0 <= W -> flow_inv c -> dataInFlight c = 0 -> flow_run write cfg any_payload c tr c1 ->
  drained c1 -> to_int (rcvWndSize c1) <= W -> W < new_sum tr - raw_sum tr + l_mtu cfg -> new_sum tr - raw_sum tr < 2 ^ 62 ->
  flow_run write cfg (window_below W) c1 tr2 c2 ->
  dataInFlight c1 = new_sum tr - raw_sum tr /\ drained c2 /\
  forall sid, sent_of (c_snd c2) sid = sent_of (c_snd c1) sid.
Proof.
  intros HW Hinv H0 Hrun Hd Hw Hfull Hlt Hrun2.
  destruct (flow_run_counted write cfg _ _ _ _ Hinv Hrun) as [Hinv1 He]. rewrite H0 in He. unfold mtu_ok in Hmtu.
  apply int64_eq in He as Ed; [| apply Hinv1 | unfold int64; lia]. rewrite Z.add_0_l in Ed. split; [done|].
  assert (blocked cfg W c1) as Hb by (constructor; rewrite ?Ed; unfold int_ok; try done; lia).
  apply (drained_run write cfg W Hmtu) in Hrun2; [|done..].
  destruct (flow_run_blocked write cfg W Hmtu _ _ _ Hb Hrun2) as (_ & [_ Hh] & _).
  split; intros sid; destruct (Hh sid) as [Es Ef]; [by rewrite Ef | done].
Qed.
End properties.

(** ** Witnesses *)

(** A connection with a kilobyte of stream 7 to send into a window of 2000 bytes. *)
Definition kilobyte : Conn bool bool :=
  conn_with (ok_or (NewSendBuffer 4096, (0, InsertStatusOk))
    (QueueData (NewSendBuffer 4096 : SendBuffer (LinkedMap Z SendInfo)) 7 (replicate 1000 0))).1.

(** It is sent in one packet, which is acknowledged by a datagram of 60 bytes. *)
Definition kilobyte_sent : Conn bool bool * flush_result :=
  ok_or (kilobyte, ([], inr (0, 0))) (Conn.Flush discard listener1400 kilobyte (mkStream 7 0) 1000).
Definition ack1000 : PayloadHeader := mkPayloadHeader false (Some (mkAck 7 0 1000 2000)) 7 0.
Definition kilobyte_acked : Conn bool bool :=
  (ok_or (kilobyte, mkStream 7 0) (Conn.decode kilobyte_sent.1 ack1000 None 60 2000)).1.

(** Then more data is written and flushed. *)
Definition kilobyte_more : Conn bool bool :=
  (ok_or (kilobyte, (0, None)) (Write None kilobyte_acked (mkStream 7 0) [1; 2; 3])).1.
Definition kilobyte_late : Conn bool bool * flush_result :=
  ok_or (kilobyte, ([], inr (0, 0))) (Conn.Flush discard listener1400 kilobyte_more (mkStream 7 0) 9000000000).

Lemma new_buffer_flights cap : flights_wf (NewSendBuffer cap : SendBuffer (LinkedMap Z SendInfo)).
Proof. intros sid. apply lmi_new_spec. Qed.

Lemma kilobyte_inv : flow_inv kilobyte.
Proof.
  constructor; [done | | apply (conn_with_inv _ snd100_inv)].
  assert (QueueData (NewSendBuffer 4096 : SendBuffer (LinkedMap Z SendInfo)) 7 (replicate 1000 0) =
    Ok (c_snd kilobyte, (1000, InsertStatusOk))) as E by (vm_compute; reflexivity).
  apply QueueData_holds in E as [Hf _]; [exact Hf | apply new_buffer_flights].
Qed.

Lemma kilobyte_flush : flow_step discard listener1400 any_payload kilobyte (1000, 0) kilobyte_sent.1.
Proof.
  assert (Conn.Flush discard listener1400 kilobyte (mkStream 7 0) 1000 = Ok (kilobyte_sent.1, kilobyte_sent.2)) as E
    by (vm_compute; reflexivity).
  exact (flow_flush _ _ _ _ _ _ _ _ E).
Qed.

(** The two flows of the witnesses: send and acknowledge, write and flush. *)
Lemma kilobyte_flow : flow_run discard listener1400 any_payload kilobyte [(1000, 0); (0, 60)] kilobyte_acked.
Proof.
  assert (Conn.decode kilobyte_sent.1 ack1000 None 60 2000 = Ok (kilobyte_acked, mkStream 7 0)) as E2 by (vm_compute; reflexivity).
  apply (flow_cons _ _ _ _ _ kilobyte_sent.1); [apply kilobyte_flush|].
  eapply flow_cons; [|apply flow_nil]. exact (flow_decode _ _ any_payload _ ack1000 _ _ _ _ _ I E2).
Qed.

Lemma kilobyte_rest : flow_run discard listener1400 (window_below 2000) kilobyte_acked [(0, 0); (0, 0)] kilobyte_late.1.
Proof.
  assert (Write None kilobyte_acked (mkStream 7 0) [1; 2; 3] = Ok (kilobyte_more, (3, None))) as E1 by (vm_compute; reflexivity).
  assert (Conn.Flush discard listener1400 kilobyte_more (mkStream 7 0) 9000000000 = Ok (kilobyte_late.1, kilobyte_late.2)) as E2
    by (vm_compute; reflexivity).
  apply (flow_cons _ _ _ _ _ kilobyte_more); [exact (flow_write _ _ _ _ _ _ _ _ _ E1)|].
  eapply flow_cons; [|apply flow_nil]. exact (flow_flush _ _ _ _ _ _ _ _ E2).
Qed.

Lemma drained_streams {PubKey PrvKey} (c : Conn PubKey PrvKey) :
  map_Forall (fun _ st => length (lmi_elems (dataInFlightMap st)) = 0%nat) (sb_streams (c_snd c)) -> drained c.
Proof.
  intros H sid. unfold flight_of, sstream. destruct (sb_streams (c_snd c) !! sid) eqn:E; [|apply lmi_new_spec].
  apply nil_length_inv. exact (H _ _ E).
Qed.

Lemma flow_ledger_witness : flow_inv kilobyte_acked /\ eq64 (dataInFlight kilobyte_acked) (0 + (1000 - 60)).
Proof. exact (flow_ledger discard listener1400 _ _ _ kilobyte_inv kilobyte_flow). Defined.

(** The packet of a kilobyte was lost: nine seconds later it is not resent. *)
Lemma full_window_blocks_witness :
  exists c' fr, Conn.Flush discard listener1400 kilobyte_sent.1 (mkStream 7 0) 9000000000 = Ok (c', fr) /\
    flight_of (c_snd c') 7 = flight_of (c_snd kilobyte_sent.1) 7 /\ length (flight_of (c_snd kilobyte_sent.1) 7) = 1%nat.
Proof.
  destruct (flow_step_counted _ _ _ _ _ _ _ kilobyte_inv kilobyte_flush) as [Hinv _].
  destruct (Conn.Flush discard listener1400 kilobyte_sent.1 (mkStream 7 0) 9000000000) as [[c' fr]| |] eqn:E;
    [|vm_compute in E; discriminate E..].
  exists c', fr. split; [reflexivity|]. split; [|vm_compute; reflexivity].
  refine (proj2 (proj2 (proj2 (full_window_blocks discard listener1400 2000 _ kilobyte_sent.1 [_] c' _ _)) 7)).
  - split; [vm_compute; discriminate | reflexivity].
  - split; [exact Hinv | reflexivity | vm_compute; discriminate | reflexivity].
  - eapply flow_cons; [|apply flow_nil]. exact (flow_flush _ _ _ _ _ _ _ _ E).
Defined.

(** After one acknowledged kilobyte, a window of 2000 bytes is used up for ever. *)
Lemma acked_transfer_stalls_witness :
  dataInFlight kilobyte_acked = 940 /\ drained kilobyte_late.1 /\
  forall sid, sent_of (c_snd kilobyte_late.1) sid = sent_of (c_snd kilobyte_acked) sid.
Proof.
  refine (acked_transfer_stalls discard listener1400 2000 _ kilobyte _ _ _ _ _ kilobyte_inv eq_refl kilobyte_flow _ _ _ _ kilobyte_rest).
  - split; [vm_compute; discriminate | reflexivity].
  - discriminate.
  - apply drained_streams, (bool_decide_unpack _). vm_compute. reflexivity.
  - vm_compute. discriminate.
  - reflexivity.
  - reflexivity.
Defined.
