(* ===== verification/Listener.v ===== *)
(** * Listener: incoming datagrams (src/listener.go, [Listener.decode] of
    src/codec.go)

    The table of connections, the creation of connections ([newConn], [Dial],
    [DialWithCrypto]), the decryption of a datagram by its message type
    ([decode]) and its processing ([Listen]).

    A connection is identified with its entry in the table: an assignment to a
    field of a [*Conn] files the connection again under its key.  A fresh key
    pair ([generateKey]) is an argument, and may be an error.  What the socket
    returned is an argument of [Listen]; a datagram sits at the start of a zeroed
    buffer of one MTU, the capacity behind it is the argument [rest] of the
    decryption functions.  The remote address of a connection is the one that was
    dialled or that its first datagram came from.  The text of the key log is in
    [Hex]. *)

From stdpp Require Import prelude gmap list numbers strings.
From S2P Require Import Prelude Wire Proto Measurement Interfaces LinkedMap SortedMap Rcv Crypto Snd Conn Streams.
Open Scope Z_scope.

(** ** The code *)

Definition rcvBufferCapacity : Z := 16 * 1024 * 1024.
Definition sndBufferCapacity : Z := 16 * 1024 * 1024.

Section code.
Context {PubKey PrvKey : Type} `{!CryptoPrims PubKey PrvKey}.

#[export] Instance Conn_inhabited : Inhabited (Conn PubKey PrvKey) :=
  populate (mkConn 0 no_addr NewLinkedMap None None None None (NewSendBuffer 0) (NewReceiveBuffer 0) 0 0
              false false false false 0 0 0 0 NewMeasurements).

Record Listener := mkListener {
  l_cfg : ListenerCfg PrvKey;            (* prvKeyId and mtu *)
  l_keyLog : bool;                       (* keyLogWriter != nil *)
  connMap : LinkedMap Z (Conn PubKey PrvKey);
  currentConnID : option Z;              (* &conn.connId, by the key of the connection *)
  currentStreamID : option (Z * Z);      (* &stream.streamID, by the keys of connection and stream *)
  l_closed : bool;
}.

Definition set_connMap (l : Listener) m :=
  mkListener (l_cfg l) (l_keyLog l) m (currentConnID l) (currentStreamID l) (l_closed l).

(** A listener without connections. *)
Definition new_listener (cfg : ListenerCfg PrvKey) (keyLog : bool) : Listener :=
  mkListener cfg keyLog NewLinkedMap None None false.

(** Assignments to the fields of a connection. *)
Definition set_keys (c : Conn PubKey PrvKey) (id ep : option PubKey) (secret : option bytes) : Conn PubKey PrvKey := mkConn (connId c) (remoteAddr c) (Conn.streams c) (prvKeyEpSnd c) ep id
  secret (c_snd c) (c_rcv c) (dataInFlight c) (rcvWndSize c) (isSenderOnInit c) (isWithCryptoOnInit c)
  (isHandshakeDoneOnRcv c) (isInitSentOnSnd c) (nextWriteTime c) (snCrypto c) (epochCryptoSnd c) (epochCryptoRcv c) (c_meas c).
Definition set_epoch (c : Conn PubKey PrvKey) (epoch : Z) : Conn PubKey PrvKey := mkConn (connId c) (remoteAddr c) (Conn.streams c) (prvKeyEpSnd c) (pubKeyEpRcv c)
  (pubKeyIdRcv c) (sharedSecret c) (c_snd c) (c_rcv c) (dataInFlight c) (rcvWndSize c) (isSenderOnInit c) (isWithCryptoOnInit c)
  (isHandshakeDoneOnRcv c) (isInitSentOnSnd c) (nextWriteTime c) (snCrypto c) (epochCryptoSnd c) epoch (c_meas c).
Definition set_done (c : Conn PubKey PrvKey) (b : bool) : Conn PubKey PrvKey := mkConn (connId c) (remoteAddr c) (Conn.streams c) (prvKeyEpSnd c) (pubKeyEpRcv c)
  (pubKeyIdRcv c) (sharedSecret c) (c_snd c) (c_rcv c) (dataInFlight c) (rcvWndSize c) (isSenderOnInit c) (isWithCryptoOnInit c)
  b (isInitSentOnSnd c) (nextWriteTime c) (snCrypto c) (epochCryptoSnd c) (epochCryptoRcv c) (c_meas c).

(** The connection object a new connection starts from. *)
Definition fresh_conn (connId : Z) (remoteAddr : AddrPort) (prvKeyEpSnd : PrvKey) (pubKeyIdRcv pubKeyEdRcv : option PubKey)
    (isSender withCrypto : bool) : Conn PubKey PrvKey :=
  mkConn connId remoteAddr NewLinkedMap (Some prvKeyEpSnd) pubKeyEdRcv pubKeyIdRcv None
    (NewSendBuffer sndBufferCapacity) (NewReceiveBuffer rcvBufferCapacity) 0 rcvBufferCapacity
    isSender withCrypto false false 0 0 0 0 NewMeasurements.

(** The key log: both secrets are derived (a nil key panics). *)
Definition log_keys (c : Conn PubKey PrvKey) : go (option go_error) :=
  prv ← go_deref NilDereference (prvKeyEpSnd c);
  ep ← go_deref NilDereference (pubKeyEpRcv c);
  match ecdh prv ep with
  | inl err => mret (Some err)
  | inr _ =>
      id ← go_deref NilDereference (pubKeyIdRcv c);
      mret (match ecdh prv id with inl err => Some err | inr _ => None end)
  end.

Definition newConn (l : Listener) (connId : Z) (remoteAddr : AddrPort) (prvKeyEpSnd : PrvKey) (pubKeyIdRcv pubKeyEdRcv : option PubKey)
    (isSender withCrypto : bool) : go (Listener * (go_error + Conn PubKey PrvKey)) :=
  if LinkedMap.Contains (connMap l) connId then mret (l, inl "conn already exists"%string) else
  let conn := fresh_conn connId remoteAddr prvKeyEpSnd pubKeyIdRcv pubKeyEdRcv isSender withCrypto in
  err ← (if l_keyLog l then log_keys conn else mret None);
  match err with
  | Some err => mret (l, inl err)
  | None => m ← LinkedMap.Put (connMap l) connId conn; mret (set_connMap l m, inr conn)
  end.

Definition DialWithCrypto (l : Listener) (key : go_error + PrvKey) (remoteAddr : AddrPort) (pubKeyIdRcv : option PubKey)
    : go (Listener * (go_error + Conn PubKey PrvKey)) :=
  match key with
  | inl err => mret (l, inl err)
  | inr prvKeyEp =>
      connId ← Uint64 (pub_bytes (public_key prvKeyEp));
      newConn l connId remoteAddr prvKeyEp pubKeyIdRcv None true true
  end.

Definition Dial (l : Listener) (key : go_error + PrvKey) (remoteAddr : AddrPort) : go (Listener * (go_error + Conn PubKey PrvKey)) :=
  match key with
  | inl err => mret (l, inl err)
  | inr prvKeyEp =>
      connId ← Uint64 (pub_bytes (public_key prvKeyEp));
      newConn l connId remoteAddr prvKeyEp None None true false
  end.

(** *** Decryption of a datagram *)

(** [CryptoMsgType(header >> 5)]. *)
Definition msg_of_code (n : Z) : option CryptoMsgType :=
  if decide (n = 0) then Some InitSnd else if decide (n = 1) then Some InitRcv
  else if decide (n = 2) then Some InitCryptoSnd else if decide (n = 3) then Some InitCryptoRcv
  else if decide (n = 4) then Some Data else None.

(** The connection, the decrypted payload and the message type. *)
Definition decoded : Type := go_error + Conn PubKey PrvKey * bytes * CryptoMsgType.

(** A first message: the connection of the id, or a new one with a fresh key.
    The second component is the key the shared secret is derived with. *)
Definition conn_for_init (l : Listener) (connId : Z) (rAddr : AddrPort) (key : go_error + PrvKey) (pubKeyIdSnd pubKeyEpSnd : PubKey)
    (withCrypto : bool) : go (Listener * (go_error + Conn PubKey PrvKey * PrvKey)) :=
  conn ← LinkedMap.Get (connMap l) connId;
  match conn with
  | None =>
      match key with
      | inl err => mret (l, inl ("failed to generate keys: " +:+ err)%string)
      | inr prvKeyEpRcv =>
          '(l, r) ← newConn l connId rAddr prvKeyEpRcv (Some pubKeyIdSnd) (Some pubKeyEpSnd) false withCrypto;
          match r with
          | inl err => mret (l, inl ("failed to create connection: " +:+ err)%string)
          | inr conn => m ← LinkedMap.Put (connMap l) connId conn; mret (set_connMap l m, inr (conn, prvKeyEpRcv))
          end
      end
  | Some conn =>
      prvKeyEpRcv ← go_deref NilDereference (prvKeyEpSnd conn);
      mret (l, inr (conn, prvKeyEpRcv))
  end.

(** The assignments to [conn] take effect in the table. *)
Definition file (l : Listener) (key : Z) (conn : Conn PubKey PrvKey) (payload : bytes) (t : CryptoMsgType)
    : go (Listener * decoded) :=
  m ← LinkedMap.Put (connMap l) key conn; mret (set_connMap l m, inr (conn, payload, t)).

Definition failed {A} (l : Listener) (what err : go_error) : go (Listener * (go_error + A)) :=
  mret (l, inl (what +:+ err)%string).

Definition decode_msg (l : Listener) (key : go_error + PrvKey) (encData rest : bytes) (rAddr : AddrPort) (connId : Z) (t : CryptoMsgType)
    : go (Listener * decoded) :=
  let mtu := l_mtu (l_cfg l) in
  match t with
  | InitSnd =>
      r ← decryptInitSnd encData mtu;
      match r with
      | inl err => failed l "failed to decode InitHandshakeS0: " err
      | inr (pubKeyIdSnd, pubKeyEpSnd) =>
          '(l, r) ← conn_for_init l connId rAddr key pubKeyIdSnd pubKeyEpSnd false;
          match r with
          | inl err => mret (l, inl err)
          | inr (conn, prvKeyEpRcv) =>
              match ecdh prvKeyEpRcv pubKeyEpSnd with
              | inl err => failed l "failed to create connection: " err
              | inr secret => file l connId (set_keys conn (pubKeyIdRcv conn) (pubKeyEpRcv conn) (Some secret)) [] InitSnd
              end
          end
      end
  | InitRcv =>
      conn ← LinkedMap.Get (connMap l) connId;
      match conn with
      | None => failed l "" "connection not found for InitRcv"
      | Some conn =>
          prv ← go_deref NilDereference (prvKeyEpSnd conn);
          r ← decryptInitRcv encData rest prv;
          match r with
          | inl err => failed l "failed to decode InitRcv: " err
          | inr (secret, pubKeyIdRcv, pubKeyEpRcv, message) =>
              file l connId (set_keys conn (Some pubKeyIdRcv) (Some pubKeyEpRcv) (Some secret)) (PayloadRaw message) InitRcv
          end
      end
  | InitCryptoSnd =>
      r ← decryptInitCryptoSnd encData rest (prvKeyId (l_cfg l)) mtu;
      match r with
      | inl err => failed l "failed to decode InitWithCryptoS0: " err
      | inr (pubKeyIdSnd, pubKeyEpSnd, message) =>
          '(l, r) ← conn_for_init l connId rAddr key pubKeyIdSnd pubKeyEpSnd true;
          match r with
          | inl err => mret (l, inl err)
          | inr (conn, prvKeyEpRcv) =>
              let secret := match ecdh prvKeyEpRcv pubKeyEpSnd with inl _ => None | inr s => Some s end in
              file l connId (set_keys conn (pubKeyIdRcv conn) (pubKeyEpRcv conn) secret) (PayloadRaw message) InitCryptoSnd
          end
      end
  | InitCryptoRcv =>
      conn ← LinkedMap.Get (connMap l) connId;
      match conn with
      | None => failed l "" "connection not found for InitWithCryptoR0"
      | Some conn =>
          prv ← go_deref NilDereference (prvKeyEpSnd conn);
          r ← decryptInitCryptoRcv encData rest prv;
          match r with
          | inl err => failed l "failed to decode InitWithCryptoR0: " err
          | inr (secret, pubKeyEpRcv, message) =>
              file l connId (set_keys conn (pubKeyIdRcv conn) (Some pubKeyEpRcv) (Some secret)) (PayloadRaw message) InitCryptoRcv
          end
      end
  | Data =>
      conn ← LinkedMap.Get (connMap l) connId;
      match conn with
      | None => failed l "" "connection not found for DataMessage"
      | Some conn =>
          r ← decryptData encData rest (isSenderOnInit conn) (epochCryptoRcv conn) (default [] (sharedSecret conn));
          match r with
          | inl err => failed l "" err
          | inr message =>
              let conn := if decide (epochCryptoRcv conn < currentEpochCrypt message)
                          then set_epoch conn (currentEpochCrypt message) else conn in
              file l connId conn (PayloadRaw message) Data
          end
      end
  end.

Definition decode (l : Listener) (key : go_error + PrvKey) (encData rest : bytes) (rAddr : AddrPort) : go (Listener * decoded) :=
  if decide (len encData < MinPacketSize) then failed l "" "packet is below the minimal size" else
  header ← at_ encData 0;
  if decide ((header .& 0x1F)%go <> CryptoVersion) then failed l "" "unsupported version version" else
  b ← slice encData HeaderSize (ConnIdSize + HeaderSize);
  connId ← Uint64 b;
  match msg_of_code (header >> 5)%go with
  | None => failed l "" "unknown message type"
  | Some t => decode_msg l key encData rest rAddr connId t
  end.

(** *** Processing a datagram *)

(** What the socket returned: an error (and whether it is a timeout), or the
    bytes of a datagram and the address it came from. *)
Definition received_from : Type := go_error * bool + bytes * AddrPort.

(** The handshake flag after a message. *)
Definition handshake_done (c : Conn PubKey PrvKey) (t : CryptoMsgType) : Conn PubKey PrvKey :=
  if isHandshakeDoneOnRcv c then c
  else if isSenderOnInit c then if decide (t = InitRcv \/ t = InitCryptoRcv) then set_done c true else c
  else if decide (t = Data) then set_done c true else c.

Definition note_read (c : Conn PubKey PrvKey) (nowNano : Z) : Conn PubKey PrvKey :=
  let x := c_meas c in
  if decide (lastReadTimeNano x < nowNano) then
    set_meas c (mkMeasurements (srtt x) (rttvar x) (isStartup x) (rttMinNano x) (rttMinTimeNano x) (bwMax x) (bwDec x)
                  (lastProbeTimeNano x) (pacingGainPct x) nowNano)
  else c.

(** The result names a stream by the id of its connection and its value. *)
Definition Listen (l : Listener) (key : go_error + PrvKey) (input : received_from) (nowNano : Z)
    : go (Listener * (go_error + option (Z * Stream))) :=
  match input with
  | inl (err, timeout) => mret (l, if (timeout : bool) then inr None else inl err)
  | inr (data, remoteAddr) =>
      let n := len data in
      if decide (n = 0) then mret (l, inr None) else
      '(l, r) ← decode l key data (make_bytes (l_mtu (l_cfg l) - n)) remoteAddr;
      match r with
      | inl err => mret (l, inl err)
      | inr (conn, payload, t) =>
          let conn := note_read conn nowNano in
          m ← LinkedMap.Put (connMap l) (connId conn) conn;
          let l := set_connMap l m in
          parsed ← (if decide (len payload = 0 /\ t = InitSnd)
                    then mret (inr (mkPayloadHeader false None 0 0, Some []))
                    else DecodePayload payload);
          match parsed with
          | inl err => mret (l, inl err)
          | inr (p, userData) =>
              '(conn, s) ← Conn.decode conn p userData n nowNano;
              m ← LinkedMap.Put (connMap l) (connId conn) (handshake_done conn t);
              mret (set_connMap l m, inr (Some (connId conn, s)))
          end
      end
  end.
End code.

Arguments Listener : clear implicits.

(** ** The table of connections *)

Section laws.
Context {PubKey PrvKey : Type} `{!CryptoPrims PubKey PrvKey} `{!CryptoLaws PubKey PrvKey}.
Implicit Types (l : Listener PubKey PrvKey) (c : Conn PubKey PrvKey) (cid : Z) (key : go_error + PrvKey).

Definition conns l : list (Z * Conn PubKey PrvKey) := lm_elems (connMap l).

(** Connections are filed under their ids and have a key of their own. *)
Record table_ok l : Prop := {
  to_wf : lm_wf (connMap l);
  to_conn e : e ∈ conns l -> connId e.2 = e.1 /\ is_Some (prvKeyEpSnd e.2);
}.

(** At most the entry of [cid] changes. *)
Definition only l cid l' : Prop :=
  l_cfg l' = l_cfg l /\ l_keyLog l' = l_keyLog l /\
  forall k c, k <> cid -> ((k, c) ∈ conns l' <-> (k, c) ∈ conns l).

Definition at_most_adds l l' : Prop := forall e, e ∈ conns l -> e ∈ conns l'.

Lemma only_refl l cid : only l cid l.
Proof. by split_and!. Qed.

Lemma only_trans l1 l2 l3 cid : only l1 cid l2 -> only l2 cid l3 -> only l1 cid l3.
Proof.
  intros (A1 & A2 & A3) (B1 & B2 & B3). split_and!; [congruence | congruence|].
  intros k c Hk. by rewrite B3, A3.
Qed.

Lemma new_listener_ok (cfg : ListenerCfg PrvKey) (keyLog : bool) :
  table_ok (new_listener (PubKey := PubKey) cfg keyLog) /\ conns (new_listener (PubKey := PubKey) cfg keyLog) = [].
Proof.
  destruct (lm_new_ok (K := Z) (V := Conn PubKey PrvKey)) as [Hwf He]. split; [constructor; [done|] | exact He].
  intros e. unfold conns. cbn [connMap new_listener]. rewrite He. intros H. by apply not_elem_of_nil in H.
Qed.

Lemma table_get l cid : table_ok l -> LinkedMap.Get (connMap l) cid = Ok (al_get cid (conns l)).
Proof. intros [Hwf _]. by apply lm_get_ok. Qed.

Lemma table_unique l cid c c' : table_ok l -> (cid, c) ∈ conns l -> (cid, c') ∈ conns l -> c = c'.
Proof.
  intros [Hwf _] H1 H2. pose proof (lm_nodup _ Hwf) as Hnd.
  apply (al_get_is_elem cid _ Hnd) in H1. apply (al_get_is_elem cid _ Hnd) in H2. congruence.
Qed.

Lemma table_put l cid c :
  table_ok l -> connId c = cid -> is_Some (prvKeyEpSnd c) ->
  exists m, LinkedMap.Put (connMap l) cid c = Ok m /\ table_ok (set_connMap l m) /\ only l cid (set_connMap l m) /\
    (cid, c) ∈ conns (set_connMap l m).
Proof.
  intros [Hwf Hc] Hid Hp. destruct (lm_put_ok (connMap l) cid c Hwf) as (m & E & Hwf' & He).
  pose proof (lm_nodup _ Hwf) as Hnd. exists m. unfold conns, only. cbn [connMap set_connMap].
  assert (forall e, e ∈ lm_elems m <-> e = (cid, c) \/ (e ∈ lm_elems (connMap l) /\ e.1 <> cid)) as Hel.
  { intros e. rewrite He. by apply elem_al_put. }
  split; [done|]. split; [|split; [|rewrite Hel; by left]].
  - constructor; [done|]. intros e. unfold conns. cbn [connMap set_connMap]. rewrite Hel. intros [->|[? _]]; [done | by apply Hc].
  - split_and!; try done. intros k c' Hk. unfold conns. cbn [connMap set_connMap]. rewrite Hel.
    split; [intros [[= -> _]|[? _]]; done | auto].
Qed.

Lemma table_contains l cid : table_ok l -> LinkedMap.Contains (connMap l) cid = bool_decide (is_Some (al_get cid (conns l))).
Proof.
  intros [[ls Hr] _]. rewrite (Contains_spec _ ls) by done. unfold conns. rewrite (lm_elems_spec _ ls Hr).
  done.
Qed.

(** *** New connections *)

Lemma newConn_spec l cid addr prv id ep snd crypto :
  table_ok l -> l_keyLog l = false -> al_get cid (conns l) = None ->
  exists l', newConn l cid addr prv id ep snd crypto = Ok (l', inr (fresh_conn cid addr prv id ep snd crypto)) /\
    table_ok l' /\ only l cid l' /\ (cid, fresh_conn cid addr prv id ep snd crypto) ∈ conns l'.
Proof.
  intros Hl Hk Hn. unfold newConn. rewrite table_contains, Hn, bool_decide_eq_false_2 by (done || apply is_Some_None).
  rewrite Hk. cbn [mbind go_bind mret go_ret].
  destruct (table_put l cid (fresh_conn cid addr prv id ep snd crypto)) as (m & E & ? & ? & ?); [done | done | by eexists|].
  rewrite E. cbn [mbind go_bind]. eauto.
Qed.

(** The outcome for a first message. *)
Definition init_outcome l cid addr key (id ep : PubKey) (crypto : bool) l' (r : go_error + Conn PubKey PrvKey * PrvKey) : Prop :=
  table_ok l' /\ only l cid l' /\ at_most_adds l l' /\
  match r with
  | inl _ => True
  | inr (c, prv) =>
      (cid, c) ∈ conns l' /\ prvKeyEpSnd c = Some prv /\
      (al_get cid (conns l) = None -> key = inr prv /\ c = fresh_conn cid addr prv (Some id) (Some ep) false crypto)
  end.

Lemma conn_for_init_spec l cid addr key id ep crypto :
  table_ok l -> l_keyLog l = false ->
  exists l' r, conn_for_init l cid addr key id ep crypto = Ok (l', r) /\ init_outcome l cid addr key id ep crypto l' r /\
    (forall prv, key = inr prv -> exists x, r = inr x).
Proof.
  intros Hl Hk. unfold conn_for_init. rewrite table_get by done. cbn [mbind go_bind].
  destruct (al_get cid (conns l)) as [c|] eqn:E.
  - apply al_get_elem in E as Hin. destruct (to_conn _ Hl _ Hin) as [_ [prv Hp]]. cbn [snd] in Hp. rewrite Hp.
    cbn [go_deref mbind go_bind]. eexists _, _. split; [done|]. split; [|by eauto].
    split_and!; try done; [by intros e | by rewrite E].
  - destruct key as [err|prv]; [eexists _, _; split; [done|]; split; [by split_and!; try done; intros e|done]|].
    destruct (newConn_spec l cid addr prv (Some id) (Some ep) false crypto) as (l1 & -> & Hl1 & Ho1 & Hin1); [done..|].
    cbn [mbind go_bind]. destruct (table_put l1 cid (fresh_conn cid addr prv (Some id) (Some ep) false crypto)) as (m & -> & ? & ? & ?);
      [done | done | by eexists|].
    cbn [mbind go_bind]. eexists _, _. split; [done|]. split; [|by eauto]. split_and!; try done.
    + by eapply only_trans.
    + intros [k c] Hin. destruct (decide (k = cid)) as [->|Hne].
      * exfalso. apply (al_get_is_elem cid) in Hin; [by rewrite E in Hin | apply lm_nodup, Hl].
      * destruct (only_trans l l1 (set_connMap l1 m) cid) as (_ & _ & ->); done.
Qed.

(** ** Decryption *)

(** Keys, secret and receive epoch may change; everything else stays. *)
Definition rekeyed c c' : Prop := exists id ep secret epoch, c' = set_epoch (set_keys c id ep secret) epoch.

Lemma rekeyed_keys c id ep secret : rekeyed c (set_keys c id ep secret).
Proof. by exists id, ep, secret, (epochCryptoRcv c). Qed.

Lemma rekeyed_epoch c (b : bool) epoch : rekeyed c (if b then set_epoch c epoch else c).
Proof.
  exists (pubKeyIdRcv c), (pubKeyEpRcv c), (sharedSecret c), (if b then epoch else epochCryptoRcv c).
  by destruct b, c.
Qed.

Definition decode_outcome l cid l' (r : decoded) : Prop :=
  table_ok l' /\ only l cid l' /\
  match r with
  | inl _ => at_most_adds l l'
  | inr (c', _, _) => (cid, c') ∈ conns l' /\ forall c, (cid, c) ∈ conns l -> rekeyed c c'
  end.

Lemma failed_outcome l cid what err : table_ok l ->
  exists l' r, failed l what err = Ok (l', r) /\ decode_outcome l cid l' r.
Proof. intros Hl. eexists _, _. split; [done|]. split_and!; try done. by intros e. Qed.

Lemma file_outcome l l1 cid c c' payload t :
  table_ok l1 -> only l cid l1 -> at_most_adds l l1 -> (cid, c) ∈ conns l1 -> rekeyed c c' ->
  exists l' r, file l1 cid c' payload t = Ok (l', r) /\ decode_outcome l cid l' r /\ r = inr (c', payload, t).
Proof.
  intros Hl1 Ho Hadd Hin Hre. destruct (to_conn _ Hl1 _ Hin) as [Hid Hp]. cbn [fst snd] in Hid, Hp.
  destruct (table_put l1 cid c') as (m & E & Hl' & Ho' & Hin'); [done | |  |].
  { destruct Hre as (? & ? & ? & ? & ->). done. }
  { destruct Hre as (? & ? & ? & ? & ->). done. }
  unfold file. rewrite E. cbn [mbind go_bind]. eexists _, _. split; [done|]. split; [|done].
  split_and!; [done | by eapply only_trans | done|].
  intros c0 Hc0. by rewrite (table_unique l1 cid c0 c Hl1 (Hadd _ Hc0) Hin).
Qed.

Lemma decode_msg_safe l key enc rest addr cid t :
  table_ok l -> l_keyLog l = false -> mtu_ok (l_mtu (l_cfg l)) -> l_mtu (l_cfg l) <= len enc + len rest ->
  t <> InitCryptoSnd ->
  exists l' r, decode_msg l key enc rest addr cid t = Ok (l', r) /\ decode_outcome l cid l' r.
Proof.
  intros Hl Hk Hm Hcap Ht. unfold mtu_ok in Hm. unfold decode_msg.
  assert (at_most_adds l l) as Hrefl by (by intros e).
  assert (forall c, al_get cid (conns l) = Some c -> (cid, c) ∈ conns l /\ is_Some (prvKeyEpSnd c)) as Hget.
  { intros c E. apply al_get_elem in E. split; [done|]. by destruct (to_conn _ Hl _ E). }
  assert (forall c id ep secret payload t, al_get cid (conns l) = Some c ->
    exists l' r, file l cid (set_keys c id ep secret) payload t = Ok (l', r) /\ decode_outcome l cid l' r) as Hfile.
  { intros c id ep secret payload t' E. destruct (Hget _ E) as [Hin _].
    destruct (file_outcome l l cid c (set_keys c id ep secret) payload t') as (l' & r & -> & ? & _);
      [done | apply only_refl | done | done | apply rekeyed_keys | eauto]. }
  destruct t; try done.
  - destruct (decryptInitSnd_returns enc (l_mtu (l_cfg l))) as [[err|[id ep]] ->]; [lia| |]; cbn [mbind go_bind];
      [by apply failed_outcome|].
    destruct (conn_for_init_spec l cid addr key id ep false Hl Hk) as (l1 & r & -> & (Hl1 & Ho1 & Ha1 & Hr) & _). cbn [mbind go_bind].
    destruct r as [err|[c prv]]; [eexists _, _; by split|]. destruct Hr as (Hin & _ & _).
    destruct (ecdh prv ep) as [err|secret]; [eexists _, _; by split|].
    destruct (file_outcome l l1 cid c (set_keys c (pubKeyIdRcv c) (pubKeyEpRcv c) (Some secret)) [] InitSnd)
      as (l' & r & -> & ? & _); [done | done | done | done | apply rekeyed_keys | eauto].
  - rewrite table_get by done. cbn [mbind go_bind]. destruct (al_get cid (conns l)) as [c|] eqn:E; [|by apply failed_outcome].
    destruct (Hget c eq_refl) as [_ [prv ->]]. cbn [go_deref mbind go_bind].
    destruct (decryptInitRcv_returns enc rest prv) as [[err|[[[secret id] ep] msg]] ->];
      [change MinInitRcvSizeHdr with 73; lia| |]; cbn [mbind go_bind]; [by apply failed_outcome | by apply Hfile].
  - rewrite table_get by done. cbn [mbind go_bind]. destruct (al_get cid (conns l)) as [c|] eqn:E; [|by apply failed_outcome].
    destruct (Hget c eq_refl) as [_ [prv ->]]. cbn [go_deref mbind go_bind].
    destruct (decryptInitCryptoRcv_returns enc rest prv) as [[err|[[secret ep] msg]] ->];
      [change MinInitCryptoRcvSizeHdr with 41; lia| |]; cbn [mbind go_bind]; [by apply failed_outcome | by apply Hfile].
  - rewrite table_get by done. cbn [mbind go_bind]. destruct (al_get cid (conns l)) as [c|] eqn:E; [|by apply failed_outcome].
    destruct (decryptData_returns enc rest (isSenderOnInit c) (epochCryptoRcv c) (default [] (sharedSecret c))) as [[err|msg] ->];
      [change MinDataSizeHdr with 9; lia| |]; cbn [mbind go_bind]; [by apply failed_outcome|].
    pose proof (rekeyed_epoch c (bool_decide (epochCryptoRcv c < currentEpochCrypt msg)) (currentEpochCrypt msg)) as Hre.
    destruct (Hget c eq_refl) as [Hin _].
    destruct (file_outcome l l cid c _ (PayloadRaw msg) Data Hl (only_refl l cid) Hrefl Hin Hre) as (l' & r & Ef & ? & _).
    exists l', r. split; [|done]. rewrite <- Ef. f_equal. unfold bool_decide. by case_decide.
Qed.

Lemma msg_of_code_msg t : msg_of_code (Z.shiftr (msg_header t) 5) = Some t.
Proof. by destruct t. Qed.

(** The connection id of a datagram: the eight bytes behind the header byte,
    little-endian. *)
Definition datagram_id (enc : bytes) : Z := le_value (take 8 (drop 1 enc)).

Lemma decode_safe l key enc rest addr :
  table_ok l -> l_keyLog l = false -> mtu_ok (l_mtu (l_cfg l)) -> l_mtu (l_cfg l) <= len enc + len rest ->
  Forall is_u8 enc -> (forall h, enc !! 0%nat = Some h -> Z.shiftr h 5 <> 2) ->
  exists l' r, decode l key enc rest addr = Ok (l', r) /\ decode_outcome l (datagram_id enc) l' r.
Proof.
  intros Hl Hk Hm Hcap Hu Ht. unfold decode. case_decide as Hlen; [by apply failed_outcome|].
  change MinPacketSize with 39 in Hlen. destruct enc as [|h enc]; [simpl in Hlen; lia|].
  specialize (Ht h eq_refl). cbn [at_]. rewrite (at_Ok _ 0 h) by done. cbn [mbind go_bind].
  case_decide; [by apply failed_outcome|].
  rewrite slice_Ok by (unfold HeaderSize, ConnIdSize; lia). cbn [mbind go_bind].
  change (take _ (drop (Z.to_nat HeaderSize) (h :: enc))) with (take 8 enc).
  rewrite Uint64_spec, take_take by
    (first [rewrite length_take; simpl in Hlen; lia | apply Forall_take, Forall_take; by inversion Hu]).
  cbn [mbind go_bind Nat.min]. change (le_value (take 8 enc)) with (datagram_id (h :: enc)). destruct (msg_of_code _) as [t|] eqn:Et; [|by apply failed_outcome].
  apply decode_msg_safe; try done. intros ->. unfold msg_of_code in Et. repeat (case_decide; try done).
Qed.

(** *** The packets of a peer *)

Lemma decode_header l key enc rest addr t b tail cid :
  enc = msg_header t :: b ++ tail -> len b = 8 -> Uint64 b = Ok cid -> 39 <= len enc ->
  decode l key enc rest addr = decode_msg l key enc rest addr cid t.
Proof.
  intros -> Hb Hu Hlen. unfold decode. rewrite decide_False by (change MinPacketSize with 39; lia).
  rewrite (at_Ok _ 0 (msg_header t)) by done. cbn [mbind go_bind].
  rewrite decide_False by (destruct t; vm_compute; tauto).
  rewrite (slice_mid [msg_header t] b tail) by (done || (change (len [msg_header t]) with 1; unfold ConnIdSize, HeaderSize; lia)).
  cbn [mbind go_bind]. rewrite Hu. cbn [mbind go_bind]. by rewrite msg_of_code_msg.
Qed.

(** A packet whose header starts with type and connection id. *)
Lemma decode_conn_header l key t cid hdr sn epoch isSender secret d rest addr :
  is_u64 cid -> 8 <= len d ->
  decode l key (packet_bytes sn epoch isSender secret (conn_header t cid ++ hdr) d) rest addr
  = decode_msg l key (packet_bytes sn epoch isSender secret (conn_header t cid ++ hdr) d) rest addr cid t.
Proof.
  intros Hc Hd. eapply (decode_header _ _ _ _ _ t (le_bytes 8 cid)).
  - unfold packet_bytes, conn_header. cbn [app]. by rewrite <- app_assoc.
  - by rewrite length_le_bytes.
  - rewrite <- (app_nil_r (le_bytes 8 cid)), Uint64_le, Z.mod_small; done.
  - rewrite packet_length, length_app, Nat2Z.inj_add, conn_header_length. change (HeaderSize + ConnIdSize) with 9.
    change FooterDataSize with 22. lia.
Qed.

(** A first message: the id is the start of the ephemeral key. *)
Lemma decode_key_header l key enc rest addr t (ep : PubKey) tail :
  enc = msg_header t :: pub_bytes ep ++ tail -> 39 <= len enc ->
  decode l key enc rest addr = decode_msg l key enc rest addr (key_conn_id ep) t.
Proof.
  intros He Hl. pose proof (pub_bytes_length ep) as Hp. unfold PubKeySize in Hp.
  eapply (decode_header _ _ _ _ _ t (take 8 (pub_bytes ep)) (drop 8 (pub_bytes ep) ++ tail)).
  - by rewrite app_assoc, take_drop.
  - rewrite length_take. lia.
  - rewrite Uint64_spec; [by rewrite take_take | rewrite length_take; lia | apply Forall_take, Forall_take, pub_bytes_u8].
  - done.
Qed.

(** The two ends of an established connection. *)
Record peers c c2 (secret : bytes) : Prop := {
  pe_id : is_u64 (connId c);
  pe_snd : sharedSecret c = Some secret;
  pe_rcv : sharedSecret c2 = Some secret;
  pe_len : len secret = 32;
  pe_dir : isSenderOnInit c2 = negb (isSenderOnInit c);
  pe_ctr : ctr_ok c;
  pe_window : epoch_window (epochCryptoRcv c2) (epochCryptoSnd c);
  pe_epoch : 0 <= epochCryptoRcv c2 < 2 ^ 47;
}.

Lemma data_received cfg l key c c2 secret p d c' enc rest addr :
  table_ok l -> peers c c2 secret -> (connId c, c2) ∈ conns l -> encode cfg c p d Data = Ok (c', inr enc) ->
  exists l' c2', decode l key enc rest addr = Ok (l', inr (c2', payload_bytes p d, Data)) /\
    decode_outcome l (connId c) l' (inr (c2', payload_bytes p d, Data)) /\
    c2' = (if decide (epochCryptoRcv c2 < epochCryptoSnd c) then set_epoch c2 (epochCryptoSnd c) else c2).
Proof.
  intros Hl [Hid Hs1 Hs2 Hlen Hdir [Hsn Hep] Hwin Hepoch] Hin Henc.
  pose proof (payload_bytes_length p d) as H8.
  assert (enc = packet_bytes (snCrypto c) (epochCryptoSnd c) (isSenderOnInit c) secret (conn_header Data (connId c)) (payload_bytes p d)) as ->.
  { unfold encode, encode_msg in Henc. rewrite EncodePayload_spec in Henc. cbn [mbind go_bind] in Henc.
    rewrite Hs1, encryptData_spec in Henc by done. cbn [mbind go_bind mret go_ret] in Henc.
    destruct (advance _ _) as [[? [? ?]]|[? ?]]; [by inversion Henc|]. apply Ok_inj in Henc. congruence. }
  rewrite <- (app_nil_r (conn_header Data (connId c))). rewrite decode_conn_header, app_nil_r by done.
  unfold decode_msg. rewrite table_get by done. cbn [mbind go_bind].
  assert (al_get (connId c) (conns l) = Some c2) as -> by (apply al_get_is_elem; [apply lm_nodup, Hl | done]).
  rewrite Hs2, Hdir. cbn [default from_option id].
  rewrite decryptData_spec by (done || unfold is_u48 in *; lia). cbn [mbind go_bind currentEpochCrypt PayloadRaw].
  pose proof (rekeyed_epoch c2 (bool_decide (epochCryptoRcv c2 < epochCryptoSnd c)) (epochCryptoSnd c)) as Hre.
  destruct (file_outcome l l (connId c) c2 _ (payload_bytes p d) Data Hl (only_refl l _) ltac:(by intros e) Hin Hre)
    as (l' & r & Ef & Ho & ->).
  assert (forall A (a b : A), (if bool_decide (epochCryptoRcv c2 < epochCryptoSnd c) then a else b)
    = if decide (epochCryptoRcv c2 < epochCryptoSnd c) then a else b) as Eif.
  { intros. unfold bool_decide. by case_decide. }
  rewrite Eif in Ef, Ho. eauto.
Qed.

(** *** Handshakes *)

Lemma key_conn_id_u64 (k : PubKey) : is_u64 (key_conn_id k).
Proof.
  unfold key_conn_id. pose proof (pub_bytes_length k) as Hp. unfold PubKeySize in Hp.
  assert (Forall is_u8 (take 8 (pub_bytes k))) as H by apply Forall_take, pub_bytes_u8.
  apply le_value_bounds in H. rewrite length_take, Nat.min_l in H by lia. exact H.
Qed.

Lemma Dial_spec l epA addr :
  let cid := key_conn_id (public_key epA) in
  table_ok l -> l_keyLog l = false -> al_get cid (conns l) = None ->
  exists l', Dial l (inr epA) addr = Ok (l', inr (fresh_conn cid addr epA None None true false)) /\
    table_ok l' /\ only l cid l' /\ (cid, fresh_conn cid addr epA None None true false) ∈ conns l'.
Proof.
  intros cid Hl Hk Hn. unfold Dial. rewrite <- (app_nil_r (pub_bytes (public_key epA))), key_conn_id_spec.
  cbn [mbind go_bind]. by apply newConn_spec.
Qed.

Lemma DialWithCrypto_spec l epA addr idB :
  let cid := key_conn_id (public_key epA) in
  table_ok l -> l_keyLog l = false -> al_get cid (conns l) = None ->
  exists l', DialWithCrypto l (inr epA) addr (Some idB) = Ok (l', inr (fresh_conn cid addr epA (Some idB) None true true)) /\
    table_ok l' /\ only l cid l' /\ (cid, fresh_conn cid addr epA (Some idB) None true true) ∈ conns l'.
Proof.
  intros cid Hl Hk Hn. unfold DialWithCrypto. rewrite <- (app_nil_r (pub_bytes (public_key epA))), key_conn_id_spec.
  cbn [mbind go_bind]. by apply newConn_spec.
Qed.

(** The first packet of a connection. *)
Lemma encode_first cfg c p d t enc b :
  encode_msg cfg c p d t = Ok (inr (enc, b)) -> snCrypto c = 0 -> epochCryptoSnd c = 0 ->
  encode cfg c p d t = Ok (set_counter c b 1 0, inr enc).
Proof. intros E Hs He. unfold encode. by rewrite E, Hs, He. Qed.

(** A first message that the other end has no connection for. *)
Lemma init_new l cid addr epB id ep crypto :
  table_ok l -> l_keyLog l = false -> al_get cid (conns l) = None ->
  exists l1, conn_for_init l cid addr (inr epB) id ep crypto
      = Ok (l1, inr (fresh_conn cid addr epB (Some id) (Some ep) false crypto, epB)) /\
    table_ok l1 /\ only l cid l1 /\ at_most_adds l l1 /\
    (cid, fresh_conn cid addr epB (Some id) (Some ep) false crypto) ∈ conns l1.
Proof.
  intros Hl Hk Hn.
  destruct (conn_for_init_spec l cid addr (inr epB) id ep crypto Hl Hk) as (l1 & r & E & (H1 & H2 & H3 & Hr) & Hex).
  destruct (Hex epB eq_refl) as [[c prv] ->]. destruct Hr as (Hin & Hp & Hnew). destruct (Hnew Hn) as [[= <-] ->].
  by exists l1.
Qed.

(** The responder's connection after a first message of [epA], identity [idA]. *)
Definition responder cid (addr : AddrPort) epB (idA epA : PubKey) (crypto : bool) (secret : bytes) : Conn PubKey PrvKey :=
  set_keys (fresh_conn cid addr epB (Some idA) (Some epA) false crypto) (Some idA) (Some epA) (Some secret).

Lemma init_received l cid epB (idA epA : PubKey) secret rest addr mtu :
  table_ok l -> l_keyLog l = false -> l_mtu (l_cfg l) = mtu -> mtu_ok mtu -> cid = key_conn_id epA ->
  al_get cid (conns l) = None -> ecdh epB epA = inr secret ->
  exists l', decode l (inr epB) (init_snd_bytes epA idA mtu) rest addr
      = Ok (l', inr (responder cid addr epB idA epA false secret, [], InitSnd)) /\ table_ok l' /\ only l cid l' /\
    (cid, responder cid addr epB idA epA false secret) ∈ conns l'.
Proof.
  intros Hl Hk <- Hm -> Hn Hs. unfold mtu_ok in Hm.
  assert (MinInitCryptoSndSizeHdr <= l_mtu (l_cfg l)) as Hmin by (change MinInitCryptoSndSizeHdr with 65; lia).
  pose proof (init_snd_bytes_length epA idA (l_mtu (l_cfg l)) Hmin) as Hlen.
  erewrite (decode_key_header l _ _ rest addr InitSnd epA); [|unfold init_snd_bytes; by rewrite <- !app_assoc | lia].
  unfold decode_msg. rewrite decryptInitSnd_spec by done. cbn [mbind go_bind].
  destruct (init_new l (key_conn_id epA) addr epB idA epA false Hl Hk Hn) as (l1 & -> & Hl1 & Ho1 & Ha1 & Hin1).
  cbn [mbind go_bind]. rewrite Hs.
  destruct (file_outcome l l1 _ _ (responder (key_conn_id epA) addr epB idA epA false secret) [] InitSnd Hl1 Ho1 Ha1 Hin1
    (rekeyed_keys _ _ _ _)) as (l' & r & Ef & Hout & ->).
  destruct Hout as (? & ? & [? _]). exists l'. split; [exact Ef|]. by split_and!.
Qed.

Lemma crypto_init_received l cid (idB epA : PrvKey) epB (idA : PubKey) s0 secret sn d rest addr mtu :
  table_ok l -> l_keyLog l = false -> l_mtu (l_cfg l) = mtu -> mtu_ok mtu -> prvKeyId (l_cfg l) = idB ->
  cid = key_conn_id (public_key epA) -> al_get cid (conns l) = None ->
  ecdh idB (public_key epA) = inr s0 -> ecdh epB (public_key epA) = inr secret -> is_u48 sn ->
  8 <= len d -> 0 <= fill_len mtu d < 2 ^ 16 ->
  exists l', decode l (inr epB) (packet_bytes sn 0 true s0 (init_crypto_snd_header (public_key epA) idA) (padded (fill_len mtu d) d)) rest addr
      = Ok (l', inr (responder cid addr epB idA (public_key epA) true secret, d, InitCryptoSnd)) /\ table_ok l' /\ only l cid l' /\
    (cid, responder cid addr epB idA (public_key epA) true secret) ∈ conns l'.
Proof.
  intros Hl Hk <- Hm <- -> Hn Hs0 Hs Hsn Hd Hf. unfold mtu_ok in Hm. pose proof (ecdh_length _ _ _ Hs0) as Hlen0.
  set (enc := packet_bytes _ _ _ _ _ _).
  assert (exists tail, enc = msg_header InitCryptoSnd :: pub_bytes (public_key epA) ++ tail) as [tail Htail].
  { eexists. unfold enc, packet_bytes, init_crypto_snd_header. rewrite <- !app_assoc. reflexivity. }
  assert (39 <= len enc) as Hlen.
  { unfold enc. rewrite packet_length, init_crypto_snd_header_length. change MinInitCryptoSndSizeHdr with 65.
    change FooterDataSize with 22. lia. }
  rewrite (decode_key_header l _ enc rest addr InitCryptoSnd (public_key epA) tail) by done.
  unfold decode_msg, enc. rewrite (decryptInitCryptoSnd_spec _ _ _ s0) by done. cbn [mbind go_bind PayloadRaw].
  destruct (init_new l (key_conn_id (public_key epA)) addr epB idA (public_key epA) true Hl Hk Hn) as (l1 & -> & Hl1 & Ho1 & Ha1 & Hin1).
  cbn [mbind go_bind]. rewrite Hs.
  destruct (file_outcome l l1 _ _ (responder (key_conn_id (public_key epA)) addr epB idA (public_key epA) true secret) d InitCryptoSnd
    Hl1 Ho1 Ha1 Hin1 (rekeyed_keys _ _ _ _)) as (l' & r & Ef & Hout & ->).
  destruct Hout as (? & ? & [? _]). exists l'. split; [exact Ef|]. by split_and!.
Qed.

(** The reply, at the initiator. *)
Lemma reply_received l key cid c (epA : PrvKey) (id ep : PubKey) secret sn d rest addr :
  table_ok l -> (cid, c) ∈ conns l -> prvKeyEpSnd c = Some epA -> is_u64 cid -> is_u48 sn ->
  ecdh epA ep = inr secret -> 8 <= len d ->
  exists l', decode l key (packet_bytes sn 0 false secret (init_rcv_header cid ep id) d) rest addr
      = Ok (l', inr (set_keys c (Some id) (Some ep) (Some secret), d, InitRcv)) /\ table_ok l' /\ only l cid l' /\
    (cid, set_keys c (Some id) (Some ep) (Some secret)) ∈ conns l'.
Proof.
  intros Hl Hin Hp Hc Hsn Hs Hd. pose proof (ecdh_length _ _ _ Hs) as Hlen.
  unfold init_rcv_header. rewrite <- app_assoc, decode_conn_header, app_assoc by done. fold (init_rcv_header cid ep id).
  unfold decode_msg. rewrite table_get by done. cbn [mbind go_bind].
  assert (al_get cid (conns l) = Some c) as -> by (apply al_get_is_elem; [apply lm_nodup, Hl | done]).
  rewrite Hp. cbn [go_deref mbind go_bind]. rewrite decryptInitRcv_spec by done. cbn [mbind go_bind PayloadRaw].
  destruct (file_outcome l l cid c _ d InitRcv Hl (only_refl l cid) ltac:(by intros e) Hin
    (rekeyed_keys c (Some id) (Some ep) (Some secret))) as (l' & r & Ef & Hout & ->).
  destruct Hout as (? & ? & [? _]). exists l'. split; [exact Ef|]. by split_and!.
Qed.

Lemma crypto_reply_received l key cid c (epA : PrvKey) (ep : PubKey) secret sn d rest addr :
  table_ok l -> (cid, c) ∈ conns l -> prvKeyEpSnd c = Some epA -> is_u64 cid -> is_u48 sn ->
  ecdh epA ep = inr secret -> 8 <= len d ->
  exists l', decode l key (packet_bytes sn 0 false secret (init_crypto_rcv_header cid ep) d) rest addr
      = Ok (l', inr (set_keys c (pubKeyIdRcv c) (Some ep) (Some secret), d, InitCryptoRcv)) /\ table_ok l' /\ only l cid l' /\
    (cid, set_keys c (pubKeyIdRcv c) (Some ep) (Some secret)) ∈ conns l'.
Proof.
  intros Hl Hin Hp Hc Hsn Hs Hd. pose proof (ecdh_length _ _ _ Hs) as Hlen.
  unfold init_crypto_rcv_header. rewrite decode_conn_header by done. fold (init_crypto_rcv_header cid ep).
  unfold decode_msg. rewrite table_get by done. cbn [mbind go_bind].
  assert (al_get cid (conns l) = Some c) as -> by (apply al_get_is_elem; [apply lm_nodup, Hl | done]).
  rewrite Hp. cbn [go_deref mbind go_bind]. rewrite decryptInitCryptoRcv_spec by done. cbn [mbind go_bind PayloadRaw].
  destruct (file_outcome l l cid c _ d InitCryptoRcv Hl (only_refl l cid) ltac:(by intros e) Hin
    (rekeyed_keys c (pubKeyIdRcv c) (Some ep) (Some secret))) as (l' & r & Ef & Hout & ->).
  destruct Hout as (? & ? & [? _]). exists l'. split; [exact Ef|]. by split_and!.
Qed.

(** ** Processing a datagram *)

Lemma conn_inv_read f g c now : conn_inv f g c -> conn_inv f g (note_read c now).
Proof.
  intros [H1 H2 H3 H4]. unfold note_read. case_decide; [|done]. constructor; try done.
  exact (meas_inv_step _ _ H3 (step_read (c_meas c) now)).
Qed.

Lemma note_read_same c now : same_counter c (note_read c now) /\ c_rcv (note_read c now) = c_rcv c.
Proof. unfold note_read. by case_decide. Qed.

Lemma handshake_done_same c t : same_counter c (handshake_done c t) /\ c_rcv (handshake_done c t) = c_rcv c /\
  c_snd (handshake_done c t) = c_snd c.
Proof. unfold handshake_done. by repeat case_match. Qed.

Lemma conn_inv_done f g c t : conn_inv f g c -> conn_inv f g (handshake_done c t).
Proof. intros [H1 H2 H3 H4]. unfold handshake_done. repeat case_match; by constructor. Qed.

Lemma conn_inv_epoch f g c epoch : conn_inv f g c -> conn_inv f g (set_epoch c epoch).
Proof. intros [H1 H2 H3 H4]. by constructor. Qed.

Lemma handshake_done_data c : isSenderOnInit c = false -> isHandshakeDoneOnRcv (handshake_done c Data) = true.
Proof. intros H. unfold handshake_done. destruct (isHandshakeDoneOnRcv c) eqn:E; [done | by rewrite H]. Qed.

Lemma received_ack_wf p d a : wf_payload p -> pAck (received p d).1 = Some a -> wf_ack a.
Proof.
  intros (_ & _ & Ha) E. assert (received_ack <$> pAck p = Some a) as E' by (unfold received in E; by destruct (ack_only p d)).
  destruct (pAck p) as [a0|]; [|done]. by injection E' as <-.
Qed.

(** The payload of a decrypted datagram; the first message has none. *)
Definition parse_payload (payload : bytes) (t : CryptoMsgType) : go (go_error + PayloadHeader * option bytes) :=
  if decide (len payload = 0 /\ t = InitSnd) then mret (inr (mkPayloadHeader false None 0 0, Some [])) else DecodePayload payload.

Lemma parse_payload_bytes p d t : wf_payload p -> parse_payload (payload_bytes p d) t = Ok (inr (received p d)).
Proof.
  intros Hwf. pose proof (payload_bytes_length p d) as H8. unfold parse_payload. rewrite decide_False by (intros [? _]; lia).
  by apply DecodePayload_spec.
Qed.

(** The rest of [Listen] for a datagram that decrypts to a payload. *)
Lemma listen_decoded l key data addr now l1 cid c payload t p u c2 s :
  data <> [] -> decode l key data (make_bytes (l_mtu (l_cfg l) - len data)) addr = Ok (l1, inr (c, payload, t)) ->
  table_ok l1 -> (cid, c) ∈ conns l1 -> parse_payload payload t = Ok (inr (p, u)) ->
  Conn.decode (note_read c now) p u (len data) now = Ok (c2, s) ->
  exists l', Listen l key (inr (data, addr)) now = Ok (l', inr (Some (cid, s))) /\ table_ok l' /\ only l1 cid l' /\
    (cid, handshake_done c2 t) ∈ conns l'.
Proof.
  intros Hdata E Hl1 Hin Hparse Hdec. unfold Listen.
  rewrite decide_False by (destruct data; [done | simpl; lia]). rewrite E. cbn [mbind go_bind].
  destruct (to_conn _ Hl1 _ Hin) as [Hid Hprv]. cbn [fst snd] in Hid, Hprv.
  destruct (note_read_same c now) as [(_ & _ & Hs1 & Hi1 & Hp1) Hr1]. set (c1 := note_read c now) in *.
  destruct (table_put l1 cid c1) as (m1 & Hput1 & Hl2 & Ho2 & Hin2); [done | congruence | by rewrite Hp1|].
  rewrite Hi1, Hid, Hput1. cbn [mbind go_bind]. unfold parse_payload in Hparse. rewrite Hparse. cbn [mbind go_bind].
  pose proof (decode_counter _ _ _ _ _ _ _ Hdec) as (_ & _ & Hs2 & Hi2 & Hp2).
  rewrite Hdec. cbn [mbind go_bind]. destruct (handshake_done_same c2 t) as [(_ & _ & _ & Hi3 & Hp3) _].
  destruct (table_put (set_connMap l1 m1) cid (handshake_done c2 t)) as (m2 & Hput2 & Hl3 & Ho3 & Hin3);
    [done | congruence | rewrite Hp3, Hp2, Hp1; done|].
  cbn [connMap set_connMap] in Hput2 |- *. rewrite Hi2, Hi1, Hid, Hput2. cbn [mbind go_bind].
  eexists. split; [done|]. split; [exact Hl3|]. split; [by eapply only_trans | exact Hin3].
Qed.

Lemma listen_payload l key f g data addr now l1 cid c p d t :
  data <> [] -> decode l key data (make_bytes (l_mtu (l_cfg l) - len data)) addr = Ok (l1, inr (c, payload_bytes p d, t)) ->
  table_ok l1 -> (cid, c) ∈ conns l1 -> conn_inv f g c -> wf_payload p -> is_u64 now ->
  fresh_data g c (received p d).1 (received p d).2 ->
  exists l' s c', Listen l key (inr (data, addr)) now = Ok (l', inr (Some (cid, s))) /\ table_ok l' /\ only l1 cid l' /\
    (cid, c') ∈ conns l' /\ conn_inv f g c' /\ st_streamID s = StreamID (received p d).1 /\
    (exists rb, data_done (c_rcv c) (received p d).1 (received p d).2 rb /\ c_rcv c' = close_rcv (received p d).1 rb) /\
    (isSenderOnInit c = false -> t = Data -> isHandshakeDoneOnRcv c' = true).
Proof.
  intros Hdata E Hl1 Hin Hc Hwf Hnow Hfresh. pose proof (parse_payload_bytes p d t Hwf) as Hparse.
  destruct (note_read_same c now) as [(_ & _ & Hs1 & _) Hr1]. pose proof (conn_inv_read f g c now Hc) as Hc1.
  destruct (received p d) as [q u] eqn:Erec. cbn [fst snd] in *.
  destruct (decode_spec f g (note_read c now) q u (len data) now Hc1) as (c2 & s & Hdec & Hc2 & [Hsid _] & Hdone & _).
  { intros a Ha. apply (received_ack_wf p d a Hwf). by rewrite Erec. }
  { unfold fresh_data in *. by rewrite Hr1. }
  { done. }
  destruct (listen_decoded l key data addr now l1 cid c (payload_bytes p d) t q u c2 s) as (l' & EL & Hl' & Ho & Hin'); [done..|].
  exists l', s, (handshake_done c2 t). split_and!; try done; [by apply conn_inv_done | |].
  - rewrite Hr1 in Hdone. by destruct (handshake_done_same c2 t) as [_ [-> _]].
  - intros Hsnd ->. apply handshake_done_data. pose proof (decode_counter _ _ _ _ _ _ _ Hdec) as (_ & _ & Hs2 & _). congruence.
Qed.
End laws.

(** ** Properties *)

Section properties.
Context {PubKey PrvKey : Type} `{!CryptoPrims PubKey PrvKey} `{!CryptoLaws PubKey PrvKey}.
Implicit Types (l : Listener PubKey PrvKey) (c : Conn PubKey PrvKey) (key : go_error + PrvKey).

(** C23. Arbitrary datagrams: at a listener without a key-log writer and with a
    usable MTU, on any bytes that are not a first message of the encrypted
    handshake, in the buffer of [Listen], [decode] returns (no index or slice
    panic, no nil dereference) and the table of connections stays well-formed.
    No entry but the one of [datagram_id], the little-endian number in bytes 1 to
    8 of the datagram, changes.  On success the returned connection is the one
    filed under that id, and if there was one before it differs at most in its
    keys, secret and receive epoch; an error changes no existing connection at
    all. *)
Theorem listener_decode_safe l key (enc : bytes) addr :
  table_ok l -> l_keyLog l = false -> mtu_ok (l_mtu (l_cfg l)) ->
  Forall is_u8 enc -> (forall h, enc !! 0%nat = Some h -> Z.shiftr h 5 <> 2) ->
  exists l' r, decode l key enc (make_bytes (l_mtu (l_cfg l) - len enc)) addr = Ok (l', r) /\
    decode_outcome l (datagram_id enc) l' r.
Proof.
  intros Hl Hk Hm Hu Ht. apply decode_safe; try done. unfold make_bytes. rewrite length_replicate. lia.
Qed.

(** The unencrypted handshake, from [Dial] on: the first message of the dialing
    listener has the other one create a connection with the same id; its reply is
    accepted by the dialer, the payload arrives, both ends hold the same secret
    and opposite directions, so that data packets can be exchanged both ways
    ([peers]), each end knows the identity key of the other, the dialer writes to
    the address it dialed and the other end to the one the first message came
    from (wherever the reply comes from). *)
Theorem handshake_agrees lA0 lB (epA epB : PrvKey) key secret mtu p1 d1 p d rest1 rest2 addrA addrB addr3 :
  let cid := key_conn_id (public_key epA) in
  table_ok lA0 -> table_ok lB -> l_keyLog lA0 = false -> l_keyLog lB = false ->
  l_mtu (l_cfg lA0) = mtu -> l_mtu (l_cfg lB) = mtu -> mtu_ok mtu ->
  al_get cid (conns lA0) = None -> al_get cid (conns lB) = None -> ecdh epB (public_key epA) = inr secret ->
  exists lA a a1 enc1 lB' b b1 enc2,
    Dial lA0 (inr epA) addrB = Ok (lA, inr a) /\ msgType a = InitSnd /\
    encode (l_cfg lA) a p1 d1 InitSnd = Ok (a1, inr enc1) /\
    decode lB (inr epB) enc1 rest1 addrA = Ok (lB', inr (b, [], InitSnd)) /\ msgType b = InitRcv /\
    encode (l_cfg lB) b p d InitRcv = Ok (b1, inr enc2) /\
    forall lA1, table_ok lA1 -> (cid, a1) ∈ conns lA1 ->
      exists lA' a', decode lA1 key enc2 rest2 addr3 = Ok (lA', inr (a', payload_bytes p d, InitRcv)) /\
        peers a' b1 secret /\ peers b1 a' secret /\
        pubKeyIdRcv a' = Some (public_key (prvKeyId (l_cfg lB))) /\
        pubKeyIdRcv b1 = Some (public_key (prvKeyId (l_cfg lA0))) /\
        remoteAddr a' = addrB /\ remoteAddr b1 = addrA.
Proof.
  intros cid HA HB KA KB MA MB Hm NA NB Hs. pose proof (payload_bytes_length p d) as H8.
  destruct (Dial_spec lA0 epA addrB HA KA NA) as (lA & HD & HlA & (EcA & _ & _) & _). fold cid in HD.
  assert (MinInitCryptoSndSizeHdr <= mtu) as Hmin by (unfold mtu_ok in Hm; change MinInitCryptoSndSizeHdr with 65; lia).
  destruct (init_received lB cid epB (public_key (prvKeyId (l_cfg lA0))) (public_key epA) secret rest1 addrA mtu)
    as (lB' & HDB & _); [done..|].
  exists lA, (fresh_conn cid addrB epA None None true false). eexists _, _, lB', _, _, _.
  split; [exact HD|]. split; [done|]. split.
  { apply encode_first; [|done|done]. unfold encode_msg. cbn [prvKeyEpSnd fresh_conn go_deref mbind go_bind].
    rewrite EcA, MA, encryptInitSnd_spec by done. done. }
  split; [exact HDB|]. split; [done|]. split.
  { apply encode_first; [|done|done]. unfold encode_msg. rewrite EncodePayload_spec. cbn [mbind go_bind].
    cbn [responder set_keys fresh_conn prvKeyEpSnd pubKeyEpRcv connId snCrypto].
    rewrite (encryptInitRcv_spec _ _ _ _ secret) by done. done. }
  intros lA1 HlA1 Hin1.
  destruct (reply_received lA1 key cid (set_counter (fresh_conn cid addrB epA None None true false) true 1 0) epA (public_key (prvKeyId (l_cfg lB))) (public_key epB) secret 0 (payload_bytes p d) rest2 addr3)
    as (lA' & Hrep & _); [done | exact Hin1 | done | apply key_conn_id_u64 | by widths | by apply ecdh_agree | done|].
  eexists lA', _. split; [exact Hrep|]. pose proof (ecdh_length _ _ _ Hs) as Hlen.
  pose proof (key_conn_id_u64 (public_key epA)) as Hu.
  split; [|split; [|done]]; constructor; try done; unfold ctr_ok, counter_ok; simpl; widths; lia.
Qed.

(** The encrypted handshake, from [DialWithCrypto] on: the first message
    already carries a payload, which arrives without the padding; the rest is as
    for the unencrypted handshake, with the identity key of the other listener
    known beforehand. *)
Theorem crypto_handshake_agrees lA0 lB (epA epB : PrvKey) key s0 secret mtu p1 d1 p d rest1 rest2 addrA addrB addr3 :
  let cid := key_conn_id (public_key epA) in
  let idB := public_key (prvKeyId (l_cfg lB)) in
  table_ok lA0 -> table_ok lB -> l_keyLog lA0 = false -> l_keyLog lB = false ->
  l_mtu (l_cfg lA0) = mtu -> l_mtu (l_cfg lB) = mtu -> mtu_ok mtu ->
  al_get cid (conns lA0) = None -> al_get cid (conns lB) = None ->
  ecdh epA idB = inr s0 -> ecdh epB (public_key epA) = inr secret ->
  len (default [] d1) <= max_data InitCryptoSnd (pAck p1) mtu (StreamOffset p1) ->
  exists lA a a1 enc1 lB' b b1 enc2,
    DialWithCrypto lA0 (inr epA) addrB (Some idB) = Ok (lA, inr a) /\ msgType a = InitCryptoSnd /\
    encode (l_cfg lA) a p1 d1 InitCryptoSnd = Ok (a1, inr enc1) /\
    decode lB (inr epB) enc1 rest1 addrA = Ok (lB', inr (b, payload_bytes p1 d1, InitCryptoSnd)) /\ msgType b = InitCryptoRcv /\
    encode (l_cfg lB) b p d InitCryptoRcv = Ok (b1, inr enc2) /\
    forall lA1, table_ok lA1 -> (cid, a1) ∈ conns lA1 ->
      exists lA' a', decode lA1 key enc2 rest2 addr3 = Ok (lA', inr (a', payload_bytes p d, InitCryptoRcv)) /\
        peers a' b1 secret /\ peers b1 a' secret /\
        pubKeyIdRcv a' = Some idB /\ pubKeyIdRcv b1 = Some (public_key (prvKeyId (l_cfg lA0))) /\
        remoteAddr a' = addrB /\ remoteAddr b1 = addrA.
Proof.
  intros cid idB HA HB KA KB MA MB Hm NA NB Hs0 Hs Hroom.
  pose proof (payload_bytes_length p d) as H8. pose proof (payload_bytes_length p1 d1) as H81.
  destruct (DialWithCrypto_spec lA0 epA addrB idB HA KA NA) as (lA & HD & HlA & (EcA & _ & _) & _). fold cid in HD.
  assert (0 <= fill_len mtu (payload_bytes p1 d1) < 2 ^ 16) as Hfill.
  { pose proof (packet_room InitCryptoSnd p1 d1 mtu ltac:(done) Hroom) as Hr. cbn [crypto_part] in Hr. unfold fill_len, mtu_ok in *.
    split; [lia|]. change (MinInitCryptoSndSizeHdr + FooterDataSize + MsgInitFillLenSize) with 89. lia. }
  destruct (crypto_init_received lB cid (prvKeyId (l_cfg lB)) epA epB (public_key (prvKeyId (l_cfg lA0))) s0 secret 0
    (payload_bytes p1 d1) rest1 addrA mtu) as (lB' & HDB & _); try done; [by apply ecdh_agree|].
  exists lA, (fresh_conn cid addrB epA (Some idB) None true true). eexists _, _, lB', _, _, _.
  split; [exact HD|]. split; [done|]. split.
  { apply encode_first; [|done|done]. unfold encode_msg. rewrite EncodePayload_spec. cbn [mbind go_bind].
    cbn [prvKeyEpSnd pubKeyIdRcv snCrypto fresh_conn]. rewrite EcA, MA, (encryptInitCryptoSnd_spec _ _ _ s0) by done. done. }
  split; [exact HDB|]. split; [done|]. split.
  { apply encode_first; [|done|done]. unfold encode_msg. rewrite EncodePayload_spec. cbn [mbind go_bind].
    cbn [responder set_keys fresh_conn prvKeyEpSnd pubKeyEpRcv connId snCrypto].
    rewrite (encryptInitCryptoRcv_spec _ _ _ secret) by done. done. }
  intros lA1 HlA1 Hin1.
  destruct (crypto_reply_received lA1 key cid (set_counter (fresh_conn cid addrB epA (Some idB) None true true) true 1 0) epA
    (public_key epB) secret 0 (payload_bytes p d) rest2 addr3)
    as (lA' & Hrep & _); [done | exact Hin1 | done | apply key_conn_id_u64 | by widths | by apply ecdh_agree | done|].
  eexists lA', _. split; [exact Hrep|]. pose proof (ecdh_length _ _ _ Hs) as Hlen.
  pose proof (key_conn_id_u64 (public_key epA)) as Hu.
  split; [|split; [|done]]; constructor; try done; unfold ctr_ok, counter_ok; simpl; widths; lia.
Qed.

(** C22. From [encode] to the receive buffer: a data packet that one end of an
    established connection encodes is accepted by [Listen] at the other end, if
    the invariant holds there and its data, when there are any, are bytes of the
    peer's stream and orderly with respect to the receive buffer ([fresh_data]:
    not partly delivered, every stored segment apart from them, containing them
    or inside them, and at most one inside them).  Its payload is processed as
    the sender built it (the window quantised), the data enter the receive buffer
    exactly, only that connection changes, and its invariant is kept; the
    responder's handshake is complete from then on. *)
Theorem listen_delivers (f g : Z -> Z -> Z) (cfg : ListenerCfg PrvKey) l key c c2 secret p d c' enc addr now :
  table_ok l -> peers c c2 secret -> (connId c, c2) ∈ conns l -> conn_inv f g c2 ->
  encode cfg c p d Data = Ok (c', inr enc) -> wf_payload p -> is_u64 now ->
  let '(q, u) := received p d in
  fresh_data g c2 q u ->
  exists l' s c3, Listen l key (inr (enc, addr)) now = Ok (l', inr (Some (connId c, s))) /\ table_ok l' /\ only l (connId c) l' /\
    (connId c, c3) ∈ conns l' /\ conn_inv f g c3 /\ st_streamID s = StreamID q /\
    (exists rb, data_done (c_rcv c2) q u rb /\ c_rcv c3 = close_rcv q rb) /\
    (isSenderOnInit c2 = false -> isHandshakeDoneOnRcv c3 = true).
Proof.
  intros Hl Hpe Hin Hinv Henc Hwf Hnow. destruct (received p d) as [q u] eqn:Erec. intros Hfresh.
  destruct (data_received cfg l key c c2 secret p d c' enc (make_bytes (l_mtu (l_cfg l) - len enc)) addr Hl Hpe Hin Henc)
    as (l1 & c2' & Edec & (Hl1 & Ho1 & [Hin1 _]) & Ec2).
  assert (enc <> []) as Hne by (by intros ->).
  assert (conn_inv f g c2' /\ c_rcv c2' = c_rcv c2 /\ isSenderOnInit c2' = isSenderOnInit c2) as (Hinv' & Er & Es).
  { rewrite Ec2. case_decide; [split; [by apply conn_inv_epoch | done] | done]. }
  destruct (listen_payload l key f g enc addr now l1 (connId c) c2' p d Data Hne Edec Hl1 Hin1 Hinv' Hwf Hnow)
    as (l' & s & c3 & E & Hl' & Ho' & Hin' & Hi' & Hs & Hd & Hh).
  { rewrite Erec. unfold fresh_data in *. by rewrite Er. }
  rewrite Erec, Er in Hd. rewrite Erec in Hs. rewrite Es in Hh. exists l', s, c3.
  split; [done|]. split; [done|]. split; [by eapply only_trans|]. split_and!; auto.
Qed.
End properties.

(** ** Witnesses *)

Definition addr7000 : AddrPort := mkAddrPort [127; 0; 0; 1] 7000.
Definition addr9000 : AddrPort := mkAddrPort [127; 0; 0; 1] 9000.

Definition client : Listener bool bool := new_listener (mkListenerCfg false 1400) false.
Definition server : Listener bool bool := new_listener (mkListenerCfg true 1400) false.

Lemma empty_table (cfg : ListenerCfg bool) : table_ok (new_listener (PubKey := bool) cfg false).
Proof. apply new_listener_ok. Qed.

Lemma mtu_1400 : mtu_ok 1400.
Proof. split; vm_compute; congruence. Qed.

Lemma listener_decode_safe_witness :
  exists l' r, decode server (inr true) (replicate 40 128) (make_bytes 1360) no_addr = Ok (l', r) /\
    decode_outcome server (2 ^ 7 * 0x0101010101010101) l' r.
Proof.
  apply (listener_decode_safe server (inr true) (replicate 40 128) no_addr);
    [apply empty_table | reflexivity | apply mtu_1400 | apply Forall_replicate; compute_done|].
  intros h [= <-]. vm_compute. discriminate.
Defined.

Definition reply9 : PayloadHeader := mkPayloadHeader false None 9 0.

Lemma handshake_agrees_witness :
  exists lA a a1 enc1 lB' b, Dial client (inr true) addr9000 = Ok (lA, inr a) /\
    encode (l_cfg lA) a reply9 None InitSnd = Ok (a1, inr enc1) /\
    decode server (inr false) enc1 [] addr7000 = Ok (lB', inr (b, [], InitSnd)) /\ msgType b = InitRcv.
Proof.
  destruct (handshake_agrees client server true false (inr true) (toy_key true) 1400 reply9 None reply9 (Some [0; 1; 2]) [] [] addr7000 addr9000 addr9000)
    as (lA & a & a1 & enc1 & lB' & b & b1 & enc2 & H1 & _ & H2 & H3 & H4 & _);
    [apply empty_table | apply empty_table | reflexivity | reflexivity | reflexivity | reflexivity | apply mtu_1400
    | reflexivity | reflexivity | reflexivity|].
  exists lA, a, a1, enc1, lB', b. split; [exact H1|]. split; [exact H2|]. split; [exact H3 | exact H4].
Defined.

Lemma crypto_handshake_agrees_witness :
  exists lA a a1 enc1 lB' b, DialWithCrypto client (inr true) addr9000 (Some true) = Ok (lA, inr a) /\
    encode (l_cfg lA) a reply9 (Some [5; 6]) InitCryptoSnd = Ok (a1, inr enc1) /\
    decode server (inr false) enc1 [] addr7000 = Ok (lB', inr (b, payload_bytes reply9 (Some [5; 6]), InitCryptoSnd)).
Proof.
  destruct (crypto_handshake_agrees client server true false (inr true) (toy_key false) (toy_key true) 1400
    reply9 (Some [5; 6]) reply9 (Some [0; 1; 2]) [] [] addr7000 addr9000 addr9000)
    as (lA & a & a1 & enc1 & lB' & b & b1 & enc2 & H1 & _ & H2 & H3 & _);
    [apply empty_table | apply empty_table | reflexivity | reflexivity | reflexivity | reflexivity | apply mtu_1400
    | reflexivity | reflexivity | reflexivity | reflexivity | vm_compute; congruence|].
  exists lA, a, a1, enc1, lB', b. split; [exact H1|]. split; [exact H2 | exact H3].
Defined.

(** The responder's end of [conn_with]. *)
Definition responder77 : Conn bool bool :=
  mkConn 77 no_addr NewLinkedMap (Some false) None None (Some (toy_key true)) snd100 (NewReceiveBuffer 100)
    0 2000 false false false true 0 0 0 0 NewMeasurements.
Definition server77 : Listener bool bool :=
  set_connMap server (ok_or NewLinkedMap (LinkedMap.Put NewLinkedMap 77 responder77)).

Lemma server77_ok : table_ok server77 /\ (77, responder77) ∈ conns server77.
Proof.
  destruct (table_put server 77 responder77) as (m & E & Hl & _ & Hin); [apply empty_table | done | by eexists|].
  unfold server77. cbn [connMap server new_listener] in E. by rewrite E.
Qed.

Lemma responder77_inv : conn_inv counting counting responder77.
Proof.
  destruct (conn_with_inv snd100 snd100_inv) as [H1 H2 H3 H4]. by constructor.
Qed.

Lemma peers77 : peers (conn_with queued5) responder77 (toy_key true).
Proof. constructor; try done; try (vm_compute; split; congruence); vm_compute; congruence. Qed.

Definition packet9 : Conn bool bool * (go_error + bytes) :=
  ok_or (conn_with queued5, inl ""%string) (encode listener1400 (conn_with queued5) reply9 (Some [0; 1; 2]) Data).

Lemma listen_delivers_witness :
  exists enc, packet9.2 = inr enc /\
  exists l' s c3, Listen server77 (inr true) (inr (enc, addr7000)) 1000 = Ok (l', inr (Some (77, s))) /\
    (77, c3) ∈ conns l' /\ st_streamID s = 9 /\ isHandshakeDoneOnRcv c3 = true.
Proof.
  assert (exists enc, packet9.2 = inr enc) as [enc Henc] by (eexists; vm_compute; reflexivity).
  assert (encode listener1400 (conn_with queued5) reply9 (Some [0; 1; 2]) Data = Ok (packet9.1, inr enc)) as E.
  { rewrite <- Henc. vm_compute. reflexivity. }
  exists enc. split; [exact Henc|].
  destruct (listen_delivers counting counting listener1400 server77 (inr true) (conn_with queued5) responder77 (toy_key true)
    reply9 (Some [0; 1; 2]) packet9.1 enc addr7000 1000) as (l' & s & c3 & HL & _ & _ & Hin & _ & Hs & _ & Hh);
    [apply server77_ok | apply peers77 | apply server77_ok | apply responder77_inv | exact E | compute_done | compute_done
    | apply (reply3_fresh queued5)|].
  exists l', s, c3. split; [exact HL|]. split; [exact Hin|]. split; [exact Hs | apply Hh; reflexivity].
Defined.

(** ** Corner cases of the code *)

(** A first message is not authenticated, but replaces the secret of an
    existing connection, established or not: any datagram with a key that starts
    with the connection id does. *)
Theorem init_replaces_secret {PubKey PrvKey} `{!CryptoPrims PubKey PrvKey} `{!CryptoLaws PubKey PrvKey}
    (l : Listener PubKey PrvKey) key (c : Conn PubKey PrvKey) (ep id : PubKey) (prv : PrvKey) s rest addr :
  table_ok l -> mtu_ok (l_mtu (l_cfg l)) -> (key_conn_id ep, c) ∈ conns l -> prvKeyEpSnd c = Some prv -> ecdh prv ep = inr s ->
  exists l' c', decode l key (init_snd_bytes ep id (l_mtu (l_cfg l))) rest addr = Ok (l', inr (c', [], InitSnd)) /\
    (key_conn_id ep, c') ∈ conns l' /\ sharedSecret c' = Some s /\ isHandshakeDoneOnRcv c' = isHandshakeDoneOnRcv c.
Proof.
  intros Hl Hm Hin Hp Hs. unfold mtu_ok in Hm.
  assert (MinInitCryptoSndSizeHdr <= l_mtu (l_cfg l)) as Hmin by (change MinInitCryptoSndSizeHdr with 65; lia).
  pose proof (init_snd_bytes_length ep id (l_mtu (l_cfg l)) Hmin) as Hlen.
  erewrite (decode_key_header l _ _ rest addr InitSnd ep); [|unfold init_snd_bytes; by rewrite <- !app_assoc | lia].
  unfold decode_msg. rewrite decryptInitSnd_spec by done. cbn [mbind go_bind].
  unfold conn_for_init. rewrite table_get by done. cbn [mbind go_bind].
  assert (al_get (key_conn_id ep) (conns l) = Some c) as -> by (apply al_get_is_elem; [apply lm_nodup, Hl | done]).
  rewrite Hp. cbn [go_deref mbind go_bind mret go_ret]. rewrite Hs.
  destruct (file_outcome l l _ c _ [] InitSnd Hl (only_refl l _) ltac:(by intros e) Hin
    (rekeyed_keys c (pubKeyIdRcv c) (pubKeyEpRcv c) (Some s))) as (l' & r & Ef & Hout & ->).
  destruct Hout as (_ & _ & [? _]). eexists l', _. split; [exact Ef|]. done.
Qed.
