(* ===== verification/Scheduler.v ===== *)
(** * Scheduler: flushing all connections (src/listener.go, the clean-up of
    src/conn.go)

    [Listener.Flush] goes through the streams of all connections, flushes each
    through [Conn.Flush], and removes streams and connections that are done; the
    event loop [Loop] alternates [Listen], the callback of the application and
    [Flush]; [Close] and [ForceClose] end the listener and one connection.

    A [*Conn] is the key of its entry in the table, a [*Stream] the keys of
    connection and stream; the two pointers to the current ids are such
    references, and the assignments through them change the id field of the
    connection or stream they refer to.  They are set by the last step of the
    loop over the streams and reset before [Flush] returns, so that what they
    refer to is in the table.  A connection that was removed from the table is no
    longer part of the state.  The order in which Go ranges over a map is the
    argument [order]; the socket is the argument [write], and the result lists
    the datagrams with the connection they belong to. *)

From stdpp Require Import prelude gmap list numbers strings.
From S2P Require Import Prelude Wire Proto Measurement Interfaces LinkedMap SortedMap Rcv Crypto Snd Conn Streams Listener.
Open Scope Z_scope.

(** ** The code *)

Section code.
Context {PubKey PrvKey : Type} `{!CryptoPrims PubKey PrvKey}.
Implicit Types (l : Listener PubKey PrvKey) (c : Conn PubKey PrvKey).

Definition set_current l (conn : option Z) (stream : option (Z * Z)) : Listener PubKey PrvKey :=
  mkListener (l_cfg l) (l_keyLog l) (connMap l) conn stream (l_closed l).
Definition set_closed l (b : bool) : Listener PubKey PrvKey :=
  mkListener (l_cfg l) (l_keyLog l) (connMap l) (currentConnID l) (currentStreamID l) b.
Definition set_connId c (id : Z) : Conn PubKey PrvKey := mkConn id (remoteAddr c) (Conn.streams c) (prvKeyEpSnd c) (pubKeyEpRcv c) (pubKeyIdRcv c)
  (sharedSecret c) (c_snd c) (c_rcv c) (dataInFlight c) (rcvWndSize c) (isSenderOnInit c) (isWithCryptoOnInit c)
  (isHandshakeDoneOnRcv c) (isInitSentOnSnd c) (nextWriteTime c) (snCrypto c) (epochCryptoSnd c) (epochCryptoRcv c) (c_meas c).

(** *** References to connections and streams *)

Definition load_conn l (ck : Z) : go (Conn PubKey PrvKey) :=
  c ← LinkedMap.Get (connMap l) ck; go_deref NilDereference c.

Definition store_conn l (ck : Z) c : go (Listener PubKey PrvKey) :=
  m ← LinkedMap.Put (connMap l) ck c; mret (set_connMap l m).

Definition load_stream l (p : Z * Z) : go Stream :=
  c ← load_conn l p.1; s ← LinkedMap.Get (streams c) p.2; go_deref NilDereference s.

Definition store_stream l (p : Z * Z) (s : Stream) : go (Listener PubKey PrvKey) :=
  c ← load_conn l p.1; m ← LinkedMap.Put (streams c) p.2 s; store_conn l p.1 (set_streams c m).

(** *** Clean-up (conn.go) *)

Definition cleanupStream l (ck : Z) (streamID : Z) : go (Listener PubKey PrvKey) :=
  if negb (LinkedMap.Contains (connMap l) ck) then mret l else
  l ← match currentStreamID l with
      | Some p =>
          s ← load_stream l p;
          if decide (streamID = st_streamID s) then
            c ← load_conn l ck;
            next ← LinkedMap.Next (streams c) streamID;
            store_stream l p (mkStream (default 0 (fst <$> next)) (closedAtNano s))
          else mret l
      | None => mret l
      end;
  c ← load_conn l ck;
  '(m, _) ← LinkedMap.Remove (streams c) streamID;
  store_conn l ck (set_streams c m).

Definition cleanupConn l (ck : Z) : go (Listener PubKey PrvKey) :=
  if negb (LinkedMap.Contains (connMap l) ck) then mret l else
  c ← load_conn l ck;
  l ← match currentConnID l with
      | Some p =>
          cur ← load_conn l p;
          if decide (connId c = connId cur) then
            next ← LinkedMap.Next (connMap l) (connId c);
            store_conn l p (set_connId cur (default 0 (fst <$> next)))
          else mret l
      | None => mret l
      end;
  c ← load_conn l ck;
  '(m, _) ← LinkedMap.Remove (connMap l) (connId c);
  mret (set_connMap l m).

Definition ForceClose l (ck : Z) : go (Listener PubKey PrvKey) := cleanupConn l ck.

(** *** Flush *)

(** What the loop over the streams has collected. *)
Record flush_acc := mkFlushAcc {
  fa_minPacing : Z;
  fa_closeConn : list Z;
  fa_closeStream : gmap Z Z;
  fa_sent : list (Z * bytes);
}.

(** The keys of the streams of one connection, then those of the remaining
    ones: what [NestedIterator] yields, by reference. *)
Fixpoint stream_refs (outer : list (Z * Conn PubKey PrvKey)) (startKey2 : option Z) : go (list (Z * Z)) :=
  match outer with
  | [] => mret []
  | (ck, c) :: outer =>
      inner ← Iterator (streams c) startKey2;
      rest ← stream_refs outer None;
      mret (map (fun kv => (ck, kv.1)) inner ++ rest)
  end.

(** The iterator of [Flush], from the current ids. *)
Definition flush_refs l : go (list (Z * Z)) :=
  start1 ← match currentConnID l with
           | Some p => c ← load_conn l p; mret (Some (connId c))
           | None => mret None
           end;
  start2 ← match currentStreamID l with
           | Some p => s ← load_stream l p; mret (Some (st_streamID s))
           | None => mret None
           end;
  outer ← Iterator (connMap l) start1;
  stream_refs outer start2.

Fixpoint flush_loop (write : AddrPort -> bytes -> option go_error) (nowNano : Z) (refs : list (Z * Z)) l (a : flush_acc)
    : go (Listener PubKey PrvKey * flush_acc) :=
  match refs with
  | [] => mret (l, a)
  | (ck, sk) :: refs =>
      conn ← load_conn l ck;
      stream ← load_stream l (ck, sk);
      '(conn, (sent, r)) ← Conn.Flush write (l_cfg l) conn stream nowNano;
      l ← store_conn l ck conn;
      let a := mkFlushAcc (fa_minPacing a) (fa_closeConn a) (fa_closeStream a) (fa_sent a ++ map (pair ck) sent) in
      match r with
      | inl err => mret (l, mkFlushAcc (fa_minPacing a) (fa_closeConn a ++ [ck]) (fa_closeStream a) (fa_sent a))
      | inr (dataSent, pacingNano) =>
          if decide (closedAtNano stream <> 0 /\
                     (isSenderOnInit conn = true \/ nowNano < u64 (closedAtNano stream + ReadDeadLine))) then
            flush_loop write nowNano refs l
              (mkFlushAcc (fa_minPacing a) (fa_closeConn a) (<[ck := st_streamID stream]> (fa_closeStream a)) (fa_sent a))
          else if decide (0 < dataSent) then
            mret (set_current l (Some ck) (Some (ck, sk)), mkFlushAcc 0 (fa_closeConn a) (fa_closeStream a) (fa_sent a))
          else if decide (lastReadTimeNano (c_meas conn) <> 0 /\ u64 (lastReadTimeNano (c_meas conn) + ReadDeadLine) < nowNano) then
            mret (l, mkFlushAcc (fa_minPacing a) (fa_closeConn a ++ [ck]) (fa_closeStream a) (fa_sent a))
          else
            flush_loop write nowNano refs l
              (mkFlushAcc (if decide (pacingNano < fa_minPacing a) then pacingNano else fa_minPacing a)
                 (fa_closeConn a) (fa_closeStream a) (fa_sent a))
      end
  end.

Fixpoint cleanup_conns l (cks : list Z) : go (Listener PubKey PrvKey) :=
  match cks with
  | [] => mret l
  | ck :: cks => l ← cleanupConn l ck; cleanup_conns l cks
  end.

Fixpoint cleanup_streams l (ids : list (Z * Z)) : go (Listener PubKey PrvKey) :=
  match ids with
  | [] => mret l
  | (ck, streamID) :: ids => l ← cleanupStream l ck streamID; cleanup_streams l ids
  end.

Definition Flush (write : AddrPort -> bytes -> option go_error) (order : list (Z * Z) -> list (Z * Z)) l (nowNano : Z)
    : go (Listener PubKey PrvKey * (list (Z * bytes) * Z)) :=
  if decide (LinkedMap.Size (connMap l) = 0) then mret (l, ([], MinDeadLine)) else
  refs ← flush_refs l;
  '(l, a) ← flush_loop write nowNano refs l (mkFlushAcc MinDeadLine [] ∅ []);
  l ← cleanup_conns l (fa_closeConn a);
  l ← cleanup_streams l (order (map_to_list (fa_closeStream a)));
  mret (set_current l None None, (fa_sent a, fa_minPacing a)).

(** *** Close and the event loop *)

Fixpoint close_conns l (cks : list Z) : go (Listener PubKey PrvKey) :=
  match cks with
  | [] => mret l
  | ck :: cks =>
      c ← load_conn l ck;
      c ← conn_Close c;
      l ← store_conn l ck c;
      close_conns l cks
  end.

(** [wake] and [close] are what [TimeoutReadNow] and [Close] of the socket return. *)
Definition listener_Close (order : list Z -> list Z) (wake close : option go_error) l
    : go (Listener PubKey PrvKey * option go_error) :=
  let l := set_closed l true in
  l ← close_conns l (order (map_to_list (lm_items (connMap l))).*1);
  mret (l, match wake with Some err => Some err | None => close end).

(** What the outside contributes to one iteration of [Loop]: a key for a new
    connection, the socket (by the time to wait), and the two clock readings. *)
Record loop_input := mkLoopInput {
  in_key : go_error + PrvKey;
  in_read : Z -> received_from;
  in_listen : Z;
  in_flush : Z;
}.

(** [Loop].  The callback works on the variables it captures and on the
    listener (the streams and connections it holds on to are references into
    it).  The result has the datagrams written, and tells whether the loop has
    ended or is still running when the inputs are used up. *)
Fixpoint loop_from {S : Type}
    (callback : S -> Listener PubKey PrvKey -> option (Z * Stream) -> go (S * Listener PubKey PrvKey * (go_error + bool)))
    (write : AddrPort -> bytes -> option go_error) (order : list (Z * Z) -> list (Z * Z))
    (inputs : list loop_input) (waitNextNano : Z) (vars : S) l : go (S * Listener PubKey PrvKey * (list (Z * bytes) * bool)) :=
  match inputs with
  | [] => mret (vars, l, ([], false))
  | i :: inputs =>
      '(l, r) ← Listen l (in_key i) (in_read i waitNextNano) (in_listen i);
      match r with
      | inl err => mret (vars, l, ([], true))
      | inr s =>
          '(vars, l, r) ← callback vars l s;
          match r with
          | inl err => mret (vars, l, ([], true))
          | inr cont =>
              '(l, (sent, waitNextNano)) ← Flush write order l (in_flush i);
              if (cont : bool) then
                '(vars, l, (sent', ended)) ← loop_from callback write order inputs waitNextNano vars l;
                mret (vars, l, (sent ++ sent', ended))
              else mret (vars, l, (sent, true))
          end
      end
  end.

Definition Loop {S : Type}
    (callback : S -> Listener PubKey PrvKey -> option (Z * Stream) -> go (S * Listener PubKey PrvKey * (go_error + bool)))
    write order inputs vars l : go (S * Listener PubKey PrvKey * (list (Z * bytes) * bool)) :=
  loop_from callback write order inputs MinDeadLine vars l.

Definition PubKey_ l : PubKey := public_key (prvKeyId (l_cfg l)).
End code.

(** ** One flush *)

Section frame.
Context {PubKey PrvKey : Type} `{!CryptoPrims PubKey PrvKey}.
Implicit Types (cfg : ListenerCfg PrvKey) (c : Conn PubKey PrvKey).

(** Sending leaves the streams and keys alone; of the receive buffer it takes at
    most an acknowledgement, and the measurements may note a loss. *)
Definition sends c c' : Prop :=
  streams c' = streams c /\ c_rcv c' = c_rcv c /\ c_meas c' = c_meas c /\ same_keys c c'.

Lemma encode_sends cfg c p d t c' r : encode cfg c p d t = Ok (c', r) -> sends c c'.
Proof.
  unfold encode. intros H. apply go_bind_Ok in H as ([err|[enc b]] & _ & H); [by injection H as <- <-|].
  destruct (advance _ _) as [[e [sn ep]]|[sn ep]]; by injection H as <- <-.
Qed.

Lemma sendPacket_sends write cfg c s ack d off close t now track c' fr :
  sendPacket write cfg c s ack d off close t now track = Ok (c', fr) -> sends c c'.
Proof.
  unfold sendPacket. intros H. apply go_bind_Ok in H as ([c1 r] & E & H). apply encode_sends in E.
  destruct r as [err|enc]; [by injection H as <- <-|]. destruct (write _ enc); [by injection H as <- <-|].
  apply go_bind_Ok in H as ([c2 pc] & E2 & [= <- <-]).
  destruct track; apply go_bind_Ok in E2 as (? & ? & [= <- <-]); exact E.
Qed.

Lemma writeAck_sends write cfg c s ack now c' fr : writeAck write cfg c s ack now = Ok (c', fr) -> sends c c'.
Proof.
  unfold writeAck. intros H. apply go_bind_Ok in H as (b & _ & H). apply go_bind_Ok in H as ([c1 r] & E & H).
  apply encode_sends in E. destruct r as [err|enc]; [by injection H as <- <-|].
  destruct (write _ enc); [by injection H as <- <-|]. apply go_bind_Ok in H as (pc & _ & [= <- <-]). exact E.
Qed.

Lemma flush_send_sends write cfg c s ack t now c' fr :
  flush_send write cfg c s ack t now = Ok (c', fr) -> sends c c'.
Proof.
  assert (forall c0, match ack with Some _ => writeAck write cfg c0 s ack now | None => mret (c0, ([], inr (0, MinDeadLine))) end
    = Ok (c', fr) -> sends c0 c') as Hidle.
  { intros c0. destruct ack; [by apply writeAck_sends | by intros [= <- <-]]. }
  unfold flush_send. destruct (_ || _); [|by apply Hidle].
  intros H. apply go_bind_Ok in H as ([sb [[d off] close]] & _ & H). destruct d as [d|]; [by apply sendPacket_sends in H|].
  destruct (_ || _); [by apply writeAck_sends in H | by apply Hidle in H].
Qed.

Lemma Flush_frame write cfg c s now c' fr :
  Conn.Flush write cfg c s now = Ok (c', fr) ->
  streams c' = streams c /\ c_rcv c' = (GetSndAck (c_rcv c)).1 /\
  (c_meas c' = c_meas c \/ c_meas c' = onPacketLoss (c_meas c)) /\ same_keys c c'.
Proof.
  unfold Conn.Flush. destruct (GetSndAck (c_rcv c)) as [rcv ack]. cbv zeta.
  case_decide; [intros [= <- <-]; split_and!; by auto|].
  case_decide.
  { destruct ack; cbn [fmap option_fmap option_map]; [|intros [= <- <-]; split_and!; by auto].
    intros H1. apply writeAck_sends in H1 as (-> & -> & -> & Hk). split; [done|]; split; [done|]; split; [by auto | exact Hk]. }
  intros H1. apply go_bind_Ok in H1 as ([sb r] & _ & H1). destruct r as [err|[[[d|] off] close]].
  - injection H1 as <- <-. split_and!; by auto.
  - apply sendPacket_sends in H1 as (-> & -> & -> & Hk). split; [done|]; split; [done|]; split; [by auto | exact Hk].
  - apply flush_send_sends in H1 as (-> & -> & -> & Hk). split; [done|]; split; [done|]; split; [by auto | exact Hk].
Qed.
End frame.

Section step.
Context {PubKey PrvKey : Type} `{!CryptoPrims PubKey PrvKey} `{!CryptoLaws PubKey PrvKey}.
Implicit Types (cfg : ListenerCfg PrvKey) (c : Conn PubKey PrvKey) (f g : Z -> Z -> Z).

(** A connection that can send [budget] more packets. *)
Record can_send f g (budget : Z) c : Prop := {
  cs_inv : conn_inv f g c;
  cs_keys : keys_ok c (msgType c);
  cs_ctr : ctr_ok c;
  cs_left : ctr c + budget < 2 ^ 95 - 1;
  cs_int : int_ok (dataInFlight c);
  cs_wnd : to_int (rcvWndSize c) < 2 ^ 62;
}.

Lemma same_keys_ok c c' : same_keys c c' -> msgType c' = msgType c /\ (keys_ok c (msgType c) -> keys_ok c' (msgType c)).
Proof.
  intros (_ & E1 & E2 & E3 & E4 & E5 & E6 & E7 & _). unfold msgType. rewrite E5, E6, E7.
  split; [done|]. unfold keys_ok. by rewrite E1, E2, E3, E4.
Qed.

Lemma emits_count cfg t c ds c' : emits cfg t c ds c' ->
  ctr c' = ctr c + len ds /\ (ctr_ok c -> ctr_ok c') /\ len ds <= 1 /\ Forall (fun d => 0 < len d <= l_mtu cfg) ds.
Proof.
  destruct ds as [|d [|]]; cbn [emits]; [|intros ((p & u & H1 & H2 & _) & H3 & H4) | done].
  - intros [E1 E2]. unfold ctr, ctr_ok. rewrite E1, E2. split_and!; try done. simpl. lia.
  - cbn [length]. split_and!; try done. by repeat constructor.
Qed.

Lemma GetSndAck_exact g (rb : ReceiveBuffer (SortedMap RcvValue)) : rcv_exact g rb -> rcv_exact g (GetSndAck rb).1.
Proof. intros [H1 H2 H3 H4]. unfold GetSndAck. destruct (ackList rb); [done|]. constructor; done. Qed.

Lemma onPacketLoss_inv (m : Measurements) : meas_inv m -> meas_inv (onPacketLoss m).
Proof. intros Hi. exact (meas_inv_step _ _ Hi (step_loss m)). Qed.

Lemma flush_step write cfg f g n c s now :
  mtu_ok (l_mtu cfg) -> 0 <= n -> can_send f g (n + 1) c ->
  exists c' ds r, Conn.Flush write cfg c s now = Ok (c', (ds, r)) /\ can_send f g n c' /\
    same_keys c c' /\ streams c' = streams c /\ lastReadTimeNano (c_meas c') = lastReadTimeNano (c_meas c) /\
    ctr c' = ctr c + len ds /\ Forall (fun d => 0 < len d <= l_mtu cfg) ds /\ len ds <= 1.
Proof.
  intros Hm Hn [[Hs Hr Hme Hst] Hk Hc Hl Hi Hw].
  destruct (Flush_spec write f cfg c s now) as (c' & [ds r] & E & Hf); [constructor; done || lia|].
  destruct (Flush_frame _ _ _ _ _ _ _ E) as (E1 & E2 & E3 & _).
  destruct (emits_count _ _ _ _ _ (fk_emits _ _ _ _ _ _ Hf)) as (H1 & H2 & H3 & H4). cbn [fst] in *.
  pose proof (fk_keys _ _ _ _ _ _ Hf) as Hsk. destruct (same_keys_ok _ _ Hsk) as [Et Hko].
  exists c', ds, r. split; [done|].
  assert (meas_inv (c_meas c') /\ lastReadTimeNano (c_meas c') = lastReadTimeNano (c_meas c)) as [Hme' Hlr].
  { destruct E3 as [->| ->]; [done|]. split; [by apply onPacketLoss_inv | done]. }
  split; [|by split_and!]. constructor.
  - constructor; [apply Hf | rewrite E2; by apply GetSndAck_exact | done | by rewrite E1].
  - rewrite Et. auto.
  - auto.
  - lia.
  - unfold int_ok in *. pose proof (fk_flow _ _ _ _ _ _ Hf). lia.
  - by rewrite (fk_window _ _ _ _ _ _ Hf).
Qed.
End step.

(** ** The table during a flush *)

Section table.
Context {PubKey PrvKey : Type} `{!CryptoPrims PubKey PrvKey}.
Implicit Types (l : Listener PubKey PrvKey) (c : Conn PubKey PrvKey) (ck : Z).

(** Everything but the table of connections. *)
Definition same_listener l l' : Prop :=
  l_cfg l' = l_cfg l /\ l_keyLog l' = l_keyLog l /\ currentConnID l' = currentConnID l /\
  currentStreamID l' = currentStreamID l /\ l_closed l' = l_closed l.

Lemma same_listener_trans l1 l2 l3 : same_listener l1 l2 -> same_listener l2 l3 -> same_listener l1 l3.
Proof. unfold same_listener. intuition congruence. Qed.

Lemma al_put_keys {V} (k : Z) (v : V) (m : list (Z * V)) : k ∈ m.*1 -> (al_put k v m).*1 = m.*1.
Proof.
  intros Hk. destruct (al_get k m) as [v0|] eqn:E.
  - apply al_get_split in E as (l1 & l2 & -> & Hn). by rewrite al_put_middle, !fmap_app by done.
  - by apply al_get_None in E.
Qed.

Lemma load_conn_ok l ck c : table_ok l -> (ck, c) ∈ conns l -> load_conn l ck = Ok c.
Proof.
  intros Hl Hin. unfold load_conn. rewrite table_get by done. cbn [mbind go_bind].
  apply (al_get_is_elem ck) in Hin as ->; [done | apply lm_nodup, Hl].
Qed.

Lemma load_stream_ok l ck sk c s :
  table_ok l -> (ck, c) ∈ conns l -> lm_wf (streams c) -> (sk, s) ∈ lm_elems (streams c) -> load_stream l (ck, sk) = Ok s.
Proof.
  intros Hl Hc Hwf Hs. unfold load_stream. cbn [fst snd]. rewrite (load_conn_ok l ck c) by done. cbn [mbind go_bind].
  rewrite lm_get_ok by done. cbn [mbind go_bind]. apply (al_get_is_elem sk) in Hs as ->; [done | by apply lm_nodup].
Qed.

(** An update of a connection of the table. *)
Definition updates l ck c' l' : Prop :=
  table_ok l' /\ same_listener l l' /\ (conns l').*1 = (conns l).*1 /\
  forall e, e ∈ conns l' <-> e = (ck, c') \/ e ∈ conns l /\ e.1 <> ck.

Lemma store_conn_ok l ck c c' :
  table_ok l -> (ck, c) ∈ conns l -> connId c' = connId c -> prvKeyEpSnd c' = prvKeyEpSnd c ->
  exists l', store_conn l ck c' = Ok l' /\ updates l ck c' l'.
Proof.
  intros Hl Hin Hid Hp. destruct (to_conn _ Hl _ Hin) as [Hk Hs]. cbn [fst snd] in *.
  pose proof (lm_nodup _ (to_wf _ Hl)) as Hnd.
  destruct (lm_put_ok (connMap l) ck c' (to_wf _ Hl)) as (m & E & Hwf & He).
  unfold store_conn. rewrite E. cbn [mbind go_bind]. eexists. split; [done|].
  assert (forall e, e ∈ lm_elems m <-> e = (ck, c') \/ e ∈ lm_elems (connMap l) /\ e.1 <> ck) as Hel
    by (intros e; rewrite He; by apply elem_al_put).
  unfold updates, conns. cbn [connMap set_connMap]. split_and!; try done.
  - constructor; [done|]. intros e. unfold conns. cbn [connMap set_connMap]. rewrite Hel.
    intros [->|[He' _]]; [cbn; rewrite Hid, Hp; done | by apply (to_conn _ Hl)].
  - rewrite He. apply al_put_keys. exact (elem_al_key _ _ Hin).
Qed.

(** The connection is replaced in its place. *)
Lemma store_conn_table l ck c' l' :
  table_ok l -> store_conn l ck c' = Ok l' -> conns l' = al_put ck c' (conns l).
Proof.
  intros Hl. unfold store_conn. destruct (lm_put_ok (connMap l) ck c' (to_wf _ Hl)) as (m & -> & _ & He).
  cbn [mbind go_bind mret go_ret]. intros [= <-]. exact He.
Qed.

(** The keys of the Go map behind the table. *)
Lemma items_keys l : table_ok l -> (map_to_list (lm_items (connMap l))).*1 ≡ₚ (conns l).*1.
Proof.
  intros Hl. apply NoDup_Permutation.
  - apply NoDup_fst_map_to_list.
  - apply lm_nodup, Hl.
  - intros k. rewrite list_elem_of_fmap. destruct (to_wf _ Hl) as [ls Hr]. unfold conns. rewrite (lm_elems_spec _ ls Hr).
    split.
    + intros ([k' x] & -> & H). apply elem_of_map_to_list in H.
      destruct (rep_present _ ls k' x Hr H) as (l1 & l2 & n & _ & _ & _ & -> & _). cbn [fst].
      rewrite fmap_app, fmap_cons. set_solver.
    + intros Hk. destruct (lm_items (connMap l) !! k) as [x|] eqn:E; [|by destruct (rep_absent _ ls k Hr E)].
      exists (k, x). split; [done|]. by apply elem_of_map_to_list.
Qed.

End table.

(** ** The loop over the streams *)

Section loop.
Context {PubKey PrvKey : Type} `{!CryptoPrims PubKey PrvKey} `{!CryptoLaws PubKey PrvKey}.
Context (write : AddrPort -> bytes -> option go_error) (now : Z) (f g : Z -> Z -> Z -> Z).
Implicit Types (l : Listener PubKey PrvKey) (c : Conn PubKey PrvKey) (ck sk : Z) (a : flush_acc).

(** The datagrams of one connection. *)
Definition sent_on (cid : Z) (ds : list (Z * bytes)) : list (Z * bytes) := filter (fun d => d.1 = cid) ds.

(** The stream a reference names. *)
Definition ref_in l (p : Z * Z) (s : Stream) : Prop :=
  exists c, (p.1, c) ∈ conns l /\ (p.2, s) ∈ lm_elems (streams c).

(** What flushing does to a connection besides sending. *)
Definition flushed_from c0 c (n : Z) : Prop :=
  same_keys c0 c /\ streams c = streams c0 /\ lastReadTimeNano (c_meas c) = lastReadTimeNano (c_meas c0) /\ ctr c = ctr c0 + n.

(** The state [l] of the loop that started from [l0]. *)
Record loop_rel (n : Z) l0 l (sent : list (Z * bytes)) : Prop := {
  lr_table : table_ok l;
  lr_cfg : l_cfg l = l_cfg l0 /\ l_keyLog l = l_keyLog l0 /\ l_closed l = l_closed l0;
  lr_keys : (conns l).*1 = (conns l0).*1;
  lr_conn cid c : (cid, c) ∈ conns l -> can_send (f cid) (g cid) n c /\
    exists c0, (cid, c0) ∈ conns l0 /\ flushed_from c0 c (len (sent_on cid sent));
  lr_sent : Forall (fun d => d.1 ∈ (conns l0).*1 /\ 0 < len d.2 <= l_mtu (l_cfg l0)) sent;
}.

(** A visit of the loop: the stream, its connection before and after
    [Conn.Flush], the datagrams written, and the error or the bytes of data sent
    with the time to the next write. *)
Record visit := mkVisit {
  v_ref : Z * Z;
  v_before : Conn PubKey PrvKey;
  v_stream : Stream;
  v_after : Conn PubKey PrvKey;
  v_sent : list bytes;
  v_result : go_error + (Z * Z);
}.

(** [v] visits a stream of the connections [cs]. *)
Definition visits_one (cfg : ListenerCfg PrvKey) (cs : list (Z * Conn PubKey PrvKey)) (v : visit) : Prop :=
  al_get (v_ref v).1 cs = Some (v_before v) /\
  al_get (v_ref v).2 (lm_elems (streams (v_before v))) = Some (v_stream v) /\
  Conn.Flush write cfg (v_before v) (v_stream v) now = Ok (v_after v, (v_sent v, v_result v)).

(** Visits one after the other, each on the connections the one before left. *)
Inductive visits (cfg : ListenerCfg PrvKey) : list (Z * Conn PubKey PrvKey) -> list visit -> Prop :=
  | visits_nil cs : visits cfg cs []
  | visits_cons cs v vs :
      visits_one cfg cs v -> visits cfg (al_put (v_ref v).1 (v_after v) cs) vs -> visits cfg cs (v :: vs).

(** The datagrams of a visit, with their connection. *)
Definition visit_sent (v : visit) : list (Z * bytes) := map (pair (v_ref v).1) (v_sent v).

(** The stream is closed and marked for removal. *)
Definition marked (v : visit) : Prop :=
  closedAtNano (v_stream v) <> 0 /\
  (isSenderOnInit (v_after v) = true \/ now < u64 (closedAtNano (v_stream v) + ReadDeadLine)).

(** Something was heard from the peer, but not for longer than [ReadDeadLine]. *)
Definition silent c : Prop :=
  lastReadTimeNano (c_meas c) <> 0 /\ u64 (lastReadTimeNano (c_meas c) + ReadDeadLine) < now.

(** What follows a visit: the next one; the end, as data was sent; or the end
    and the removal of the connection, as sending failed or the peer is silent. *)
Definition goes_on (v : visit) : Prop :=
  exists dataSent pacing, v_result v = inr (dataSent, pacing) /\ (marked v \/ dataSent <= 0 /\ ~ silent (v_after v)).
Definition sends_data (v : visit) : Prop :=
  exists dataSent pacing, v_result v = inr (dataSent, pacing) /\ ~ marked v /\ 0 < dataSent.
Definition gives_up (v : visit) : Prop :=
  (exists err, v_result v = inl err) \/
  exists dataSent pacing, v_result v = inr (dataSent, pacing) /\ ~ marked v /\ dataSent <= 0 /\ silent (v_after v).

(** The visits [vs] are those of the streams [refs], in order: of all, or up to
    the first after which the loop ends.  [closed] are the connections to remove. *)
Definition visit_end (refs : list (Z * Z)) (vs : list visit) (closed : list Z) : Prop :=
  (v_ref <$> vs = refs /\ Forall goes_on vs /\ closed = []) \/
  (exists vs1 v rest, vs = vs1 ++ [v] /\ refs = (v_ref <$> vs) ++ rest /\ Forall goes_on vs1 /\
     (sends_data v /\ closed = [] \/ gives_up v /\ closed = [(v_ref v).1])).

(** The loop over [refs] writes [ds], at most one datagram per visit. *)
Definition flush_trace (cfg : ListenerCfg PrvKey) (cs : list (Z * Conn PubKey PrvKey)) (refs : list (Z * Z))
    (ds : list (Z * bytes)) (closed : list Z) : Prop :=
  exists vs, visits cfg cs vs /\ visit_end refs vs closed /\ ds = concat (visit_sent <$> vs) /\
    Forall (fun v => len (v_sent v) <= 1) vs.

Lemma trace_cons cfg cs v refs ds closed :
  visits_one cfg cs v -> len (v_sent v) <= 1 -> goes_on v ->
  flush_trace cfg (al_put (v_ref v).1 (v_after v) cs) refs ds closed ->
  flush_trace cfg cs (v_ref v :: refs) (visit_sent v ++ ds) closed.
Proof.
  intros Hv H1 Hg (vs & Hvs & He & -> & Hall). exists (v :: vs). split; [by constructor|].
  split; [|split; [done | by constructor]].
  destruct He as [(<- & Hf & ->)|(vs1 & w & rest & -> & -> & Hf & Hw)].
  - left. split_and!; [done | by constructor | done].
  - right. exists (v :: vs1), w, rest. split_and!; [done | done | by constructor | done].
Qed.

Lemma trace_last cfg cs v refs closed :
  visits_one cfg cs v -> len (v_sent v) <= 1 ->
  sends_data v /\ closed = [] \/ gives_up v /\ closed = [(v_ref v).1] ->
  flush_trace cfg cs (v_ref v :: refs) (visit_sent v) closed.
Proof.
  intros Hv H1 Hc. exists [v]. split; [constructor; [done | constructor]|]. split.
  - right. by exists [], v, refs.
  - split; [cbn; by rewrite app_nil_r | by constructor].
Qed.

(** The same behind the datagrams [sent] of earlier visits. *)
Definition trace_after (cfg : ListenerCfg PrvKey) (cs : list (Z * Conn PubKey PrvKey)) (refs : list (Z * Z))
    (sent all : list (Z * bytes)) (closed : list Z) : Prop :=
  exists ds, all = sent ++ ds /\ flush_trace cfg cs refs ds closed.

Lemma trace_goes_on cfg cs v refs sent all closed :
  visits_one cfg cs v -> len (v_sent v) <= 1 -> goes_on v ->
  trace_after cfg (al_put (v_ref v).1 (v_after v) cs) refs (sent ++ visit_sent v) all closed ->
  trace_after cfg cs (v_ref v :: refs) sent all closed.
Proof.
  intros Hv H1 Hg (ds & -> & Ht). exists (visit_sent v ++ ds). split; [by rewrite <- app_assoc | by apply trace_cons].
Qed.

Lemma trace_stops cfg cs v refs closed sent :
  visits_one cfg cs v -> len (v_sent v) <= 1 ->
  sends_data v /\ closed = [] \/ gives_up v /\ closed = [(v_ref v).1] ->
  trace_after cfg cs (v_ref v :: refs) sent (sent ++ visit_sent v) closed.
Proof. intros Hv H1 Hc. exists (visit_sent v). split; [done | by apply trace_last]. Qed.

(** The streams marked for removal are closed ones. *)
Definition marks l0 a : Prop :=
  forall ck id, fa_closeStream a !! ck = Some id -> exists s, ref_in l0 (ck, id) s /\ closedAtNano s <> 0.

(** How the loop can end. *)
Inductive loop_end l0 l a : Prop :=
  | end_all :
      currentConnID l = None -> currentStreamID l = None -> fa_closeConn a = [] -> loop_end l0 l a
  | end_close ck :
      currentConnID l = None -> currentStreamID l = None -> fa_closeConn a = [ck] -> loop_end l0 l a
  | end_sent ck sk s :
      currentConnID l = Some ck -> currentStreamID l = Some (ck, sk) -> fa_closeConn a = [] -> ref_in l0 (ck, sk) s ->
      fa_closeStream a !! ck <> Some sk -> fa_minPacing a = 0 -> loop_end l0 l a.

Lemma sent_on_app cid ds ds' : sent_on cid (ds ++ ds') = sent_on cid ds ++ sent_on cid ds'.
Proof. apply filter_app. Qed.

Lemma sent_on_pair cid ck (ds : list bytes) :
  len (sent_on cid (map (pair ck) ds)) = if decide (ck = cid) then len ds else 0.
Proof.
  unfold sent_on. induction ds as [|d ds IH]; [by case_decide|]. cbn [map]. rewrite filter_cons. cbn [fst].
  repeat case_decide; try done. cbn [length]. lia.
Qed.

Lemma flushed_from_trans c0 c1 c2 n m : flushed_from c0 c1 n -> flushed_from c1 c2 m -> flushed_from c0 c2 (n + m).
Proof.
  intros (A1 & A2 & A3 & A4) (B1 & B2 & B3 & B4). split; [|split_and!; congruence || lia].
  destruct A1 as (? & ? & ? & ? & ? & ? & ? & ? & ? & ?), B1 as (? & ? & ? & ? & ? & ? & ? & ? & ? & ?).
  unfold same_keys. split_and!; congruence.
Qed.

(** Storing a flushed connection advances the relation. *)
Lemma loop_rel_step n l0 l l' sent ck c c' ds :
  loop_rel (n + 1) l0 l sent -> (ck, c) ∈ conns l -> can_send (f ck) (g ck) n c' -> flushed_from c c' (len ds) ->
  Forall (fun d => 0 < len d <= l_mtu (l_cfg l0)) ds -> updates l ck c' l' ->
  loop_rel n l0 l' (sent ++ map (pair ck) ds).
Proof.
  intros [Ht Hcfg Hk Hc Hs] Hin Hsend (G1 & G2 & G3 & G4) Hds (Ht' & (E1 & E2 & _ & _ & E5) & Hk' & Hel).
  constructor; [done | destruct Hcfg as (? & ? & ?); split_and!; congruence | congruence | |].
  - intros cid c1. rewrite Hel, sent_on_app, length_app, Nat2Z.inj_add, sent_on_pair.
    intros [[= -> ->]|[Hin1 Hne]].
    + split; [done|]. destruct (Hc _ _ Hin) as [_ (c0 & Hin0 & F1 & F2 & F3 & F4)]. exists c0. split; [done|].
      rewrite decide_True by done. apply (flushed_from_trans c0 c); [by split_and! | by split_and!].
    + destruct (Hc _ _ Hin1) as [[] Hex]. rewrite decide_False by (by intros ->).
      split; [constructor; (done || lia)|]. by rewrite Z.add_0_r.
  - apply Forall_app. split; [done|]. apply Forall_map. eapply Forall_impl; [exact Hds|]. intros d Hd. split; [|done].
    rewrite <- Hk. exact (elem_al_key _ _ Hin).
Qed.
Lemma loop_rel_mono n k l0 l sent : 0 <= k -> loop_rel (n + k) l0 l sent -> loop_rel n l0 l sent.
Proof.
  intros Hk [Ht Hcfg Hkeys Hc Hs]. constructor; try done. intros cid c Hin. destruct (Hc cid c Hin) as [[] Hex].
  split; [constructor; (done || lia) | done].
Qed.

Lemma loop_rel_current n l0 l sent k p : loop_rel n l0 l sent -> loop_rel n l0 (set_current l k p) sent.
Proof. intros [[] Hcfg Hkeys Hc Hs]. by constructor. Qed.

(** The connection a reference of the start names, now. *)
Lemma loop_rel_ref n l0 l sent p s : table_ok l0 -> loop_rel n l0 l sent -> ref_in l0 p s ->
  exists c0 c, (p.1, c0) ∈ conns l0 /\ (p.1, c) ∈ conns l /\ flushed_from c0 c (len (sent_on p.1 sent)) /\
    can_send (f p.1) (g p.1) n c /\ (p.2, s) ∈ lm_elems (streams c) /\ st_streamID s = p.2.
Proof.
  intros H0 Hr (c0 & Hin0 & Hs). assert (p.1 ∈ (conns l).*1) as Hk.
  { rewrite (lr_keys _ _ _ _ Hr). exact (elem_al_key _ _ Hin0). }
  apply list_elem_of_fmap in Hk as ([ck c] & E & Hin). cbn [fst] in E. subst ck.
  destruct (lr_conn _ _ _ _ Hr _ _ Hin) as [Hsend (c0' & Hin0' & Hf)].
  rewrite (table_unique l0 p.1 c0' c0 H0 Hin0' Hin0) in Hf. exists c0, c. pose proof Hf as (_ & E & _).
  destruct (ci_streams _ _ _ (cs_inv _ _ _ _ Hsend)) as [_ Hid]. rewrite E in Hid.
  split_and!; try done; [by rewrite E | exact (Hid _ Hs)].
Qed.

(** One visit of the loop. *)
Lemma flush_visit n l0 l sent ck sk :
  mtu_ok (l_mtu (l_cfg l0)) -> table_ok l0 -> 0 <= n -> loop_rel (n + 1) l0 l sent -> (exists s, ref_in l0 (ck, sk) s) ->
  exists s c c' ds r l1, load_conn l ck = Ok c /\ load_stream l (ck, sk) = Ok s /\
    Conn.Flush write (l_cfg l) c s now = Ok (c', (ds, r)) /\ store_conn l ck c' = Ok l1 /\
    loop_rel n l0 l1 (sent ++ map (pair ck) ds) /\ same_listener l l1 /\ len ds <= 1 /\
    ref_in l0 (ck, sk) s /\ st_streamID s = sk /\ l_cfg l = l_cfg l0 /\ conns l1 = al_put ck c' (conns l) /\
    visits_one (l_cfg l0) (conns l) (mkVisit (ck, sk) c s c' ds r).
Proof.
  intros Hm H0 Hn Hr [s Hs].
  destruct (loop_rel_ref _ _ _ _ _ _ H0 Hr Hs) as (c0 & c & Hin0 & Hin & Hf & Hsend & Hsin & Hid). cbn [fst snd] in *.
  pose proof (lr_table _ _ _ _ Hr) as Ht. pose proof (lr_cfg _ _ _ _ Hr) as (Ecfg & _).
  destruct (flush_step write (l_cfg l) (f ck) (g ck) n c s now) as (c' & ds & r & E & Hsend' & Hk & Hst & Hlr & Hct & Hds & H1);
    [by rewrite Ecfg | done | done|].
  destruct (store_conn_ok l ck c c') as (l1 & E1 & Hu); [done | done | apply Hk | apply Hk|].
  rewrite Ecfg in Hds. exists s, c, c', ds, r, l1. split; [by apply load_conn_ok|].
  pose proof (proj1 (ci_streams _ _ _ (cs_inv _ _ _ _ Hsend))) as Hwf. split; [by apply (load_stream_ok l ck sk c s)|].
  split; [done|]. split; [done|].
  split; [eapply loop_rel_step; [exact Hr | exact Hin | exact Hsend' | by split_and! | exact Hds | exact Hu]|].
  split; [apply Hu|]. split_and!; try done; [by apply store_conn_table|].
  split_and!; cbn; [apply al_get_is_elem; [apply lm_nodup, Ht | done] | apply al_get_is_elem; [by apply lm_nodup | done] | by rewrite <- Ecfg].
Qed.

Lemma flush_loop_spec refs : forall n l0 l a,
  mtu_ok (l_mtu (l_cfg l0)) -> table_ok l0 -> NoDup refs -> 0 <= n -> loop_rel (n + len refs) l0 l (fa_sent a) ->
  currentConnID l = None -> currentStreamID l = None -> fa_closeConn a = [] -> marks l0 a ->
  (forall ck id, fa_closeStream a !! ck = Some id -> (ck, id) ∉ refs) ->
  (forall p, p ∈ refs -> exists s, ref_in l0 p s) -> fa_minPacing a <= MinDeadLine ->
  exists l' a', flush_loop write now refs l a = Ok (l', a') /\ loop_rel n l0 l' (fa_sent a') /\ marks l0 a' /\
    loop_end l0 l' a' /\ fa_minPacing a' <= MinDeadLine /\
    trace_after (l_cfg l0) (conns l) refs (fa_sent a) (fa_sent a') (fa_closeConn a').
Proof.
  induction refs as [|[ck sk] refs IH]; intros n l0 l a Hm H0 Hnd Hn Hr Hc1 Hc2 Ha Hmk Hdis Hrefs Hmin; cbn [flush_loop].
  { eexists _, _. split; [done|]. cbn [length] in *. rewrite Z.add_0_r in Hr. split_and!; try done; [by apply end_all|].
    exists []. split; [by rewrite app_nil_r|]. exists []. split_and!; [constructor | by left | done | done]. }
  apply NoDup_cons in Hnd as [Hnin Hnd]. cbn [length] in Hr. rewrite Nat2Z.inj_succ, <- Z.add_1_r, Z.add_assoc in Hr.
  destruct (flush_visit (n + len refs) l0 l (fa_sent a) ck sk) as (s & c & c' & ds & r & l1 & -> & -> & E & Est & Hr1 & Hsl & H1
    & Hs & Hid & Ecfg & Hput & Hv); [done | done | lia | done | apply Hrefs; by left|].
  cbn [mbind go_bind]. rewrite E. cbn [mbind go_bind]. rewrite Est. cbn [mbind go_bind]. clear E Est.
  set (v := mkVisit (ck, sk) c s c' ds r) in *.
  destruct Hsl as (_ & _ & F3 & F4 & _). rewrite Hc1 in F3. rewrite Hc2 in F4.
  pose proof (loop_rel_mono _ (len refs) _ _ _ ltac:(lia) Hr1) as Hr2.
  assert (fa_closeStream a !! ck <> Some sk) as Hnot by (intros Hsk; apply (Hdis ck sk Hsk); by left).
  assert (forall ck0 id, fa_closeStream a !! ck0 = Some id -> (ck0, id) ∉ refs) as Hdis' by
    (intros ck0 id Hlk Hr'; apply (Hdis ck0 id Hlk); by right).
  assert (forall p, p ∈ refs -> exists s, ref_in l0 p s) as Hrefs' by (intros p Hp; apply Hrefs; by right).
  assert (goes_on v -> forall all closed, trace_after (l_cfg l0) (conns l1) refs (fa_sent a ++ map (pair ck) ds) all closed ->
    trace_after (l_cfg l0) (conns l) ((ck, sk) :: refs) (fa_sent a) all closed) as Hnext
    by (rewrite Hput; intros Hg all closed; by apply (trace_goes_on _ _ v)).
  pose proof (fun closed => trace_stops (l_cfg l0) (conns l) v refs closed (fa_sent a) Hv H1) as Hlast.
  cbn [fa_sent fa_minPacing fa_closeConn fa_closeStream]. destruct r as [err|[dataSent pacing]].
  { eexists _, _. split; [done|]. cbn [fa_sent fa_minPacing fa_closeConn fa_closeStream]. rewrite Ha. split_and!; try done.
    - by apply (end_close _ _ _ ck).
    - apply Hlast. right. split; [|done]. left. by exists err. }
  case_decide as Hclosed; [|case_decide as Hdata; [|case_decide as Hto]].
  - destruct (IH n l0 l1 (mkFlushAcc (fa_minPacing a) (fa_closeConn a) (<[ck := st_streamID s]> (fa_closeStream a))
      (fa_sent a ++ map (pair ck) ds))) as (l' & a' & -> & ? & ? & ? & ? & ?); try done.
    + intros ck' id. cbn [fa_closeStream]. rewrite lookup_insert_Some, Hid. destruct Hclosed as [Hclosed _].
      intros [[<- <-]|[_ ?]]; [by exists s | by apply Hmk].
    + intros ck' id. cbn [fa_closeStream]. rewrite lookup_insert_Some, Hid. intros [[<- <-]|[_ ?]]; [done | by apply Hdis'].
    + exists l', a'. split_and!; try done. apply Hnext; [|done]. exists dataSent, pacing. by split; [|left].
  - eexists _, _. split; [done|]. cbn [fa_sent fa_minPacing fa_closeConn fa_closeStream].
    split_and!; try done; [by apply loop_rel_current | by eapply end_sent|]. rewrite Ha. apply Hlast. left.
    split; [|done]. by exists dataSent, pacing.
  - eexists _, _. split; [done|]. cbn [fa_sent fa_minPacing fa_closeConn fa_closeStream]. rewrite Ha. split_and!; try done.
    + by apply (end_close _ _ _ ck).
    + apply Hlast. right. split; [|done]. right. exists dataSent, pacing. split_and!; try done; try apply Hto. lia.
  - destruct (IH n l0 l1 (mkFlushAcc (if decide (pacing < fa_minPacing a) then pacing else fa_minPacing a)
      (fa_closeConn a) (fa_closeStream a) (fa_sent a ++ map (pair ck) ds))) as (l' & a' & -> & ? & ? & ? & ? & ?); try done.
    + cbn [fa_minPacing]. case_decide; lia.
    + exists l', a'. split_and!; try done. apply Hnext; [|done]. exists dataSent, pacing.
      split; [done|]. right. split; [lia | done].
Qed.
End loop.

(** ** The order of a flush *)

Section refs.
Context {PubKey PrvKey : Type} `{!CryptoPrims PubKey PrvKey}.
Implicit Types (l : Listener PubKey PrvKey) (c : Conn PubKey PrvKey) (cs : list (Z * Conn PubKey PrvKey)).

Definition streams_wf l : Prop := forall e, e ∈ conns l -> lm_wf (streams e.2).

Definition refs_of cs : list (Z * Z) :=
  concat (map (fun e => map (fun kv => (e.1, kv.1)) (lm_elems (streams e.2))) cs).

(** All streams of a listener: connections and their streams in insertion order. *)
Definition all_refs l : list (Z * Z) := refs_of (conns l).

Lemma stream_refs_spec cs : (forall e, e ∈ cs -> lm_wf (streams e.2)) -> stream_refs cs None = Ok (refs_of cs).
Proof.
  induction cs as [|[ck c] cs IH]; intros Hwf; [done|]. cbn [stream_refs].
  rewrite lm_iterate_ok by (apply (Hwf (ck, c)); by left). cbn [mbind go_bind].
  rewrite IH by (intros e He; apply Hwf; by right). done.
Qed.

Lemma flush_refs_spec l :
  table_ok l -> streams_wf l -> currentConnID l = None -> currentStreamID l = None -> flush_refs l = Ok (all_refs l).
Proof.
  intros Hl Hs E1 E2. unfold flush_refs. rewrite E1, E2. cbn [mbind go_bind mret go_ret].
  rewrite lm_iterate_ok by apply Hl. cbn [mbind go_bind]. by apply stream_refs_spec.
Qed.

Lemma elem_refs_of cs p : p ∈ refs_of cs <-> exists c s, (p.1, c) ∈ cs /\ (p.2, s) ∈ lm_elems (streams c).
Proof.
  unfold refs_of. rewrite list_elem_of_In, in_concat. split.
  - intros (x & Hx & Hp). apply in_map_iff in Hx as ([ck c] & <- & Hin).
    apply in_map_iff in Hp as ([sk s] & <- & Hs). exists c, s. by rewrite !list_elem_of_In.
  - intros (c & s & Hc & Hs). eexists. split; [apply in_map_iff; exists (p.1, c); split; [done | by apply list_elem_of_In]|].
    apply in_map_iff. exists (p.2, s). split; [by destruct p | by apply list_elem_of_In].
Qed.

Lemma elem_all_refs l p : p ∈ all_refs l <-> exists s, ref_in l p s.
Proof. unfold all_refs. rewrite elem_refs_of. unfold ref_in. naive_solver. Qed.

Lemma refs_of_nodup cs : NoDup cs.*1 -> (forall e, e ∈ cs -> lm_wf (streams e.2)) -> NoDup (refs_of cs).
Proof.
  induction cs as [|[ck c] cs IH]; intros Hnd Hwf; [constructor|]. rewrite fmap_cons, NoDup_cons in Hnd.
  destruct Hnd as [Hnin Hnd]. change (refs_of ((ck, c) :: cs)) with (map (fun kv => (ck, kv.1)) (lm_elems (streams c)) ++ refs_of cs).
  apply NoDup_app. split_and!.
  - assert (NoDup (lm_elems (streams c)).*1) as H by (apply lm_nodup, (Hwf (ck, c)); by left).
    assert (map (fun kv => (ck, kv.1)) (lm_elems (streams c)) = pair ck <$> (lm_elems (streams c)).*1) as ->
      by (rewrite <- list_fmap_compose; done).
    by apply (NoDup_fmap_2 (pair ck)).
  - intros p Hp Hq. apply list_elem_of_fmap in Hp as (kv & -> & _).
    apply elem_refs_of in Hq as (c' & s' & Hc' & _). apply Hnin. exact (elem_al_key _ _ Hc').
  - apply IH; [done|]. intros e He. apply Hwf. by right.
Qed.

(** The references are those of the pairs the nested iterator yields. *)
Lemma flush_refs_nested l :
  table_ok l -> streams_wf l -> currentConnID l = None -> currentStreamID l = None ->
  exists ps, NestedIterator (connMap l) (fun c => streams c) None None = Ok ps /\
    Forall2 (fun p x => (p.1, x.1) ∈ conns l /\ (p.2, x.2) ∈ lm_elems (streams x.1)) (all_refs l) ps.
Proof.
  intros Hl Hs E1 E2. unfold NestedIterator. rewrite lm_iterate_ok by apply Hl. cbn [mbind go_bind]. fold (conns l).
  unfold streams_wf in Hs. unfold all_refs. generalize dependent (conns l). intros cs.
  assert (forall cs' : list (Z * Conn PubKey PrvKey), (forall e, e ∈ cs' -> lm_wf (streams e.2) /\ e ∈ cs) ->
    exists ps, nested_walk (fun c => streams c) (map snd cs') None = Ok ps /\
      Forall2 (fun p x => (p.1, x.1) ∈ cs /\ (p.2, x.2) ∈ lm_elems (streams x.1)) (refs_of cs') ps) as H.
  { induction cs' as [|[ck c] cs' IH]; intros H; [exists []; by split|]. cbn [map snd nested_walk].
    destruct (H (ck, c)) as [Hwf Hin]; [by left|]. cbn [snd] in Hwf. rewrite lm_iterate_ok by done. cbn [mbind go_bind].
    destruct IH as (ps & -> & IH); [intros e He; apply H; by right|]. cbn [mbind go_bind]. eexists. split; [done|].
    change (refs_of ((ck, c) :: cs')) with (map (fun kv => (ck, kv.1)) (lm_elems (streams c)) ++ refs_of cs').
    apply Forall2_app; [|done]. apply Forall2_fmap_2. apply Forall_Forall2_diag, Forall_forall.
    intros [sk s] Hs'. by split. }
  intros Hwf. apply H. auto.
Qed.
End refs.

(** ** Clean-up *)

Section cleanup.
Context {PubKey PrvKey : Type} `{!CryptoPrims PubKey PrvKey}.
Implicit Types (l : Listener PubKey PrvKey) (c : Conn PubKey PrvKey) (ck id : Z) (p : Z * Z).

(** Only the tables of streams change. *)
Definition restreams l l' : Prop :=
  table_ok l' /\ same_listener l l' /\ (conns l').*1 = (conns l).*1 /\
  forall cid c', (cid, c') ∈ conns l' -> exists c m, (cid, c) ∈ conns l /\ c' = set_streams c m /\ lm_wf m.

Lemma restreams_trans l1 l2 l3 : restreams l1 l2 -> restreams l2 l3 -> restreams l1 l3.
Proof.
  intros (A1 & A2 & A3 & A4) (B1 & B2 & B3 & B4). split_and!; [done | by eapply same_listener_trans | congruence|].
  intros cid c3 (c2 & m2 & (c1 & m1 & Hin & -> & _)%A4 & -> & Hwf)%B4. by exists c1, m2.
Qed.

Lemma restreams_refl l : table_ok l -> streams_wf l -> restreams l l.
Proof.
  intros Hl Hs. split_and!; try done. intros cid c Hin. exists c, (streams c).
  split; [done|]. split; [by destruct c | exact (Hs _ Hin)].
Qed.

Lemma restreams_wf l l' : restreams l l' -> streams_wf l'.
Proof. intros (_ & _ & _ & H) [cid c'] (c & m & _ & -> & Hwf)%H. done. Qed.

(** Replacing the streams of one connection. *)
Lemma store_streams l ck c (m : LinkedMap Z Stream) :
  table_ok l -> streams_wf l -> (ck, c) ∈ conns l -> lm_wf m ->
  exists l', store_conn l ck (set_streams c m) = Ok l' /\ updates l ck (set_streams c m) l' /\ restreams l l'.
Proof.
  intros Hl Hs Hin Hwf. destruct (store_conn_ok l ck c (set_streams c m)) as (l' & E & Hu); [done..|].
  exists l'. split; [done|]. split; [done|]. destruct Hu as (H1 & H2 & H3 & H4). split_and!; try done.
  intros cid c'. rewrite H4. intros [[= -> ->]|[Hin' _]]; [by exists c, m|].
  exists c', (streams c'). split; [done|]. split; [by destruct c' | exact (Hs _ Hin')].
Qed.

Lemma store_stream_ok l p (s s' : Stream) :
  table_ok l -> streams_wf l -> ref_in l p s ->
  exists l', store_stream l p s' = Ok l' /\ restreams l l' /\
    forall q t, ref_in l q t -> exists t', ref_in l' q t'.
Proof.
  intros Hl Hs (c & Hin & Hsin). pose proof (Hs _ Hin) as Hwf. cbn [snd] in Hwf.
  unfold store_stream. rewrite (load_conn_ok l p.1 c) by done. cbn [mbind go_bind].
  destruct (lm_put_ok (streams c) p.2 s' Hwf) as (m & -> & Hwf' & He). cbn [mbind go_bind].
  destruct (store_streams l p.1 c m) as (l' & -> & (_ & _ & _ & Hu) & Hr); [done..|]. exists l'. split; [done|]. split; [done|].
  intros q t (d & Hd & Ht). destruct (decide (q.1 = p.1)) as [E|Hne].
  - rewrite E in Hd. rewrite (table_unique l p.1 d c Hl Hd Hin) in Ht.
    assert (q.2 ∈ (lm_elems m).*1) as Hk.
    { rewrite He, al_put_keys; [exact (elem_al_key _ _ Ht) | exact (elem_al_key _ _ Hsin)]. }
    apply list_elem_of_fmap in Hk as ([k t'] & Ek & Hk). exists t', (set_streams c m). rewrite E, Hu. cbn in Ek. rewrite Ek.
    split; [by left | exact Hk].
  - exists t, d. rewrite Hu. split; [by right | done].
Qed.

(** Where the pointer to the current stream refers to. *)
Definition current_ok l p : Prop := currentStreamID l = Some p -> exists s, ref_in l p s.

(** A removal, exactly. *)
Definition removes_stream l ck id l' : Prop :=
  forall cid c', (cid, c') ∈ conns l' -> exists c m, (cid, c) ∈ conns l /\ c' = set_streams c m /\
    lm_elems m = if decide (cid = ck) then al_remove id (lm_elems (streams c)) else lm_elems (streams c).

Lemma remove_stream_ok l ck id c :
  table_ok l -> streams_wf l -> (ck, c) ∈ conns l ->
  exists l', (c ← load_conn l ck; '(m, _) ← LinkedMap.Remove (streams c) id; store_conn l ck (set_streams c m)) = Ok l' /\
    restreams l l' /\ removes_stream l ck id l' /\
    (forall q t, q <> (ck, id) -> ref_in l q t -> ref_in l' q t).
Proof.
  intros Hl Hs Hin. pose proof (Hs _ Hin) as Hwf. cbn [snd] in Hwf.
  rewrite (load_conn_ok l ck c) by done. cbn [mbind go_bind].
  destruct (lm_remove_ok (streams c) id Hwf) as (m & -> & Hwf' & He). cbn [mbind go_bind].
  destruct (store_streams l ck c m) as (l' & -> & (_ & _ & _ & Hu) & Hr); [done..|]. exists l'. split; [done|]. split; [done|]. split.
  - intros cid c'. rewrite Hu. intros [[= -> ->]|[Hin' Hne]].
    + exists c, m. by rewrite decide_True.
    + exists c', (streams c'). rewrite decide_False by done. by destruct c'.
  - intros q t Hq (d & Hd & Ht). destruct (decide (q.1 = ck)) as [E|Hne].
    + rewrite E in Hd. rewrite (table_unique l ck d c Hl Hd Hin) in Ht. exists (set_streams c m). rewrite Hu, E.
      split; [by left|]. change (lm_elems (streams (set_streams c m))) with (lm_elems m). rewrite He, elem_al_remove by (by apply lm_nodup).
      split; [done|]. intros E2. apply Hq. destruct q. cbn in *. congruence.
    + exists d. rewrite Hu. split; [by right | done].
Qed.

(** The assignment through the pointer to the current stream. *)
Definition retarget l ck id : go (Listener PubKey PrvKey) :=
  match currentStreamID l with
  | Some p =>
      s ← load_stream l p;
      if decide (id = st_streamID s) then
        c ← load_conn l ck;
        next ← LinkedMap.Next (streams c) id;
        store_stream l p (mkStream (default 0 (fst <$> next)) (closedAtNano s))
      else mret l
  | None => mret l
  end.

Lemma retarget_ok l ck id c :
  table_ok l -> streams_wf l -> (forall p, current_ok l p) -> (ck, c) ∈ conns l ->
  exists l1, retarget l ck id = Ok l1 /\ restreams l l1 /\ (forall p, current_ok l1 p) /\
    ((forall p s, currentStreamID l = Some p -> ref_in l p s -> st_streamID s <> id) -> l1 = l).
Proof.
  intros Hl Hs Hcur Hin. unfold retarget.
  assert (exists l1, Ok l = Ok l1 /\ restreams l l1 /\ (forall p, current_ok l1 p) /\
    ((forall p s, currentStreamID l = Some p -> ref_in l p s -> st_streamID s <> id) -> l1 = l)) as Hstay.
  { exists l. split; [done|]. split; [by apply restreams_refl | done]. }
  destruct (currentStreamID l) as [p|] eqn:Ep; [|exact Hstay].
  destruct (Hcur p Ep) as (s & d & Hd & Hsd). pose proof (Hs _ Hd) as Hwfd. cbn [snd] in Hwfd.
  assert (load_stream l p = Ok s) as -> by (destruct p; by apply (load_stream_ok l _ _ d)). cbn [mbind go_bind].
  case_decide as Eid; [|exact Hstay]. rewrite (load_conn_ok l ck c) by done. cbn [mbind go_bind].
  destruct (Hs _ Hin) as [ls Hrep]. cbn [snd] in Hrep. rewrite (Next_spec _ ls) by done. cbn [mbind go_bind].
  destruct (store_stream_ok l p s (mkStream (default 0 (fst <$> al_next id (kvs (streams c) ls))) (closedAtNano s)))
    as (l1 & -> & Hr1 & Href); [done | done | by exists d|].
  exists l1. split; [done|]. split; [done|]. split.
  - intros q Eq. destruct Hr1 as (_ & (_ & _ & _ & E4 & _) & _). rewrite E4 in Eq. destruct (Hcur q Eq) as [t Ht]. by apply (Href q t).
  - intros Hno. destruct (Hno p s eq_refl); [by exists d | done].
Qed.

Lemma cleanupStream_ok l ck id :
  table_ok l -> streams_wf l -> (forall p, current_ok l p) -> currentStreamID l <> Some (ck, id) ->
  exists l', cleanupStream l ck id = Ok l' /\ restreams l l' /\ (forall p, current_ok l' p) /\
    ((forall p s, currentStreamID l = Some p -> ref_in l p s -> st_streamID s <> id) -> removes_stream l ck id l').
Proof.
  intros Hl Hs Hcur Hne. unfold cleanupStream. rewrite table_contains by done. fold (retarget l ck id).
  destruct (al_get ck (conns l)) as [c|] eqn:Eck; cycle 1.
  { rewrite bool_decide_eq_false_2 by apply is_Some_None. exists l. split; [done|].
    split; [by apply restreams_refl|]. split; [done|]. intros _ cid c' Hin. exists c', (streams c').
    split; [done|]. split; [by destruct c'|]. case_decide as E; [|done]. subst cid.
    apply (al_get_is_elem ck) in Hin; [|apply lm_nodup, Hl]. fold (conns l) in Hin. congruence. }
  rewrite bool_decide_eq_true_2 by (by eexists). cbn [negb]. apply al_get_elem in Eck as Hin.
  destruct (retarget_ok l ck id c Hl Hs Hcur Hin) as (l1 & -> & Hr1 & Hcur1 & Hsame).
  cbn [mbind go_bind]. pose proof Hr1 as (T1 & T2 & T3 & T4).
  assert (ck ∈ (conns l1).*1) as Hk by (rewrite T3; exact (elem_al_key _ _ Hin)).
  apply list_elem_of_fmap in Hk as ([ck' c1] & E & Hin1). cbn [fst] in E. subst ck'.
  destruct (remove_stream_ok l1 ck id c1) as (l' & E' & Hr' & Hrm & Href); [done | by eapply restreams_wf | done|].
  exists l'. split; [exact E'|]. split; [by eapply restreams_trans|]. split.
  - intros p Ep. destruct Hr' as (_ & (_ & _ & _ & E4 & _) & _). rewrite E4 in Ep. destruct (Hcur1 p Ep) as [t Ht].
    exists t. apply Href; [|done]. destruct T2 as (_ & _ & _ & E5 & _). intros ->. apply Hne. by rewrite <- E5.
  - intros Hno. by rewrite (Hsame Hno) in Hrm.
Qed.

(** Exactly the marked streams are gone. *)
Definition drops_streams l (ids : list (Z * Z)) l' : Prop :=
  forall cid c', (cid, c') ∈ conns l' -> exists c m, (cid, c) ∈ conns l /\ c' = set_streams c m /\ lm_wf m /\
    forall e, e ∈ lm_elems m <-> e ∈ lm_elems (streams c) /\ (cid, e.1) ∉ ids.

Lemma drops_ref l ids l' p s : drops_streams l ids l' -> ref_in l' p s -> ref_in l p s.
Proof.
  intros H (c' & (c & m & Hin & -> & _ & He)%H & Hs). exists c. split; [done|]. by apply He in Hs as [? _].
Qed.

Lemma removes_drops l l' ck id : streams_wf l -> restreams l l' -> removes_stream l ck id l' -> drops_streams l [(ck, id)] l'.
Proof.
  intros Hs (_ & _ & _ & Hr) H cid c' Hin'. destruct (H _ _ Hin') as (c & m & Hin & -> & He).
  destruct (Hr _ _ Hin') as (c2 & m2 & _ & E & Hwf).
  assert (m = m2) as <- by (by injection E). exists c, m. split_and!; try done. intros e. rewrite He, list_elem_of_singleton.
  pose proof (lm_nodup _ (Hs _ Hin)) as Hnd. cbn [snd] in Hnd.
  case_decide as Ec; [|split; [intros ?; split; [done|]; congruence | tauto]].
  rewrite elem_al_remove by done. split; [intros [? ?]; split; [done | congruence] | intros [? Hne]; split; [done|]; congruence].
Qed.

Lemma cleanup_streams_ok ids : forall l,
  table_ok l -> streams_wf l -> (forall p, current_ok l p) -> (forall p, p ∈ ids -> currentStreamID l <> Some p) ->
  exists l', cleanup_streams l ids = Ok l' /\ restreams l l' /\
    ((forall p s, currentStreamID l = Some p -> ref_in l p s -> st_streamID s ∉ ids.*2) -> drops_streams l ids l').
Proof.
  induction ids as [|[ck id] ids IH]; intros l Hl Hs Hcur Hne; cbn [cleanup_streams].
  { exists l. split; [done|]. split; [by apply restreams_refl|]. intros _ cid c Hin. exists c, (streams c).
    split; [done|]. split; [by destruct c|]. split; [exact (Hs _ Hin)|]. intros e. set_solver. }
  destruct (cleanupStream_ok l ck id) as (l1 & -> & Hr1 & Hcur1 & Hx1); [done | done | done | apply Hne; by left|].
  cbn [mbind go_bind]. pose proof Hr1 as (T1 & (_ & _ & _ & E4 & _) & _).
  destruct (IH l1) as (l' & -> & Hr' & Hx'); [done | by eapply restreams_wf | done | |].
  { intros p Hp. rewrite E4. apply Hne. by right. }
  exists l'. split; [done|]. split; [by eapply restreams_trans|]. intros Hno.
  assert (drops_streams l [(ck, id)] l1) as Hrm.
  { apply removes_drops; [done | done|]. apply Hx1. intros p s Ep Href E. apply (Hno p s Ep Href). rewrite E. by left. }
  assert (drops_streams l1 ids l') as Hd.
  { apply Hx'. intros p s Ep Href Hin. rewrite E4 in Ep. apply (Hno p s Ep); [|by right]. by eapply drops_ref. }
  intros cid c' (c1 & m' & (c & m & Hin & -> & Hwf & He)%Hrm & -> & Hwf' & He')%Hd.
  exists c, m'. split; [done|]. split; [done|]. split; [done|]. intros e. rewrite He'.
  change (streams (set_streams c m)) with m. rewrite He, !not_elem_of_cons. pose proof (not_elem_of_nil (cid, e.1)). tauto.
Qed.

Lemma cleanupConn_ok l ck :
  table_ok l -> currentConnID l = None ->
  exists l', cleanupConn l ck = Ok l' /\ table_ok l' /\ same_listener l l' /\
    forall e, e ∈ conns l' <-> e ∈ conns l /\ e.1 <> ck.
Proof.
  intros Hl Hcur. unfold cleanupConn. rewrite table_contains by done. pose proof (lm_nodup _ (to_wf _ Hl)) as Hnd.
  destruct (al_get ck (conns l)) as [c|] eqn:Eck; cycle 1.
  { rewrite bool_decide_eq_false_2 by apply is_Some_None. exists l. split_and!; try done.
    apply al_get_None in Eck. intros e. split; [|tauto]. intros He. split; [done|]. intros <-. apply Eck. exact (elem_al_key _ _ He). }
  rewrite bool_decide_eq_true_2 by (by eexists). cbn [negb]. apply al_get_elem in Eck as Hin.
  rewrite (load_conn_ok l ck c) by done. cbn [mbind go_bind]. rewrite Hcur. cbn [mbind go_bind mret go_ret].
  rewrite (load_conn_ok l ck c) by done. cbn [mbind go_bind]. destruct (to_conn _ Hl _ Hin) as [Hid _]. cbn [fst snd] in Hid. rewrite Hid.
  destruct (lm_remove_ok (connMap l) ck (to_wf _ Hl)) as (m & -> & Hwf & He). cbn [mbind go_bind]. eexists. split; [done|].
  assert (forall e, e ∈ lm_elems m <-> e ∈ lm_elems (connMap l) /\ e.1 <> ck) as Hel
    by (intros e; rewrite He; by apply elem_al_remove).
  split; [|done]. constructor; [done|]. intros e He'. apply (to_conn _ Hl). by apply Hel in He' as [? _].
Qed.
End cleanup.

(** ** Flush *)

Section flush.
Context {PubKey PrvKey : Type} `{!CryptoPrims PubKey PrvKey} `{!CryptoLaws PubKey PrvKey}.
Context (write : AddrPort -> bytes -> option go_error) (order : list (Z * Z) -> list (Z * Z)) (now : Z) (f g : Z -> Z -> Z -> Z).
Implicit Types (l : Listener PubKey PrvKey) (c : Conn PubKey PrvKey).

(** A closed stream has the id of a stream of another connection. *)
Definition id_clash l : Prop :=
  exists p q s t, ref_in l p s /\ ref_in l q t /\ p.1 <> q.1 /\ p.2 = q.2 /\ closedAtNano s <> 0.

(** The listener between two calls: every connection can send [n] packets. *)
Record idle (n : Z) l : Prop := {
  il_table : table_ok l;
  il_mtu : mtu_ok (l_mtu (l_cfg l));
  il_conn_id : currentConnID l = None;
  il_stream_id : currentStreamID l = None;
  il_conn cid c : (cid, c) ∈ conns l -> can_send (f cid) (g cid) n c;
}.

(** The streams of a connection after a flush: only closed ones are missing. *)
Definition keeps_open (m m' : LinkedMap Z Stream) : Prop :=
  forall e, (e ∈ lm_elems m' -> e ∈ lm_elems m) /\ (e ∈ lm_elems m -> e ∈ lm_elems m' \/ closedAtNano e.2 <> 0).

Record flush_outcome (n : Z) l (ds : list (Z * bytes)) (pacing : Z) l' : Prop := {
  fo_table : table_ok l';
  fo_same : same_listener l l';
  fo_pacing : pacing <= MinDeadLine;
  fo_sent : Forall (fun d => d.1 ∈ (conns l).*1 /\ 0 < len d.2 <= l_mtu (l_cfg l)) ds;
  fo_count : len ds <= len (all_refs l);
  fo_conn cid c' : (cid, c') ∈ conns l' -> exists c, (cid, c) ∈ conns l /\ same_keys c c' /\
    ctr c' = ctr c + len (sent_on cid ds) /\
    (~ id_clash l -> can_send (f cid) (g cid) n c' /\ keeps_open (streams c) (streams c'));
  fo_trace : exists closed, flush_trace write now (l_cfg l) (conns l) (all_refs l) ds closed /\
    forall cid, cid ∈ (conns l').*1 <-> cid ∈ (conns l).*1 /\ cid ∉ closed;
}.

Lemma can_send_mono c n k f' g' : 0 <= k -> can_send f' g' (n + k) c -> can_send f' g' n c.
Proof. intros Hk []. constructor; (done || lia). Qed.

Lemma idle_streams_wf n l : idle n l -> streams_wf l.
Proof. intros [_ _ _ _ Hc] [cid c] Hin. apply (Hc _ _ Hin). Qed.

Lemma empty_conns l : table_ok l -> LinkedMap.Size (connMap l) = 0 -> conns l = [].
Proof.
  intros Hl. destruct (to_wf _ Hl) as [ls Hr]. rewrite (rep_size _ _ Hr : LinkedMap.Size (connMap l) = _).
  unfold conns. rewrite (lm_elems_spec _ ls Hr). unfold kvs. by destruct ls.
Qed.

(** At most one datagram per visit, and at most one visit per stream. *)
Lemma trace_count cfg cs refs ds closed :
  flush_trace write now cfg cs refs ds closed -> len ds <= len refs.
Proof.
  intros (vs & _ & He & -> & Hall).
  assert (len (concat (visit_sent <$> vs)) <= len vs) as Hle.
  { clear He. induction Hall as [|v vs Hv _ IH]; [done|]. rewrite fmap_cons. cbn [concat length].
    unfold visit_sent at 1. rewrite length_app, length_map. lia. }
  destruct He as [(<- & _)|(vs1 & v & rest & _ & -> & _)]; rewrite ?length_app, length_fmap; lia.
Qed.

(** After the loop: which streams go. *)
Lemma cleanup_outcome n l l1 a l2 l3 ids :
  idle (n + len (all_refs l)) l -> loop_rel f g n l l1 (fa_sent a) ->
  table_ok l2 -> same_listener l1 l2 -> (forall e, e ∈ conns l2 -> e ∈ conns l1) ->
  restreams l2 l3 -> (forall p, p ∈ ids -> exists s, ref_in l p s /\ closedAtNano s <> 0) ->
  (~ id_clash l -> drops_streams l2 ids l3) ->
  forall cid c', (cid, c') ∈ conns l3 -> exists c, (cid, c) ∈ conns l /\ same_keys c c' /\
    ctr c' = ctr c + len (sent_on cid (fa_sent a)) /\
    (~ id_clash l -> can_send (f cid) (g cid) n c' /\ keeps_open (streams c) (streams c')).
Proof.
  intros Hidle Hr Ht2 Hsame Hsub Hre Hids Hdrop cid c' Hin'. pose proof Hre as (_ & _ & _ & Hre').
  destruct (Hre' _ _ Hin') as (c1 & m & Hin1 & -> & Hwf).
  destruct (lr_conn _ _ _ _ _ _ Hr _ _ (Hsub _ Hin1)) as [Hsend (c & Hin & Hk & Est & _ & Hct)].
  exists c. split; [done|]. split; [exact Hk|]. split; [exact Hct|]. intros Hno.
  destruct (Hdrop Hno _ _ Hin') as (c2 & m2 & Hin2 & E & _ & He).
  assert (m = m2) as <- by (by injection E). rewrite (table_unique l2 cid c2 c1 Ht2 Hin2 Hin1), Est in He.
  assert (keeps_open (streams c) m) as Hkeep.
  { intros e. rewrite He. split; [tauto|]. intros Hes.
    destruct (decide ((cid, e.1) ∈ ids)) as [Hi|Hi]; [right | by left].
    destruct (Hids _ Hi) as (s & (c0 & Hc0 & Hs) & Hcl). cbn [fst snd] in *.
    pose proof (table_unique l cid c0 c (il_table _ _ Hidle) Hc0 Hin) as ->.
    destruct (ci_streams _ _ _ (cs_inv _ _ _ _ (il_conn _ _ Hidle _ _ Hin))) as [Hwf0 _].
    apply (al_get_is_elem e.1) in Hs; [|by apply lm_nodup].
    assert ((e.1, e.2) ∈ lm_elems (streams c)) as Hes' by (by destruct e). apply (al_get_is_elem e.1) in Hes'; [|by apply lm_nodup].
    congruence. }
  split; [|exact Hkeep]. destruct Hsend as [[G1 G2 G3 [_ G4]] ? ? ? ? ?]. constructor; try done. constructor; try done.
  split; [done|]. intros e Hes. apply G4. rewrite Est. by apply Hkeep.
Qed.

(** The connections that go. *)
Lemma close_outcome l l1 a : table_ok l1 -> (conns l1).*1 = (conns l).*1 -> loop_end l l1 a ->
  exists l2, cleanup_conns l1 (fa_closeConn a) = Ok l2 /\ table_ok l2 /\ same_listener l1 l2 /\
    (forall e, e ∈ conns l2 -> e ∈ conns l1) /\
    (currentStreamID l1 <> None -> l2 = l1) /\
    forall cid, cid ∈ (conns l2).*1 <-> cid ∈ (conns l).*1 /\ cid ∉ fa_closeConn a.
Proof.
  intros Ht Hk [E1 E2 E3|ck E1 E2 E3|ck sk s E1 E2 E3 _ _ _]; rewrite E3; cbn [cleanup_conns].
  - exists l1. split_and!; try done. rewrite Hk. set_solver.
  - destruct (cleanupConn_ok l1 ck Ht E1) as (l2 & -> & Ht2 & Hs & He). cbn [mbind go_bind].
    exists l2. split_and!; try done; [intros e; rewrite He; tauto|]. intros cid.
    rewrite <- Hk, !list_elem_of_fmap, list_elem_of_singleton. split.
    + intros (e & -> & [Hin Hne]%He). eauto.
    + intros [(e & -> & Hin) Hne]. exists e. split; [done|]. by apply He.
  - exists l1. split_and!; try done. rewrite Hk. set_solver.
Qed.

(** The stream ids that go are none of the current stream's. *)
Lemma no_clash_drop n l l1 a ids :
  table_ok l -> loop_rel f g n l l1 (fa_sent a) -> marks l a -> loop_end l l1 a ->
  (forall p, p ∈ ids -> fa_closeStream a !! p.1 = Some p.2) ->
  (forall p, current_ok l1 p) /\ (forall p, p ∈ ids -> currentStreamID l1 <> Some p) /\
  (~ id_clash l -> forall p s, currentStreamID l1 = Some p -> ref_in l1 p s -> st_streamID s ∉ ids.*2).
Proof.
  intros Hl Hr Hmk Hend Hids.
  assert (forall p, currentStreamID l1 = Some p -> (exists s, ref_in l p s) /\ fa_closeStream a !! p.1 <> Some p.2) as Hcur.
  { intros p Ep. destruct Hend as [? E2 ?|? ? E2 ?|ck sk s _ E2 _ Href Hnot _]; [congruence | congruence|].
    rewrite Ep in E2. apply (inj Some) in E2 as ->. eauto. }
  split_and!.
  - intros p [[s Href] _]%Hcur. destruct (loop_rel_ref _ _ _ _ _ _ _ _ Hl Hr Href) as (c0 & c & _ & Hin & _ & _ & Hs & _).
    by exists s, c.
  - intros p Hp [_ Hnot]%Hcur. by apply Hnot, Hids.
  - intros Hno p s [[s0 Href0] Hnot]%Hcur (c & Hin & Hs) Hbad.
    apply list_elem_of_fmap in Hbad as ([ck' id] & E & Hbad). cbn [snd] in E.
    destruct (lr_conn _ _ _ _ _ _ Hr _ _ Hin) as [Hsend _].
    destruct (ci_streams _ _ _ (cs_inv _ _ _ _ Hsend)) as [_ Hid]. specialize (Hid _ Hs). cbn [fst snd] in Hid.
    apply Hids in Hbad as Hlk. cbn [fst snd] in Hlk. destruct (Hmk _ _ Hlk) as (t & Hreft & Hcl).
    apply Hno. exists (ck', id), p, t, s0. split_and!; try done; cbn [fst snd]; [|congruence].
    intros Eck. apply Hnot. congruence.
Qed.

Lemma Flush_outcome n l :
  (forall x, order x ≡ₚ x) -> 0 <= n -> idle (n + len (all_refs l)) l ->
  exists l' ds pacing, Flush write order l now = Ok (l', (ds, pacing)) /\ flush_outcome n l ds pacing l'.
Proof.
  intros Hord Hn Hidle. pose proof Hidle as [Hl Hm E1 E2 Hc]. pose proof (idle_streams_wf _ _ Hidle) as Hwf.
  assert (forall c cid, (cid, c) ∈ conns l -> can_send (f cid) (g cid) n c) as Hc'.
  { intros c cid Hin. eapply can_send_mono; [|by apply Hc]. lia. }
  unfold Flush. case_decide as Hsize.
  { eexists _, _, _. split; [done|]. constructor; try done; [cbn [length]; lia | |].
    2: { exists []. split; [|set_solver]. exists []. split_and!; [constructor | left | done | done].
         unfold all_refs. by rewrite (empty_conns l Hl Hsize). }
    intros cid c Hin. exists c. split; [done|]. split; [done|]. split; [simpl; lia|]. intros _.
    split; [by apply Hc'|]. intros e. auto. }
  rewrite flush_refs_spec by done. cbn [mbind go_bind].
  destruct (flush_loop_spec write now f g (all_refs l) n l l (mkFlushAcc MinDeadLine [] ∅ []))
    as (l1 & a & -> & Hr & Hmk & Hend & Hmin & ds & Hsent & Htr); try done.
  { apply refs_of_nodup; [apply lm_nodup, Hl | done]. }
  { constructor; try done. intros cid c Hin. split; [by apply Hc|]. exists c. split; [done|]. split_and!; try done. simpl. lia. }
  { intros p Hp. by apply elem_all_refs. }
  cbn [mbind go_bind]. pose proof (lr_table _ _ _ _ _ _ Hr) as Ht1.
  destruct (close_outcome l l1 a Ht1 (lr_keys _ _ _ _ _ _ Hr) Hend) as (l2 & -> & Ht2 & Hs2 & Hsub & Heq & Hgone).
  cbn [mbind go_bind]. set (ids := order (map_to_list (fa_closeStream a))).
  assert (forall p, p ∈ ids -> fa_closeStream a !! p.1 = Some p.2) as Hids.
  { intros [ck id] Hp. subst ids. rewrite (Hord _) in Hp. by apply elem_of_map_to_list in Hp. }
  destruct (no_clash_drop n l l1 a ids Hl Hr Hmk Hend Hids) as (K1 & K2 & K3).
  assert (currentStreamID l2 = currentStreamID l1) as Ecur by apply Hs2.
  assert (streams_wf l2) as Hwf2.
  { intros [cid c] Hin. apply Hsub, (lr_conn _ _ _ _ _ _ Hr) in Hin as [Hsend _]. apply Hsend. }
  destruct (cleanup_streams_ok ids l2) as (l3 & -> & Hre & Hdrop); [done | done | | by rewrite Ecur |].
  { intros p Ep. rewrite Heq by (rewrite <- Ecur; congruence). apply K1. by rewrite <- Ecur. }
  cbn [mbind go_bind]. pose proof Hre as (Ht3 & Hs3 & Hk3 & _). destruct (lr_cfg _ _ _ _ _ _ Hr) as (C1 & C2 & C3).
  pose proof (same_listener_trans _ _ _ Hs2 Hs3) as (D1 & D2 & _ & _ & D5).
  eexists _, _, _. split; [done|]. constructor; try done.
  - destruct Ht3. by constructor.
  - split_and!; cbn; congruence.
  - exact (lr_sent _ _ _ _ _ _ Hr).
  - cbn in Hsent. rewrite Hsent. by eapply trace_count.
  - apply (cleanup_outcome n l l1 a l2 l3 ids); try done.
    + intros p Hp. apply Hids in Hp. by destruct (Hmk _ _ Hp) as (s & Hs & ?); exists s; destruct p.
    + intros Hno. apply Hdrop. intros p s Ep. rewrite Heq by (rewrite <- Ecur; congruence). apply K3; [done|]. by rewrite <- Ecur.
  - exists (fa_closeConn a). cbn in Hsent. rewrite Hsent. split; [done|]. intros cid. rewrite <- Hgone, <- Hk3. done.
Qed.
End flush.

(** ** Close *)

Section close.
Context {PubKey PrvKey : Type} `{!CryptoPrims PubKey PrvKey}.
Context (f g : Z -> Z -> Z -> Z).
Implicit Types (l : Listener PubKey PrvKey) (c : Conn PubKey PrvKey).

Definition all_inv l : Prop := forall cid c, (cid, c) ∈ conns l -> conn_inv (f cid) (g cid) c.

(** The connections of [cks] are closed, the others stay. *)
Definition closed_conns l (cks : list Z) l' : Prop :=
  table_ok l' /\ same_listener l l' /\ (conns l').*1 = (conns l).*1 /\
  forall cid c', (cid, c') ∈ conns l' -> exists c, (cid, c) ∈ conns l /\
    if decide (cid ∈ cks) then closes_all (f cid) (g cid) c c' else c' = c.

Lemma close_conns_ok cks : forall l,
  NoDup cks -> (forall ck, ck ∈ cks -> ck ∈ (conns l).*1) -> table_ok l -> all_inv l ->
  exists l', close_conns l cks = Ok l' /\ closed_conns l cks l'.
Proof.
  induction cks as [|ck cks IH]; intros l Hnd Hin Hl Hi; cbn [close_conns].
  { exists l. split; [done|]. split_and!; try done. intros cid c Hc. exists c. split; [done|]. by rewrite decide_False by set_solver. }
  apply NoDup_cons in Hnd as [Hnin Hnd]. specialize (Hin ck) as Hck.
  assert (ck ∈ (conns l).*1) as Hck' by (apply Hck; by left).
  apply list_elem_of_fmap in Hck' as ([ck' c] & E & Hc). cbn [fst] in E. subst ck'.
  rewrite (load_conn_ok l ck c) by done. cbn [mbind go_bind].
  destruct (conn_Close_spec _ _ c (Hi _ _ Hc)) as (c' & -> & Hcl & E1 & E2). cbn [mbind go_bind].
  destruct (store_conn_ok l ck c c') as (l1 & -> & Hl1 & Hs1 & Hk1 & He1); [done..|]. cbn [mbind go_bind].
  destruct (IH l1) as (l' & -> & Hl' & Hs' & Hk' & He'); [done | | done | |].
  { intros k Hk. rewrite Hk1. apply Hin. by right. }
  { intros cid d Hd. apply He1 in Hd as [[= -> ->]|[Hd _]]; [apply Hcl | by apply Hi]. }
  exists l'. split; [done|]. split_and!; [done | by eapply same_listener_trans | congruence|].
  intros cid d' Hd'. destruct (He' _ _ Hd') as (d & Hd & Hcase). apply He1 in Hd as [[= -> ->]|[Hd Hne]].
  - exists c. split; [done|]. rewrite decide_True by (by left). rewrite decide_False in Hcase by done. by subst.
  - cbn [fst] in Hne. exists d. split; [done|]. case_decide as H1; case_decide as H2; try done; set_solver.
Qed.

End close.

(** ** Properties *)

Section properties.
Context {PubKey PrvKey : Type} `{!CryptoPrims PubKey PrvKey} `{!CryptoLaws PubKey PrvKey}.
Implicit Types (l : Listener PubKey PrvKey).

(** C24. Flushing the listener: whatever the socket answers and in whatever order
    Go ranges over its maps, [Flush] ends without a panic; it visits the streams
    in the order of [NestedIterator] (connections, then their streams, in
    insertion order) and returns at most [MinDeadLine].  The flush is a sequence
    of visits ([flush_trace]) of these streams in this order, each a [Conn.Flush]
    of the stream on the connection as the visits before left it, which writes at
    most one datagram; the datagrams of the flush are those of the visits, none
    longer than the MTU.  The visits end before all streams are visited exactly
    after one that fails, or one whose stream is not closed and marked for
    removal and that either sent data or, having sent none, finds the peer
    silent: something was heard from it, and that was longer than [ReadDeadLine]
    ago.  The connection removed is that of the last visit if it failed or found
    the peer silent, and no other.  The keys of the other connections stay, and each one's packet
    counter advances by exactly its datagrams; when no closed stream has the id
    of a stream of another connection, every remaining connection keeps its
    invariant and loses only closed streams. *)
Theorem listener_flush_returns (write : AddrPort -> bytes -> option go_error) (order : list (Z * Z) -> list (Z * Z))
    (f g : Z -> Z -> Z -> Z) (now n : Z) l :
  (forall x, order x ≡ₚ x) -> 0 <= n -> idle f g (n + len (all_refs l)) l ->
  flush_refs l = Ok (all_refs l) /\
  (exists ps, NestedIterator (connMap l) (fun c => streams c) None None = Ok ps /\
     Forall2 (fun p x => (p.1, x.1) ∈ conns l /\ (p.2, x.2) ∈ lm_elems (streams x.1)) (all_refs l) ps) /\
  exists l' ds pacing, Flush write order l now = Ok (l', (ds, pacing)) /\ flush_outcome write now f g n l ds pacing l'.
Proof.
  intros Hord Hn Hidle. pose proof Hidle as [Hl _ E1 E2 _]. pose proof (idle_streams_wf f g _ _ Hidle) as Hwf.
  split; [by apply flush_refs_spec|]. split; [by apply flush_refs_nested | by apply Flush_outcome].
Qed.

(** C26. Closing the listener: every stream of every connection gets a close
    offset for sending (an earlier one stays), in whatever order Go ranges over
    the table; no queued, unacknowledged or received byte is lost, no connection
    leaves the table, and the first error of the socket is returned. *)
Theorem listener_close_all (order : list Z -> list Z) (f g : Z -> Z -> Z -> Z) (wake close : option go_error) l :
  (forall x, order x ≡ₚ x) -> table_ok l -> all_inv f g l ->
  exists l' err, listener_Close order wake close l = Ok (l', err) /\ l_closed l' = true /\ table_ok l' /\
    (conns l').*1 = (conns l).*1 /\
    (forall cid c', (cid, c') ∈ conns l' -> exists c, (cid, c) ∈ conns l /\ closes_all (f cid) (g cid) c c') /\
    (err = None <-> wake = None /\ close = None).
Proof.
  intros Hord Hl Hi. unfold listener_Close. set (l0 := set_closed l true).
  assert (table_ok l0) as Hl0 by (destruct Hl; by constructor).
  set (cks := order _). assert (cks ≡ₚ (conns l).*1) as Hp by (subst cks; rewrite (Hord _); exact (items_keys l0 Hl0)).
  destruct (close_conns_ok f g cks l0) as (l' & E & Hl' & Hs & Hk & He); [ | | done | done |].
  { rewrite Hp. apply lm_nodup, Hl. }
  { intros ck Hck. by rewrite Hp in Hck. }
  eexists l', _. rewrite E. split; [done|]. split; [by destruct Hs as (_ & _ & _ & _ & ->)|]. split; [done|]. split; [done|].
  split; [|destruct wake, close; naive_solver]. intros cid c' Hin. destruct (He _ _ Hin) as (c & Hc & Hcase).
  exists c. split; [done|]. rewrite decide_True in Hcase; [done|]. rewrite Hp. exact (elem_al_key _ _ Hc).
Qed.
End properties.

(** ** Witnesses *)

(** A listener with the connections [cs], filed in this order. *)
Definition listener_with (cs : list (Conn bool bool)) : Listener bool bool :=
  foldl (fun l c => set_connMap l (ok_or (connMap l) (LinkedMap.Put (connMap l) (connId c) c))) server cs.

Lemma listener_with_one (c : Conn bool bool) : is_Some (prvKeyEpSnd c) ->
  table_ok (listener_with [c]) /\ (forall e, e ∈ conns (listener_with [c]) <-> e = (connId c, c)).
Proof.
  intros Hp. destruct (new_listener_ok (PubKey := bool) (mkListenerCfg true 1400) false) as [Hl He]. fold server in Hl, He.
  destruct (lm_put_ok (connMap server) (connId c) c (to_wf _ Hl)) as (m & E & Hwf & Hel).
  unfold listener_with. cbn [foldl]. rewrite E. cbn [ok_or].
  assert (forall e, e ∈ lm_elems m <-> e = (connId c, c)) as Hm.
  { intros e. change (conns server) with (lm_elems (connMap server)) in He. rewrite Hel, He. cbn [al_put]. apply list_elem_of_singleton. }
  split; [|exact Hm]. constructor; [exact Hwf|]. intros e ->%Hm. done.
Qed.

Definition listener7 : Listener bool bool := listener_with [conn7].

Definition counting1 (cid sid x : Z) : Z := counting sid x.

Lemma listener7_idle : idle counting1 counting1 (5 + len (all_refs listener7)) listener7.
Proof.
  destruct (listener_with_one conn7) as [Hl He]; [by eexists|]. constructor; [exact Hl | exact mtu_1400 | done | done|].
  intros cid c Hin. apply He in Hin. injection Hin as -> ->. constructor; [exact conn7_inv | by exists (toy_key true) | | | |];
    repeat split; vm_compute; congruence.
Qed.

Lemma listener_flush_returns_witness :
  exists l' ds pacing, Flush discard (fun x => x) listener7 1000 = Ok (l', (ds, pacing)) /\ table_ok l' /\ length ds = 1%nat.
Proof.
  destruct (listener_flush_returns discard (fun x => x) counting1 counting1 1000 5 listener7)
    as (_ & _ & l' & ds & pacing & E & Ho); [reflexivity | lia | exact listener7_idle|].
  exists l', ds, pacing. split; [exact E|]. split; [exact (fo_table _ _ _ _ _ _ _ _ _ Ho)|].
  vm_compute in E. injection E as <- <- <-. reflexivity.
Defined.

Lemma listener_close_all_witness :
  exists l' c', listener_Close (fun x => x) None (Some "already closed"%string) listener7 = Ok (l', Some "already closed"%string) /\
    (77, c') ∈ conns l' /\ is_Some (Snd.GetOffsetClosedAt (c_snd c') 7).
Proof.
  destruct (listener_with_one conn7) as [Hl He]; [by eexists|].
  destruct (listener_close_all (fun x => x) counting1 counting1 None (Some "already closed"%string) listener7)
    as (l' & err & E & _ & _ & Hk & Hc & _); [reflexivity | exact Hl | |].
  { intros cid c Hin. apply He in Hin. injection Hin as -> ->. exact conn7_inv. }
  assert (77 ∈ (conns l').*1) as H77 by (rewrite Hk; vm_compute; left).
  apply list_elem_of_fmap in H77 as ([k c'] & Ek & Hin). cbn [fst] in Ek. subst k.
  destruct (Hc _ _ Hin) as (c & Hcin & Hcl). apply He in Hcin. injection Hcin as ->.
  exists l', c'. split; [|split; [exact Hin|]].
  - rewrite E. f_equal. f_equal. vm_compute in E. congruence.
  - apply (proj1 (proj2 (proj2 Hcl)) 7 stream7), filed7_ok.
Defined.

(** ** Corner cases of the code *)

(** The streams [ss], filed in this order. *)
Definition streams_with (ss : list Stream) : LinkedMap Z Stream :=
  foldl (fun m s => ok_or m (LinkedMap.Put m (st_streamID s) s)) NewLinkedMap ss.

(** Connection 77 has the closed stream 7 and the open stream 9; on connection
    78, stream 7 has data to send. *)
Definition clashing : Listener bool bool :=
  listener_with [set_streams (conn_with snd100) (streams_with [mkStream 7 1; mkStream 9 0]);
                 set_connId (set_streams (conn_with queued5) (streams_with [mkStream 7 0])) 78].

(** The clean-up compares stream ids only, and writes through the pointer to the
    current stream: removing stream 7 of connection 77 turns stream 7 of
    connection 78 into one that has the id 9. *)
Theorem cleanup_renames_other_stream :
  exists l' ds c', Flush discard (fun x => x) clashing 1000 = Ok (l', (ds, 0)) /\
    (78, c') ∈ conns l' /\ lm_elems (streams c') = [(7, mkStream 9 0)].
Proof.
  eexists _, _, _. split; [vm_compute; reflexivity|]. split; [vm_compute; right; left | vm_compute; reflexivity].
Qed.

(** A responder's connection with one stream, closed at time 1000. *)
Definition lingering : Listener bool bool :=
  listener_with [set_done (set_streams responder77 (streams_with [mkStream 7 1000])) true].
Definition streams_after (now : Z) : list (list (Z * Stream)) :=
  (fun e => lm_elems (streams e.2)) <$> conns (ok_or (lingering, ([], 0)) (Flush discard (fun x => x) lingering now)).1.

(** The receiver of a closed stream should keep it for [ReadDeadLine]; the
    comparison is the other way round: it is dropped at once, and kept when the
    time has passed. *)
Theorem receiver_linger_inverted :
  streams_after 2000 = [[]] /\ streams_after (2000 + ReadDeadLine) = [[(7, mkStream 7 1000)]].
Proof. split; vm_compute; reflexivity. Qed.

(** A single short datagram, from anyone, ends the event loop: [Listen] reports
    it as an error, and [Loop] returns before the callback and the flush. *)
Theorem short_datagram_ends_loop {PubKey PrvKey S} `{!CryptoPrims PubKey PrvKey} callback write order (vars : S)
    (l : Listener PubKey PrvKey) (i : loop_input) inputs (data : bytes) (from : AddrPort) :
  in_read i MinDeadLine = inr (data, from) -> 0 < len data < MinPacketSize ->
  Loop callback write order (i :: inputs) vars l = Ok (vars, l, ([], true)).
Proof.
  intros Hr Hd. unfold Loop. cbn [loop_from]. rewrite Hr. unfold Listen. rewrite decide_False by lia.
  unfold Listener.decode. rewrite decide_True by lia. done.
Qed.
