(* ===== verification/Pcap.v ===== *)
(** * Pcap: decryption of captured packets (src/pcap.go)

    The four helpers for packet captures.  They are shown to agree with the
    listener on every datagram: with the keys of the connection, a helper returns
    the payload that [Listener.decode] returns, or both reject the datagram. *)

From stdpp Require Import prelude gmap list numbers strings.
From S2P Require Import Prelude Wire Proto Interfaces LinkedMap Crypto Conn Listener.
Open Scope Z_scope.

(** ** The code *)

Section code.
Context {PubKey PrvKey : Type} `{!CryptoPrims PubKey PrvKey}.

Definition DecryptDataForPcap (encData rest : bytes) (isSenderOnInit : bool) (epoch : Z) (sharedSecret : bytes)
    : go (go_error + bytes) :=
  r ← decryptData encData rest isSenderOnInit epoch sharedSecret;
  match r with
  | inl err => mret (inl err)
  | inr msg => mret (inr (PayloadRaw msg))
  end.

Definition DecryptInitCryptoSndForPcap (encData rest : bytes) (prvKeyIdRcv : PrvKey) (mtu : Z) : go (go_error + bytes) :=
  r ← decryptInitCryptoSnd encData rest prvKeyIdRcv mtu;
  match r with
  | inl err => mret (inl err)
  | inr (_, _, msg) => mret (inr (PayloadRaw msg))
  end.

Definition DecryptInitRcvForPcap (encData rest : bytes) (prvKeyEpSnd : PrvKey) : go (go_error + bytes) :=
  r ← decryptInitRcv encData rest prvKeyEpSnd;
  match r with
  | inl err => mret (inl err)
  | inr (_, _, _, msg) => mret (inr (PayloadRaw msg))
  end.

Definition DecryptInitCryptoRcvForPcap (encData rest : bytes) (prvKeyEpSnd : PrvKey) : go (go_error + bytes) :=
  r ← decryptInitCryptoRcv encData rest prvKeyEpSnd;
  match r with
  | inl err => mret (inl err)
  | inr (_, _, msg) => mret (inr (PayloadRaw msg))
  end.
End code.

(** ** Agreement with the listener *)

Section laws.
Context {PubKey PrvKey : Type} `{!CryptoPrims PubKey PrvKey} `{!CryptoLaws PubKey PrvKey}.
Implicit Types (l : Listener PubKey PrvKey) (c : Conn PubKey PrvKey) (key : go_error + PrvKey).

(** The payload, if the datagram is accepted. *)
Definition decoded_payload (r : go (Listener PubKey PrvKey * decoded (PubKey := PubKey) (PrvKey := PrvKey))) : go (option bytes) :=
  '(_, r) ← r; mret (match r with inl _ => None | inr (_, payload, _) => Some payload end).
Definition captured_payload (r : go (go_error + bytes)) : go (option bytes) :=
  r ← r; mret (match r with inl _ => None | inr payload => Some payload end).

(** The helper for a message type, with the keys of the connection [c]. *)
Definition capture l c (enc rest : bytes) (t : CryptoMsgType) : go (go_error + bytes) :=
  match t with
  | Data => DecryptDataForPcap enc rest (isSenderOnInit c) (epochCryptoRcv c) (default [] (sharedSecret c))
  | InitCryptoSnd => DecryptInitCryptoSndForPcap enc rest (prvKeyId (l_cfg l)) (l_mtu (l_cfg l))
  | InitRcv => prv ← go_deref NilDereference (prvKeyEpSnd c); DecryptInitRcvForPcap enc rest prv
  | InitCryptoRcv => prv ← go_deref NilDereference (prvKeyEpSnd c); DecryptInitCryptoRcvForPcap enc rest prv
  | InitSnd => mret (inl ""%string)
  end.

Lemma filed_payload l l1 cid c c' payload t :
  table_ok l1 -> only l cid l1 -> at_most_adds l l1 -> (cid, c) ∈ conns l1 -> rekeyed c c' ->
  decoded_payload (file l1 cid c' payload t) = Ok (Some payload).
Proof.
  intros H1 H2 H3 H4 H5. destruct (file_outcome l l1 cid c c' payload t H1 H2 H3 H4 H5) as (l' & r & -> & _ & ->). done.
Qed.

Lemma capture_decode_msg l key enc rest addr cid c t prv :
  table_ok l -> l_keyLog l = false -> key = inr prv -> (cid, c) ∈ conns l -> t <> InitSnd ->
  decoded_payload (decode_msg l key enc rest addr cid t) = captured_payload (capture l c enc rest t).
Proof.
  intros Hl Hk Hkey Hin Ht.
  assert (al_get cid (conns l) = Some c) as Hget by (apply al_get_is_elem; [apply lm_nodup, Hl | done]).
  assert (forall c' payload t, rekeyed c c' -> decoded_payload (file l cid c' payload t) = Ok (Some payload)) as Hfile.
  { intros c' payload t' Hre. apply (filed_payload l l cid c); [done | apply only_refl | by intros e | done | done]. }
  destruct (to_conn _ Hl _ Hin) as [_ [ep Hep]]. cbn [snd] in Hep.
  destruct t; try done; unfold decode_msg, capture; rewrite ?table_get, ?Hget by done; cbn [mbind go_bind];
    rewrite ?Hep; cbn [mbind go_bind go_deref].
  - unfold DecryptInitRcvForPcap. destruct (decryptInitRcv enc rest ep) as [[err|[[[s id] e] msg]]| |]; try done.
    apply Hfile, rekeyed_keys.
  - unfold DecryptInitCryptoSndForPcap. destruct (decryptInitCryptoSnd _ _ _ _) as [[err|[[id e] msg]]| |]; try done.
    cbn [mbind go_bind]. destruct (conn_for_init_spec l cid addr key id e true Hl Hk) as (l1 & r & -> & (Hl1 & Ho & Ha & Hr) & Hex).
    destruct (Hex prv Hkey) as [[c1 prv1] ->]. cbn [mbind go_bind]. destruct Hr as (Hin1 & _ & _).
    rewrite (filed_payload l l1 cid c1); try done. apply rekeyed_keys.
  - unfold DecryptInitCryptoRcvForPcap. destruct (decryptInitCryptoRcv enc rest ep) as [[err|[[s e] msg]]| |]; try done.
    apply Hfile, rekeyed_keys.
  - unfold DecryptDataForPcap. destruct (decryptData _ _ _ _ _) as [[err|msg]| |]; try done. cbn [mbind go_bind].
    pose proof (rekeyed_epoch c (bool_decide (epochCryptoRcv c < currentEpochCrypt msg)) (currentEpochCrypt msg)) as Hre.
    etrans; [|exact (Hfile _ (PayloadRaw msg) Data Hre)]. do 2 f_equal. unfold bool_decide. by case_decide.
Qed.

(** C34. Captures: on every datagram whose header names a message type with a
    payload and a connection of the listener, the helper for captured packets,
    given the keys of that connection, returns exactly the payload that the
    listener's [decode] returns, and rejects exactly what [decode] rejects
    (a fresh key being available). *)
Theorem pcap_agrees_with_decode l key enc rest addr cid c t prv tail :
  table_ok l -> l_keyLog l = false -> key = inr prv -> (cid, c) ∈ conns l -> is_u64 cid -> t <> InitSnd ->
  enc = msg_header t :: le_bytes 8 cid ++ tail -> MinPacketSize <= len enc ->
  decoded_payload (decode l key enc rest addr) = captured_payload (capture l c enc rest t).
Proof.
  intros Hl Hk Hkey Hin Hcid Ht Henc Hlen.
  rewrite (decode_header l key enc rest addr t (le_bytes 8 cid) tail cid); [by eapply capture_decode_msg | done | | | done].
  - by rewrite length_le_bytes.
  - rewrite <- (app_nil_r (le_bytes 8 cid)), Uint64_le, Z.mod_small; done.
Qed.
End laws.

(** The packet of [packet9] is captured as the listener decodes it. *)
Lemma pcap_agrees_with_decode_witness :
  exists enc payload, packet9.2 = inr enc /\
    decoded_payload (decode server77 (inr true) enc [] addr7000) = Ok (Some payload) /\
    captured_payload (capture server77 responder77 enc [] Data) = Ok (Some payload).
Proof.
  assert (exists enc, packet9.2 = inr enc) as [enc Henc] by (eexists; vm_compute; reflexivity).
  assert (exists tail, enc = msg_header Data :: le_bytes 8 77 ++ tail) as [tail Htail].
  { eexists. vm_compute in Henc. injection Henc as <-. vm_compute. reflexivity. }
  assert (exists payload, captured_payload (capture server77 responder77 enc [] Data) = Ok (Some payload)) as [payload Hp].
  { eexists. vm_compute in Henc. injection Henc as <-. vm_compute. reflexivity. }
  exists enc, payload. split; [exact Henc|]. split; [|exact Hp].
  rewrite (pcap_agrees_with_decode server77 (inr true) enc [] addr7000 77 responder77 Data true tail).
  - exact Hp.
  - apply server77_ok.
  - reflexivity.
  - reflexivity.
  - apply server77_ok.
  - compute_done.
  - discriminate.
  - exact Htail.
  - vm_compute in Henc. injection Henc as <-. vm_compute. discriminate.
Defined.
