(* ===== verification/Hex.v ===== *)
(** * Hex: keys as text (decodeHex of src/codec.go, decodeHexPubKey of
    src/crypto.go, logKey of src/listener.go)

    A Go string is the list of its bytes.  [hex_decode] is [hex.DecodeString] of
    Go's standard library, which returns the bytes decoded before an error
    together with the error; [hex_bytes] and [hex_uint] are the verb [%x] of
    [fmt.Sprintf] for a byte slice and for an unsigned integer. *)

From stdpp Require Import prelude list numbers strings.
From S2P Require Import Prelude Wire Crypto.
Open Scope Z_scope.

(** ** Go's standard library *)

(** The bytes of a string literal. *)
Definition str (s : string) : bytes := (fun a => Z.of_N (Ascii.N_of_ascii a)) <$> String.list_ascii_of_string s.

Fixpoint has_prefix (p s : bytes) : bool :=
  match p, s with
  | [], _ => true
  | x :: p, y :: s => (x =? y) && has_prefix p s
  | _ :: _, [] => false
  end.

(** [strings.Replace(s, old, "", 1)] for a non-empty [old]. *)
Fixpoint remove_first (old s : bytes) : bytes :=
  match s with
  | [] => []
  | x :: t => if has_prefix old s then drop (length old) s else x :: remove_first old t
  end.

Definition hex_val (b : Z) : option Z :=
  if decide (48 <= b <= 57) then Some (b - 48)
  else if decide (97 <= b <= 102) then Some (b - 87)
  else if decide (65 <= b <= 70) then Some (b - 55)
  else None.

Definition err_byte : go_error := "encoding/hex: invalid byte".
Definition err_length : go_error := "encoding/hex: odd length hex string".

Fixpoint hex_decode (s : bytes) : bytes * option go_error :=
  match s with
  | [] => ([], None)
  | [p] => ([], Some (if hex_val p then err_length else err_byte))
  | p :: q :: s =>
      match hex_val p, hex_val q with
      | Some a, Some b => let '(r, err) := hex_decode s in ((u8 (a << 4) .| b)%go :: r, err)
      | _, _ => ([], Some err_byte)
      end
  end.

Definition hex_digit (v : Z) : Z := if decide (v < 10) then 48 + v else 87 + v.
Definition hex_bytes (b : bytes) : bytes := concat ((fun x => [hex_digit (x / 16); hex_digit (x mod 16)]) <$> b).

(** [%x] of an integer of at most [n] digits: no leading zeros. *)
Fixpoint hex_uint (n : nat) (v : Z) : bytes :=
  match n with
  | O => []
  | S n => (if decide (v < 16) then [] else hex_uint n (v / 16)) ++ [hex_digit (v mod 16)]
  end.

(** ** The code *)

Definition decodeHex (pubKeyHex : bytes) : bytes * option go_error :=
  hex_decode (if has_prefix (str "0x") pubKeyHex then remove_first (str "0x") pubKeyHex else pubKeyHex).

Definition decodeHexPubKey {PubKey PrvKey} `{!CryptoPrims PubKey PrvKey} (pubKeyHex : bytes) : go_error + PubKey :=
  let '(b, err) := decodeHex pubKeyHex in
  match err with
  | Some err => inl err
  | None => new_pub_key b
  end.

(** [generateKey]; [generated] is what the random generator of the key returned. *)
Definition generateKey {PrvKey} (generated : go_error + PrvKey) : go_error + PrvKey :=
  match generated with
  | inl err => inl err
  | inr prvKey1 => inr prvKey1
  end.

(** The two lines that [logKey] writes; errors of the writer are only logged. *)
Definition logKey (connId : Z) (secret secretId : bytes) : list bytes :=
  [str "QOTP_SHARED_SECRET " ++ hex_uint 16 connId ++ str " " ++ hex_bytes secret ++ [10];
   str "QOTP_SHARED_SECRET_ID " ++ hex_uint 16 connId ++ str " " ++ hex_bytes secretId ++ [10]].

(** ** Round trips *)

Lemma hex_val_digit v : 0 <= v < 16 -> hex_val (hex_digit v) = Some v.
Proof.
  intros Hv. unfold hex_val, hex_digit.
  destruct (decide (v < 10)); [rewrite decide_True by lia; f_equal; lia|].
  rewrite decide_False, decide_True by lia. f_equal. lia.
Qed.

Lemma hex_join x : is_u8 x -> (u8 ((x / 16) << 4) .| (x mod 16))%go = x.
Proof.
  intros Hx. assert (u8 (Z.shiftl (x / 16) 4) = Z.shiftl (x / 16) 4) as ->.
  { unfold u8. rewrite Z.shiftl_mul_pow2 by lia. change (2 ^ 4) with 16. apply Z.mod_small. width_lia. }
  rewrite Z.lor_comm, lor_shiftl_add by (change (2 ^ 4) with 16; Z.div_mod_to_equations; lia).
  change (2 ^ 4) with 16. Z.div_mod_to_equations; lia.
Qed.

Lemma hex_decode_bytes b s : Forall is_u8 b -> hex_decode (hex_bytes b ++ s) = (b ++ (hex_decode s).1, (hex_decode s).2).
Proof.
  induction 1 as [|x b Hx Hb IH]; [exact (surjective_pairing _)|].
  change (hex_bytes (x :: b)) with ([hex_digit (x / 16); hex_digit (x mod 16)] ++ hex_bytes b).
  cbn [app hex_decode]. rewrite !hex_val_digit by (widths; Z.div_mod_to_equations; lia).
  cbn [app] in IH. rewrite IH, hex_join by done. done.
Qed.

Lemma hex_digit_not_x v : 0 <= v < 16 -> hex_digit v <> 120.
Proof. unfold hex_digit. case_decide; lia. Qed.

Lemma hex_bytes_no_prefix b : Forall is_u8 b -> has_prefix (str "0x") (hex_bytes b) = false.
Proof.
  intros Hb. destruct Hb as [|x b Hx _]; [done|].
  change (hex_bytes (x :: b)) with ([hex_digit (x / 16); hex_digit (x mod 16)] ++ hex_bytes b).
  change (str "0x") with [48; 120]. cbn [has_prefix app].
  pose proof (hex_digit_not_x (x mod 16) ltac:(Z.div_mod_to_equations; lia)). apply andb_false_iff. right.
  apply andb_false_iff. left. lia.
Qed.

Lemma decodeHex_bytes b : Forall is_u8 b ->
  decodeHex (hex_bytes b) = (b, None) /\ decodeHex (str "0x" ++ hex_bytes b) = (b, None).
Proof.
  intros Hb. pose proof (hex_decode_bytes b [] Hb) as Hd. rewrite !app_nil_r in Hd. cbn [hex_decode fst snd] in Hd.
  unfold decodeHex. rewrite hex_bytes_no_prefix by done. rewrite Hd. split; [by rewrite app_nil_r in Hd || done|].
  change (str "0x") with [48; 120]. cbn [app has_prefix remove_first]. rewrite !Z.eqb_refl. cbn [andb has_prefix].
  exact Hd.
Qed.

(** Induction two elements at a time. *)
Lemma pairs_ind {A} (P : list A -> Prop) :
  P [] -> (forall p, P [p]) -> (forall p q s, P s -> P (p :: q :: s)) -> forall s, P s.
Proof.
  intros H0 H1 H2 s. assert (P s /\ forall p, P (p :: s)) as [H _]; [|exact H].
  induction s as [|x s [IH1 IH2]]; split; auto.
Qed.

(** Which texts are accepted. *)
Fixpoint hex_text (s : bytes) : Prop :=
  match s with
  | [] => True
  | [_] => False
  | p :: q :: s => is_Some (hex_val p) /\ is_Some (hex_val q) /\ hex_text s
  end.

Lemma hex_decode_ok s : (hex_decode s).2 = None <-> hex_text s.
Proof.
  induction s as [|p|p q s IH] using pairs_ind; [done | split; done|]. cbn [hex_decode hex_text].
  destruct (hex_val p) as [a|], (hex_val q) as [b|]; cbn [snd]; rewrite ?is_Some_alt; try (split; [done | naive_solver]).
  destruct (hex_decode s) as [r err]. cbn [snd] in *. rewrite IH. naive_solver.
Qed.

Lemma hex_decode_length s : (length (hex_decode s).1 * 2 <= length s)%nat.
Proof.
  induction s as [|p|p q s IH] using pairs_ind; [done | simpl; lia|]. cbn [hex_decode length].
  destruct (hex_val p), (hex_val q); try (simpl; lia). destruct (hex_decode s). simpl in *. lia.
Qed.

(** [%x] of a 64-bit value is read back. *)
Fixpoint hex_value (acc : Z) (s : bytes) : option Z :=
  match s with
  | [] => Some acc
  | x :: s => match hex_val x with Some v => hex_value (acc * 16 + v) s | None => None end
  end.

Lemma hex_value_app acc s t : hex_value acc (s ++ t) = match hex_value acc s with Some v => hex_value v t | None => None end.
Proof. revert acc. induction s as [|x s IH]; intros acc; [done|]. cbn [app hex_value]. destruct (hex_val x); [apply IH | done]. Qed.

Lemma hex_uint_value n v : 0 <= v < 16 ^ Z.of_nat n -> hex_value 0 (hex_uint n v) = if decide (n = O) then Some 0 else Some v.
Proof.
  revert v. induction n as [|n IH]; intros v Hv; [done|]. rewrite decide_False by done. cbn [hex_uint].
  rewrite Nat2Z.inj_succ, Z.pow_succ_r in Hv by lia. rewrite hex_value_app. destruct (decide (v < 16)) as [Hs|Hs].
  - cbn [hex_value]. rewrite hex_val_digit by (Z.div_mod_to_equations; lia). cbn [hex_value]. f_equal. rewrite Z.mod_small; lia.
  - rewrite IH by (Z.div_mod_to_equations; nia). destruct (decide (n = 0%nat)) as [Hn|Hn].
    { subst n. change (16 ^ Z.of_nat 0) with 1 in Hv. lia. }
    cbn [hex_value]. rewrite hex_val_digit by (Z.div_mod_to_equations; lia). cbn [hex_value]. f_equal.
    pose proof (Z.div_mod v 16). lia.
Qed.

(** A line of the key log from which connection id and secret can be read back. *)
Definition log_line (label : string) (connId : Z) (secret line : bytes) : Prop :=
  exists cid sec, line = str label ++ cid ++ str " " ++ sec ++ [10] /\ hex_value 0 cid = Some connId /\ hex_decode sec = (secret, None).

Lemma log_line_ok label connId secret :
  is_u64 connId -> Forall is_u8 secret ->
  log_line label connId secret (str label ++ hex_uint 16 connId ++ str " " ++ hex_bytes secret ++ [10]).
Proof.
  intros Hc Hs. eexists _, _. split; [done|]. split.
  - rewrite hex_uint_value; [done|]. change (16 ^ Z.of_nat 16) with (2 ^ 64). exact Hc.
  - pose proof (hex_decode_bytes secret [] Hs) as H. rewrite !app_nil_r in H. exact H.
Qed.

(** ** Property *)

(** Keys as text: a public key written in hexadecimal, with or without the
    prefix [0x], is read back by [decodeHexPubKey]; [decodeHex] reports an error
    exactly on texts that are not an even number of hexadecimal digits after the
    prefix, and never returns more than one byte for two digits; the connection
    id and the secrets in the lines of the key log can be read back. *)
Theorem hex_keys_roundtrip {PubKey PrvKey} `{!CryptoPrims PubKey PrvKey} `{!CryptoLaws PubKey PrvKey}
    (k : PubKey) (s : bytes) (connId : Z) (secret secretId : bytes) :
  is_u64 connId -> Forall is_u8 secret -> Forall is_u8 secretId ->
  decodeHexPubKey (hex_bytes (pub_bytes k)) = inr k /\
  decodeHexPubKey (str "0x" ++ hex_bytes (pub_bytes k)) = inr k /\
  ((decodeHex s).2 = None <-> hex_text (if has_prefix (str "0x") s then drop 2 s else s)) /\
  2 * len (decodeHex s).1 <= len s /\
  exists line1 line2, logKey connId secret secretId = [line1; line2] /\
    log_line "QOTP_SHARED_SECRET " connId secret line1 /\ log_line "QOTP_SHARED_SECRET_ID " connId secretId line2.
Proof.
  intros Hc Hs Hi. destruct (decodeHex_bytes (pub_bytes k) (pub_bytes_u8 k)) as [E1 E2]. unfold decodeHexPubKey. rewrite E1, E2.
  assert (forall s, has_prefix (str "0x") s = true -> remove_first (str "0x") s = drop 2 s) as Hrm.
  { intros [|x t] Hp; [done|]. cbn [remove_first]. by rewrite Hp. }
  split; [apply new_pub_key_bytes|]. split; [apply new_pub_key_bytes|]. split; [|split].
  - unfold decodeHex. rewrite hex_decode_ok. destruct (has_prefix (str "0x") s) eqn:E; [by rewrite Hrm | done].
  - unfold decodeHex. destruct (has_prefix (str "0x") s) eqn:E; [rewrite Hrm by done|].
    + pose proof (hex_decode_length (drop 2 s)) as H. rewrite length_drop in H. lia.
    + pose proof (hex_decode_length s). lia.
  - eexists _, _. split; [done|]. split; by apply log_line_ok.
Qed.

Lemma hex_keys_roundtrip_witness :
  decodeHexPubKey (str "0x" ++ hex_bytes (pub_bytes true)) = inr true /\
  hd [] (logKey 77 [1; 171] []) = str "QOTP_SHARED_SECRET 4d 01ab" ++ [10].
Proof.
  destruct (hex_keys_roundtrip (PubKey := bool) (PrvKey := bool) true [] 77 [1; 171] []) as (_ & H & _); [compute_done..|].
  split; [exact H | reflexivity].
Defined.
