(* ===== verification/Options.v ===== *)
(** * Options: creating a listener (the options, [fillListenOpts] and [Listen]
    of src/listener.go), and dialling by text

    A [ListenFunc] is a function on the option record that may fail.  The
    network, the key generator, SHA-256 and the parsers of addresses are not part
    of the repository and are parameters; [setDontFragment], of which the build
    chooses a version per platform ([Net]), is one too. *)

From stdpp Require Import prelude gmap list numbers strings.
From S2P Require Import Prelude Wire Crypto Interfaces LinkedMap Conn Listener Hex.
Open Scope Z_scope.

(** ** The code *)

Section code.
Context {PubKey PrvKey : Type} `{!CryptoPrims PubKey PrvKey}.
Context {Addr UDPConn NetworkConn Writer : Type}.

(** What the code calls outside the repository. *)
Record environment := mkEnvironment {
  new_private_key : bytes -> go_error + PrvKey;    (* ecdh.X25519().NewPrivateKey *)
  generate_key : go_error + PrvKey;                (* ecdh.X25519().GenerateKey(rand.Reader) *)
  sha256_sum : bytes -> bytes;                     (* sha256.Sum256 *)
  resolve_addr : bytes -> go_error + Addr;         (* net.ResolveUDPAddr *)
  listen_udp : option Addr -> go_error + UDPConn;  (* net.ListenUDP *)
  set_dont_fragment : UDPConn -> option go_error;  (* setDontFragment *)
  new_network_conn : UDPConn -> NetworkConn;       (* NewUDPNetworkConn *)
  parse_addr_port : bytes -> go_error + AddrPort;  (* netip.ParseAddrPort *)
}.

Record ListenOption := mkListenOption {
  o_seed : option bytes;
  o_prvKeyId : option PrvKey;
  o_localConn : option NetworkConn;
  o_listenAddr : option Addr;
  o_mtu : Z;
  o_keyLogWriter : option Writer;
}.

Definition no_options : ListenOption := mkListenOption None None None None 0 None.

(** A function on the option record; an error leaves the record behind. *)
Definition ListenFunc : Type := ListenOption -> go (ListenOption * option go_error).

Definition set_o_mtu (o : ListenOption) mtu :=
  mkListenOption (o_seed o) (o_prvKeyId o) (o_localConn o) (o_listenAddr o) mtu (o_keyLogWriter o).
Definition set_o_seed (o : ListenOption) seed :=
  mkListenOption (Some seed) (o_prvKeyId o) (o_localConn o) (o_listenAddr o) (o_mtu o) (o_keyLogWriter o).
Definition set_o_key (o : ListenOption) key :=
  mkListenOption (o_seed o) (Some key) (o_localConn o) (o_listenAddr o) (o_mtu o) (o_keyLogWriter o).
Definition set_o_conn (o : ListenOption) conn :=
  mkListenOption (o_seed o) (o_prvKeyId o) conn (o_listenAddr o) (o_mtu o) (o_keyLogWriter o).
Definition set_o_addr (o : ListenOption) addr :=
  mkListenOption (o_seed o) (o_prvKeyId o) (o_localConn o) (Some addr) (o_mtu o) (o_keyLogWriter o).
Definition set_o_log (o : ListenOption) w :=
  mkListenOption (o_seed o) (o_prvKeyId o) (o_localConn o) (o_listenAddr o) (o_mtu o) w.

Definition WithMtu (mtu : Z) : ListenFunc := fun o =>
  if decide (o_mtu o <> 0) then mret (o, Some "mtu already set"%string)
  else mret (set_o_mtu o mtu, None).

Definition WithKeyLogWriter (w : option Writer) : ListenFunc := fun o => mret (set_o_log o w, None).

Definition WithSeed (seed : bytes) : ListenFunc := fun o =>
  if decide (o_seed o <> None) then mret (o, Some "seed already set"%string)
  else mret (set_o_seed o seed, None).

Definition WithNetworkConn (localConn : option NetworkConn) : ListenFunc := fun o => mret (set_o_conn o localConn, None).

Definition WithPrvKeyId (prvKeyId : option PrvKey) : ListenFunc := fun o =>
  match o_prvKeyId o with
  | Some _ => mret (o, Some "prvKeyId already set"%string)
  | None =>
      match prvKeyId with
      | None => mret (o, Some "prvKeyId not set"%string)
      | Some prvKeyId => mret (set_o_key o prvKeyId, None)
      end
  end.

(** [copy(o.seed[:], seed)] slices the array behind the pointer [o.seed]. *)
Definition WithSeedStrHex (seedStrHex : bytes) : ListenFunc := fun o =>
  if decide (o_seed o <> None) then mret (o, Some "seed already set"%string) else
  let '(seed, err) := decodeHex seedStrHex in
  if decide (len seed <> 32) then mret (o, Some "seed must be exactly 32 bytes"%string) else
  match err with
  | Some err => mret (o, Some err)
  | None =>
      dst ← go_deref NilDereference (o_seed o);
      mret (set_o_seed o (go_copy dst seed).1, None)
  end.

Definition WithSeedStr (env : environment) (seedStr : bytes) : ListenFunc := fun o =>
  if decide (o_seed o <> None) then mret (o, Some "seed already set"%string)
  else mret (set_o_seed o (sha256_sum env seedStr), None).

Definition WithListenAddr (env : environment) (addr : bytes) : ListenFunc := fun o =>
  match o_listenAddr o with
  | Some _ => mret (o, Some "listenAddr already set"%string)
  | None =>
      match resolve_addr env addr with
      | inl err => mret (o, Some err)
      | inr listenAddr => mret (set_o_addr o listenAddr, None)
      end
  end.

(** The loop over the options. *)
Fixpoint apply_options (options : list ListenFunc) (o : ListenOption) : go (go_error + ListenOption) :=
  match options with
  | [] => mret (inr o)
  | opt :: options =>
      '(o, err) ← opt o;
      match err with
      | Some err => mret (inl err)
      | None => apply_options options o
      end
  end.

(** Defaults: MTU, identity key, socket. *)
Definition fill_mtu (o : ListenOption) : ListenOption := if decide (o_mtu o = 0) then set_o_mtu o 1400 else o.

Definition fill_seed (env : environment) (o : ListenOption) : go_error + ListenOption :=
  match o_seed o with
  | Some seed => match new_private_key env seed with inl err => inl err | inr key => inr (set_o_key o key) end
  | None => inr o
  end.

Definition fill_key (env : environment) (o : ListenOption) : go_error + ListenOption :=
  match o_prvKeyId o with
  | None => match generate_key env with inl err => inl err | inr key => inr (set_o_key o key) end
  | Some _ => inr o
  end.

Definition fill_conn (env : environment) (o : ListenOption) : go_error + ListenOption :=
  match o_localConn o with
  | None =>
      match listen_udp env (o_listenAddr o) with
      | inl err => inl err
      | inr conn =>
          match set_dont_fragment env conn with
          | Some err => inl err
          | None => inr (set_o_conn o (Some (new_network_conn env conn)))
          end
      end
  | Some _ => inr o
  end.

Definition fillListenOpts (env : environment) (options : list ListenFunc) : go (go_error + ListenOption) :=
  r ← apply_options options no_options;
  match r with
  | inl err => mret (inl err)
  | inr o =>
      let o := fill_mtu o in
      match fill_seed env o with
      | inl err => mret (inl err)
      | inr o =>
          match fill_key env o with
          | inl err => mret (inl err)
          | inr o => mret (fill_conn env o)
          end
      end
  end.

(** The listener and its socket. *)
Definition Listen (env : environment) (options : list ListenFunc)
    : go (go_error + Listener PubKey PrvKey * option NetworkConn) :=
  r ← fillListenOpts env options;
  match r with
  | inl err => mret (inl err)
  | inr o =>
      key ← go_deref NilDereference (o_prvKeyId o);
      mret (inr (new_listener (mkListenerCfg key (o_mtu o)) (bool_decide (is_Some (o_keyLogWriter o))), o_localConn o))
  end.

(** *** Dialling by text *)

Definition DialString (env : environment) (l : Listener PubKey PrvKey) (key : go_error + PrvKey) (remoteAddrString : bytes)
    : go (Listener PubKey PrvKey * (go_error + Conn PubKey PrvKey)) :=
  match parse_addr_port env remoteAddrString with
  | inl err => mret (l, inl err)
  | inr remoteAddr => Dial l key remoteAddr
  end.

Definition DialWithCryptoString (env : environment) (l : Listener PubKey PrvKey) (key : go_error + PrvKey)
    (remoteAddrString pubKeyIdRcvHex : bytes) : go (Listener PubKey PrvKey * (go_error + Conn PubKey PrvKey)) :=
  match parse_addr_port env remoteAddrString with
  | inl err => mret (l, inl err)
  | inr remoteAddr =>
      match decodeHexPubKey pubKeyIdRcvHex with
      | inl err => mret (l, inl err)
      | inr pubKeyIdRcv => DialWithCrypto l key remoteAddr (Some pubKeyIdRcv)
      end
  end.
End code.

(** ** What the options mean *)

Section spec.
Context {PubKey PrvKey : Type} `{!CryptoPrims PubKey PrvKey}.
Context {Addr UDPConn NetworkConn Writer : Type}.
Implicit Types (env : environment (PrvKey := PrvKey) (Addr := Addr) (UDPConn := UDPConn) (NetworkConn := NetworkConn))
  (o : ListenOption (PrvKey := PrvKey) (Addr := Addr) (NetworkConn := NetworkConn) (Writer := Writer)).

(** A call of one of the option functions. *)
Inductive option_call :=
  | CallMtu (mtu : Z)
  | CallKeyLogWriter (w : option Writer)
  | CallSeed (seed : bytes)
  | CallNetworkConn (conn : option NetworkConn)
  | CallPrvKeyId (key : option PrvKey)
  | CallSeedStrHex (s : bytes)
  | CallSeedStr (s : bytes)
  | CallListenAddr (s : bytes).

Definition denote env (x : option_call) : ListenFunc (PrvKey := PrvKey) (Addr := Addr) (NetworkConn := NetworkConn) (Writer := Writer) :=
  match x with
  | CallMtu mtu => WithMtu mtu
  | CallKeyLogWriter w => WithKeyLogWriter w
  | CallSeed seed => WithSeed seed
  | CallNetworkConn conn => WithNetworkConn conn
  | CallPrvKeyId key => WithPrvKeyId key
  | CallSeedStrHex s => WithSeedStrHex s
  | CallSeedStr s => WithSeedStr env s
  | CallListenAddr s => WithListenAddr env s
  end.

(** The values that the calls provide. *)
Definition mtu_of (x : option_call) : option Z :=
  match x with CallMtu m => if decide (m = 0) then None else Some m | _ => None end.
Definition seed_of env (x : option_call) : option bytes :=
  match x with CallSeed s => Some s | CallSeedStr s => Some (sha256_sum env s) | _ => None end.
Definition key_of (x : option_call) : option PrvKey := match x with CallPrvKeyId k => k | _ => None end.
Definition conn_of (x : option_call) : option (option NetworkConn) := match x with CallNetworkConn c => Some c | _ => None end.
Definition log_of (x : option_call) : option (option Writer) := match x with CallKeyLogWriter w => Some w | _ => None end.
Definition addr_of env (x : option_call) : option Addr :=
  match x with CallListenAddr s => match resolve_addr env s with inr a => Some a | inl _ => None end | _ => None end.

(** The first call of its kind wins, a later one is an error; of a network
    connection and of a log writer the last one is taken. *)
Record collected env o (xs : list option_call) o' : Prop := {
  co_mtu : o_mtu o' = if decide (o_mtu o = 0) then default 0 (head (omap mtu_of xs)) else o_mtu o;
  co_seed : o_seed o' = match o_seed o with Some s => Some s | None => head (omap (seed_of env) xs) end;
  co_key : o_prvKeyId o' = match o_prvKeyId o with Some k => Some k | None => head (omap key_of xs) end;
  co_addr : o_listenAddr o' = match o_listenAddr o with Some a => Some a | None => head (omap (addr_of env) xs) end;
  co_conn : o_localConn o' = default (o_localConn o) (last (omap conn_of xs));
  co_log : o_keyLogWriter o' = default (o_keyLogWriter o) (last (omap log_of xs));
}.

Lemma collected_nil env o : collected env o [] o.
Proof. constructor; try done; [by case_decide | by destruct (o_seed o) | by destruct (o_prvKeyId o) | by destruct (o_listenAddr o)]. Qed.

Lemma default_last_cons {A} (d : A) (x : option A) (xs : list A) :
  default (default d x) (last xs) = default d (last (match x with Some y => y :: xs | None => xs end)).
Proof. destruct x as [y|]; [|done]. rewrite last_cons. by destruct (last xs). Qed.

(** Compares the option records field by field. *)
Ltac fields :=
  constructor; cbn; repeat (case_decide || case_match); simplify_eq/=; congruence || done.

(** One successful call. *)
Lemma denote_spec env x o o1 : denote env x o = Ok (o1, None) -> collected env o [x] o1 /\
  (mtu_of x <> None -> o_mtu o = 0) /\ (seed_of env x <> None -> o_seed o = None) /\
  (key_of x <> None -> o_prvKeyId o = None) /\ (addr_of env x <> None -> o_listenAddr o = None).
Proof.
  destruct x; cbn [denote].
  - unfold WithMtu. case_decide as Hm; [done|]. intros [= <-]. assert (o_mtu o = 0) as E by lia. split; [fields | by split_and!].
  - intros [= <-]. split; [fields | by split_and!].
  - unfold WithSeed. case_decide as Hm; [done|]. intros [= <-]. split; [fields | by split_and!].
  - intros [= <-]. split; [fields | by split_and!].
  - unfold WithPrvKeyId. destruct (o_prvKeyId o) eqn:E; [done|]. destruct key; [|done]. intros [= <-]. split; [fields | by split_and!].
  - unfold WithSeedStrHex. case_decide as Hm; [done|]. destruct (decodeHex s) as [seed err].
    case_decide; [done|]. destruct err; [done|]. by rewrite Hm.
  - unfold WithSeedStr. case_decide as Hm; [done|]. intros [= <-]. split; [fields | by split_and!].
  - unfold WithListenAddr. destruct (o_listenAddr o) eqn:E; [done|]. destruct (resolve_addr env s) eqn:Er; [done|]. intros [= <-].
    split; [fields | by split_and!].
Qed.

Lemma mtu_of_nonzero x m : mtu_of x = Some m -> m <> 0.
Proof. unfold mtu_of. destruct x; try done. case_decide; [done|]. by intros [= <-]. Qed.

Lemma omap_cons_match {A B} (h : A -> option B) x xs :
  omap h (x :: xs) = match h x with Some y => y :: omap h xs | None => omap h xs end.
Proof. simpl. by destruct (h x). Qed.

Lemma apply_options_spec env xs : forall o o', apply_options (denote env <$> xs) o = Ok (inr o') -> collected env o xs o'.
Proof.
  induction xs as [|x xs IH]; intros o o'; cbn [fmap list_fmap apply_options]; [intros [= <-]; apply collected_nil|].
  intros H. apply go_bind_Ok in H as ([o1 [err|]] & E & H); [done|].
  apply denote_spec in E as ([E1 E2 E3 E4 E5 E6] & F1 & F2 & F3 & F4). apply IH in H as [G1 G2 G3 G4 G5 G6].
  rewrite omap_cons_match in E1. rewrite omap_cons_match in E2. rewrite omap_cons_match in E3.
  rewrite omap_cons_match in E4. rewrite omap_cons_match in E5. rewrite omap_cons_match in E6.
  constructor; rewrite omap_cons_match.
  - rewrite G1. destruct (mtu_of x) as [m|] eqn:Em.
    + pose proof (mtu_of_nonzero _ _ Em) as Hm. assert (o_mtu o = 0) as E0 by (apply F1; congruence).
      assert (o_mtu o1 = m) as -> by (by rewrite E1, E0).
      destruct (decide (m = 0)); [done|]. by destruct (decide (o_mtu o = 0)).
    + assert (o_mtu o1 = o_mtu o) as -> by (rewrite E1; by destruct (decide (o_mtu o = 0))). done.
  - rewrite G2, E2. cbn. destruct (o_seed o); [done|]. by destruct (seed_of env x).
  - rewrite G3, E3. cbn. destruct (o_prvKeyId o); [done|]. by destruct (key_of x).
  - rewrite G4, E4. cbn. destruct (o_listenAddr o); [done|]. by destruct (addr_of env x).
  - rewrite G5, E5. rewrite <- !default_last_cons. done.
  - rewrite G6, E6. rewrite <- !default_last_cons. done.
Qed.

(** Calls that exclude each other. *)
Definition kind (x : option_call) : option nat :=
  match x with
  | CallMtu _ => Some 0%nat
  | CallSeed _ | CallSeedStr _ | CallSeedStrHex _ => Some 1%nat
  | CallPrvKeyId _ => Some 2%nat
  | CallListenAddr _ => Some 3%nat
  | CallKeyLogWriter _ | CallNetworkConn _ => None
  end.

(** A call with usable arguments. *)
Definition usable env (x : option_call) : Prop :=
  match x with
  | CallPrvKeyId k => is_Some k
  | CallSeedStrHex _ => False
  | CallListenAddr s => exists a, resolve_addr env s = inr a
  | _ => True
  end.

(** The field of a kind of call is not set. *)
Definition unset o (k : nat) : Prop :=
  match k with
  | 0%nat => o_mtu o = 0
  | 1%nat => o_seed o = None
  | 2%nat => o_prvKeyId o = None
  | 3%nat => o_listenAddr o = None
  | _ => True
  end.

Lemma usable_call env x o : usable env x -> (forall k, kind x = Some k -> unset o k) ->
  exists o1, denote env x o = Ok (o1, None) /\ forall k, kind x <> Some k -> unset o k -> unset o1 k.
Proof.
  intros Hx Hu. destruct x; cbn [denote kind usable] in *; try specialize (Hu _ eq_refl); cbn [unset] in Hu.
  - unfold WithMtu. rewrite decide_False by (by intros []). eexists. split; [done|]. intros [|[|[|[|]]]]; done.
  - eexists. split; [done|]. intros [|[|[|[|]]]]; done.
  - unfold WithSeed. rewrite decide_False by (by intros []). eexists. split; [done|]. intros [|[|[|[|]]]]; done.
  - eexists. split; [done|]. intros [|[|[|[|]]]]; done.
  - destruct Hx as [k ->]. unfold WithPrvKeyId. rewrite Hu. eexists. split; [done|]. intros [|[|[|[|]]]]; done.
  - done.
  - unfold WithSeedStr. rewrite decide_False by (by intros []). eexists. split; [done|]. intros [|[|[|[|]]]]; done.
  - destruct Hx as [a Ha]. unfold WithListenAddr. rewrite Hu, Ha. eexists. split; [done|]. intros [|[|[|[|]]]]; done.
Qed.

Lemma apply_options_ok env xs : forall o,
  Forall (usable env) xs -> NoDup (omap kind xs) -> (forall k, k ∈ omap kind xs -> unset o k) ->
  exists o', apply_options (denote env <$> xs) o = Ok (inr o').
Proof.
  induction xs as [|x xs IH]; intros o Hu Hnd Hset; cbn [fmap list_fmap apply_options]; [by eexists|].
  apply Forall_cons in Hu as [Hx Hu]. rewrite omap_cons_match in Hnd, Hset.
  destruct (usable_call env x o Hx) as (o1 & -> & Hk).
  { intros k Ek. apply Hset. rewrite Ek. by left. }
  cbn [mbind go_bind]. apply IH; [done | destruct (kind x); [by apply NoDup_cons in Hnd as [_ ?] | done]|].
  intros k Hin. apply Hk.
  - intros Ek. rewrite Ek in Hnd. by apply NoDup_cons in Hnd as [? _].
  - apply Hset. destruct (kind x); [by right | done].
Qed.

(** The identity key and the socket that a listener gets. *)
Definition key_chosen env (xs : list option_call) (key : PrvKey) : Prop :=
  match head (omap (seed_of env) xs), head (omap key_of xs) with
  | Some seed, _ => new_private_key env seed = inr key
  | None, Some k => k = key
  | None, None => generate_key env = inr key
  end.

Definition conn_chosen env (xs : list option_call) (conn : NetworkConn) : Prop :=
  match default None (last (omap conn_of xs)) with
  | Some c => c = conn
  | None => exists u, listen_udp env (head (omap (addr_of env) xs)) = inr u /\ set_dont_fragment env u = None /\
      new_network_conn env u = conn
  end.

Definition listener_of (xs : list option_call) (key : PrvKey) : Listener PubKey PrvKey :=
  new_listener (mkListenerCfg key (default 1400 (head (omap mtu_of xs))))
    (bool_decide (is_Some (default None (last (omap log_of xs))))).

Lemma filled_mtu o xs : o_mtu o = default 0 (head (omap mtu_of xs)) ->
  o_mtu (fill_mtu o) = default 1400 (head (omap mtu_of xs)) /\ fill_mtu o = set_o_mtu o (o_mtu (fill_mtu o)).
Proof.
  intros E. assert (forall m, m ∈ omap mtu_of xs -> m <> 0) as Hnz.
  { intros m (x & _ & Hm)%list_elem_of_omap. by eapply mtu_of_nonzero. }
  unfold fill_mtu. destruct (omap mtu_of xs) as [|m ms]; cbn in E |- *; rewrite E.
  - by rewrite decide_True.
  - rewrite decide_False by (apply Hnz; by left). split; [done|]. by destruct o.
Qed.

Lemma filled_key env o xs :
  o_seed o = head (omap (seed_of env) xs) -> o_prvKeyId o = head (omap key_of xs) ->
  (exists err, match fill_seed env o with inl err => inl err | inr o => fill_key env o end = inl err /\
     forall key, ~ key_chosen env xs key) \/
  (exists key, match fill_seed env o with inl err => inl err | inr o => fill_key env o end = inr (set_o_key o key) /\
     forall k, key_chosen env xs k <-> k = key).
Proof.
  intros E1 E2. unfold fill_seed, key_chosen. rewrite E1. destruct (head (omap (seed_of env) xs)) as [seed|].
  - destruct (new_private_key env seed) as [err|key]; [left | right]; eexists; split; try done; naive_solver.
  - unfold fill_key. rewrite E2. destruct (head (omap key_of xs)) as [k|].
    + right. exists k. split; [destruct o; cbn in E2; by subst | naive_solver].
    + destruct (generate_key env) as [err|key]; [left | right]; eexists; split; try done; naive_solver.
Qed.

Lemma filled_conn env o xs :
  o_localConn o = default None (last (omap conn_of xs)) -> o_listenAddr o = head (omap (addr_of env) xs) ->
  (exists err, fill_conn env o = inl err /\ forall c, ~ conn_chosen env xs c) \/
  (exists c, fill_conn env o = inr (set_o_conn o (Some c)) /\ forall c', conn_chosen env xs c' <-> c' = c).
Proof.
  intros E1 E2. unfold fill_conn, conn_chosen. rewrite <- E1, <- E2. destruct (o_localConn o) as [c|] eqn:Ec.
  - right. exists c. split; [destruct o; cbn in Ec; by subst | naive_solver].
  - destruct (listen_udp env _) as [err|u]; [left; eexists; split; [done | naive_solver]|].
    destruct (set_dont_fragment env u) as [err|] eqn:Ed; [left; eexists; split; [done | naive_solver]|].
    right. eexists. split; [done|]. intros c'. split; [intros (u' & [= <-] & _ & <-); done | intros ->; by exists u].
Qed.

(** The rest of [Listen] for the collected options. *)
Lemma Listen_collected env xs o :
  apply_options (denote env <$> xs) no_options = Ok (inr o) ->
  (exists err, Listen (PubKey := PubKey) env (denote env <$> xs) = Ok (inl err) /\
     ((forall key, ~ key_chosen env xs key) \/ forall c, ~ conn_chosen env xs c)) \/
  (exists key c, Listen env (denote env <$> xs) = Ok (inr (listener_of xs key, Some c)) /\
     key_chosen env xs key /\ conn_chosen env xs c).
Proof.
  intros Happ. destruct (apply_options_spec _ _ _ _ Happ) as [E1 E2 E3 E4 E5 E6]. cbn in E2, E3, E4, E5, E6.
  apply filled_mtu in E1 as [Em Ef]. unfold Listen, fillListenOpts. rewrite Happ. cbn [mbind go_bind]. rewrite Ef, Em.
  set (o1 := set_o_mtu o _). destruct (filled_key env o1 xs) as [(err & Hk & Hno)|(key & Hk & Hkey)]; [done | done | |].
  - left. destruct (fill_seed env o1) as [e|o2]; [by eexists; split; [|left]|]. rewrite Hk. by eexists; split; [|left].
  - destruct (filled_conn env (set_o_key o1 key) xs) as [(err & Hc & Hno)|(c & Hc & Hconn)]; [done | done | |].
    + left. destruct (fill_seed env o1) as [e|o2]; [done|]. rewrite Hk, Hc. by eexists; split; [|right].
    + right. exists key, c. destruct (fill_seed env o1) as [e|o2]; [done|]. rewrite Hk, Hc. cbn. unfold listener_of. rewrite E6.
      split; [done|]. split; [by apply Hkey | by apply Hconn].
Qed.
End spec.

(** ** Property *)

(** C27. Creating a listener: whatever options are given, if [Listen] returns a
    listener, it is well-formed: no connections, no current ids, not closed, an
    MTU other than 0 (the one set, else 1400), an identity key (from the
    seed if there is one, else the key given, else a fresh one) and a socket (the
    last one given, else one opened at the address).  And it does return one when
    the calls have usable arguments, none is repeated that may not be, and keys
    and socket can be obtained. *)
Theorem listen_well_formed {PubKey PrvKey Addr UDPConn NetworkConn Writer : Type} `{!CryptoPrims PubKey PrvKey}
    (env : environment (PrvKey := PrvKey) (Addr := Addr) (UDPConn := UDPConn) (NetworkConn := NetworkConn))
    (xs : list (option_call (PrvKey := PrvKey) (NetworkConn := NetworkConn) (Writer := Writer))) :
  (forall l conn, Listen env (denote env <$> xs) = Ok (inr (l, conn)) ->
     table_ok (PubKey := PubKey) l /\ conns l = [] /\ currentConnID l = None /\ currentStreamID l = None /\ l_closed l = false /\
     l_mtu (l_cfg l) = default 1400 (head (omap mtu_of xs)) /\ l_mtu (l_cfg l) <> 0 /\
     l_keyLog l = bool_decide (is_Some (default None (last (omap log_of xs)))) /\
     key_chosen env xs (prvKeyId (l_cfg l)) /\ exists c, conn = Some c /\ conn_chosen env xs c) /\
  (Forall (usable env) xs -> NoDup (omap kind xs) ->
     (exists key, key_chosen env xs key) -> (exists c, conn_chosen env xs c) ->
     exists l conn, Listen (PubKey := PubKey) env (denote env <$> xs) = Ok (inr (l, conn))).
Proof.
  split.
  - intros l conn H. assert (exists o, apply_options (denote env <$> xs) no_options = Ok (inr o)) as [o Ho].
    { unfold Listen, fillListenOpts in H. destruct (apply_options _ _) as [[err|o]| |]; [done | by exists o | done | done]. }
    destruct (Listen_collected (PubKey := PubKey) env xs o Ho) as [(err & E & _)|(key & c & E & Hk & Hc)]; rewrite E in H; [done|].
    injection H as <- <-. destruct (new_listener_ok (PubKey := PubKey) (l_cfg (listener_of (PubKey := PubKey) xs key))
      (l_keyLog (listener_of (PubKey := PubKey) xs key))) as [Hl He].
    split; [exact Hl|]. split; [exact He|]. split_and!; try done; [|by exists c].
    cbn. destruct (omap mtu_of xs) as [|m ms] eqn:Em; [done|]. cbn.
    assert (m ∈ omap mtu_of xs) as (x & _ & Hm)%list_elem_of_omap by (rewrite Em; by left). by eapply mtu_of_nonzero.
  - intros Hu Hnd [key Hk] [c Hc]. destruct (apply_options_ok env xs no_options Hu Hnd) as [o Ho].
    { intros [|[|[|[|]]]] _; done. }
    destruct (Listen_collected (PubKey := PubKey) env xs o Ho) as [(err & _ & [H|H])|(k & c' & E & _)].
    + by destruct (H key).
    + by destruct (H c).
    + eauto.
Qed.

(** ** Witness *)

(** Seeds must not be empty; sockets are numbers. *)
Definition toy_env : environment (PrvKey := bool) (Addr := bytes) (UDPConn := Z) (NetworkConn := Z) :=
  mkEnvironment (fun seed => match seed with [] => inl "empty seed"%string | x :: _ => inr (x =? 0) end) (inr true)
    (fun s => [len s]) inr (fun _ => inr 5) (fun _ => None) (fun u => u + 100) (fun s => inr (mkAddrPort s 0)).
Definition toy_calls : list (option_call (PrvKey := bool) (NetworkConn := Z) (Writer := unit)) :=
  [CallMtu 1200; CallSeedStr (str "abc"); CallListenAddr (str ":9000"); CallPrvKeyId (Some true)].

Lemma listen_well_formed_witness :
  exists l conn, Listen toy_env (denote toy_env <$> toy_calls) = Ok (inr (l, conn)) /\ table_ok (PubKey := bool) l /\
    l_mtu (l_cfg l) = 1200 /\ prvKeyId (l_cfg l) = false.
Proof.
  destruct (listen_well_formed (PubKey := bool) toy_env toy_calls) as [H1 H2].
  destruct H2 as (l & conn & E).
  - apply Forall_cons_2; [exact I|]. apply Forall_cons_2; [exact I|].
    apply Forall_cons_2; [exists (str ":9000"); reflexivity|]. apply Forall_cons_2; [exists true; reflexivity|]. apply Forall_nil_2.
  - apply (bool_decide_unpack _). vm_compute. exact I.
  - exists false. vm_compute. reflexivity.
  - exists 105. exists 5. vm_compute. split_and!; reflexivity.
  - exists l, conn. split; [exact E|]. destruct (H1 l conn E) as (Hl & _ & _ & _ & _ & Hm & _ & _ & Hk & _).
    split; [exact Hl|]. split; [exact Hm|]. vm_compute in Hk. injection Hk as Hk. symmetry. exact Hk.
Defined.

(** ** Corner cases of the code *)

(** A valid seed in hexadecimal always panics: the bytes are copied through a
    pointer that was just checked to be nil. *)
Theorem seed_hex_panics {PubKey PrvKey Addr UDPConn NetworkConn Writer : Type} `{!CryptoPrims PubKey PrvKey}
    (env : environment (PrvKey := PrvKey) (Addr := Addr) (UDPConn := UDPConn) (NetworkConn := NetworkConn)) (seed : bytes) :
  Forall is_u8 seed -> len seed = 32 ->
  Listen (PubKey := PubKey) (Writer := Writer) env [WithSeedStrHex (hex_bytes seed)] = Panic NilDereference.
Proof.
  intros Hu Hl. unfold Listen, fillListenOpts. cbn [apply_options]. unfold WithSeedStrHex.
  rewrite decide_False by (by intros []). destruct (decodeHex_bytes seed Hu) as [-> _].
  by rewrite decide_False by (by intros []).
Qed.
