(* ===== verification/Net.v ===== *)
(** * Net: the socket (src/net.go, src/net_linux.go, src/net_darwin.go,
    src/net_windows.go)

    [UDPNetworkConn] wraps Go's [*net.UDPConn].  Of the latter the model has what
    the wrapper relies on: the read deadline, which [SetReadDeadline] sets and
    which a zero time removes, for a pending read too; datagrams waiting to be
    read; and whether it was closed.  A read is [poll]ed: at a given time it
    returns a datagram, fails (with a timeout once the deadline is reached), or
    is still blocked.

    [setDontFragment] has a version per platform; the system calls are
    parameters, and an option is the triple of names that the call is given. *)

From stdpp Require Import prelude list numbers strings.
From S2P Require Import Prelude Conn.
Open Scope Z_scope.

(** ** Go's socket *)

Record UDPConn := mkUDPConn {
  u_deadline : option Z;      (* nanoseconds; None: no deadline *)
  u_closed : bool;
  u_waiting : list (bytes * AddrPort);  (* datagrams not read yet, with their source *)
  u_local : bytes;            (* the text of the local address *)
}.

Definition err_closed : go_error := "use of closed network connection".
Definition err_timeout : go_error := "i/o timeout".

Definition SetReadDeadline (c : UDPConn) (t : option Z) : UDPConn * option go_error :=
  if u_closed c then (c, Some err_closed) else (mkUDPConn t (u_closed c) (u_waiting c) (u_local c), None).

Inductive read_result :=
  | Blocked
  | ReadError (err : go_error) (timeout : bool)
  | ReadData (data : bytes) (from : AddrPort).

(** A pending read into a buffer of [n] bytes, looked at at time [t]. *)
Definition poll (c : UDPConn) (n : Z) (t : Z) : UDPConn * read_result :=
  if u_closed c then (c, ReadError err_closed false)
  else if match u_deadline c with Some d => d <=? t | None => false end then (c, ReadError err_timeout true)
  else match u_waiting c with
       | [] => (c, Blocked)
       | (d, from) :: ds => (mkUDPConn (u_deadline c) false ds (u_local c), ReadData (take (Z.to_nat n) d) from)
       end.

(** ** The code *)

(** [ReadFromUDPAddrPort] into a buffer of [n] bytes, looked at at time [t]. *)
Definition ReadFromUDPAddrPort (c : UDPConn) (n timeoutNano nowNano t : Z) : UDPConn * read_result :=
  let readDeadline := to_int (u64 (nowNano + timeoutNano)) in
  let '(c, err) := SetReadDeadline c (Some readDeadline) in
  match err with
  | Some err => (c, ReadError err false)
  | None => poll c n t
  end.

(** [time.Time{}] is the zero time. *)
Definition TimeoutReadNow (c : UDPConn) : UDPConn * option go_error := SetReadDeadline c None.

(** [send] is the socket's own write, which returns the number of bytes and an error. *)
Definition WriteToUDPAddrPort (send : bytes -> AddrPort -> Z * option go_error) (b : bytes) (remoteAddr : AddrPort) : option go_error :=
  let '(n, err) := send b remoteAddr in
  if decide (n <> len b) then Some "could not send all data. This should not happen"%string else err.

Definition Close (c : UDPConn) : UDPConn * option go_error :=
  if u_closed c then (c, Some err_closed) else (mkUDPConn (u_deadline c) true (u_waiting c) (u_local c), None).

Definition LocalAddrString (c : UDPConn) : bytes := u_local c.

(** *** The interface the listener uses *)

(** A socket changes state as it is used; a read is looked at at a time, as above. *)
Class NetworkConn (C : Type) := {
  nc_ReadFromUDPAddrPort : C -> Z -> Z -> Z -> Z -> C * read_result;
  nc_TimeoutReadNow : C -> C * option go_error;
  nc_WriteToUDPAddrPort : C -> bytes -> AddrPort -> Z -> C * option go_error;
  nc_Close : C -> C * option go_error;
  nc_LocalAddrString : C -> bytes;
}.

(** [UDPNetworkConn]: a socket, and how it sends. *)
Record UDPNetworkConn := mkUDPNetworkConn {
  n_conn : UDPConn;
  n_send : bytes -> AddrPort -> Z * option go_error;
}.

Definition with_conn (c : UDPNetworkConn) {A} (r : UDPConn * A) : UDPNetworkConn * A := (mkUDPNetworkConn r.1 (n_send c), r.2).

#[export] Instance udp_network_conn : NetworkConn UDPNetworkConn := {|
  nc_ReadFromUDPAddrPort c n timeoutNano nowNano t := with_conn c (ReadFromUDPAddrPort (n_conn c) n timeoutNano nowNano t);
  nc_TimeoutReadNow c := with_conn c (TimeoutReadNow (n_conn c));
  nc_WriteToUDPAddrPort c p remoteAddr _ := (c, WriteToUDPAddrPort (n_send c) p remoteAddr);
  nc_Close c := with_conn c (Close (n_conn c));
  nc_LocalAddrString c := LocalAddrString (n_conn c);
|}.

Definition NewUDPNetworkConn (conn : UDPConn) (send : bytes -> AddrPort -> Z * option go_error) : UDPNetworkConn :=
  mkUDPNetworkConn conn send.

(** [Stream.NotifyDataAvailable]: [localConn] of the listener of the stream's
    connection may be nil. *)
Definition NotifyDataAvailable {C} `{!NetworkConn C} (localConn : option C) : go (C * option go_error) :=
  c ← go_deref NilDereference localConn;
  mret (nc_TimeoutReadNow c).

(** *** The don't-fragment option (net_linux.go, net_darwin.go, net_windows.go) *)

(** A socket option: protocol level, name and value. *)
Definition sockopt : Type := string * string * string.

(** What the system calls return; the options set so far are the state. *)
Record sys_calls := mkSysCalls {
  sys_conn : option go_error;                  (* SyscallConn *)
  sys_control : option go_error;               (* Control: on an error the function is not called *)
  sys_setsockopt : sockopt -> option go_error; (* SetsockoptInt *)
  sys_uname : go_error + bytes;                (* Uname: the release *)
}.

Definition setsockopt (y : sys_calls) (opts : list sockopt) (x : sockopt) : list sockopt * option go_error :=
  match sys_setsockopt y x with Some err => (opts, Some err) | None => (opts ++ [x], None) end.

Definition set_df (y : sys_calls) (v4 v6 : sockopt) (opts : list sockopt) : list sockopt * option go_error :=
  match sys_conn y with
  | Some err => (opts, Some err)
  | None =>
      match sys_control y with
      | Some err => (opts, Some err)
      | None =>
          let '(opts, errDFIPv4) := setsockopt y opts v4 in
          let '(opts, errDFIPv6) := setsockopt y opts v6 in
          (opts, None)
      end
  end.

Definition setDontFragment_linux (y : sys_calls) (opts : list sockopt) : list sockopt * option go_error :=
  set_df y ("IPPROTO_IP", "IP_MTU_DISCOVER", "IP_PMTUDISC_DO")%string
    ("IPPROTO_IPV6", "IPV6_MTU_DISCOVER", "IPV6_PMTUDISC_DO")%string opts.

Definition setDontFragment_windows (y : sys_calls) (opts : list sockopt) : list sockopt * option go_error :=
  set_df y ("IPPROTO_IP", "IP_DONTFRAGMENT", "1")%string ("IPPROTO_IPV6", "IP_DONTFRAGMENT", "1")%string opts.

(** [strings.Index(s, sep)] for a single byte. *)
Fixpoint index_byte (s : bytes) (sep : Z) : option nat :=
  match s with
  | [] => None
  | x :: s => if decide (x = sep) then Some 0%nat else S <$> index_byte s sep
  end.

(** [strconv.Atoi]: an optional sign and decimal digits, within [int]. *)
Fixpoint digits (s : bytes) (acc : Z) : option Z :=
  match s with
  | [] => Some acc
  | x :: s => if decide (48 <= x <= 57) then digits s (10 * acc + (x - 48)) else None
  end.

Definition Atoi (s : bytes) : go_error + Z :=
  let '(neg, ds) := match s with
                    | x :: s' => if decide (x = 45) then (true, s') else if decide (x = 43) then (false, s') else (false, s)
                    | [] => (false, [])
                    end in
  match ds with
  | [] => inl "invalid syntax"%string
  | _ =>
      match digits ds 0 with
      | None => inl "invalid syntax"%string
      | Some n =>
          let v := if (neg : bool) then - n else n in
          if decide (- 2 ^ 63 <= v < 2 ^ 63) then inr v else inl "value out of range"%string
      end
  end.

Definition isAtLeastMacOS11 (y : sys_calls) : bool * option go_error :=
  match sys_uname y with
  | inl err => (false, Some err)
  | inr release =>
      match index_byte release 46 with
      | Some idx =>
          match Atoi (take idx release) with
          | inl err => (false, Some err)
          | inr version => (20 <=? version, None)
          end
      | None => (false, None)
      end
  end.

Definition setDontFragment_darwin (y : sys_calls) (opts : list sockopt) : list sockopt * option go_error :=
  let '(supportsDF, err) := isAtLeastMacOS11 y in
  if negb supportsDF || bool_decide (is_Some err) then (opts, err)
  else set_df y ("IPPROTO_IP", "IP_DONTFRAG", "1")%string ("IPPROTO_IPV6", "IPV6_DONTFRAG", "1")%string opts.

(** ** Reads end in time *)

(** The wrapper's read returns at the latest when the timeout has passed: with
    data, if a datagram is waiting before, else with a timeout; while it is
    blocked the socket has the deadline of the timeout. *)
Lemma read_ends c n timeout now t :
  u_closed c = false -> 0 <= timeout -> 0 <= now -> now + timeout < 2 ^ 63 ->
  (now + timeout <= t -> (ReadFromUDPAddrPort c n timeout now t).2 = ReadError err_timeout true) /\
  (t < now + timeout -> ReadFromUDPAddrPort c n timeout now t =
     match u_waiting c with
     | [] => (mkUDPConn (Some (now + timeout)) false [] (u_local c), Blocked)
     | (d, from) :: ds => (mkUDPConn (Some (now + timeout)) false ds (u_local c), ReadData (take (Z.to_nat n) d) from)
     end).
Proof.
  intros Hc H1 H2 H3. unfold ReadFromUDPAddrPort, SetReadDeadline. rewrite Hc.
  assert (to_int (u64 (now + timeout)) = now + timeout) as -> by (unfold u64; rewrite Z.mod_small, to_int_small by lia; done).
  unfold poll. cbn [u_closed u_deadline u_waiting]. split; intros Ht.
  - destruct (Z.leb_spec (now + timeout) t); [done | lia].
  - destruct (Z.leb_spec (now + timeout) t); [lia|]. by destruct (u_waiting c) as [|[d from] ds].
Qed.

(** A short write is an error. *)
Lemma write_complete send b addr : WriteToUDPAddrPort send b addr = None -> send b addr = (len b, None).
Proof.
  unfold WriteToUDPAddrPort. destruct (send b addr) as [n err]. case_decide; [done|]. intros ->. f_equal. lia.
Qed.

(** The don't-fragment option is a best effort: an error comes only from the
    access to the socket, and each of the two options is set exactly if its own
    call succeeds. *)
Lemma set_df_best_effort y v4 v6 opts :
  sys_conn y = None -> sys_control y = None ->
  set_df y v4 v6 opts = (opts ++ filter (fun x => sys_setsockopt y x = None) [v4; v6], None).
Proof.
  intros H1 H2. unfold set_df, setsockopt. rewrite H1, H2.
  destruct (sys_setsockopt y v4) eqn:E4; destruct (sys_setsockopt y v6) eqn:E6;
    rewrite !filter_cons, filter_nil, ?E4, ?E6; repeat (rewrite decide_True by done || rewrite decide_False by done);
    by rewrite ?app_nil_r, <- ?app_assoc.
Qed.

(** The version check on release texts. *)
Example darwin_release :
  let y r := mkSysCalls None None (fun _ => None) (inr r) in
  isAtLeastMacOS11 (y [50; 48; 46; 54]) = (true, None) /\      (* 20.6 *)
  isAtLeastMacOS11 (y [49; 57; 46; 54]) = (false, None) /\     (* 19.6 *)
  isAtLeastMacOS11 (y [50; 48]) = (false, None) /\
  (isAtLeastMacOS11 (y [120; 46])).1 = false.
Proof. repeat split. Qed.

(** ** Corner cases of the code *)

(** [TimeoutReadNow] is meant to end a pending read.  It removes the deadline
    instead: a read that is blocked on a socket without datagrams, and that would
    have timed out, stays blocked for ever. *)
Theorem timeout_read_now_blocks c n timeout now t :
  u_closed c = false -> u_waiting c = [] -> 0 <= timeout -> 0 <= now -> t < now + timeout < 2 ^ 63 ->
  exists c1 c2, ReadFromUDPAddrPort c n timeout now t = (c1, Blocked) /\
    (poll c1 n (now + timeout)).2 = ReadError err_timeout true /\
    TimeoutReadNow c1 = (c2, None) /\ forall t', (poll c2 n t').2 = Blocked.
Proof.
  intros Hc Hw H1 H2 [H3 H4]. destruct (read_ends c n timeout now t Hc H1 H2 H4) as [_ E]. rewrite Hw in E.
  exists (mkUDPConn (Some (now + timeout)) false [] (u_local c)), (mkUDPConn None false [] (u_local c)). split; [by apply E|]. split; [|done].
  unfold poll. cbn [u_closed u_deadline]. by rewrite Z.leb_refl.
Qed.

(** So a stream that notifies the listener of data has a [Listen] that waits on a
    quiet socket wait for ever. *)
Corollary notify_blocks c n timeout now t :
  u_closed (n_conn c) = false -> u_waiting (n_conn c) = [] -> 0 <= timeout -> 0 <= now -> t < now + timeout < 2 ^ 63 ->
  exists c1 c2, nc_ReadFromUDPAddrPort c n timeout now t = (c1, Blocked) /\
    NotifyDataAvailable (Some c1) = Ok (c2, None) /\ forall t', (poll (n_conn c2) n t').2 = Blocked.
Proof.
  intros Hc Hw H1 H2 H3. destruct (timeout_read_now_blocks (n_conn c) n timeout now t Hc Hw H1 H2 H3) as (c1 & c2 & E1 & _ & E2 & Hb).
  exists (mkUDPNetworkConn c1 (n_send c)), (mkUDPNetworkConn c2 (n_send c)). cbn. unfold with_conn. rewrite E1. cbn. rewrite E2. done.
Qed.
