(* ===== verification/Text.v ===== *)
(** * Text: Go's [strings] and [bytes] functions, and the logging set-up
    (src/main.go)

    Text is a list of bytes.  The functions of Go's standard library that the
    program uses are defined on ASCII text as the library defines them; for text
    with bytes from 128 on the library consults the Unicode tables, which are the
    parameters of [UnicodeTables]. *)

From stdpp Require Import prelude list numbers strings.
From S2P Require Import Prelude Hex.
Open Scope Z_scope.

(** What the library does with text that is not ASCII. *)
Class UnicodeTables := {
  map_upper : bytes -> bytes;        (* Map(unicode.ToUpper, s) *)
  map_lower : bytes -> bytes;        (* Map(unicode.ToLower, s) *)
  trim_func : bytes -> bytes;        (* TrimFunc(s, unicode.IsSpace) *)
  trim_right_func : bytes -> bytes;  (* TrimRightFunc(s, unicode.IsSpace) *)
  fields_func : bytes -> list bytes; (* FieldsFunc(s, unicode.IsSpace) *)
}.

(** ** Go's functions *)

Definition RuneSelf : Z := 128.
Definition is_ascii (s : bytes) : bool := forallb (fun c => c <? RuneSelf) s.

Definition upper_byte (c : Z) : Z := if decide (97 <= c <= 122) then c - 32 else c.
Definition lower_byte (c : Z) : Z := if decide (65 <= c <= 90) then c + 32 else c.

(** [\t \n \v \f \r] and the blank. *)
Definition ascii_space (c : Z) : bool := (9 <=? c) && (c <=? 13) || (c =? 32).

(** The start of the text after blanks: [inl] when a byte that is not ASCII was
    met first. *)
Fixpoint skip_space (s : bytes) : bytes + bytes :=
  match s with
  | [] => inr []
  | c :: s' => if RuneSelf <=? c then inl s else if ascii_space c then skip_space s' else inr s
  end.

(** The maximal pieces without blanks; [cur] is the piece being read. *)
Fixpoint fields_from (cur : bytes) (s : bytes) : list bytes :=
  match s with
  | [] => if decide (cur = []) then [] else [cur]
  | c :: s =>
      if ascii_space c then (if decide (cur = []) then [] else [cur]) ++ fields_from [] s
      else fields_from (cur ++ [c]) s
  end.

Section library.
Context `{!UnicodeTables}.

Definition ToUpper (s : bytes) : bytes := if is_ascii s then map upper_byte s else map_upper s.
Definition ToLower (s : bytes) : bytes := if is_ascii s then map lower_byte s else map_lower s.

Definition TrimSpace (s : bytes) : bytes :=
  match skip_space s with
  | inl t => trim_func t
  | inr t => match skip_space (rev t) with inl r => trim_right_func (rev r) | inr r => rev r end
  end.

Definition Fields (s : bytes) : list bytes := if is_ascii s then fields_from [] s else fields_func s.
End library.

(** [bufio.Reader.ReadString('\n')]: up to and with the first newline, or all. *)
Fixpoint ReadString (delim : Z) (s : bytes) : bytes :=
  match s with
  | [] => []
  | c :: s => if c =? delim then [c] else c :: ReadString delim s
  end.

(** *** Numbers *)

(** The digits of [n] in [base], most significant first; [fuel] bounds their number. *)
Fixpoint digits_from (fuel : nat) (base n : Z) (acc : list Z) : list Z :=
  match fuel with
  | O => acc
  | S fuel => if decide (n < base) then n :: acc else digits_from fuel base (n / base) (n mod base :: acc)
  end.

(** Numbers of up to 64 bits. *)
Definition digits (base n : Z) : list Z := digits_from 64 base n [].
Definition digit_char (d : Z) : Z := if decide (d < 10) then 48 + d else 87 + d.
Definition decimal (n : Z) : bytes := map digit_char (digits 10 n).

(** [fmt.Sprintf("%02x", n)] of an [int64]: the sign counts for the width. *)
Definition hex02 (n : Z) : bytes :=
  let d := map digit_char (digits 16 (Z.abs n)) in
  if decide (n < 0) then 45 :: d else replicate (2 - length d) 48 ++ d.

Definition is_digit (c : Z) : bool := (48 <=? c) && (c <=? 57).

Fixpoint leading_digits (s : bytes) : bytes :=
  match s with
  | [] => []
  | c :: s => if is_digit c then c :: leading_digits s else []
  end.

Definition value_of (base : Z) (ds : list Z) : Z := foldl (fun n d => n * base + d) 0 ds.

(** [fmt.Sscanf(s, "%d", &id)] for an [int64] [id] that is 0, for text that does
    not start with a blank: on a failure [id] stays 0. *)
Definition scan_int (s : bytes) : Z :=
  let '(neg, t) := match s with
                   | 43 :: t => (false, t)
                   | 45 :: t => (true, t)
                   | _ => (false, s)
                   end in
  let n := value_of 10 (map (fun c => c - 48) (leading_digits t)) in
  let n := if (neg : bool) then - n else n in
  if decide (- 2 ^ 63 <= n < 2 ^ 63) then n else 0.

(** ** The logging set-up *)

Inductive Level := LevelDebug | LevelInfo | LevelWarn | LevelError.

#[export] Instance Level_eq_dec : EqDecision Level.
Proof. solve_decision. Defined.

Section logging.
Context `{!UnicodeTables}.

(** The level [init] passes to [setupLogger], by the variable LOG_LEVEL. *)
Definition log_level (logLevel : bytes) : Level :=
  let levelStr := ToLower logLevel in
  if decide (levelStr = str "debug") then LevelDebug
  else if decide (levelStr = str "info" \/ levelStr = []) then LevelInfo
  else if decide (levelStr = str "warn" \/ levelStr = str "warning") then LevelWarn
  else if decide (levelStr = str "error") then LevelError
  else LevelInfo.

(** The goroutine id of a log record; [stack] is what [runtime.Stack] has to write. *)
Definition gId (stack : bytes) : go bytes :=
  let buf := take 64 stack in
  idField ← at_ (Fields buf) 1;
  let id := scan_int idField in
  mret (str "0x" ++ hex02 id).
End logging.

(** ** Numbers and their text *)

Section digits.
Context (base : Z) (Hbase : 2 <= base).

Lemma digits_from_value fuel n acc : 0 <= n < base ^ Z.of_nat fuel ->
  foldl (fun n d => n * base + d) 0 (digits_from fuel base n acc) = foldl (fun n d => n * base + d) n acc.
Proof.
  revert n acc. induction fuel as [|fuel IH]; intros n acc Hn; cbn [digits_from]; [by assert (n = 0) as -> by (simpl in Hn; lia)|].
  case_decide; [done|]. rewrite Nat2Z.inj_succ, Z.pow_succ_r in Hn by lia.
  rewrite IH; [cbn [foldl]; f_equal; pose proof (Z.div_mod n base); lia|].
  split; [apply Z.div_pos; lia | apply Z.div_lt_upper_bound; lia].
Qed.

Lemma digits_from_range fuel n acc : 0 <= n < base ^ Z.of_nat fuel -> Forall (fun d => 0 <= d < base) acc ->
  Forall (fun d => 0 <= d < base) (digits_from fuel base n acc).
Proof.
  revert n acc. induction fuel as [|fuel IH]; intros n acc Hn Hacc; cbn [digits_from]; [done|].
  case_decide; [constructor; [lia | done]|]. rewrite Nat2Z.inj_succ, Z.pow_succ_r in Hn by lia.
  apply IH; [|constructor; [apply Z.mod_pos_bound; lia | done]].
  split; [apply Z.div_pos; lia | apply Z.div_lt_upper_bound; lia].
Qed.

Lemma digits_from_length fuel n acc k : (k <= fuel)%nat -> 0 <= n < base ^ Z.of_nat k -> (0 < k)%nat ->
  (length (digits_from fuel base n acc) <= k + length acc)%nat /\ digits_from fuel base n acc <> [].
Proof.
  revert n acc k. induction fuel as [|fuel IH]; intros n acc k Hk Hn H0; [lia|]. cbn [digits_from].
  case_decide; [simpl; split; [lia | done]|]. destruct k as [|k]; [lia|].
  rewrite Nat2Z.inj_succ, Z.pow_succ_r in Hn by lia.
  assert (k <> 0)%nat by (intros ->; simpl in Hn; lia).
  destruct (IH (n / base) (n mod base :: acc) k) as [Hlen Hne]; [lia | | lia | simpl in Hlen; split; [lia | done]].
  split; [apply Z.div_pos; lia | apply Z.div_lt_upper_bound; lia].
Qed.
End digits.

(** The text of a number is up to 19 digits, and is read back. *)
Lemma decimal_spec n : 0 <= n < 2 ^ 63 ->
  Forall (fun c => is_digit c = true) (decimal n) /\ (length (decimal n) <= 19)%nat /\ decimal n <> [] /\
  value_of 10 (map (fun c => c - 48) (decimal n)) = n.
Proof.
  intros Hn. assert (0 <= n < 10 ^ Z.of_nat 64) as Hf by (split; [lia|]; eapply Z.lt_trans; [apply Hn | done]).
  unfold decimal, digits. pose proof (digits_from_range 10 ltac:(lia) 64 n [] Hf (Forall_nil_2 _)) as Hr.
  destruct (digits_from_length 10 ltac:(lia) 64 n [] 19) as [Hl Hne]; [lia | split; [lia|]; eapply Z.lt_trans; [apply Hn | done] | lia|].
  pose proof (digits_from_value 10 ltac:(lia) 64 n [] Hf) as Hv. set (ds := digits_from 64 10 n []) in *.
  split_and!; [|by rewrite length_map; simpl in Hl; lia | intros E; apply Hne; by destruct ds|].
  - apply Forall_fmap. eapply Forall_impl; [exact Hr|]. intros d Hd. cbn beta in Hd |- *. unfold is_digit, digit_char, compose. rewrite decide_True by lia. apply andb_true_intro. split; apply Z.leb_le; lia.
  - rewrite map_map. unfold value_of. cbn [foldl] in Hv. etrans; [|exact Hv]. f_equal.
    clear -Hr. induction Hr as [|d ds Hd _ IH]; [done|]. cbn [map]. rewrite IH. f_equal. unfold digit_char. rewrite decide_True; lia.
Qed.

Lemma leading_digits_all s : Forall (fun c => is_digit c = true) s -> leading_digits s = s.
Proof. induction 1 as [|c s Hc _ IH]; [done|]. cbn. by rewrite Hc, IH. Qed.

Lemma scan_int_decimal n : 0 <= n < 2 ^ 63 -> scan_int (decimal n) = n.
Proof.
  intros Hn. destruct (decimal_spec n Hn) as (Hd & _ & _ & Hv). unfold scan_int.
  assert (match decimal n with 43 :: t => (false, t) | 45 :: t => (true, t) | _ => (false, decimal n) end = (false, decimal n)) as ->.
  { destruct Hd as [|c s Hc Hs]; [done|]. unfold is_digit in Hc.
    destruct c as [|c|c]; [done| |done]. do 6 (destruct c as [c|c|]; try done). }
  rewrite leading_digits_all by done. rewrite Hv. by rewrite decide_True by lia.
Qed.

Lemma fields_word w : forall cur s, Forall (fun c => ascii_space c = false) w ->
  fields_from cur (w ++ 32 :: s) = (if decide (cur ++ w = []) then [] else [cur ++ w]) ++ fields_from [] s.
Proof.
  induction w as [|c w IH]; intros cur s Hw; [cbn; by rewrite app_nil_r|].
  apply Forall_cons in Hw as [Hc Hw]. cbn [app fields_from]. rewrite Hc, IH by done. by rewrite <- app_assoc.
Qed.

Lemma is_ascii_app s t : is_ascii (s ++ t) = is_ascii s && is_ascii t.
Proof. apply forallb_app. Qed.

(** The goroutine id of a log record is that of the stack trace, in hexadecimal. *)
Theorem gid_is_goroutine `{!UnicodeTables} (n : Z) (rest : bytes) :
  0 <= n < 2 ^ 63 -> is_ascii rest = true ->
  gId (str "goroutine " ++ decimal n ++ str " [" ++ rest) = Ok (str "0x" ++ hex02 n).
Proof.
  intros Hn Hr. destruct (decimal_spec n Hn) as (Hd & Hl & Hne & _). unfold gId.
  set (word := str "goroutine"). change (str "goroutine ") with (word ++ [32]). change (str " [" ++ rest) with (32 :: 91 :: rest).
  rewrite <- app_assoc. cbn [app]. set (t := decimal n ++ 32 :: 91 :: rest).
  assert (exists rest', take 64 (word ++ 32 :: t) = word ++ 32 :: decimal n ++ 32 :: rest' /\ is_ascii rest' = true) as (rest' & -> & Hr').
  { exists (take (53 - length (decimal n)) (91 :: rest)). split.
    - rewrite take_app, (take_ge word) by (cbn; lia). f_equal.
      change (64 - length word)%nat with (S 54). cbn [take]. f_equal. unfold t. rewrite take_app, take_ge by lia. f_equal.
      replace (54 - length (decimal n))%nat with (S (53 - length (decimal n))) by lia. done.
    - unfold is_ascii in *. apply forallb_forall. intros x Hx. assert (In x (91 :: rest)) as [<-|Hin]; [|done|].
      + rewrite <- (take_drop (53 - length (decimal n)) (91 :: rest)). apply in_or_app. by left.
      + rewrite forallb_forall in Hr. by apply Hr. }
  assert (is_ascii (decimal n) = true) as Ha.
  { apply forallb_forall. intros x Hx. rewrite Forall_forall in Hd. apply list_elem_of_In, Hd in Hx. unfold is_digit, RuneSelf in *. lia. }
  unfold Fields. rewrite is_ascii_app. change (is_ascii word) with true.
  change (32 :: decimal n ++ 32 :: rest') with ([32] ++ decimal n ++ [32] ++ rest'). rewrite !is_ascii_app, Ha, Hr'. cbn [andb is_ascii forallb].
  change ([32] ++ decimal n ++ [32] ++ rest') with (32 :: decimal n ++ 32 :: rest').
  rewrite fields_word by (by repeat constructor). cbn [app].
  rewrite fields_word; [|eapply Forall_impl; [exact Hd|]; intros c; cbn beta; unfold is_digit, ascii_space; lia].
  cbn [app]. rewrite !decide_False by done. cbn [app].
  unfold at_.
  change (Ok (str "0x" ++ hex02 (scan_int (decimal n))) = Ok (str "0x" ++ hex02 n)). by rewrite scan_int_decimal.
Qed.
