(* ===== verification/Logging.v ===== *)
(** * Logging: what log records say, and how they are set up (the [debug]
    methods of src/snd.go, src/conn.go, src/stream.go and src/listener.go, and
    [init] and [setupLogger] of src/main.go)

    A record is a tree of attributes, as in Go's [log/slog].  The colour library
    is a parameter. *)

From stdpp Require Import prelude list numbers strings.
From S2P Require Import Prelude Measurement LinkedMap SortedMap Rcv Crypto Snd Conn Streams Inversion Flow Hex Net Text.
Open Scope Z_scope.

(** ** Attributes *)

Inductive Attr :=
  | AString (key : string) (value : bytes)
  | AUint64 (key : string) (value : Z)
  | AInt (key : string) (value : Z)
  | ABool (key : string) (value : bool)
  | AGroup (key : string) (attrs : list Attr).

(** Every number of a record is in the range of its Go type. *)
Fixpoint attr_ok (a : Attr) : bool :=
  match a with
  | AUint64 _ v => bool_decide (is_u64 v)
  | AInt _ v => bool_decide (- 2 ^ 63 <= v < 2 ^ 63)
  | AGroup _ attrs => forallb attr_ok attrs
  | _ => true
  end.

(** ** The [debug] methods *)

(** [s] may be nil. *)
Definition sendInfo_debug (s : option SendInfo) : Attr :=
  match s with
  | None => AString "meta" (str "n/a")
  | Some s => AGroup "meta" [AUint64 "sentTimeNano:ms" (sentTimeNano s / msNano); AInt "sentNr" (sentNr s)]
  end.

Definition listener_debug {C} `{!NetworkConn C} (localConn : option C) : Attr :=
  match localConn with
  | None => AString "net" (str "n/a")
  | Some n => AString "net" (nc_LocalAddrString n)
  end.

(** The pointers of a stream: its connection, the listener of that, its socket. *)
Definition stream_debug {C} `{!NetworkConn C} (conn : option (option (option C))) : Attr :=
  match conn with
  | None => AString "net" (str "s.conn is nil")
  | Some None => AString "net" (str "s.conn.listener is nil")
  | Some (Some None) => AString "net" (str "s.conn.listener.localConn is nil")
  | Some (Some (Some n)) => AString "net" (nc_LocalAddrString n)
  end.

Definition conn_debug {PubKey PrvKey} (cfg : ListenerCfg PrvKey) (c : Conn PubKey PrvKey) : Attr :=
  AGroup "connection" [
    AUint64 "nextWrt:ms" (nextWriteTime c / msNano);
    AInt "inFlight" (i64 (dataInFlight c + l_mtu cfg));
    AInt "rcvBuf" (i64 (capacity (c_rcv c) - rb_size (c_rcv c)));
    AUint64 "rcvWnd" (rcvWndSize c);
    AUint64 "snCrypto" (snCrypto c);
    AUint64 "epochSnd" (epochCryptoSnd c);
    AUint64 "epochRcv" (epochCryptoRcv c);
    ABool "initsent" (isInitSentOnSnd c);
    ABool "hndshke" (isHandshakeDoneOnRcv c)].

(** ** Set-up *)

(** What the program uses of github.com/fatih/color; [HiWhiteString] looks at the
    variable [NoColor] of the library. *)
Class ColorLibrary := {
  Color : Type;
  FgHiWhite : Color;                              (* color.New(color.FgHiWhite) *)
  HiWhiteString : bool -> bytes -> bytes;         (* NoColor, the text *)
}.

(** The fields of [slogcolor.Options] that are set. *)
Record Options `{!ColorLibrary} := mkOptions {
  o_Level : Level;
  o_TimeFormat : bytes;
  o_ShortFile : bool;          (* SrcFileMode: slogcolor.ShortFile *)
  o_SrcFileLength : Z;
  o_MsgPrefix : bytes;
  o_MsgColor : Color;
  o_MsgLength : Z;
}.

(** The variables of the libraries: [color.NoColor] and the handler of [slog]. *)
Record log_state `{!ColorLibrary} := mkLogState {
  noColor : bool;
  defaultLogger : option Options;
}.

Arguments mkLogState {_} _ _.
Arguments noColor {_} _.
Arguments defaultLogger {_} _.
Arguments o_MsgPrefix {_} _.

Section set_up.
Context `{!ColorLibrary} `{!UnicodeTables}.

Definition setupLogger (level : Level) (s : log_state) : log_state :=
  let logger := {| o_Level := level; o_TimeFormat := str "15:04:05.000"; o_ShortFile := true; o_SrcFileLength := 16;
                   o_MsgPrefix := HiWhiteString (noColor s) (str "|"); o_MsgColor := FgHiWhite; o_MsgLength := 24 |} in
  let s := mkLogState false (defaultLogger s) in
  mkLogState (noColor s) (Some logger).

(** [init], by the variable LOG_LEVEL. *)
Definition init (logLevel : bytes) (s : log_state) : log_state := setupLogger (log_level logLevel) s.
End set_up.

(** ** Records *)

(** The record of a connection with its fields in range has its numbers in range. *)
Lemma conn_debug_ok {PubKey PrvKey} (cfg : ListenerCfg PrvKey) (c : Conn PubKey PrvKey) :
  is_u64 (nextWriteTime c) -> is_u64 (rcvWndSize c) -> is_u64 (snCrypto c) -> is_u64 (epochCryptoSnd c) -> is_u64 (epochCryptoRcv c) ->
  attr_ok (conn_debug cfg c) = true.
Proof.
  intros Hn Hr Hs He Hf. cbn. assert (is_u64 (nextWriteTime c / msNano)) as Hd.
  { unfold is_u64 in *. change msNano with 1000000. split; [apply Z.div_pos; lia|]. apply Z.div_lt_upper_bound; lia. }
  rewrite !bool_decide_true by (done || apply i64_int64). done.
Qed.

(** Two connections that agree but for keys, peer, streams and contents of the
    buffers have the same record: nothing of those is logged. *)
Lemma conn_debug_secret {PubKey PrvKey} (cfg : ListenerCfg PrvKey) (c : Conn PubKey PrvKey) addr m prv (ep id : option PubKey) secret sb segs acks meas :
  conn_debug cfg c = conn_debug cfg (mkConn (connId c) addr m prv ep id secret sb (mkReceiveBuffer segs (capacity (c_rcv c)) (rb_size (c_rcv c)) acks)
    (dataInFlight c) (rcvWndSize c) (isSenderOnInit c) (isWithCryptoOnInit c) (isHandshakeDoneOnRcv c) (isInitSentOnSnd c)
    (nextWriteTime c) (snCrypto c) (epochCryptoSnd c) (epochCryptoRcv c) meas).
Proof. done. Qed.

(** The prefix of messages is made before the colours are turned on: a program
    that starts with its output redirected has coloured messages behind a plain
    prefix. *)
Theorem prefix_before_colour `{!ColorLibrary} `{!UnicodeTables} (logLevel : bytes) (s : log_state) :
  (forall t, HiWhiteString true t = t) -> noColor s = true ->
  noColor (init logLevel s) = false /\ o_MsgPrefix <$> defaultLogger (init logLevel s) = Some (str "|").
Proof. intros Hp Hs. split; [done|]. cbn. by rewrite Hs, Hp. Qed.
