(* ===== verification/Locks.v ===== *)
(** * Locks: which mutexes the program holds when it takes others

    The other files model a method as one step, as if it ran alone.  Methods run
    on several goroutines, and what they share is guarded by mutexes: of the
    listener, of a connection, of a stream, of the two buffers, of every map and
    of the socket.  Here a call is the tree of the locks that it takes, each with
    the locks that it takes while it holds that one ([defer] releases in the
    reverse order); what depends on data is an argument of the call.  A goroutine
    runs any sequence of calls. *)

From stdpp Require Import prelude list numbers strings relations.
From S2P Require Import Prelude.
Open Scope Z_scope.

(** ** Locks and calls *)

Inductive lock :=
  | LNet                    (* UDPNetworkConn.mu *)
  | LListener               (* Listener.mu *)
  | LConn (c : Z)           (* Conn.mu, by connection id *)
  | LConnMap                (* Listener.connMap.mu *)
  | LStreams (c : Z)        (* Conn.streams.mu *)
  | LStream (c s : Z)       (* Stream.mu *)
  | LSnd (c : Z)            (* SendBuffer.mu *)
  | LInFlight (c s : Z)     (* StreamBuffer.dataInFlightMap.mu *)
  | LRcv (c : Z)            (* ReceiveBuffer.mu *)
  | LSegments (c s : Z).    (* RcvBuffer.segments.mu *)

#[export] Instance lock_eq_dec : EqDecision lock.
Proof. solve_decision. Defined.

(** A lock is held while the body runs; [w] tells [Lock] from [RLock]. *)
Inductive block := Under (k : lock) (w : bool) (body : list block).

Notation calls := (list block).

(** *** The maps *)

(** [Size], [Get], [Contains], [First], [Next], [Previous], [Prev] and [Min] ... *)
Definition map_read (k : lock) : calls := [Under k false []].

(** ... and [Put], [Remove] and [Replace]. *)
Definition map_write (k : lock) : calls := [Under k true []].

(** The body of the loop runs under the lock. *)
Definition Iterator (k : lock) (body : calls) : calls := [Under k false body].

(** A sequence of such operations on one map. *)
Definition accesses (k : lock) (ops : list bool) : calls :=
  concat (map (fun w : bool => if w then map_write k else map_read k) ops).

(** *** The buffers *)

(** A method of the receive buffer of connection [c], with its operations on the
    segments of stream [s]: none but for [Insert] ([Get], [Prev], [Next],
    [Remove], [Put]) and [RemoveOldestInOrder] ([Min], [Remove]). *)
Definition rcv_call (c s : Z) (segments : list bool) : calls := [Under (LRcv c) true (accesses (LSegments c s) segments)].

(** A method of the send buffer, with its operations on the packets in flight:
    [ReadyToSend] ([Put]), [ReadyToRetransmit] ([First], [Remove], [Put],
    [Replace]), [AcknowledgeRange] ([Remove]), [GetOffsetAcked] ([First]). *)
Definition snd_call (c s : Z) (flight : list bool) : calls := [Under (LSnd c) true (accesses (LInFlight c s) flight)].

(** *** Connections (src/conn.go) *)

Definition conn_Close (c : Z) (streams : list Z) : calls :=
  [Under (LConn c) true (Iterator (LStreams c) (concat (map (fun s => snd_call c s []) streams)))].

(** [found]: the stream exists. *)
Definition conn_Stream (c : Z) (found : bool) : calls :=
  map_read (LStreams c) ++ if found then [] else map_write (LStreams c).

(** [closed]: a close offset is set; [flight]: the look at the first packet. *)
Definition checkStreamFullyAcked (c s : Z) (closed : bool) (flight : list bool) : calls :=
  snd_call c s [] ++ if closed then snd_call c s flight else [].

(** [ack]: its stream, the operations of [AcknowledgeRange], and those of the
    check; [data]: the operations of [Insert], none for [EmptyInsert]. *)
Definition conn_decode (c s : Z) (found : bool) (ack : option (Z * list bool * bool * list bool)) (data : option (list bool)) (isClose : bool) : calls :=
  [Under (LConn c) true (
    conn_Stream c found ++
    match ack with
    | Some (sAck, removed, closed, flight) => snd_call c sAck removed ++ checkStreamFullyAcked c s closed flight
    | None => []
    end ++
    match data with Some segments => rcv_call c s segments | None => [] end ++
    if isClose then rcv_call c s [] ++ snd_call c s [] else [])].

(** [GetSndAck] and, with an acknowledgement, [Size]; then, as far as the flush
    gets, [ReadyToRetransmit], [ReadyToSend] and the check of [writeAck]. *)
Definition conn_Flush (c s : Z) (ack : bool) (resend send : option (list bool)) (answer : option (bool * list bool)) : calls :=
  rcv_call c s [] ++ (if ack then rcv_call c s [] else []) ++
  match resend with Some flight => snd_call c s flight | None => [] end ++
  match send with Some flight => snd_call c s flight | None => [] end ++
  match answer with Some (closed, flight) => checkStreamFullyAcked c s closed flight | None => [] end.

(** [current]: the removed stream, or connection, is the current one. *)
Definition cleanupStream (c : Z) (current : bool) : calls := (if current then map_read (LStreams c) else []) ++ map_write (LStreams c).
Definition cleanupConn (current : bool) : calls := (if current then map_read LConnMap else []) ++ map_write LConnMap.

(** *** Streams (src/stream.go) *)

Definition stream_Read (c s : Z) (segments : option (list bool)) : calls :=
  [Under (LStream c s) true (rcv_call c s [] ++ match segments with Some segments => rcv_call c s segments | None => [] end)].

(** [asked]: the close offset was looked at; [queued]: [QueueData] was called. *)
Definition stream_Write (c s : Z) (asked queued : bool) : calls :=
  [Under (LStream c s) true ((if asked then snd_call c s [] else []) ++ if queued then snd_call c s [] else [])].

(** *** The listener (src/listener.go, src/codec.go) *)

(** [added]: the connection is new and its keys can be logged. *)
Definition newConn (added : bool) : calls := [Under LListener true (map_read LConnMap ++ if added then map_write LConnMap else [])].

(** It ranges over the map of connections itself. *)
Definition listener_Close (conns : list (Z * list Z)) : calls :=
  [Under LListener true (concat (map (fun x => conn_Close x.1 x.2) conns))].

(** [missing]: no connection for a data packet; [new]: a connection is made for a
    first message, and whether it could be added. *)
Definition listener_decode (missing : bool) (new : option bool) : calls :=
  map_read LConnMap ++ (if missing then map_read LConnMap else []) ++
  match new with Some added => newConn added ++ if added then map_write LConnMap else [] | None => [] end.

(** The read of the socket, then what the datagram has it do. *)
Definition listener_Listen (dec : option (bool * option bool)) (processed : calls) : calls :=
  [Under LNet true []] ++
  match dec with Some (missing, new) => listener_decode missing new ++ processed | None => [] end.

(** The flushes of the streams of the connections, under the locks of both maps,
    and then the clean-up. *)
Definition listener_Flush (visited : option (list (Z * list calls))) (cleanConns : list bool) (cleanStreams : list (Z * bool)) : calls :=
  map_read LConnMap ++
  match visited with
  | Some conns => Iterator LConnMap (concat (map (fun x => Iterator (LStreams x.1) (concat x.2)) conns))
  | None => []
  end ++
  concat (map cleanupConn cleanConns) ++ concat (map (fun x => cleanupStream x.1 x.2) cleanStreams).

Definition listener_ForceClose (current : bool) : calls := cleanupConn current.

(** ** Goroutines *)

(** What [Listen] does with a payload, what [Flush] does with a stream of a
    connection, and the calls that an application can make.  [Ping], [Close],
    [IsCloseRequested] of a stream are calls of the send buffer; [Loop] is a
    sequence of [Listen], the callback, and [Flush]. *)
Definition processed (bs : calls) : Prop := bs = [] \/ exists c s found ack data isClose, bs = conn_decode c s found ack data isClose.
Definition flushed (c : Z) (bs : calls) : Prop := exists s ack resend send answer, bs = conn_Flush c s ack resend send answer.

Inductive call : calls -> Prop :=
  | call_Listen dec bs : processed bs -> call (listener_Listen dec bs)
  | call_Flush visited cleanConns cleanStreams :
      (forall conns, visited = Some conns -> Forall (fun x => Forall (flushed x.1) x.2) conns) ->
      call (listener_Flush visited cleanConns cleanStreams)
  | call_Close conns : call (listener_Close conns)
  | call_ForceClose current : call (listener_ForceClose current)
  | call_Dial added : call (newConn added)
  | call_Stream c found : call (conn_Stream c found)
  | call_conn_Close c streams : call (conn_Close c streams)
  | call_conn_Flush c bs : flushed c bs -> call bs
  | call_Read c s segments : call (stream_Read c s segments)
  | call_Write c s asked queued : call (stream_Write c s asked queued)
  | call_snd c s : call (snd_call c s []).

Inductive action := Acquire (k : lock) (w : bool) | Release (k : lock).

#[export] Instance action_eq_dec : EqDecision action.
Proof. solve_decision. Defined.

Fixpoint trace (b : block) : list action :=
  match b with Under k w body => Acquire k w :: concat (map trace body) ++ [Release k] end.

Definition traces (bs : calls) : list action := concat (map trace bs).

(** A goroutine: the locks it holds, the last first, and what it has to do. *)
Record thread := mkThread { held : list (lock * bool); todo : list action }.

(** [Lock] waits until nobody holds the lock, [RLock] until nobody holds it by
    [Lock]. *)
Definition free_for (ts : list thread) (k : lock) (w : bool) : Prop :=
  forall t w', t ∈ ts -> (k, w') ∈ held t -> w = false /\ w' = false.

Inductive lstep : list thread -> list thread -> Prop :=
  | st_acquire ts1 ts2 h k w rest :
      free_for (ts1 ++ mkThread h (Acquire k w :: rest) :: ts2) k w ->
      lstep (ts1 ++ mkThread h (Acquire k w :: rest) :: ts2) (ts1 ++ mkThread ((k, w) :: h) rest :: ts2)
  | st_release ts1 ts2 h k w rest :
      lstep (ts1 ++ mkThread ((k, w) :: h) (Release k :: rest) :: ts2) (ts1 ++ mkThread h rest :: ts2).

(** [RLock] of an [RWMutex] also waits for a [Lock] that waits. *)
Definition wants_write (k : lock) (t : thread) : Prop := exists rest, todo t = Acquire k true :: rest.

Definition can_move (ts : list thread) (t : thread) : Prop :=
  match todo t with
  | [] => False
  | Acquire k w :: _ => free_for ts k w /\ (w = false -> forall t', t' ∈ ts -> ~ wants_write k t')
  | Release _ :: _ => True
  end.

(** Goroutines that start with programs [ps]. *)
Definition start (ps : list calls) : list thread := map (fun bs => mkThread [] (traces bs)) ps.
Definition program (bs : calls) : Prop := exists cs, Forall call cs /\ bs = concat cs.
Definition finished (ts : list thread) : Prop := Forall (fun t => todo t = []) ts.
Definition remaining (ts : list thread) : nat := sum_list_with (fun t => length (todo t)) ts.

(** Two goroutines hold a lock only if both read. *)
Definition exclusive (ts : list thread) : Prop :=
  forall i j t t' k w w', ts !! i = Some t -> ts !! j = Some t' -> i <> j -> (k, w) ∈ held t -> (k, w') ∈ held t' -> w = false /\ w' = false.

(** ** The order of the locks *)

Definition rank (k : lock) : Z :=
  match k with
  | LNet => 1 | LListener => 2 | LConn _ => 3 | LConnMap => 4 | LStreams _ => 5 | LStream _ _ => 6
  | LSnd _ => 7 | LInFlight _ _ => 8 | LRcv _ => 9 | LSegments _ _ => 10
  end.

(** Every lock of the call is above [r], and above those it is taken under. *)
Fixpoint ordered (r : Z) (b : block) : bool :=
  match b with Under k _ body => (r <? rank k) && forallb (ordered (rank k)) body end.

Definition all_ordered (r : Z) (bs : calls) : Prop := forallb (ordered r) bs = true.

Lemma ordered_app r bs bs' : all_ordered r bs -> all_ordered r bs' -> all_ordered r (bs ++ bs').
Proof. unfold all_ordered. intros H1 H2. by rewrite forallb_app, H1, H2. Qed.

Lemma ordered_concat {A} r (f : A -> calls) (xs : list A) : (forall x, x ∈ xs -> all_ordered r (f x)) -> all_ordered r (concat (map f xs)).
Proof.
  induction xs as [|x xs IH]; intros H; [done|]. cbn. apply ordered_app; [apply H; by left|]. apply IH. intros y Hy. apply H. by right.
Qed.

Lemma ordered_under r k w body : r < rank k -> all_ordered (rank k) body -> all_ordered r [Under k w body].
Proof. unfold all_ordered. cbn. intros Hr ->. by destruct (Z.ltb_spec r (rank k)); [|lia]. Qed.

Lemma ordered_accesses r k ops : r < rank k -> all_ordered r (accesses k ops).
Proof. intros Hr. apply ordered_concat. intros [] _; by apply ordered_under. Qed.

Create HintDb locks.
#[export] Hint Resolve ordered_app ordered_under ordered_accesses : locks.
#[export] Hint Extern 1 (_ < _) => (cbn; lia) : locks.
#[export] Hint Extern 1 (all_ordered _ []) => reflexivity : locks.
#[export] Hint Extern 2 (all_ordered _ (concat (map _ _))) => (apply ordered_concat; intros; cbn beta) : locks.

Lemma ordered_rcv r c s ops : r < 9 -> all_ordered r (rcv_call c s ops).
Proof. unfold rcv_call. eauto with locks. Qed.

Lemma ordered_snd r c s ops : r < 7 -> all_ordered r (snd_call c s ops).
Proof. unfold snd_call. eauto with locks. Qed.

Lemma ordered_read r k : r < rank k -> all_ordered r (map_read k).
Proof. unfold map_read. eauto with locks. Qed.

Lemma ordered_write r k : r < rank k -> all_ordered r (map_write k).
Proof. unfold map_write. eauto with locks. Qed.

#[export] Hint Resolve ordered_rcv ordered_snd ordered_read ordered_write : locks.
#[export] Hint Extern 1 (all_ordered _ (if ?b then _ else _)) => destruct b : locks.
#[export] Hint Extern 1 (all_ordered _ (match ?x with Some _ => _ | None => _ end)) => destruct x : locks.

Lemma ordered_Close r c ss : r < 3 -> all_ordered r (conn_Close c ss).
Proof. intros Hr. unfold conn_Close, Iterator. auto 8 with locks. Qed.

Lemma ordered_checked r c s closed flight : r < 7 -> all_ordered r (checkStreamFullyAcked c s closed flight).
Proof. intros Hr. unfold checkStreamFullyAcked. auto 8 with locks. Qed.

Lemma ordered_Stream r c found : r < 5 -> all_ordered r (conn_Stream c found).
Proof. intros Hr. unfold conn_Stream. auto 8 with locks. Qed.

#[export] Hint Resolve ordered_Close ordered_checked ordered_Stream : locks.

Lemma ordered_decode c s found ack data isClose : all_ordered 0 (conn_decode c s found ack data isClose).
Proof. unfold conn_decode. apply ordered_under; [done|]. destruct ack as [[[[? ?] ?] ?]|]; auto 10 with locks. Qed.

Lemma ordered_flushed r c bs : r < 7 -> flushed c bs -> all_ordered r bs.
Proof.
  intros Hr (s & ack & resend & send & answer & ->). unfold conn_Flush. destruct answer as [[? ?]|]; auto 10 with locks.
Qed.

Lemma ordered_newConn added : all_ordered 0 (newConn added).
Proof. unfold newConn. auto 8 with locks. Qed.

#[export] Hint Resolve ordered_decode ordered_newConn : locks.

(** Every call takes locks upwards. *)
Lemma call_ordered bs : call bs -> all_ordered 0 bs.
Proof.
  intros [dec bs' Hp|visited cc cs Hv|conns|current|added|c found|c ss|c bs' Hf|c s segments|c s asked queued|c s].
  - assert (all_ordered 0 bs') as Hbs by (destruct Hp as [->|(c & s & found & ack & data & isClose & ->)]; auto with locks).
    unfold listener_Listen, listener_decode. destruct dec as [[missing new]|]; auto 10 with locks.
  - unfold listener_Flush. apply ordered_app; [auto with locks|]. apply ordered_app; [|unfold cleanupConn, cleanupStream; auto 8 with locks].
    destruct visited as [conns|]; [|done]. specialize (Hv conns eq_refl). rewrite Forall_forall in Hv.
    apply ordered_under; [done|]. apply ordered_concat. intros x Hx. apply ordered_under; [cbn; lia|].
    rewrite <- (map_id x.2). apply ordered_concat. intros y Hy. specialize (Hv x Hx). rewrite Forall_forall in Hv.
    by apply (ordered_flushed _ x.1), Hv.
  - unfold listener_Close. auto 8 with locks.
  - unfold listener_ForceClose, cleanupConn. auto 8 with locks.
  - auto with locks.
  - auto with locks.
  - auto with locks.
  - by apply (ordered_flushed _ c).
  - unfold stream_Read. auto 8 with locks.
  - unfold stream_Write. auto 8 with locks.
  - auto with locks.
Qed.

(** ** Runs *)

(** What a goroutine has to do takes locks above those that it holds, and
    releases the last first. *)
Fixpoint disciplined (h : list (lock * bool)) (acts : list action) : bool :=
  match acts with
  | [] => bool_decide (h = [])
  | Acquire k w :: acts => forallb (fun x => rank x.1 <? rank k) h && disciplined ((k, w) :: h) acts
  | Release k :: acts => match h with x :: h => bool_decide (x.1 = k) && disciplined h acts | [] => false end
  end.

Lemma trace_disciplined : forall b r h acts,
  forallb (fun x => rank x.1 <=? r) h = true -> ordered r b = true -> disciplined h acts = true -> disciplined h (trace b ++ acts) = true.
Proof.
  fix IH 1. intros [k w body] r h acts Hh Hb Hacts. cbn in Hb. apply andb_true_iff in Hb as [Hr Hbody]. apply Z.ltb_lt in Hr.
  cbn [trace]. rewrite <- app_comm_cons, <- app_assoc. cbn [disciplined]. apply andb_true_iff. split.
  - rewrite forallb_forall in *. intros x Hx. specialize (Hh x Hx). lia.
  - assert (forallb (fun x => rank x.1 <=? rank k) ((k, w) :: h) = true) as Hh'.
    { cbn. rewrite Z.leb_refl. cbn. rewrite forallb_forall in *. intros x Hx. specialize (Hh x Hx). lia. }
    assert (disciplined ((k, w) :: h) ([Release k] ++ acts) = true) as Hrel by (cbn; by rewrite bool_decide_true by done).
    revert Hrel Hh' Hbody. generalize ((k, w) :: h) ([Release k] ++ acts). intros h' acts' Hrel Hh'.
    revert acts' Hrel. induction body as [|b body IHb]; intros acts' Hrel Hbody; [done|].
    cbn in Hbody. apply andb_true_iff in Hbody as [Hb1 Hb2]. cbn [map concat]. rewrite <- app_assoc.
    apply (IH b (rank k)); [done | done|]. by apply IHb.
Qed.

Lemma traces_disciplined bs : all_ordered 0 bs -> disciplined [] (traces bs) = true.
Proof.
  unfold all_ordered, traces. induction bs as [|b bs IH]; intros H; [done|]. cbn in H. apply andb_true_iff in H as [H1 H2].
  cbn [map concat]. apply (trace_disciplined b 0); [done | done | by apply IH].
Qed.

Definition ok (t : thread) : Prop := disciplined (held t) (todo t) = true.

Lemma start_ok ps : Forall program ps -> Forall ok (start ps).
Proof.
  intros H. apply Forall_fmap. eapply Forall_impl; [exact H|]. intros bs (cs & Hcs & ->). apply traces_disciplined.
  rewrite <- (map_id cs). apply ordered_concat. intros x Hx. rewrite Forall_forall in Hcs. by apply call_ordered, Hcs.
Qed.

Lemma lstep_ok ts ts' : lstep ts ts' -> Forall ok ts -> Forall ok ts'.
Proof.
  intros [ts1 ts2 h k w rest _|ts1 ts2 h k w rest]; rewrite !Forall_app, !Forall_cons; intros (H1 & H & H2); (split; [done|]; split; [|done]).
  - unfold ok in *. cbn in *. by apply andb_true_iff in H as [_ H].
  - unfold ok in *. cbn in *. by apply andb_true_iff in H as [_ H].
Qed.

Lemma lstep_remaining ts ts' : lstep ts ts' -> remaining ts = S (remaining ts').
Proof. intros []; unfold remaining; rewrite !sum_list_with_app; cbn; lia. Qed.

Lemma lookup_middle_cases {A} (l1 l2 : list A) x i y :
  (l1 ++ x :: l2) !! i = Some y -> i = length l1 /\ y = x \/ i <> length l1 /\ forall z, (l1 ++ z :: l2) !! i = Some y.
Proof.
  intros H. destruct (decide (i = length l1)) as [->|Hi].
  - rewrite list_lookup_middle in H by done. left. by injection H as ->.
  - right. split; [done|]. intros z. destruct (decide (i < length l1)%nat).
    + rewrite lookup_app_l in * by done. done.
    + rewrite lookup_app_r in * by lia. destruct (i - length l1)%nat eqn:E; [lia|]. done.
Qed.

Lemma lstep_exclusive ts ts' : lstep ts ts' -> exclusive ts -> exclusive ts'.
Proof.
  intros [ts1 ts2 h k w rest Hfree|ts1 ts2 h k w rest] Hex i j t t' k' w1 w2 Hi Hj Hne H1 H2;
    apply lookup_middle_cases in Hi as [[-> ->]|[Hi' Hi]]; apply lookup_middle_cases in Hj as [[-> ->]|[Hj' Hj]]; try done.
  - cbn in H1. apply elem_of_cons in H1 as [[= -> ->]|H1].
    + apply (Hfree t'); [|done]. by eapply list_elem_of_lookup_2, (Hj _).
    + eapply (Hex (length ts1) j); [by apply list_lookup_middle | apply Hj | done | exact H1 | exact H2].
  - cbn in H2. apply elem_of_cons in H2 as [[= -> ->]|H2].
    + destruct (Hfree t w1) as [? ?]; [by eapply list_elem_of_lookup_2, (Hi _) | done | done].
    + eapply (Hex i (length ts1)); [apply Hi | by apply list_lookup_middle | done | exact H1 | exact H2].
  - by eapply (Hex i j); [apply Hi | apply Hj | done | exact H1 | exact H2].
  - eapply (Hex (length ts1) j); [by apply list_lookup_middle | apply Hj | done | right; exact H1 | exact H2].
  - eapply (Hex i (length ts1)); [apply Hi | by apply list_lookup_middle | done | exact H1 | right; exact H2].
  - by eapply (Hex i j); [apply Hi | apply Hj | done | exact H1 | exact H2].
Qed.

(** ** No deadlock *)

(** A goroutine that holds a lock has not finished, and what it takes next is
    above that lock. *)
Lemma ok_holds t k w : ok t -> (k, w) ∈ held t ->
  (exists k' rest, todo t = Release k' :: rest) \/ exists k' w' rest, todo t = Acquire k' w' :: rest /\ rank k < rank k'.
Proof.
  unfold ok. intros H Hin. destruct (todo t) as [|[k' w'|k'] rest]; cbn in H.
  - apply bool_decide_eq_true in H. rewrite H in Hin. by apply not_elem_of_nil in Hin.
  - right. exists k', w', rest. split; [done|]. apply andb_true_iff in H as [H _]. rewrite forallb_forall in H.
    apply list_elem_of_In in Hin. specialize (H _ Hin). cbn in H. lia.
  - left. by exists k', rest.
Qed.

(** The goroutine that wants the highest lock, if none releases one. *)
Lemma highest (ts : list thread) : (forall t k rest, t ∈ ts -> todo t <> Release k :: rest) ->
  finished ts \/ exists t k w rest, t ∈ ts /\ todo t = Acquire k w :: rest /\
    forall t' k' w' rest', t' ∈ ts -> todo t' = Acquire k' w' :: rest' -> rank k' <= rank k.
Proof.
  induction ts as [|t ts IH]; intros Hno; [by left; constructor|].
  destruct IH as [Hfin|(t0 & k0 & w0 & rest0 & Hin & E0 & Hmax)]; [intros t' k rest H; apply Hno; by right| |].
  - destruct (todo t) as [|[k w|k] rest] eqn:E; [left; by constructor | | by exfalso; eapply Hno; [left|]].
    right. exists t, k, w, rest. split; [by left|]. split; [done|]. intros t' k' w' rest' Ht' E'. apply elem_of_cons in Ht' as [->|Ht'].
    + rewrite E in E'. by injection E' as <- <- <-.
    + unfold finished in Hfin. rewrite Forall_forall in Hfin. rewrite (Hfin t' Ht') in E'. done.
  - right. destruct (todo t) as [|[k w|k] rest] eqn:E; [| | by exfalso; eapply Hno; [left|]].
    + exists t0, k0, w0, rest0. split; [by right|]. split; [done|]. intros t' k' w' rest' Ht' E'.
      apply elem_of_cons in Ht' as [->|Ht']; [by rewrite E in E' | by eapply Hmax].
    + destruct (decide (rank k0 <= rank k)).
      * exists t, k, w, rest. split; [by left|]. split; [done|]. intros t' k' w' rest' Ht' E'. apply elem_of_cons in Ht' as [->|Ht'].
        -- rewrite E in E'. by injection E' as <- <- <-.
        -- specialize (Hmax t' k' w' rest' Ht' E'). lia.
      * exists t0, k0, w0, rest0. split; [by right|]. split; [done|]. intros t' k' w' rest' Ht' E'. apply elem_of_cons in Ht' as [->|Ht'].
        -- rewrite E in E'. injection E' as <- <- <-. lia.
        -- by eapply Hmax.
Qed.

Definition releases (t : thread) : bool := match todo t with Release _ :: _ => true | _ => false end.
Definition locks_for_writing (k : lock) (t : thread) : bool := match todo t with Acquire k' true :: _ => bool_decide (k' = k) | _ => false end.

Lemma locks_for_writing_spec k t : locks_for_writing k t = true <-> wants_write k t.
Proof.
  unfold locks_for_writing, wants_write. split.
  - destruct (todo t) as [|[k' []|k'] rest]; try done. intros ->%bool_decide_eq_true. by eexists.
  - intros [rest ->]. by rewrite bool_decide_true.
Qed.

(** In any state with goroutines that keep the order one can move, even where a
    waiting [Lock] holds up every [RLock]. *)
Lemma progress ts : Forall ok ts -> finished ts \/ exists t, t ∈ ts /\ can_move ts t.
Proof.
  intros Hok. destruct (decide (Exists (fun t => releases t = true) ts)) as [(t & Ht & Hr)%Exists_exists|Hno].
  { right. exists t. split; [done|]. unfold releases in Hr. unfold can_move. by destruct (todo t) as [|[]]. }
  assert (forall t k rest, t ∈ ts -> todo t <> Release k :: rest) as Hrel.
  { intros t k rest Ht E. apply Hno, Exists_exists. exists t. split; [done|]. unfold releases. by rewrite E. }
  destruct (highest ts Hrel) as [?|(t & k & w & rest & Ht & E & Hmax)]; [by left|]. right.
  assert (forall w', free_for ts k w') as Hfree.
  { intros w' t' w'' Ht' Hin. rewrite Forall_forall in Hok. exfalso. destruct (ok_holds t' k w'' (Hok t' Ht') Hin) as [(k' & r & E')|(k' & v & r & E' & Hlt)].
    - by eapply Hrel.
    - specialize (Hmax t' k' v r Ht' E'). lia. }
  destruct (decide (Exists (fun t => locks_for_writing k t = true) ts)) as [(t' & Ht' & [r E']%locks_for_writing_spec)%Exists_exists|Hnone].
  - exists t'. split; [done|]. unfold can_move. rewrite E'. by split.
  - exists t. split; [done|]. unfold can_move. rewrite E. split; [done|]. intros _ t' Ht' Hw. apply Hnone, Exists_exists. exists t'.
    split; [done|]. by apply locks_for_writing_spec.
Qed.

Lemma can_move_step ts t : Forall ok ts -> t ∈ ts -> can_move ts t -> exists ts', lstep ts ts'.
Proof.
  intros Hok Ht Hm. rewrite Forall_forall in Hok. specialize (Hok t Ht). apply list_elem_of_split in Ht as (ts1 & ts2 & ->).
  destruct t as [h [|[k w|k] rest]]; [done | |].
  - destruct Hm as [Hfree _]. eexists. by apply st_acquire.
  - unfold ok in Hok. cbn in Hok. destruct h as [|[k' w] h]; [done|]. apply andb_true_iff in Hok as [Hk%bool_decide_eq_true _]. cbn in Hk. subst k'. eexists. by apply st_release.
Qed.

Lemma run_invariant n ts ts' : nsteps lstep n ts ts' -> Forall ok ts -> exclusive ts ->
  Forall ok ts' /\ exclusive ts' /\ (n + remaining ts' = remaining ts)%nat.
Proof.
  induction 1 as [ts|n ts1 ts2 ts3 Hst _ IH]; intros Hok Hex; [done|].
  destruct IH as (H1 & H2 & H3); [by eapply lstep_ok | by eapply lstep_exclusive|]. apply lstep_remaining in Hst. split; [done|]. split; [done|]. lia.
Qed.

Lemma start_exclusive ps : exclusive (start ps).
Proof.
  intros i j t t' k w w' Hi _ _ H. unfold start in Hi. rewrite list_lookup_fmap in Hi. destruct (ps !! i) as [bs|]; [|done].
  cbn in Hi. injection Hi as <-. by apply not_elem_of_nil in H.
Qed.

(** ** Property *)

(** C25. No deadlock: whatever calls of the program any number of goroutines make,
    in every state they can reach a lock is held by one goroutine or only by
    readers, and unless all have finished one can take its next step, even though
    an [RLock] waits for a [Lock] that waits.  Every run ends: it has no more
    steps than the calls have lock operations. *)
Theorem no_deadlock (ps : list calls) (n : nat) (ts : list thread) :
  Forall program ps -> nsteps lstep n (start ps) ts ->
  exclusive ts /\ (finished ts \/ exists t ts', t ∈ ts /\ can_move ts t /\ lstep ts ts') /\ (n + remaining ts = remaining (start ps))%nat.
Proof.
  intros Hps Hrun. destruct (run_invariant n (start ps) ts Hrun (start_ok ps Hps) (start_exclusive ps)) as (Hok & Hex & Hn).
  split; [done|]. split; [|done]. destruct (progress ts Hok) as [?|(t & Ht & Hm)]; [by left|]. right.
  destruct (can_move_step ts t Hok Ht Hm) as [ts' Hst]. by exists t, ts'.
Qed.

(** ** Witness *)

(** One goroutine flushes two streams of a connection and removes another
    connection, one closes the listener, one reads a stream. *)
Definition flushes : calls :=
  listener_Flush (Some [(1, [conn_Flush 1 7 true (Some [false]) (Some [true]) None; conn_Flush 1 8 false None None None])]) [false] [].
Definition closes : calls := listener_Close [(1, [7; 8])].
Definition read : calls := stream_Read 1 7 (Some [false; true]).

Lemma three_programs : Forall program [flushes; closes; read].
Proof.
  repeat constructor.
  - exists [flushes]. split; [|done]. constructor; [|done]. apply call_Flush. intros conns [= <-]. constructor; [|done].
    constructor; [by do 5 eexists|]. constructor; [by do 5 eexists | done].
  - exists [closes]. split; [|done]. constructor; [|done]. apply call_Close.
  - exists [read]. split; [|done]. constructor; [|done]. apply call_Read.
Qed.

(** The goroutine at position [i] takes a step, if it can. *)
Definition free_for_dec ts k w : bool :=
  forallb (fun t => forallb (fun x => negb (bool_decide (x.1 = k)) || negb w && negb x.2) (held t)) ts.

Definition move (ts : list thread) (i : nat) : option (list thread) :=
  t ← ts !! i;
  match todo t, held t with
  | Acquire k w :: rest, h => if free_for_dec ts k w then Some (<[i := mkThread ((k, w) :: h) rest]> ts) else None
  | Release k :: rest, x :: h => if decide (x.1 = k) then Some (<[i := mkThread h rest]> ts) else None
  | _, _ => None
  end.

Fixpoint moves (ts : list thread) (order : list nat) : option (list thread) :=
  match order with [] => Some ts | i :: order => ts' ← move ts i; moves ts' order end.

Lemma free_for_dec_spec ts k w : free_for_dec ts k w = true -> free_for ts k w.
Proof.
  unfold free_for_dec. intros H t w' Ht Hin. rewrite forallb_forall in H. apply list_elem_of_In in Ht. specialize (H t Ht).
  rewrite forallb_forall in H. apply list_elem_of_In in Hin. specialize (H _ Hin). cbn in H. rewrite bool_decide_true in H by done.
  cbn in H. by destruct w, w'.
Qed.

Lemma insert_middle {A} (l1 l2 : list A) x y : <[length l1 := y]> (l1 ++ x :: l2) = l1 ++ y :: l2.
Proof. rewrite <- (Nat.add_0_r (length l1)), insert_app_r. done. Qed.

Lemma move_step ts i ts' : move ts i = Some ts' -> lstep ts ts'.
Proof.
  unfold move. destruct (ts !! i) as [[h acts]|] eqn:E; [|done]. cbn [mbind option_bind todo held].
  apply list_elem_of_split_length in E as (ts1 & ts2 & -> & ->).
  destruct acts as [|[k w|k] rest]; [by destruct h | |].
  - destruct (free_for_dec _ k w) eqn:Ef; [|by destruct h]. intros [= <-]. rewrite insert_middle. apply st_acquire. by apply free_for_dec_spec.
  - destruct h as [|[k' w] h]; [done|]. case_decide as Hk; [|done]. cbn in Hk. subst k'. intros [= <-]. rewrite insert_middle. apply st_release.
Qed.

Lemma moves_steps order : forall ts ts', moves ts order = Some ts' -> nsteps lstep (length order) ts ts'.
Proof.
  induction order as [|i order IH]; intros ts ts' H; [by injection H as <-; constructor|]. cbn in H.
  destruct (move ts i) as [ts1|] eqn:E; [|done]. cbn in H. econstructor; [by eapply move_step | by apply IH].
Qed.

(** The flush holds the maps of connections and streams for reading and has taken
    its acknowledgement; the listener is being closed, and holds the connection;
    the reader has begun. *)
Definition midway : list thread := default [] (moves (start [flushes; closes; read]) [0; 0; 0; 0; 0; 0; 1; 1; 2; 0; 1]%nat).

Lemma no_deadlock_witness :
  exclusive midway /\ (finished midway \/ exists t ts', t ∈ midway /\ can_move midway t /\ lstep midway ts') /\
  (11 + remaining midway = remaining (start [flushes; closes; read]))%nat.
Proof.
  apply (no_deadlock [flushes; closes; read] 11 midway three_programs).
  apply (moves_steps [0; 0; 0; 0; 0; 0; 1; 1; 2; 0; 1]%nat). vm_compute. reflexivity.
Defined.

(** ** Corner case of the code *)

(** [Listener.Close] ranges over the table of connections without the lock of the
    table: a flush on another goroutine can be removing a connection from the
    table, under its lock, while the listener is being closed. *)
Theorem close_races : exists n ts h1 h2 t1 t2, nsteps lstep n (start [flushes; closes]) ts /\ ts = [mkThread h1 t1; mkThread h2 t2] /\
  (LConnMap, true) ∈ h1 /\ h2 = [(LListener, true)] /\ t2 <> [] /\ Forall program [flushes; closes].
Proof.
  set (order := repeat 0%nat 21 ++ [1%nat]). destruct (moves (start [flushes; closes]) order) as [ts|] eqn:E; [|by vm_compute in E].
  exists (length order), ts. pose proof three_programs as Hp. rewrite !Forall_cons in Hp. destruct Hp as (P1 & P2 & _).
  apply moves_steps in E as Hrun. vm_compute in E. injection E as <-. do 4 eexists. split; [exact Hrun|]. split; [done|].
  split; [by left|]. split; [done|]. split; [done|]. by repeat constructor.
Qed.
