(* ===== verification/Endpoints.v ===== *)
(** * Endpoints: two connections over a network of datagrams

    One direction of an established connection, from the calls of the writing
    application to those of the reading one: [Stream.Write] and [Conn.Flush] at
    one end; a network that loses, reorders and duplicates datagrams; decryption,
    parsing, [Conn.decode] and [Stream.Read] at the other.  Both ends also do what
    the other direction makes them do: the sender receives arbitrary
    well-formed payloads, the receiver flushes and writes.

    The system refines [Delivery]: every step is a sequence of steps of sender,
    network and receiver there, with the same buffers.  So what holds of the
    buffers in [Delivery] holds of the connections. *)

From stdpp Require Import prelude gmap list numbers strings relations.
From S2P Require Import Prelude Wire Proto Measurement Interfaces LinkedMap SortedMap Rcv Crypto Snd Delivery Conn Streams Inversion Listener Scheduler.
Open Scope Z_scope.

(** ** The receiving end *)

Section receive.
Context {PubKey PrvKey : Type} `{!CryptoPrims PubKey PrvKey} `{!CryptoLaws PubKey PrvKey}.
Implicit Types (l : Listener PubKey PrvKey) (c : Conn PubKey PrvKey).

(** What [Listen] does to a connection for a datagram of the type [Data]. *)
Definition receive c (enc rest : bytes) (now : Z) : go (Conn PubKey PrvKey * (go_error + Stream)) :=
  r ← decryptData enc rest (isSenderOnInit c) (epochCryptoRcv c) (default [] (sharedSecret c));
  match r with
  | inl err => mret (c, inl err)
  | inr message =>
      let c := if decide (epochCryptoRcv c < currentEpochCrypt message) then set_epoch c (currentEpochCrypt message) else c in
      let c := note_read c now in
      parsed ← DecodePayload (PayloadRaw message);
      match parsed with
      | inl err => mret (c, inl err)
      | inr (p, userData) =>
          '(c, s) ← Conn.decode c p userData (len enc) now;
          mret (handshake_done c Data, inr s)
      end
  end.

Lemma note_read_keys c now : connId (note_read c now) = connId c /\ prvKeyEpSnd (note_read c now) = prvKeyEpSnd c.
Proof. unfold note_read. by case_decide. Qed.

(** [Listen] is [receive] on the connection that the datagram names. *)
Lemma Listen_receive l key c cid enc addr tail now c' r :
  table_ok l -> (cid, c) ∈ conns l -> is_u64 cid ->
  enc = msg_header Data :: le_bytes 8 cid ++ tail -> MinPacketSize <= len enc ->
  receive c enc (make_bytes (l_mtu (l_cfg l) - len enc)) now = Ok (c', r) ->
  exists l', Listen l key (inr (enc, addr)) now = Ok (l', match r with inl err => inl err | inr s => inr (Some (cid, s)) end) /\
    table_ok l' /\ only l cid l' /\ (cid, c') ∈ conns l'.
Proof.
  intros Hl Hin Hcid Henc Hlen H. destruct (to_conn _ Hl _ Hin) as [Hid Hp]. cbn [fst snd] in Hid, Hp.
  unfold Listen. rewrite decide_False by (change MinPacketSize with 39 in Hlen; lia).
  rewrite (decode_header l key enc _ _ Data (le_bytes 8 cid) tail cid); [| done | by rewrite length_le_bytes | | done]; cycle 1.
  { rewrite <- (app_nil_r (le_bytes 8 cid)), Uint64_le, Z.mod_small; done. }
  unfold decode_msg. rewrite table_get by done.
  assert (al_get cid (conns l) = Some c) as -> by (apply al_get_is_elem; [apply lm_nodup, Hl | done]). cbn [mbind go_bind].
  unfold receive in H. destruct (decryptData _ _ _ _ _) as [[err|m]| |]; cbn [mbind go_bind] in H |- *; try done.
  { injection H as <- <-. exists l. split; [done|]. split_and!; try done. }
  set (c1 := if decide (epochCryptoRcv c < currentEpochCrypt m) then set_epoch c (currentEpochCrypt m) else c) in *.
  assert (connId c1 = cid /\ is_Some (prvKeyEpSnd c1)) as [Hid1 Hp1] by (subst c1; by case_decide).
  destruct (table_put l cid c1) as (m1 & E1 & Hl1 & Ho1 & Hin1); [done | done | done|].
  unfold file. rewrite E1. cbn [mbind go_bind mret go_ret]. destruct (note_read_keys c1 now) as [Hid2 Hp2].
  destruct (table_put (set_connMap l m1) cid (note_read c1 now)) as (m2 & E2 & Hl2 & Ho2 & Hin2); [done | congruence | by rewrite Hp2|].
  rewrite Hid2, Hid1, E2. cbn [mbind go_bind]. rewrite decide_False by (by intros [_ [=]]).
  destruct (DecodePayload (PayloadRaw m)) as [[err|[p u]]| |]; cbn [mbind go_bind] in H |- *; try done.
  { injection H as <- <-. eexists. split; [done|]. split; [done|]. split; [by eapply only_trans | done]. }
  apply go_bind_Ok in H as ([c2 s] & Hdec & [= <- <-]). rewrite Hdec. cbn [mbind go_bind].
  apply decode_counter in Hdec as (_ & _ & _ & Hi3 & Hp3). destruct (handshake_done_same c2 Data) as [(_ & _ & _ & Hi4 & Hp4) _].
  destruct (table_put (set_connMap (set_connMap l m1) m2) cid (handshake_done c2 Data)) as (m3 & E3 & Hl3 & Ho3 & Hin3);
    [done | congruence | by rewrite Hp4, Hp3, Hp2|].
  rewrite Hi3, Hid2, Hid1. rewrite E3. cbn [mbind go_bind].
  eexists. split; [done|]. split; [done|]. split; [by eapply only_trans, only_trans | done].
Qed.
End receive.

(** ** A flush as steps of the sender *)

Section flush.
Context {PubKey PrvKey : Type} `{!CryptoPrims PubKey PrvKey} `{!CryptoLaws PubKey PrvKey}.
Context (write : AddrPort -> bytes -> option go_error) (cfg : ListenerCfg PrvKey) (cid : Z) (secret : bytes) (dir : bool).
Context (Hmtu : mtu_ok (l_mtu cfg)) (Hsecret : len secret = 32).
Implicit Types (c : Conn PubKey PrvKey) (s : system) (p : PayloadHeader) (u : option bytes).

(** The datagram of a payload: the payload sealed under some counter value. *)
Definition sealed (enc pl : bytes) : Prop :=
  exists sn epoch, is_u48 sn /\ 8 <= len pl /\ enc = packet_bytes sn epoch dir secret (conn_header Data cid) pl.

(** An established connection that sends under the secret. *)
Record linked c : Prop := {
  lk_id : connId c = cid;
  lk_secret : sharedSecret c = Some secret;
  lk_dir : isSenderOnInit c = dir;
  lk_done : isHandshakeDoneOnRcv c = true;
  lk_ctr : ctr_ok c;
  lk_streams : streams_ok (streams c);
  lk_acks : Forall wf_ack (ackList (c_rcv c));
}.

Definition emitted c p u c' (ds : list bytes) : Prop :=
  (exists enc, ds = [enc] /\ sealed enc (payload_bytes p u)) /\ ctr_ok c' /\ c_snd c' = c_snd c.

Lemma encode_inv c p u c' r :
  linked c -> ctr c < 2 ^ 95 - 1 -> encode cfg c p u Data = Ok (c', r) ->
  exists enc, r = inr enc /\ emitted c p u c' [enc].
Proof.
  intros [E1 E2 E3 _ Hc _ _] Hlt. unfold encode, encode_msg. rewrite EncodePayload_spec. cbn [mbind go_bind].
  rewrite E1, E2, E3, encryptData_spec by (done || apply payload_bytes_length). cbn [mbind go_bind mret go_ret].
  pose proof (counter_advance _ _ Hc) as Ha. destruct (advance _ _) as [[e [sn ep]]|[sn ep]]; [unfold ctr in Hlt; lia|].
  destruct Ha as [Hok _]. intros [= <- <-]. eexists. split; [done|]. split; [|by split].
  eexists. split; [done|]. eexists _, _. split; [apply Hc|]. split; [apply payload_bytes_length | done].
Qed.

Lemma sendPacket_inv c st ack d off close now track c' fr :
  linked c -> ctr c < 2 ^ 95 - 1 -> sendPacket write cfg c st ack d off close Data now track = Ok (c', fr) ->
  emitted c (Delivery.packet (st_streamID st) off close ack) (Some d) c' fr.1.
Proof.
  intros Hl Hlt. unfold sendPacket. intros H. apply go_bind_Ok in H as ([c1 r] & E & H).
  apply encode_inv in E as (enc & -> & He); [|done..]. destruct (write _ enc); [by injection H as <- <-|].
  apply go_bind_Ok in H as ([c2 pc] & E2 & [= <- <-]).
  destruct track; apply go_bind_Ok in E2 as (? & ? & [= <- <-]); exact He.
Qed.

Lemma writeAck_inv c st ack now c' fr :
  linked c -> ctr c < 2 ^ 95 - 1 -> writeAck write cfg c st ack now = Ok (c', fr) ->
  exists close, emitted c (Delivery.packet (st_streamID st) 0 close ack) None c' fr.1.
Proof.
  intros Hl Hlt. unfold writeAck, msgType. rewrite (lk_done _ Hl). intros H. apply go_bind_Ok in H as (close & _ & H).
  apply go_bind_Ok in H as ([c1 r] & E & H). exists close.
  apply encode_inv in E as (enc & -> & He); [|done..]. destruct (write _ enc); [by injection H as <- <-|].
  by apply go_bind_Ok in H as (pc & _ & [= <- <-]).
Qed.

(** The sender of the system [s] does what led to the connection [c'], and the
    payloads of the datagrams [ds] are in the network. *)
Record flushed_to s c' (ds : list bytes) s' : Prop := {
  ft_steps : rtc step s s';
  ft_snd : sys_snd s' = c_snd c';
  ft_rcv : sys_rcv s' = sys_rcv s;
  ft_written : sys_written s' = sys_written s;
  ft_delivered : sys_delivered s' = sys_delivered s;
  ft_ctr : ctr_ok c';
  ft_net b : b ∈ sys_net s -> b ∈ sys_net s';
  ft_sealed enc : enc ∈ ds -> exists pl, pl ∈ sys_net s' /\ sealed enc pl;
}.

Lemma flushed_quiet s c' : sys_snd s = c_snd c' -> ctr_ok c' -> flushed_to s c' [] s.
Proof. intros Hs Hc. constructor; try done. intros enc He. by apply not_elem_of_nil in He. Qed.

Lemma flushed_emit s c p u c' ds :
  emitted c p u c' ds ->
  step s (mkSystem (c_snd c) (sys_rcv s) (payload_bytes p u :: sys_net s) (sys_written s) (sys_delivered s)) ->
  exists s', flushed_to s c' ds s'.
Proof.
  intros ((enc & -> & Hsl) & Hc & Hs) Hst. eexists. constructor; [by apply rtc_once | by rewrite Hs | done..| |].
  - intros b Hb. by right.
  - intros e ->%list_elem_of_singleton. eexists. split; [left | done].
Qed.

Lemma flushed_after s s1 c' ds s2 :
  rtc step s s1 -> sys_rcv s1 = sys_rcv s -> sys_written s1 = sys_written s -> sys_delivered s1 = sys_delivered s ->
  sys_net s1 = sys_net s -> flushed_to s1 c' ds s2 -> flushed_to s c' ds s2.
Proof.
  intros H1 E1 E2 E3 E4 []. constructor; try done; [by etrans | congruence..|]. by rewrite <- E4.
Qed.

(** A state in the middle of a flush. *)
Lemma linked_at c rcv snd meas :
  linked c -> Forall wf_ack (ackList rcv) -> linked (set_meas (set_snd (set_rcv c rcv) snd) meas).
Proof. intros [] ?. by constructor. Qed.

Section point.
Context (ack : option Ack) (st : Stream) (now : Z).
Context (Hack : forall close, wf_payload (Delivery.packet 0 0 close ack)) (Hsid : is_u32 (st_streamID st)).

Lemma idle_sim s c c' fr :
  linked c -> ctr c < 2 ^ 95 - 1 -> sys_snd s = c_snd c ->
  match ack with Some _ => writeAck write cfg c st ack now | None => mret (c, ([], inr (0, MinDeadLine))) end = Ok (c', fr) ->
  exists s', flushed_to s c' fr.1 s'.
Proof.
  intros Hl Hlt Hs. destruct ack as [a|] eqn:Ea; [|intros [= <- <-]; exists s; apply flushed_quiet; [done | apply Hl]].
  intros H. apply writeAck_inv in H as [close H]; [|done..]. eapply flushed_emit; [done|].
  rewrite <- Hs. eapply step_send_ack; [done | done | apply EncodePayload_spec].
Qed.

Lemma flush_send_sim s c c' fr :
  linked c -> ctr c < 2 ^ 95 - 1 -> sys_snd s = c_snd c -> sys_inv s ->
  flush_send write cfg c st ack Data now = Ok (c', fr) -> exists s', flushed_to s c' fr.1 s'.
Proof.
  intros Hl Hlt Hs Hi. unfold flush_send. rewrite (lk_done _ Hl). cbn [orb]. intros H.
  apply go_bind_Ok in H as ([sb [[d off] close]] & E & H). rewrite <- Hs in E.
  pose proof (room_mtu Data ack _ Hmtu) as Hroom.
  assert (linked (set_snd c sb)) as Hl' by (by apply (linked_at c (c_rcv c) sb (c_meas c)), lk_acks).
  destruct d as [d|].
  - apply sendPacket_inv in H; [|done..]. eapply flushed_emit; [done|]. by eapply step_send, EncodePayload_spec.
  - destruct (ReadyToSend_spec _ _ (st_streamID st) Data ack (l_mtu cfg) now (some_snd s Hi) Hroom)
      as (sb' & data & o & cl & E' & _ & _ & Hd). rewrite E in E'. injection E' as <- <- <- <-. destruct Hd as [-> _].
    assert (set_snd c (sys_snd s) = c) as Ec by (rewrite Hs; by destruct c). rewrite Ec in *.
    destruct (_ || _); [|by apply (idle_sim s) in H].
    apply writeAck_inv in H as [close' H]; [|done..]. eapply flushed_emit; [done|].
    rewrite <- Hs. eapply step_send_ack; [done | done | apply EncodePayload_spec].
Qed.
End point.

Lemma Flush_sim s c st now c' fr :
  linked c -> ctr c < 2 ^ 95 - 1 -> is_u32 (st_streamID st) -> sys_snd s = c_snd c -> sys_inv s ->
  Conn.Flush write cfg c st now = Ok (c', fr) -> exists s', flushed_to s c' fr.1 s'.
Proof.
  intros Hl Hlt Hsid Hs Hi. unfold Conn.Flush. destruct (GetSndAck (c_rcv c)) as [rcv ack0] eqn:Ea.
  assert (Forall wf_ack (ackList rcv) /\ match ack0 with Some a => wf_ack a | None => True end) as [Hrcv Ha0].
  { pose proof (lk_acks _ Hl) as Hall. unfold GetSndAck in Ea. destruct (ackList (c_rcv c)) as [|a acks] eqn:Eq; injection Ea as <- <-.
    - by rewrite Eq.
    - apply Forall_cons in Hall as [H1 H2]. by split. }
  set (ack := _ <$> ack0).
  assert (forall close, wf_payload (Delivery.packet 0 0 close ack)) as Hack.
  { intros close. split; [by widths|]. split; [by widths|]. by destruct ack0. }
  assert (linked (set_rcv c rcv)) as Hl' by (apply (linked_at c rcv (c_snd c) (c_meas c)); done).
  unfold msgType. cbn [isHandshakeDoneOnRcv set_rcv c_snd]. rewrite (lk_done _ Hl).
  case_decide; [intros [= <- <-]; exists s; by apply flushed_quiet, lk_ctr|].
  case_decide; [intros H1; by eapply idle_sim|].
  intros H1. apply go_bind_Ok in H1 as ([sb r] & E & H1). rewrite <- Hs in E.
  pose proof (room_mtu Data ack _ Hmtu) as Hroom.
  assert (forall r', r = r' -> (forall d off close, r' <> inr (Some d, off, close)) ->
    step s (mkSystem sb (sys_rcv s) (sys_net s) (sys_written s) (sys_delivered s))) as Hidle.
  { intros ? <- Hr. by eapply step_retransmit_idle. }
  destruct r as [err|[[[d|] off] close]].
  - injection H1 as <- <-. eexists. eapply flushed_after; [apply rtc_once, (Hidle _ eq_refl); naive_solver | done..|].
    apply flushed_quiet; [done | apply Hl].
  - apply sendPacket_inv in H1; [|by apply (linked_at c rcv sb) | done]. eapply flushed_emit; [done|].
    by eapply step_retransmit, EncodePayload_spec.
  - assert (step s (mkSystem sb (sys_rcv s) (sys_net s) (sys_written s) (sys_delivered s))) as Hst
      by (apply (Hidle _ eq_refl); naive_solver).
    apply (flush_send_sim ack st now Hack Hsid (mkSystem sb (sys_rcv s) (sys_net s) (sys_written s) (sys_delivered s))) in H1
      as [s' Hf]; [|by apply (linked_at c rcv sb (c_meas c)) | done | done | by eapply step_inv].
    exists s'. by eapply flushed_after; [apply rtc_once | ..].
Qed.
End flush.

(** ** Two connections *)

Section system.
Context {PubKey PrvKey : Type} `{!CryptoPrims PubKey PrvKey} `{!CryptoLaws PubKey PrvKey}.
Implicit Types (c : Conn PubKey PrvKey) (st : Stream) (p : PayloadHeader) (u : option bytes).

Record endpoints := mkEndpoints {
  ep_a : Conn PubKey PrvKey;        (* the connection that writes *)
  ep_b : Conn PubKey PrvKey;        (* the connection that reads *)
  ep_net : list bytes;              (* every datagram the writing end sent *)
  ep_written : Z -> bytes;          (* accepted from the application, by stream *)
  ep_delivered : Z -> bytes;        (* returned to the application, by stream *)
}.

Definition start a b : endpoints := mkEndpoints a b [] (fun _ => []) (fun _ => []).

Inductive ep_step (write : AddrPort -> bytes -> option go_error) (cfg_a cfg_b : ListenerCfg PrvKey) (e : endpoints) : endpoints -> Prop :=
  | ep_write wake st d c' r :
      is_u32 (st_streamID st) -> len (ep_written e (st_streamID st)) + len d < 2 ^ 48 ->
      Write wake (ep_a e) st d = Ok (c', r) ->
      ep_step write cfg_a cfg_b e (mkEndpoints c' (ep_b e) (ep_net e)
        (extend (ep_written e) (st_streamID st) (take (accepted (ep_a e) c') d)) (ep_delivered e))
  | ep_ping st :
      ep_step write cfg_a cfg_b e (mkEndpoints (Ping (ep_a e) st) (ep_b e) (ep_net e) (ep_written e) (ep_delivered e))
  | ep_close st :
      ep_step write cfg_a cfg_b e (mkEndpoints (Streams.Close (ep_a e) st) (ep_b e) (ep_net e) (ep_written e) (ep_delivered e))
  | ep_close_all c' :
      conn_Close (ep_a e) = Ok c' ->
      ep_step write cfg_a cfg_b e (mkEndpoints c' (ep_b e) (ep_net e) (ep_written e) (ep_delivered e))
  | ep_flush st now c' fr :
      is_u32 (st_streamID st) -> ctr (ep_a e) < 2 ^ 95 - 1 ->
      Conn.Flush write cfg_a (ep_a e) st now = Ok (c', fr) ->
      ep_step write cfg_a cfg_b e (mkEndpoints c' (ep_b e) (fr.1 ++ ep_net e) (ep_written e) (ep_delivered e))
  | ep_answer p u rawLen now c' st :
      wf_payload p -> Conn.decode (ep_a e) p u rawLen now = Ok (c', st) ->
      ep_step write cfg_a cfg_b e (mkEndpoints c' (ep_b e) (ep_net e) (ep_written e) (ep_delivered e))
  | ep_read_answer st c' st' r :
      Read (ep_a e) st = Ok (c', st', r) ->
      ep_step write cfg_a cfg_b e (mkEndpoints c' (ep_b e) (ep_net e) (ep_written e) (ep_delivered e))
  | ep_receive enc rest now c' r :
      enc ∈ ep_net e -> receive (ep_b e) enc rest now = Ok (c', r) ->
      ep_step write cfg_a cfg_b e (mkEndpoints (ep_a e) c' (ep_net e) (ep_written e) (ep_delivered e))
  | ep_read st c' st' data err :
      Read (ep_b e) st = Ok (c', st', (data, err)) ->
      ep_step write cfg_a cfg_b e (mkEndpoints (ep_a e) c' (ep_net e) (ep_written e)
        (extend (ep_delivered e) (st_streamID st) (default [] data)))
  | ep_flush_back st now c' fr :
      Conn.Flush write cfg_b (ep_b e) st now = Ok (c', fr) ->
      ep_step write cfg_a cfg_b e (mkEndpoints (ep_a e) c' (ep_net e) (ep_written e) (ep_delivered e))
  | ep_write_back wake st d c' r :
      Write wake (ep_b e) st d = Ok (c', r) ->
      ep_step write cfg_a cfg_b e (mkEndpoints (ep_a e) c' (ep_net e) (ep_written e) (ep_delivered e)).

(** *** The invariant of the two ends *)

Context (write : AddrPort -> bytes -> option go_error) (cfg_a cfg_b : ListenerCfg PrvKey) (cid : Z) (secret : bytes) (dir : bool).
Context (Hmtu : mtu_ok (l_mtu cfg_a)) (Hsecret : len secret = 32).

(** The reading end has the secret and the opposite role. *)
Record reading c : Prop := {
  rd_secret : sharedSecret c = Some secret;
  rd_dir : isSenderOnInit c = negb dir;
  rd_streams : streams_ok (streams c);
}.

Definition ep_inv (e : endpoints) : Prop := linked cid secret dir (ep_a e) /\ reading (ep_b e).

(** The state of [Delivery] that the two ends implement. *)
Record represents (e : endpoints) (s : system) : Prop := {
  rp_snd : sys_snd s = c_snd (ep_a e);
  rp_rcv : sys_rcv s = c_rcv (ep_b e);
  rp_written sid : sys_written s sid = ep_written e sid;
  rp_delivered sid : sys_delivered s sid = ep_delivered e sid;
  rp_net enc : enc ∈ ep_net e -> exists pl, pl ∈ sys_net s /\ sealed cid secret dir enc pl;
}.

Lemma linked_same c c' :
  linked cid secret dir c -> same_link c c' -> streams_ok (streams c') -> Forall wf_ack (ackList (c_rcv c')) ->
  linked cid secret dir c'.
Proof.
  intros [L1 L2 L3 L4 L5 L6 L7] (E1 & E2 & E3 & E4 & E5 & E6 & _) Hs Ha. constructor; try congruence; try done.
  unfold ctr_ok. by rewrite E5, E6.
Qed.

Lemma linked_snd c sb : linked cid secret dir c -> linked cid secret dir (set_snd c sb).
Proof. intros []. by constructor. Qed.

Lemma linked_flushed c st now c' fr :
  linked cid secret dir c -> Conn.Flush write cfg_a c st now = Ok (c', fr) -> ctr_ok c' -> linked cid secret dir c'.
Proof.
  intros [L1 L2 L3 L4 L5 L6 L7] H Hc. apply Flush_frame in H as (Es & Er & _ & (E1 & _ & _ & _ & E2 & E3 & _ & E4 & _)).
  constructor; try congruence; try done. rewrite Er. unfold GetSndAck. destruct (ackList (c_rcv c)) as [|a acks] eqn:Ea; cbn.
  - by rewrite Ea.
  - by apply Forall_cons in L7 as [_ ?].
Qed.

(** *** The steps of the ends *)

(** A received datagram, up to the fields of the reading end that matter. *)
Lemma receive_inv c enc rest now c' r pl :
  reading c -> sealed cid secret dir enc pl -> receive c enc rest now = Ok (c', r) ->
  reading c' /\
  (c_rcv c' = c_rcv c \/
   exists p u rb, DecodePayload pl = Ok (inr (p, u)) /\ data_step (c_rcv c) p u now rb /\ c_rcv c' = close_rcv p rb).
Proof.
  intros [R1 R2 R3] (sn & ep & Hsn & Hpl & ->). unfold receive. rewrite R1, R2. cbn [default from_option id].
  intros H. apply go_bind_Ok in H as ([err|m] & Hm & H); [injection H as <- _; by split; [constructor | left]|].
  apply decryptData_sound in Hm as Hraw; [|done..]. rewrite Hraw in H.
  set (c1 := note_read _ now) in H.
  assert (sharedSecret c1 = Some secret /\ isSenderOnInit c1 = negb dir /\ streams c1 = streams c /\ c_rcv c1 = c_rcv c)
    as (E1 & E2 & E3 & E4) by (subst c1; unfold note_read; repeat case_decide; by split_and!).
  apply go_bind_Ok in H as ([err|[p u]] & Hp & H).
  { injection H as <- _. split; [constructor; congruence | by left]. }
  apply go_bind_Ok in H as ([c2 st] & Hd & [= <- _]). rewrite <- E3 in R3.
  apply decode_inv in Hd as (Hs2 & (_ & F2 & F3 & _) & _ & (rb & Hdata & Hrb)); [|done].
  assert (sharedSecret (handshake_done c2 Data) = sharedSecret c2 /\ isSenderOnInit (handshake_done c2 Data) = isSenderOnInit c2 /\
    streams (handshake_done c2 Data) = streams c2 /\ c_rcv (handshake_done c2 Data) = c_rcv c2) as (G1 & G2 & G3 & G4)
    by (unfold handshake_done; by repeat case_match).
  split; [constructor; congruence|]. right. exists p, u, rb. rewrite <- E4, G4. done.
Qed.

(** *** The simulation *)

Lemma extend_same (w w' : Z -> bytes) sid d : (forall x, w x = w' x) -> forall x, extend w sid d x = extend w' sid d x.
Proof. intros Hw x. unfold extend. by rewrite Hw. Qed.

Lemma extend_nil (w : Z -> bytes) sid x : extend w sid [] x = w x.
Proof. unfold extend. case_decide; [apply app_nil_r | done]. Qed.

(** The result of a step: some steps of [Delivery] lead to a state that the new
    ends represent. *)
Definition simulated s e' : Prop := ep_inv e' /\ exists s', rtc step s s' /\ represents e' s'.

Section simulation.
Context (e : endpoints) (s : system) (Hinv : ep_inv e) (Hrep : represents e s) (Hsys : sys_inv s).

(** Steps of the writing end that send nothing. *)
Lemma simulated_a c' :
  linked cid secret dir c' ->
  (exists s', rtc step s s' /\ s' = mkSystem (c_snd c') (sys_rcv s) (sys_net s) (sys_written s) (sys_delivered s)) ->
  simulated s (mkEndpoints c' (ep_b e) (ep_net e) (ep_written e) (ep_delivered e)).
Proof.
  intros Hl (s' & Hs' & ->). split; [split; [done | apply Hinv]|]. eexists. split; [done|]. by destruct Hrep.
Qed.

(** Steps of the reading end that return nothing. *)
Lemma simulated_b c' :
  reading c' ->
  (exists s', rtc step s s' /\ s' = mkSystem (sys_snd s) (c_rcv c') (sys_net s) (sys_written s) (sys_delivered s)) ->
  simulated s (mkEndpoints (ep_a e) c' (ep_net e) (ep_written e) (ep_delivered e)).
Proof.
  intros Hl (s' & Hs' & ->). split; [split; [apply Hinv | done]|]. eexists. split; [done|]. by destruct Hrep.
Qed.

Lemma same_sender c' : c_snd c' = c_snd (ep_a e) ->
  exists s', rtc step s s' /\ s' = mkSystem (c_snd c') (sys_rcv s) (sys_net s) (sys_written s) (sys_delivered s).
Proof. intros ->. exists s. split; [done|]. rewrite <- (rp_snd _ _ Hrep). by destruct s. Qed.

Lemma same_receiver c' : c_rcv c' = c_rcv (ep_b e) ->
  exists s', rtc step s s' /\ s' = mkSystem (sys_snd s) (c_rcv c') (sys_net s) (sys_written s) (sys_delivered s).
Proof. intros ->. exists s. split; [done|]. rewrite <- (rp_rcv _ _ Hrep). by destruct s. Qed.

Lemma sim_write wake st d c' r :
  is_u32 (st_streamID st) -> len (ep_written e (st_streamID st)) + len d < 2 ^ 48 ->
  Write wake (ep_a e) st d = Ok (c', r) ->
  simulated s (mkEndpoints c' (ep_b e) (ep_net e)
    (extend (ep_written e) (st_streamID st) (take (accepted (ep_a e) c') d)) (ep_delivered e)).
Proof.
  intros Hsid Hlen Hw. destruct Hinv as [Ha Hb]. destruct Hrep as [R1 R2 R3 R4 R5].
  apply Write_inv in Hw as [->|(sb & n & status & E & -> & ->)].
  - split; [done|]. exists s. split; [done|]. constructor; try done. intros sid. cbn [ep_written]. unfold accepted.
    rewrite Z.sub_diag. change (take (Z.to_nat 0) d) with ([] : bytes). by rewrite extend_nil.
  - split; [split; [by apply linked_snd | done]|]. rewrite <- R1 in E.
    eexists. split; [apply rtc_once; eapply step_write; [done | by rewrite R3 | done]|].
    constructor; try done. intros sid. by apply extend_same.
Qed.

Lemma close_all_sim (entries : list (Z * Stream)) c s0 :
  linked cid secret dir c -> sys_snd s0 = c_snd c ->
  linked cid secret dir (foldl (fun c x => Streams.Close c x.2) c entries) /\
  rtc step s0 (mkSystem (c_snd (foldl (fun c x => Streams.Close c x.2) c entries)) (sys_rcv s0) (sys_net s0) (sys_written s0) (sys_delivered s0)).
Proof.
  revert c s0. induction entries as [|x entries IH]; intros c s0 Hl Hs; cbn [foldl].
  - split; [done|]. rewrite <- Hs. by destruct s0.
  - destruct (IH (Streams.Close c x.2) (mkSystem (Snd.Close (sys_snd s0) (st_streamID x.2)) (sys_rcv s0) (sys_net s0) (sys_written s0)
      (sys_delivered s0))) as [IH1 IH2]; [by apply linked_snd | by rewrite Hs|].
    split; [done|]. eapply rtc_l; [apply step_close | exact IH2].
Qed.

Lemma sim_flush st now c' fr :
  is_u32 (st_streamID st) -> ctr (ep_a e) < 2 ^ 95 - 1 -> Conn.Flush write cfg_a (ep_a e) st now = Ok (c', fr) ->
  simulated s (mkEndpoints c' (ep_b e) (fr.1 ++ ep_net e) (ep_written e) (ep_delivered e)).
Proof.
  intros Hsid Hlt Hf. destruct Hinv as [Ha Hb]. destruct Hrep as [R1 R2 R3 R4 R5].
  destruct (Flush_sim write cfg_a cid secret dir Hmtu Hsecret s (ep_a e) st now c' fr) as [s' [F1 F2 F3 F4 F5 F6 F7 F8]]; [done..|].
  split; [split; [by eapply linked_flushed | done]|]. exists s'. split; [done|]. constructor; cbn.
  - done.
  - congruence.
  - intros sid. by rewrite F4.
  - intros sid. by rewrite F5.
  - intros enc [He|He]%elem_of_app; [by apply F8|]. destruct (R5 enc He) as (pl & Hin & ?). eauto.
Qed.

Lemma sim_answer p u rawLen now c' st :
  wf_payload p -> Conn.decode (ep_a e) p u rawLen now = Ok (c', st) ->
  simulated s (mkEndpoints c' (ep_b e) (ep_net e) (ep_written e) (ep_delivered e)).
Proof.
  intros Hwf Hd. destruct Hinv as [Ha Hb]. pose proof (rp_snd _ _ Hrep) as R1.
  apply decode_inv in Hd as (Hs & Hl & (c2 & Hack & Esnd & _) & (rb & Hdata & Ercv)); [|apply Ha].
  apply simulated_a.
  - apply (linked_same (ep_a e)); try done. rewrite Ercv. eapply data_step_acks; [done | done | apply Ha].
  - rewrite Esnd. unfold ack_step, ack_flow in Hack. rewrite <- R1 in Hack.
    assert (rtc step s (mkSystem (c_snd c2) (sys_rcv s) (sys_net s) (sys_written s) (sys_delivered s))) as Hsteps.
    { destruct (pAck p) as [a|] eqn:Ea; [|destruct Hack as [-> _]; by destruct s]. destruct Hack as (st' & t & Hack & _).
      apply rtc_once. eapply step_ack; [|done]. destruct Hwf as (_ & _ & Hwf). by rewrite Ea in Hwf. }
    eexists. split; [|done]. unfold close_snd. destruct (IsClose p); [|done].
    eapply rtc_r; [exact Hsteps|]. apply (step_close (mkSystem (c_snd c2) _ _ _ _)).
Qed.

Lemma sim_receive enc rest now c' r :
  enc ∈ ep_net e -> receive (ep_b e) enc rest now = Ok (c', r) ->
  simulated s (mkEndpoints (ep_a e) c' (ep_net e) (ep_written e) (ep_delivered e)).
Proof.
  intros Hin Hrec. destruct Hinv as [Ha Hb]. pose proof (rp_rcv _ _ Hrep) as R2.
  destruct (rp_net _ _ Hrep enc Hin) as (pl & Hpl & Hsl).
  destruct (receive_inv (ep_b e) enc rest now c' r pl Hb Hsl Hrec) as [Hb' Hout]. apply simulated_b; [done|].
  destruct Hout as [E|(p & u & rb & Hdec & Hdata & E)]; [by apply same_receiver|]. rewrite E, <- R2 in *.
  assert (rtc step s (mkSystem (sys_snd s) rb (sys_net s) (sys_written s) (sys_delivered s))) as Hsteps.
  { unfold data_step in Hdata. case_decide as Hlen.
    - destruct Hdata as [status Hins]. destruct u as [d|]; [|simpl in Hlen; lia]. apply rtc_once.
      eapply step_receive; [done | done | | done]. intros ->. simpl in Hlen. lia.
    - subst rb. destruct (_ || _); [|by destruct s]. apply rtc_once. by eapply step_receive_empty. }
  eexists. split; [|done]. unfold close_rcv. destruct (IsClose p) eqn:Ec; [|done].
  eapply rtc_r; [exact Hsteps|]. by eapply (step_receive_close (mkSystem _ rb _ _ _)).
Qed.

Lemma sim_read st c' st' data err :
  Read (ep_b e) st = Ok (c', st', (data, err)) ->
  simulated s (mkEndpoints (ep_a e) c' (ep_net e) (ep_written e) (extend (ep_delivered e) (st_streamID st) (default [] data))).
Proof.
  intros Hr. destruct Hinv as [Ha [B1 B2 B3]]. destruct Hrep as [R1 R2 R3 R4 R5].
  apply Read_inv in Hr as (Hs & (_ & L2 & L3 & _) & Esnd & _ & Hstep); [|done].
  split; [split; [done|]; constructor; (done || cbn; congruence)|]. destruct Hstep as [[Er ->]|(off & t & Er)].
  - exists s. split; [done|]. constructor; cbn; try done; [congruence|]. intros sid. by rewrite extend_nil.
  - rewrite <- R2 in Er. eexists. split; [apply rtc_once; by eapply Delivery.step_read|]. constructor; try done.
    intros sid. by apply extend_same.
Qed.

Lemma ep_sim e' : ep_step write cfg_a cfg_b e e' -> simulated s e'.
Proof.
  pose proof Hinv as [Ha Hb]. pose proof (rp_snd _ _ Hrep) as R1. intros [| | | | | | | | | |].
  - by eapply sim_write.
  - apply simulated_a; [by apply linked_snd|]. eexists. split; [apply rtc_once, step_ping | by rewrite R1].
  - apply simulated_a; [by apply linked_snd|]. eexists. split; [apply rtc_once, step_close | by rewrite R1].
  - apply go_bind_Ok in H as (entries & _ & [= <-]). destruct (close_all_sim entries (ep_a e) s Ha R1) as [Hl Hst].
    apply simulated_a; [done|]. by eexists.
  - by eapply sim_flush.
  - by eapply sim_answer.
  - destruct r as [data err]. apply Read_inv in H as (Hs & Hl & Esnd & Eack & _); [|apply Ha].
    apply simulated_a; [apply (linked_same (ep_a e)); try done; rewrite Eack; apply Ha | by apply same_sender].
  - by eapply sim_receive.
  - by eapply sim_read.
  - pose proof H as (Es & Er & _ & (_ & _ & _ & _ & E2 & E3 & _))%Flush_frame.
    apply simulated_b; [destruct Hb; constructor; congruence|]. rewrite Er, <- (rp_rcv _ _ Hrep).
    destruct (GetSndAck (sys_rcv s)) as [rcv' a] eqn:Eg. eexists. split; [apply rtc_once; by eapply step_take_ack | done].
  - apply simulated_b.
    + apply Write_inv in H as [->|(sb & n & status & _ & -> & _)]; [done|]. destruct Hb. by constructor.
    + apply same_receiver. by apply Write_inv in H as [->|(sb & n & status & _ & -> & _)].
Qed.
End simulation.

(** The connections at the start: established, with empty buffers. *)
Definition established (sndCap rcvCap : Z) (a b : Conn PubKey PrvKey) : Prop :=
  linked cid secret dir a /\ reading b /\ c_snd a = NewSendBuffer sndCap /\ c_rcv b = NewReceiveBuffer rcvCap.

(** The ends that a handshake leaves ([peers], as the handshake theorems of
    [Listener] conclude) are such connections. *)
Lemma peers_established sndCap rcvCap (a b : Conn PubKey PrvKey) :
  peers a b secret -> connId a = cid -> isSenderOnInit a = dir -> isHandshakeDoneOnRcv a = true ->
  streams_ok (streams a) -> streams_ok (streams b) -> Forall wf_ack (ackList (c_rcv a)) ->
  c_snd a = NewSendBuffer sndCap -> c_rcv b = NewReceiveBuffer rcvCap -> established sndCap rcvCap a b.
Proof. intros [] **. split_and!; try done; constructor; (done || congruence). Qed.

(** From any state that implements one of [Delivery]. *)
Lemma endpoints_sim_from e0 s0 e :
  ep_inv e0 -> sys_inv s0 -> represents e0 s0 -> rtc (ep_step write cfg_a cfg_b) e0 e ->
  exists s, rtc step s0 s /\ represents e s.
Proof.
  intros Hi0 Hs0 Hr0 Hrun. set (P e := ep_inv e /\ exists s, rtc step s0 s /\ represents e s).
  enough (P e) by (subst P; naive_solver).
  refine (rtc_ind_r P e0 _ _ e Hrun); [|intros e1 e2 _ Hst IH]; [split; [done | by exists s0]|].
  destruct IH as (Hi & s & Hreach & Hrep).
  destruct (ep_sim e1 s Hi Hrep (steps_inv s0 s Hs0 Hreach) e2 Hst) as [Hi' (s' & Hs' & Hrep')].
  split; [done|]. exists s'. split; [by etrans | done].
Qed.

Lemma endpoints_sim sndCap rcvCap a b e :
  0 <= sndCap -> 0 <= rcvCap -> established sndCap rcvCap a b -> rtc (ep_step write cfg_a cfg_b) (start a b) e ->
  exists s, rtc step (init sndCap rcvCap) s /\ represents e s.
Proof.
  intros H1 H2 (Ha & Hb & Esnd & Ercv). apply endpoints_sim_from; [done | by apply inv_init|].
  constructor; try done. intros enc He. by apply not_elem_of_nil in He.
Qed.
End system.

(** ** Property *)

(** C2. Connections refine sender, network and receiver: in every run of two
    established connections that share a secret, through [Write], [Ping], [Close],
    [Flush] and answers of the peer at the writing end, lost, reordered and
    repeated datagrams, and decryption, parsing, [decode], [Read], [Flush] and
    [Write] at the reading end, the buffers of the connections are those of a
    reachable state of [Delivery] that has written and delivered the same bytes
    and whose payloads are what the datagrams carry; so on every stream the bytes
    read are a prefix of the bytes written. *)
Theorem endpoints_refine_delivery {PubKey PrvKey} `{!CryptoPrims PubKey PrvKey} `{!CryptoLaws PubKey PrvKey}
    (write : AddrPort -> bytes -> option go_error) (cfg_a cfg_b : ListenerCfg PrvKey) (cid : Z) (secret : bytes) (dir : bool)
    (sndCap rcvCap : Z) (a b : Conn PubKey PrvKey) (e : endpoints) :
  mtu_ok (l_mtu cfg_a) -> len secret = 32 -> 0 <= sndCap -> 0 <= rcvCap ->
  established cid secret dir sndCap rcvCap a b -> rtc (ep_step write cfg_a cfg_b) (start a b) e ->
  (exists s, rtc step (init sndCap rcvCap) s /\ represents cid secret dir e s) /\
  (forall sid, ep_delivered e sid `prefix_of` ep_written e sid).
Proof.
  intros Hmtu Hsec H1 H2 Hest Hrun.
  destruct (endpoints_sim write cfg_a cfg_b cid secret dir Hmtu Hsec sndCap rcvCap a b e H1 H2 Hest Hrun) as (s & Hs & Hrep).
  split; [by exists s|]. intros sid. rewrite <- (rp_written _ _ _ _ _ Hrep), <- (rp_delivered _ _ _ _ _ Hrep).
  by apply inv_prefix, (delivery_inv sndCap rcvCap).
Qed.

(** A run: five bytes are written on stream 7, flushed, received and read. *)
Definition reader : Conn bool bool :=
  mkConn 77 no_addr NewLinkedMap (Some true) None None (Some (toy_key true)) (NewSendBuffer 100) (NewReceiveBuffer 100)
    0 2000 false false true true 0 0 0 0 NewMeasurements.
Definition stream7 : Stream := mkStream 7 0.
Definition start7 : endpoints := start (conn_with (NewSendBuffer 100)) reader.
Definition wrote7 : Conn bool bool := (ok_or (ep_a start7, (0, None)) (Write None (ep_a start7) stream7 [0; 1; 2; 3; 4])).1.
Definition flush7 : Conn bool bool * flush_result :=
  ok_or (wrote7, ([], inr (0, 0))) (Conn.Flush discard listener1400 wrote7 stream7 1000).
Definition enc7 : bytes := default [] (head flush7.2.1).
Definition got7 : Conn bool bool * (go_error + Stream) := ok_or (reader, inr stream7) (receive reader enc7 [] 2000).
Definition read7 : Conn bool bool * Stream * (option bytes * option stream_error) :=
  ok_or (got7.1, stream7, (None, None)) (Read got7.1 stream7).
Definition written7 : endpoints :=
  mkEndpoints wrote7 (ep_b start7) (ep_net start7)
    (extend (ep_written start7) (st_streamID stream7) (take (accepted (ep_a start7) wrote7) [0; 1; 2; 3; 4])) (ep_delivered start7).
Definition flushed7 : endpoints :=
  mkEndpoints flush7.1 (ep_b written7) (flush7.2.1 ++ ep_net written7) (ep_written written7) (ep_delivered written7).
Definition received7 : endpoints :=
  mkEndpoints (ep_a flushed7) got7.1 (ep_net flushed7) (ep_written flushed7) (ep_delivered flushed7).
Definition end7 : endpoints :=
  mkEndpoints (ep_a received7) read7.1.1 (ep_net received7) (ep_written received7)
    (extend (ep_delivered received7) (st_streamID stream7) (default [] read7.2.1)).

Lemma no_streams_ok : streams_ok (NewLinkedMap : LinkedMap Z Stream).
Proof.
  destruct (lm_new_ok (K := Z) (V := Stream)) as [Hwf He]. split; [done|]. rewrite He. intros e H. by apply not_elem_of_nil in H.
Qed.

Lemma established7 : established 77 (toy_key true) true 100 100 (ep_a start7) (ep_b start7).
Proof.
  split_and!; try reflexivity.
  - constructor; try reflexivity; [by widths | apply no_streams_ok | constructor].
  - constructor; try reflexivity. apply no_streams_ok.
Qed.

Lemma run7 : rtc (ep_step discard listener1400 listener1400) start7 end7.
Proof.
  apply rtc_l with written7.
  { apply (ep_write _ _ _ start7 None stream7 [0; 1; 2; 3; 4] wrote7 (5, None)); [by widths | done | vm_compute; reflexivity]. }
  apply rtc_l with flushed7.
  { apply (ep_flush _ _ _ written7 stream7 1000 flush7.1 flush7.2); [by widths | vm_compute; reflexivity..]. }
  apply rtc_l with received7.
  { apply (ep_receive _ _ _ flushed7 enc7 [] 2000 got7.1 got7.2); [vm_compute; left | vm_compute; reflexivity]. }
  apply rtc_once, (ep_read _ _ _ received7 stream7 read7.1.1 read7.1.2 read7.2.1 read7.2.2). vm_compute. reflexivity.
Qed.

Lemma endpoints_refine_delivery_witness :
  rtc (ep_step discard listener1400 listener1400) start7 end7 /\ ep_delivered end7 7 = [0; 1; 2; 3; 4] /\
  ep_delivered end7 7 `prefix_of` ep_written end7 7.
Proof.
  destruct (endpoints_refine_delivery discard listener1400 listener1400 77 (toy_key true) true 100 100
    (ep_a start7) (ep_b start7) end7) as [_ H]; [vm_compute; split; congruence | reflexivity | lia | lia | exact established7 | exact run7 |].
  split; [exact run7|]. split; [vm_compute; reflexivity | apply H].
Defined.
