(* ===== verification/Session.v ===== *)
(** * Session: from [Dial] to the bytes read

    A session without early encryption, through the operations of the program:
    [Dial], [Conn.Stream] and a first [Write] at the dialling end; its first
    flush; [Listen] and the reply of the other end; [Listen] at the dialling end;
    and then any run of the two connections ([Endpoints]).  The handshake is a run
    of [Delivery] too, so that bytes written before it count. *)

From stdpp Require Import prelude gmap list numbers strings relations.
From S2P Require Import Prelude Wire Proto Measurement Interfaces LinkedMap SortedMap Rcv Crypto Snd Delivery Conn Streams Inversion Flow Listener Scheduler Endpoints.
Open Scope Z_scope.

Section session.
Context {PubKey PrvKey : Type} `{!CryptoPrims PubKey PrvKey} `{!CryptoLaws PubKey PrvKey}.
Implicit Types (l : Listener PubKey PrvKey) (c : Conn PubKey PrvKey).
Context (write : AddrPort -> bytes -> option go_error) (Hwrite : forall to d, write to d = None).

(** ** The first flush of the dialling end *)

Lemma nothing_to_resend (sb : SendBuffer (LinkedMap Z SendInfo)) sid ack mtu rto mt now :
  flights_wf sb -> flight_of sb sid = [] -> ReadyToRetransmit sb sid ack mtu rto mt now = Ok (sb, inr nothing).
Proof.
  intros Hw Hf. unfold ReadyToRetransmit. case_decide; [done|]. destruct (sb_streams sb !! sid) as [st|] eqn:E; [|done].
  destruct (stream_wf sb sid st Hw E) as [Hst _]. rewrite lmi_first_spec by done. cbn [mbind go_bind].
  unfold flight_of, sstream in Hf. rewrite E in Hf. cbn [default from_option id] in Hf. by rewrite Hf.
Qed.

Lemma encode_init (cfg : ListenerCfg PrvKey) c epA p u :
  prvKeyEpSnd c = Some epA -> snCrypto c = 0 -> epochCryptoSnd c = 0 -> mtu_ok (l_mtu cfg) ->
  encode cfg c p u InitSnd
  = Ok (set_counter c true 1 0, inr (init_snd_bytes (public_key epA) (public_key (prvKeyId cfg)) (l_mtu cfg))).
Proof.
  intros Hp Hs He Hm. unfold mtu_ok in Hm. apply encode_first; [|done|done]. unfold encode_msg. rewrite Hp.
  cbn [go_deref mbind go_bind]. rewrite encryptInitSnd_spec by (change MinInitCryptoSndSizeHdr with 65; lia). done.
Qed.

(** The dialled connection with streams [m] and send buffer [sb]. *)
Definition dialled (cid : Z) (addr : AddrPort) (epA : PrvKey) m sb : Conn PubKey PrvKey :=
  set_snd (set_streams (fresh_conn cid addr epA None None true false) m) sb.

Lemma first_flush f (cfg : ListenerCfg PrvKey) cid addr epA m sb st now :
  mtu_ok (l_mtu cfg) -> 0 <= now -> snd_inv f sb -> flight_of sb (st_streamID st) = [] ->
  exists sb' nw pc off close,
    Conn.Flush write cfg (dialled cid addr epA m sb) st now
    = Ok (set_flow (set_counter (dialled cid addr epA m sb') true 1 0) 0 rcvBufferCapacity nw,
          ([init_snd_bytes (public_key epA) (public_key (prvKeyId cfg)) (l_mtu cfg)], inr (0, pc))) /\
    is_u64 nw /\ (sb' = sb \/ ReadyToSend sb (st_streamID st) InitSnd None (l_mtu cfg) now = Ok (sb', (Some [], off, close))).
Proof.
  intros Hm Hnow Hi Hf. unfold Conn.Flush. set (c := dialled cid addr epA m).
  change (GetSndAck (c_rcv (c sb))) with (NewReceiveBuffer rcvBufferCapacity : ReceiveBuffer (SortedMap RcvValue), None : option Ack).
  cbv beta iota zeta. cbn [fmap option_fmap option_map].
  change (set_rcv (c sb) (NewReceiveBuffer rcvBufferCapacity)) with (c sb).
  change (nextWriteTime (c sb)) with 0. change (dataInFlight (c sb)) with 0. change (rcvWndSize (c sb)) with rcvBufferCapacity.
  change (msgType (c sb)) with InitSnd. change (c_snd (c sb)) with sb. rewrite decide_False by lia.
  pose proof Hm as Hm'. unfold mtu_ok in Hm'. rewrite decide_False; cycle 1.
  { rewrite i64_small by lia. change (to_int rcvBufferCapacity) with (16 * 1024 * 1024). lia. }
  rewrite nothing_to_resend; [|intros sid; apply (si_wf _ _ (sstream_inv f sb sid Hi)) | done].
  cbn [mbind go_bind nothing]. change (set_snd (c sb) sb) with (c sb). unfold flush_send.
  change (isHandshakeDoneOnRcv (c sb) || negb (isInitSentOnSnd (c sb))) with true. change (c_snd (c sb)) with sb. cbv iota zeta.
  destruct (ReadyToSend_spec f sb (st_streamID st) InitSnd None (l_mtu cfg) now Hi) as (sb' & d & off & close & E & _ & _ & Hd).
  { intros o. unfold max_data. rewrite decide_True by done. lia. }
  rewrite E. cbn [mbind go_bind]. change (set_snd (c sb) sb') with (c sb').
  assert (forall p u, encode cfg (c sb') p u InitSnd = _) as Henc by (intros p u; by apply encode_init).
  destruct d as [d|].
  - destruct Hd as (_ & Hlen & _). unfold max_data in Hlen. rewrite decide_True in Hlen by done.
    assert (d = []) as -> by (by apply nil_length_inv; lia). unfold sendPacket. rewrite Henc. cbn [mbind go_bind]. rewrite Hwrite.
    match goal with |- context [calcPacing ?x ?n] => destruct (calcPacing_total x n) as [pc ->] end.
    cbn [mbind go_bind]. exists sb', (u64 (now + pc)), pc, off, close. split; [done|]. split; [apply u64_range | by right].
  - destruct Hd as [-> _]. change (bool_decide (is_Some (None : option Ack)) || negb (isInitSentOnSnd (c sb))) with true.
    cbv iota. unfold writeAck. destruct (checkStreamFullyAcked_total f (c sb) (st_streamID st) Hi) as [b ->]. cbn [mbind go_bind].
    change (msgType (c sb)) with InitSnd. rewrite Henc. cbn [mbind go_bind]. rewrite Hwrite.
    match goal with |- context [calcPacing ?x ?n] => destruct (calcPacing_total x n) as [pc ->] end.
    cbn [mbind go_bind]. exists sb, (u64 (now + pc)), pc, off, close. split; [done|]. split; [apply u64_range | by left].
Qed.

(** The first stream of a connection. *)
Lemma new_stream c sid : streams c = NewLinkedMap -> exists m, conn_Stream c sid = Ok (set_streams c m, mkStream sid 0) /\ streams_ok m.
Proof.
  intros Hc. destruct (file_stream NewLinkedMap (mkStream sid 0) no_streams_ok) as (m & E & Hok & _). cbn [st_streamID] in E.
  exists m. split; [|done]. unfold conn_Stream. rewrite Hc, lm_get_ok by apply no_streams_ok. cbn [mbind go_bind].
  destruct (lm_new_ok (K := Z) (V := Stream)) as [_ ->]. cbn [al_get mbind go_bind]. by rewrite E.
Qed.

Lemma fresh_stream cid addr epA sid : exists m,
  conn_Stream (fresh_conn cid addr epA None None true false : Conn PubKey PrvKey) sid
  = Ok (dialled cid addr epA m (NewSendBuffer sndBufferCapacity), mkStream sid 0) /\ streams_ok m.
Proof. by apply new_stream. Qed.

(** ** A write before the handshake *)

Definition no_bytes : Z -> bytes := fun _ => [].

Definition rcv0 : ReceiveBuffer (SortedMap RcvValue) := NewReceiveBuffer rcvBufferCapacity.

(** A state of [Delivery] with this sender, where the application has written the
    first [n] bytes of [d] and nothing has arrived. *)
Definition sender_state sid (d : bytes) (n : Z) sb : Prop :=
  exists s, rtc step (init sndBufferCapacity rcvBufferCapacity) s /\ sys_inv s /\ sys_snd s = sb /\ sys_rcv s = rcv0 /\
    (forall x, sys_written s x = extend no_bytes sid (take (Z.to_nat n) d) x) /\ (forall x, sys_delivered s x = []).

Lemma init_inv : sys_inv (init sndBufferCapacity rcvBufferCapacity).
Proof. by apply inv_init. Qed.

Lemma first_write cid addr epA m st (d : bytes) :
  is_u32 (st_streamID st) -> IsClosed st = false -> len d < 2 ^ 48 ->
  exists sb n, Write None (dialled cid addr epA m (NewSendBuffer sndBufferCapacity)) st d = Ok (dialled cid addr epA m sb, (n, None)) /\
    sender_state (st_streamID st) d n sb /\ flight_of sb (st_streamID st) = [].
Proof.
  intros Hsid Hop Hd. unfold Write. rewrite Hop. change (IsCloseRequested (dialled cid addr epA m _) st) with false. cbn [orb].
  case_decide as H0.
  { assert (d = []) as -> by (by apply nil_length_inv; lia). exists (NewSendBuffer sndBufferCapacity), 0. split; [done|]. split; [|done].
    exists (init sndBufferCapacity rcvBufferCapacity). split; [done|]. split; [apply init_inv|]. split_and!; try done.
    intros x. unfold extend. by case_decide. }
  set (sid := st_streamID st) in *. set (n := Z.min (len d) (sndBufferCapacity - 0)).
  set (f := written_stream (extend no_bytes sid (take (Z.to_nat n) d)) 0).
  destruct (QueueData_spec f (NewSendBuffer sndBufferCapacity : SendBuffer (LinkedMap Z SendInfo)) sid d)
    as (sb & status & E & Hi & _ & _ & _ & _ & Hf & _).
  { by apply NewSendBuffer_inv. }
  { change (sb_capacity _ - sb_size _) with (sndBufferCapacity - 0). fold n.
    pose proof (extend_bytes _ _ _ _ (written_stream_continues (extend no_bytes sid (take (Z.to_nat n) d)) 0)) as Hx.
    fold f in Hx. rewrite Hx at 1. f_equal. rewrite length_take. unfold n. lia. }
  { change (sent_of _ sid + len (queue_of _ sid)) with 0. lia. }
  change (sb_capacity (NewSendBuffer sndBufferCapacity) - sb_size (NewSendBuffer sndBufferCapacity)) with (sndBufferCapacity - 0) in E. fold n in E.
  change (c_snd (dialled cid addr epA m (NewSendBuffer sndBufferCapacity))) with (NewSendBuffer sndBufferCapacity : SendBuffer (LinkedMap Z SendInfo)).
  rewrite E. cbn [mbind go_bind]. exists sb, n. split; [by case_decide|]. split; [|by rewrite Hf].
  assert (step (init sndBufferCapacity rcvBufferCapacity) (mkSystem sb (NewReceiveBuffer rcvBufferCapacity) []
    (extend no_bytes sid (take (Z.to_nat n) d)) no_bytes)) as Hst.
  { apply (step_write (init sndBufferCapacity rcvBufferCapacity) sid d sb n status); [done | cbn; lia | exact E]. }
  eexists. split; [by apply rtc_once|]. split; [by eapply step_inv, Hst; apply init_inv|]. by split_and!.
Qed.

(** ** The reply of the other end *)

(** The responder with measurements [x], streams [m] and receive buffer [rb]. *)
Definition answering cid addr epB (idA epA : PubKey) secret x m rb : Conn PubKey PrvKey :=
  set_rcv (set_streams (set_meas (responder cid addr epB idA epA false secret) x) m) rb.

Lemma note_read_meas c now : exists x, note_read c now = set_meas c x.
Proof. unfold note_read. case_decide; [eauto|]. exists (c_meas c). by destruct c. Qed.

(** Every stream of the table is open. *)
Definition all_open (m : LinkedMap Z Stream) : Prop := forall e, e ∈ lm_elems m -> IsClosed e.2 = false.

Lemma open_stream c sid : streams_ok (streams c) -> all_open (streams c) ->
  exists m s, conn_Stream c sid = Ok (set_streams c m, s) /\ streams_ok m /\ filed (set_streams c m) s sid /\ IsClosed s = false /\ all_open m.
Proof.
  intros Hok Hopen. pose proof Hok as [Hwf Hid]. unfold conn_Stream. rewrite lm_get_ok by done. cbn [mbind go_bind].
  destruct (al_get sid (lm_elems (streams c))) as [s|] eqn:E.
  - apply al_get_elem in E. exists (streams c), s. assert (set_streams c (streams c) = c) as -> by (by destruct c).
    split; [done|]. split; [done|]. split; [split; [exact (Hid _ E) | done]|]. split; [exact (Hopen _ E) | done].
  - destruct (lm_put_ok (streams c) sid (mkStream sid 0) Hwf) as (m & Hp & Hwf' & He). rewrite Hp. cbn [mbind go_bind].
    destruct (file_stream (streams c) (mkStream sid 0) Hok) as (m' & Hp' & Hok' & Hin'). cbn [st_streamID] in Hp', Hin'.
    rewrite Hp in Hp'. injection Hp' as <-. exists m, (mkStream sid 0). split; [done|]. split; [done|]. split; [by split|]. split; [done|].
    intros e Hs. rewrite He in Hs. apply elem_al_put in Hs as [->|[Hs _]]; [done | by apply Hopen | by apply lm_nodup].
Qed.

(** The first message reaches the responder: an acknowledgement of it is due. *)
Lemma first_listen l cid epB (idA epA : PubKey) secret addr mtu now :
  table_ok l -> l_keyLog l = false -> l_mtu (l_cfg l) = mtu -> mtu_ok mtu -> cid = key_conn_id epA ->
  al_get cid (conns l) = None -> ecdh epB epA = inr secret ->
  exists l' s x m, Listen l (inr epB) (inr (init_snd_bytes epA idA mtu, addr)) now = Ok (l', inr (Some (cid, s))) /\ table_ok l' /\
    l_cfg l' = l_cfg l /\ st_streamID s = 0 /\ streams_ok m /\ all_open m /\ meas_inv x /\
    (cid, answering cid addr epB idA epA secret x m (add_ack rcv0 (mkAck 0 0 0 0))) ∈ conns l'.
Proof.
  intros Hl Hk Hmtu Hm Hcid Hn Hs. set (b0 := responder cid addr epB idA epA false secret).
  destruct (init_received l cid epB idA epA secret (make_bytes (l_mtu (l_cfg l) - len (init_snd_bytes epA idA mtu))) addr mtu)
    as (l1 & Hdec & Hl1 & Ho1 & Hin1); [done..|]. fold b0 in Hdec, Hin1.
  destruct (note_read_meas b0 now) as [x Hx].
  destruct (open_stream (set_meas b0 x) 0 no_streams_ok) as (m & s & Hstr & Hok & [Hsid _] & _ & Hopen).
  { intros e He. change (e ∈ lm_elems NewLinkedMap) in He. destruct (lm_new_ok (K := Z) (V := Stream)) as [_ Hn0]. rewrite Hn0 in He. by apply not_elem_of_nil in He. }
  assert (meas_inv x) as Hmx.
  { change x with (c_meas (set_meas b0 x)). rewrite <- Hx. assert (conn_inv (fun _ _ => 0) (fun _ _ => 0) b0) as Hb0.
    - constructor; [by apply NewSendBuffer_inv | by apply NewReceiveBuffer_exact | apply meas_inv_new | apply no_streams_ok].
    - exact (ci_meas _ _ _ (conn_inv_read _ _ _ now Hb0)). }
  assert (Conn.decode (note_read b0 now) (mkPayloadHeader false None 0 0) (Some []) (len (init_snd_bytes epA idA mtu)) now
    = Ok (set_rcv (set_streams (set_meas b0 x) m) (add_ack rcv0 (mkAck 0 0 0 0)), s)) as Hd.
  { rewrite Hx. unfold Conn.decode. cbn [StreamID pAck IsClose StreamOffset]. rewrite Hstr. cbn [mbind go_bind mret go_ret].
    rewrite decide_False by (simpl; lia). cbn [orb]. rewrite bool_decide_true by (by eexists). by rewrite Hsid. }
  pose proof (init_snd_bytes_length epA idA mtu) as Hlen. unfold mtu_ok in Hm. change MinInitCryptoSndSizeHdr with 65 in Hlen.
  destruct (listen_decoded l (inr epB) (init_snd_bytes epA idA mtu) addr now l1 cid b0 [] InitSnd _ _ _ _ ltac:(by intros E; rewrite E in Hlen; simpl in Hlen; lia)
    Hdec Hl1 Hin1 ltac:(reflexivity) Hd) as (l' & HL & Hl' & Ho' & Hin').
  exists l', s, x, m. split; [done|]. split; [done|]. split; [by destruct Ho' as (-> & _), Ho1 as (-> & _)|]. by split_and!.
Qed.

(** The acknowledgement of the first message, with the whole buffer as window. *)
Definition first_ack : Ack := mkAck 0 0 0 rcvBufferCapacity.

(** Nothing is queued, and neither a ping nor a close was asked for. *)
Record nothing_new (sb : SendBuffer (LinkedMap Z SendInfo)) (sid : Z) : Prop := {
  nn_flights : flights_wf sb;
  nn_flight : flight_of sb sid = [];
  nn_queue : queue_of sb sid = [];
  nn_ping : pingRequest (sstream sb sid) = false;
  nn_close : sb_closeAtOffset (sstream sb sid) = None;
}.

Lemma nothing_to_send sb sid t ack mtu now : nothing_new sb sid -> ReadyToSend sb sid t ack mtu now = Ok (sb, (None, 0, false)).
Proof.
  intros [_ _ Hq Hp Hc]. unfold ReadyToSend. case_decide; [done|]. destruct (sb_streams sb !! sid) as [st|] eqn:E; [|done].
  unfold queue_of, sstream in *. rewrite E in Hq, Hp, Hc. cbn [default from_option id] in *. rewrite Hp, decide_True by done.
  unfold reaches_close. by rewrite Hc.
Qed.

Lemma nothing_to_close sb sid : nothing_new sb sid -> Snd.GetOffsetClosedAt sb sid = None.
Proof. intros [_ _ _ _ Hc]. revert Hc. unfold Snd.GetOffsetClosedAt, sstream. by destruct (sb_streams sb !! sid). Qed.

(** A flush with nothing to send but an acknowledgement. *)
Lemma ack_flush (cfg : ListenerCfg PrvKey) c rcv a ack st now c1 enc :
  GetSndAck (c_rcv c) = (rcv, Some a) ->
  mkAck (ack_streamID a) (ack_offset a) (ack_len a) (u64 (u64 (capacity rcv) - u64 (Rcv.Size rcv))) = ack ->
  nextWriteTime c <= now -> i64 (dataInFlight c + l_mtu cfg) <= to_int (rcvWndSize c) -> nothing_new (c_snd c) (st_streamID st) ->
  encode cfg (set_rcv c rcv) (mkPayloadHeader false (Some ack) (st_streamID st) 0) None (msgType (set_rcv c rcv)) = Ok (c1, inr enc) ->
  exists nw pc, Conn.Flush write cfg c st now
    = Ok (set_flow c1 (dataInFlight c1) (rcvWndSize c1) nw, ([enc], inr (0, pc))) /\ is_u64 nw.
Proof.
  intros Hget Hack Hnow Hwnd Hsb Henc. unfold Conn.Flush. rewrite Hget. cbv zeta.
  cbn [fmap option_fmap option_map nextWriteTime c_rcv set_rcv dataInFlight rcvWndSize c_snd]. rewrite Hack.
  rewrite decide_False by lia. rewrite decide_False by lia.
  rewrite nothing_to_resend by apply Hsb. cbn [mbind go_bind nothing]. set (c0 := set_rcv c rcv) in *.
  assert (set_snd c0 (c_snd c) = c0) as -> by (by destruct c).
  assert (exists nw pc, writeAck write cfg c0 st (Some ack) now
    = Ok (set_flow c1 (dataInFlight c1) (rcvWndSize c1) nw, ([enc], inr (0, pc))) /\ is_u64 nw) as (nw & pc & Hw & Hu).
  { unfold writeAck, checkStreamFullyAcked. cbn [c0 set_rcv c_snd]. fold c0. rewrite nothing_to_close by done.
    cbn [mbind go_bind mret go_ret]. rewrite Henc. cbn [mbind go_bind]. rewrite Hwrite.
    destruct (calcPacing_total (c_meas c1) (len enc)) as [pc ->]. cbn [mbind go_bind]. eexists _, pc. split; [done|].
    apply u64_range. }
  exists nw, pc. split; [|done]. unfold flush_send. destruct (_ || _); [|exact Hw].
  cbn [c0 set_rcv c_snd]. rewrite nothing_to_send by done. cbn [mbind go_bind]. fold c0.
  assert (set_snd c0 (c_snd c) = c0) as -> by (by destruct c).
  rewrite bool_decide_true by (by eexists). exact Hw.
Qed.

Lemma reply_flush (cfg : ListenerCfg PrvKey) cid addr epB (idA epA : PubKey) secret x m st now :
  mtu_ok (l_mtu cfg) -> 0 <= now -> ecdh epB epA = inr secret ->
  let b := answering cid addr epB idA epA secret x m in
  let p := mkPayloadHeader false (Some first_ack) (st_streamID st) 0 in
  exists nw pc, Conn.Flush write cfg (b (add_ack rcv0 (mkAck 0 0 0 0))) st now
    = Ok (set_flow (set_counter (b rcv0) true 1 0) 0 rcvBufferCapacity nw,
          ([packet_bytes 0 0 false secret (init_rcv_header cid (public_key epB) (public_key (prvKeyId cfg))) (payload_bytes p None)],
           inr (0, pc))) /\ is_u64 nw.
Proof.
  intros Hm Hnow Hs b p. unfold mtu_ok in Hm.
  destruct (ack_flush cfg (b (add_ack rcv0 (mkAck 0 0 0 0))) rcv0 (mkAck 0 0 0 0) first_ack st now (set_counter (b rcv0) true 1 0)
    (packet_bytes 0 0 false secret (init_rcv_header cid (public_key epB) (public_key (prvKeyId cfg))) (payload_bytes p None)))
    as (nw & pc & E & Hnw); [done | vm_compute; reflexivity | exact Hnow | | | | by exists nw, pc].
  { change (dataInFlight (b _)) with 0. change (rcvWndSize (b _)) with rcvBufferCapacity. rewrite i64_small by lia.
    change (to_int rcvBufferCapacity) with (16 * 1024 * 1024). lia. }
  { constructor; try done. intros sid. apply lmi_new_spec. }
  apply encode_first; [|done|done]. unfold encode_msg. rewrite EncodePayload_spec. cbn [mbind go_bind].
  cbn [b answering responder set_keys set_meas set_streams set_rcv fresh_conn prvKeyEpSnd pubKeyEpRcv connId snCrypto].
  rewrite (encryptInitRcv_spec _ _ _ _ secret) by (done || apply payload_bytes_length). done.
Qed.

(** ** The end of the handshake *)

(** What the reply makes of the dialled connection. *)
Definition replied c secret c' : Prop :=
  connId c' = connId c /\ remoteAddr c' = remoteAddr c /\ sharedSecret c' = Some secret /\ isSenderOnInit c' = isSenderOnInit c /\
  snCrypto c' = snCrypto c /\ epochCryptoSnd c' = epochCryptoSnd c /\ streams_ok (streams c') /\ c_rcv c' = c_rcv c /\
  epochCryptoRcv c' = epochCryptoRcv c /\ nextWriteTime c' = nextWriteTime c /\ rcvWndSize c' = rcvBufferCapacity /\
  exists st t, AcknowledgeRange (c_snd c) (received_ack first_ack) = Ok (c_snd c', (st, t)) /\
    (st = AckNoStream -> dataInFlight c' = dataInFlight c).

Lemma reply_listen f l key cid c epA (idB epB : PubKey) secret addr sid now :
  table_ok l -> (cid, c) ∈ conns l -> prvKeyEpSnd c = Some epA -> is_u64 cid -> ecdh epA epB = inr secret -> is_u32 sid -> is_u64 now ->
  conn_inv f f c -> isSenderOnInit c = true -> isHandshakeDoneOnRcv c = false ->
  let enc := packet_bytes 0 0 false secret (init_rcv_header cid epB idB)
               (payload_bytes (mkPayloadHeader false (Some first_ack) sid 0) None) in
  exists l' s c', Listen l key (inr (enc, addr)) now = Ok (l', inr (Some (cid, s))) /\ table_ok l' /\ (cid, c') ∈ conns l' /\
    isHandshakeDoneOnRcv c' = true /\ replied c secret c' /\ conn_inv f f c'.
Proof.
  intros Hl Hin Hp Hcid Hs Hsid Hnow Hc Hsnd Hdone enc. set (p := mkPayloadHeader false (Some first_ack) sid 0) in enc.
  assert (wf_payload p) as Hwf by (split; [done|]; by vm_compute).
  destruct (reply_received l key cid c epA idB epB secret 0 (payload_bytes p None) (make_bytes (l_mtu (l_cfg l) - len enc)) addr)
    as (l1 & Hdec & Hl1 & _ & Hin1); [done | done | done | done | by widths | done | apply payload_bytes_length|]. fold enc in Hdec.
  set (c1 := set_keys c (Some idB) (Some epB) (Some secret)) in *.
  assert (conn_inv f f (note_read c1 now)) as Hc1 by (apply conn_inv_read; destruct Hc; by constructor).
  set (q := mkPayloadHeader false (Some (received_ack first_ack)) 0 0).
  destruct (decode_spec f f (note_read c1 now) q None (len enc) now Hc1) as (c2 & s & Hd & Hc2 & _).
  { intros a [= <-]. split_and!; by widths. }
  { intros H. simpl in H. lia. }
  { done. }
  destruct (listen_decoded l key enc addr now l1 cid c1 (payload_bytes p None) InitRcv q None c2 s)
    as (l' & HL & Hl' & _ & Hin'); [by intros | done | done | done | by rewrite parse_payload_bytes | done|].
  apply decode_inv in Hd as (Hs2 & (E1 & E2 & E3 & E4 & E5 & E6 & E7 & E8 & E9) & (c3 & (st & t & Hack & Ew & Ef) & Esnd & Ew' & Ef') & (rb & Hrb & Ercv)); [|apply Hc1].
  exists l', s, (handshake_done c2 InitRcv). split; [done|]. split; [done|]. split; [done|].
  assert (handshake_done c2 InitRcv = set_done c2 true) as ->.
  { destruct (note_read_meas c1 now) as [x Hx]. rewrite Hx in E3, E4. unfold handshake_done. rewrite E4, E3. cbn. by rewrite Hdone, Hsnd. }
  split; [done|]. destruct (note_read_meas c1 now) as [x Hx]. rewrite Hx in *.
  unfold data_step in Hrb. rewrite decide_False in Hrb by (simpl; lia). cbn in Hrb. subst rb.
  split; [|by apply (conn_inv_done f f c2 InitRcv) in Hc2; unfold handshake_done in Hc2; rewrite E4, E3 in Hc2; cbn in Hc2; rewrite Hdone, Hsnd in Hc2].
  split_and!; try done; [cbn; by rewrite Ew', Ew|]. exists st, t. cbn [set_done c_snd dataInFlight]. split; [by rewrite Esnd|].
  intros ->. by rewrite Ef', Ef, decide_False.
Qed.

Lemma replied_linked c secret c' :
  replied c secret c' -> isHandshakeDoneOnRcv c' = true -> ctr_ok c -> ackList (c_rcv c) = [] -> linked (connId c) secret (isSenderOnInit c) c'.
Proof.
  intros (E1 & _ & E3 & E4 & E5 & E6 & E7 & E8 & _) Hdone Hc Ha. constructor; try done.
  - unfold ctr_ok in *. by rewrite E5, E6.
  - by rewrite E8, Ha.
Qed.

(** ** The handshake as a run of [Delivery] *)

Lemma sender_send sid d n sb mtu now sb' off close :
  is_u32 sid -> sender_state sid d n sb -> ReadyToSend sb sid InitSnd None mtu now = Ok (sb', (Some [], off, close)) ->
  sender_state sid d n sb'.
Proof.
  intros Hsid (s & Hrun & Hi & <- & Hr & Hw & Hdl) E.
  assert (step s (mkSystem sb' (sys_rcv s) (payload_bytes (Delivery.packet sid off close None) (Some []) :: sys_net s)
    (sys_written s) (sys_delivered s))) as Hst.
  { eapply step_send; [done | | | exact E | apply EncodePayload_spec]; [|by vm_compute].
    intros o. unfold max_data. rewrite decide_True by done. lia. }
  eexists. split; [by eapply rtc_r|]. split; [by eapply step_inv|]. done.
Qed.

Lemma sender_ack sid d n sb a sb' r :
  sender_state sid d n sb -> wf_ack a -> AcknowledgeRange sb a = Ok (sb', r) -> sender_state sid d n sb'.
Proof.
  intros (s & Hrun & Hi & <- & Hr & Hw & Hdl) Ha E. pose proof (step_ack s a sb' r Ha E) as Hst.
  eexists. split; [by eapply rtc_r|]. split; [by eapply step_inv|]. done.
Qed.

Lemma sender_snd sid d n sb : sender_state sid d n sb -> exists f, snd_inv f sb.
Proof. intros (s & _ & Hi & <- & _). exists (some_stream s). by apply some_snd. Qed.

(** The two ends after the handshake. *)
Definition after_handshake (a b : Conn PubKey PrvKey) sid (d : bytes) (n : Z) : endpoints :=
  mkEndpoints a b [] (extend no_bytes sid (take (Z.to_nat n) d)) no_bytes.

Lemma session_run (cfgA cfgB : ListenerCfg PrvKey) cid secret a b sid d n e :
  mtu_ok (l_mtu cfgA) -> len secret = 32 -> linked cid secret true a -> reading secret true b ->
  sender_state sid d n (c_snd a) -> c_rcv b = rcv0 ->
  rtc (ep_step write cfgA cfgB) (after_handshake a b sid d n) e ->
  forall x, ep_delivered e x `prefix_of` ep_written e x.
Proof.
  intros Hm Hsec Ha Hb (s & Hrun & Hi & Hs & Hr & Hw & Hdl) Hrb He.
  destruct (endpoints_sim_from write cfgA cfgB cid secret true Hm Hsec (after_handshake a b sid d n) s e) as (s' & Hs' & Hrep);
    [done | done | | done|].
  - constructor; cbn; try done; [congruence|]. intros enc H. by apply not_elem_of_nil in H.
  - intros x. rewrite <- (rp_written _ _ _ _ _ Hrep), <- (rp_delivered _ _ _ _ _ Hrep). by apply inv_prefix, (steps_inv s).
Qed.
End session.

(** ** Property *)

(** C3. A whole session: a listener dials, opens a stream, writes to it and
    flushes; the datagram has the other listener make a connection, whose flush
    replies; the reply completes the handshake at the dialling end, which holds
    the address it dialled.  Every step returns without error or panic, and in
    every run of the two connections from then on, on every stream, the bytes
    read at the other end are a prefix of the bytes written, those written
    before the handshake first. *)
Theorem session_delivers {PubKey PrvKey} `{!CryptoPrims PubKey PrvKey} `{!CryptoLaws PubKey PrvKey}
    (write : AddrPort -> bytes -> option go_error) (lA0 lB : Listener PubKey PrvKey) (epA epB : PrvKey) (key : go_error + PrvKey)
    (secret : bytes) (sid : Z) (d : bytes) (addrA addrB addr3 : AddrPort) (now1 now2 now3 now4 : Z) :
  let cid := key_conn_id (public_key epA) in
  (forall to x, write to x = None) -> table_ok lA0 -> table_ok lB -> l_keyLog lA0 = false -> l_keyLog lB = false ->
  l_mtu (l_cfg lA0) = l_mtu (l_cfg lB) -> mtu_ok (l_mtu (l_cfg lA0)) ->
  al_get cid (conns lA0) = None -> al_get cid (conns lB) = None -> ecdh epB (public_key epA) = inr secret ->
  is_u32 sid -> len d < 2 ^ 48 -> 0 <= now1 -> 0 <= now3 -> is_u64 now4 ->
  exists lA a a1 st a2 n a3 enc1 pc1 lB' sB b b1 enc2 pc2,
    Dial lA0 (inr epA) addrB = Ok (lA, inr a) /\ conn_Stream a sid = Ok (a1, st) /\ Write None a1 st d = Ok (a2, (n, None)) /\
    Conn.Flush write (l_cfg lA0) a2 st now1 = Ok (a3, ([enc1], inr (0, pc1))) /\
    Listen lB (inr epB) (inr (enc1, addrA)) now2 = Ok (lB', inr (Some (cid, sB))) /\ (cid, b) ∈ conns lB' /\
    Conn.Flush write (l_cfg lB) b sB now3 = Ok (b1, ([enc2], inr (0, pc2))) /\
    forall lA1, table_ok lA1 -> (cid, a3) ∈ conns lA1 ->
      exists lA' sA a4, Listen lA1 key (inr (enc2, addr3)) now4 = Ok (lA', inr (Some (cid, sA))) /\ (cid, a4) ∈ conns lA' /\
        isHandshakeDoneOnRcv a4 = true /\ remoteAddr a4 = addrB /\ remoteAddr b1 = addrA /\
        forall e, rtc (ep_step write (l_cfg lA0) (l_cfg lB)) (after_handshake a4 b1 sid d n) e ->
          forall x, ep_delivered e x `prefix_of` ep_written e x.
Proof.
  intros cid Hw HA HB KA KB Emtu Hm NA NB Hs Hsid Hd H1 H3 H4.
  destruct (Dial_spec lA0 epA addrB HA KA NA) as (lA & HD & _). fold cid in HD.
  destruct (fresh_stream (PubKey := PubKey) cid addrB epA sid) as (m & Hst & Hok).
  destruct (first_write (PubKey := PubKey) cid addrB epA m (mkStream sid 0) d Hsid eq_refl Hd) as (sb & n & Hwr & Hss & Hf). cbn [st_streamID] in Hss, Hf.
  destruct (sender_snd _ _ _ _ Hss) as [f Hf1].
  destruct (first_flush write Hw f (l_cfg lA0) cid addrB epA m sb (mkStream sid 0) now1 Hm H1 Hf1 Hf)
    as (sb' & nw1 & pc1 & off & close & Hfl & _ & Hsend).
  assert (sender_state sid d n sb') as Hss' by (destruct Hsend as [->|E]; [done | by eapply sender_send]).
  destruct (first_listen lB cid epB (public_key (prvKeyId (l_cfg lA0))) (public_key epA) secret addrA (l_mtu (l_cfg lA0)) now2)
    as (lB' & sB & x & mB & HLB & HlB' & EcB & HsB & HokB & _ & _ & HinB); [done..|].
  destruct (reply_flush write Hw (l_cfg lB) cid addrA epB (public_key (prvKeyId (l_cfg lA0))) (public_key epA) secret x mB sB now3)
    as (nw2 & pc2 & Hfl2 & _); [by rewrite <- Emtu | done | done|].
  do 15 eexists. split; [exact HD|]. split; [exact Hst|]. split; [exact Hwr|]. split; [exact Hfl|]. split; [exact HLB|].
  split; [exact HinB|]. split; [exact Hfl2|]. intros lA1 HlA1 HinA1.
  destruct (sender_snd _ _ _ _ Hss') as [f' Hf'].
  destruct (reply_listen f' lA1 key cid (set_flow (set_counter (dialled cid addrB epA m sb') true 1 0) 0 rcvBufferCapacity nw1) epA
    (public_key (prvKeyId (l_cfg lB))) (public_key epB) secret addr3 (st_streamID sB) now4)
    as (lA' & sA & a4 & HLA & _ & HinA & Hdone & Hrep & _);
    [done | done | done | apply key_conn_id_u64 | by apply ecdh_agree | by rewrite HsB; widths | done | | done | done|].
  { constructor; [done | by apply NewReceiveBuffer_exact | apply meas_inv_new | done]. }
  pose proof (replied_linked _ _ _ Hrep Hdone ltac:(split; by widths) eq_refl) as Hlink. destruct Hrep as (_ & E2 & _ & _ & _ & _ & _ & _ & _ & _ & _ & r & t & Hack & _).
  exists lA', sA, a4. split; [exact HLA|]. split; [done|]. split; [done|]. split; [exact E2|]. split; [done|].
  intros e. apply (session_run write (l_cfg lA0) (l_cfg lB) cid secret); try done.
  - by eapply ecdh_length.
  - by eapply sender_ack, Hack; [|by vm_compute].
Qed.

(** ** Witness *)

(** Five bytes are written to stream 7 before the handshake. *)
Lemma session_delivers_witness :
  exists lA a a1 st a2 n, Dial client (inr true) addr9000 = Ok (lA, inr a) /\ conn_Stream a 7 = Ok (a1, st) /\
    Write None a1 st [0; 1; 2; 3; 4] = Ok (a2, (n, None)) /\ n = 5 /\
    exists a3 enc1 pc1 lB sB, Conn.Flush discard (l_cfg client) a2 st 1000 = Ok (a3, ([enc1], inr (0, pc1))) /\
      Listen server (inr false) (inr (enc1, addr7000)) 2000 = Ok (lB, inr (Some (key_conn_id true, sB))).
Proof.
  destruct (session_delivers discard client server true false (inr true) (toy_key true) 7 [0; 1; 2; 3; 4] addr7000 addr9000 addr9000
    1000 2000 3000 4000) as (lA & a & a1 & st & a2 & n & a3 & enc1 & pc1 & lB & sB & b & b1 & enc2 & pc2 & H1 & H2 & H3 & H4 & H5 & _).
  - reflexivity.
  - apply empty_table.
  - apply empty_table.
  - reflexivity.
  - reflexivity.
  - reflexivity.
  - split; [vm_compute; discriminate | reflexivity].
  - vm_compute. reflexivity.
  - vm_compute. reflexivity.
  - reflexivity.
  - compute_done.
  - reflexivity.
  - discriminate.
  - discriminate.
  - compute_done.
  - exists lA, a, a1, st, a2, n. split; [exact H1|]. split; [exact H2|]. split; [exact H3|]. split.
    + pose proof H1 as E1. vm_compute in E1. injection E1 as _ <-. pose proof H2 as E2. vm_compute in E2. injection E2 as <- <-.
      vm_compute in H3. injection H3 as _ <-. reflexivity.
    + exists a3, enc1, pc1, lB, sB. split; [exact H4 | exact H5].
Defined.
