(* ===== verification/InOrder.v ===== *)
(** * InOrder: the two buffers when packets go one at a time

    What the send buffer and the receive buffer do when at most one packet of a
    stream is in flight: the next bytes of the queue are sent, sent again, and
    acknowledged; a packet arrives, for the first time or again, and is read.  The
    application may have closed the stream behind the queue; then the last packet
    carries the close flag, and the read that returns its bytes ends the stream. *)

From stdpp Require Import prelude gmap list numbers strings relations.
From S2P Require Import Prelude Wire Proto Measurement Interfaces LinkedMap SortedMap Rcv Crypto Snd Delivery Conn Streams Inversion Flow Listener Scheduler Endpoints Session.
Open Scope Z_scope.

(** ** The receive buffer when data come in order *)

Section receiver.
Implicit Types (rb : ReceiveBuffer (SortedMap RcvValue)).

(** Stream [sid] is read up to [k], nothing is stored, and no close was seen. *)
Record caught_up rb (sid k : Z) : Prop := {
  cu_wf : smi_wf (segments (stream_at rb sid));
  cu_content : content rb sid = ∅;
  cu_next : next_of rb sid = k;
  cu_open : closeAtOffset (stream_at rb sid) = None;
}.

Lemma empty_prev {V} (k : Z) (r : option (Z * V)) : is_prev ∅ k r -> r = None.
Proof. destruct r as [[k' v]|]; [|done]. intros (H & _). by rewrite lookup_empty in H. Qed.

Lemma empty_next {V} (k : Z) (r : option (Z * V)) : is_next ∅ k r -> r = None.
Proof. destruct r as [[k' v]|]; [|done]. intros (H & _). by rewrite lookup_empty in H. Qed.

(** One segment is stored, at the read position; [co] is where a close was seen. *)
Record one_segment rb (sid k : Z) (d : bytes) (now : Z) (co : option Z) st : Prop := {
  os_stream : Rcv.streams rb !! sid = Some st;
  os_wf : smi_wf (segments st);
  os_content : smi_elems (segments st) = {[k := mkRcvValue d now]};
  os_next : nextInOrderOffsetToWaitFor st = k;
  os_open : closeAtOffset st = co;
}.

(** The next bytes arrive ... *)
Lemma insert_next rb sid k now (d : bytes) :
  caught_up rb sid k -> 0 < len d -> 0 <= k -> k + len d < 2 ^ 64 -> rb_size rb + len d <= capacity rb ->
  exists rb1 st, Insert rb sid k now d = Ok (rb1, RcvInsertOk) /\ one_segment rb1 sid k d now None st /\
    ackList rb1 = ackList rb ++ [mkAck sid k (u16 (len d)) 0] /\ rb_size rb1 = rb_size rb + len d /\ capacity rb1 = capacity rb.
Proof.
  intros [Hwf Hc Hn Ho] Hpos Hk Hlt Hfit. destruct (getOrCreateStream_spec rb sid) as (Eg & Eset & Ecap & Esz & Eack & _).
  unfold content, next_of in Hc, Hn. unfold Insert. rewrite Eg, Ecap, Esz. rewrite decide_False by lia.
  rewrite decide_False by (rewrite Hn; widths; rewrite Z.mod_small; lia).
  rewrite smi_get_spec, Hc, lookup_empty by done. cbn [mbind go_bind]. unfold adjust_prev, adjust_next.
  destruct (smi_prev_spec (segments (stream_at rb sid)) k Hwf) as (r & -> & Hr). rewrite Hc in Hr. apply empty_prev in Hr as ->.
  cbn [mbind go_bind mret go_ret]. destruct (smi_next_spec (segments (stream_at rb sid)) k Hwf) as (r & -> & Hr).
  rewrite Hc in Hr. apply empty_next in Hr as ->. cbn [mbind go_bind mret go_ret].
  destruct (smi_put_spec (segments (stream_at rb sid)) k (mkRcvValue d now) Hwf) as (segs & -> & Hwf1 & He1).
  cbn [mbind go_bind]. rewrite Hc in He1. eexists _, (set_segments (stream_at rb sid) segs). split; [done|]. split.
  - constructor; try done. cbn. by rewrite lookup_insert_eq.
  - cbn. by rewrite Eack, Esz, Ecap.
Qed.

(** ... and are read. *)
Lemma read_next rb sid k now (d : bytes) co st :
  one_segment rb sid k d now co st -> 0 <= k -> k + len d < 2 ^ 64 ->
  exists rb', RemoveOldestInOrder rb sid = Ok (rb', (k, Some d, now)) /\ (co = None -> caught_up rb' sid (k + len d)) /\
    rb_size rb' = rb_size rb - len d /\ capacity rb' = capacity rb /\ ackList rb' = ackList rb.
Proof.
  intros [Es Hwf Hc Hn Ho] Hk Hlt. unfold RemoveOldestInOrder.
  rewrite decide_False by (intros E; by rewrite E, lookup_empty in Es). rewrite Es.
  destruct (smi_min_spec (segments st) Hwf) as (r & -> & Hr). rewrite Hc in Hr.
  destruct r as [[o v]|]; [|cbn in Hr; by apply map_non_empty_singleton in Hr].
  destruct Hr as [Hr _]. apply lookup_singleton_Some in Hr as [<- <-]. cbn [mbind go_bind]. cbv zeta. rewrite Hn, decide_True by done.
  destruct (smi_remove_spec (segments st) k Hwf) as (segs & -> & Hwf1 & He1). cbn [mbind go_bind].
  rewrite decide_False by lia. cbn [mbind go_bind mret go_ret rv_data receiveTimeNano]. eexists. split; [done|].
  set (st' := mkRcvBuffer _ _ _).
  assert (stream_at (set_size (set_stream rb sid st') (rb_size rb - len d)) sid = st') as E.
  { etrans; [apply (stream_at_set rb)|]. by rewrite decide_True. }
  split; [|done]. intros ->. constructor; unfold content, next_of; rewrite E; [done | | | done].
  - change (smi_elems segs = ∅). rewrite He1, Hc. apply delete_singleton_eq.
  - cbn. apply Z.mod_small. widths. lia.
Qed.

(** Bytes that were read before arrive again: only an acknowledgement is due. *)
Lemma insert_again rb sid k now (d : bytes) :
  caught_up rb sid (k + len d) -> 0 <= k -> k + len d < 2 ^ 64 -> rb_size rb + len d <= capacity rb ->
  exists rb1, Insert rb sid k now d = Ok (rb1, RcvInsertDuplicate) /\ caught_up rb1 sid (k + len d) /\
    ackList rb1 = ackList rb ++ [mkAck sid k (u16 (len d)) 0] /\ rb_size rb1 = rb_size rb /\ capacity rb1 = capacity rb.
Proof.
  intros [Hwf Hc Hn Ho] Hk Hlt Hfit. destruct (getOrCreateStream_spec rb sid) as (Eg & Eset & Ecap & Esz & Eack & Eat).
  unfold Insert. rewrite Eg, Ecap, Esz. rewrite decide_False by lia. unfold next_of in Hn.
  rewrite decide_True by (rewrite Hn; widths; rewrite Z.mod_small; lia). eexists. split; [done|].
  cbn [add_ack ackList rb_size capacity]. rewrite Eack, Esz, Ecap. split; [|done].
  assert (stream_at (add_ack (ensured rb sid) (mkAck sid k (u16 (len d)) 0)) sid = stream_at rb sid) as E.
  { apply (Eat sid). }
  constructor; unfold content, next_of; by rewrite E.
Qed.

Lemma read_nothing rb sid k : caught_up rb sid k -> RemoveOldestInOrder rb sid = Ok (rb, (0, None, 0)).
Proof.
  intros [Hwf Hc _ _]. unfold RemoveOldestInOrder. case_decide; [done|]. destruct (Rcv.streams rb !! sid) as [st|] eqn:E; [|done].
  unfold content, stream_at in *. rewrite E in Hwf, Hc. cbn [default from_option id] in *.
  destruct (smi_min_spec (segments st) Hwf) as (r & -> & Hr). rewrite Hc in Hr. destruct r as [[o v]|]; [|done].
  destruct Hr as [Hr _]. by rewrite lookup_empty in Hr.
Qed.

(** A packet arrives, for the first time or again, and the stream is read. *)
Lemma take_packet rb sid k now (d : bytes) (again : bool) :
  caught_up rb sid (if again then k + len d else k) -> 0 < len d -> 0 <= k -> k + len d < 2 ^ 64 -> rb_size rb + len d <= capacity rb ->
  exists rb1 status rb2 off t, Insert rb sid k now d = Ok (rb1, status) /\ Rcv.GetOffsetClosedAt rb1 sid = None /\
    RemoveOldestInOrder rb1 sid = Ok (rb2, (off, if again then None else Some d, t)) /\ caught_up rb2 sid (k + len d) /\
    ackList rb2 = ackList rb ++ [mkAck sid k (u16 (len d)) 0] /\ rb_size rb2 = rb_size rb /\ capacity rb2 = capacity rb.
Proof.
  intros Hcu Hpos Hk Hlt Hfit. destruct again.
  - destruct (insert_again rb sid k now d Hcu Hk Hlt Hfit) as (rb1 & E & Hcu1 & Ha & Hs & Hc).
    exists rb1, RcvInsertDuplicate, rb1, 0, 0. split; [done|]. split; [|by rewrite (read_nothing _ _ _ Hcu1)].
    destruct Hcu1 as [_ _ _ Ho]. unfold Rcv.GetOffsetClosedAt. revert Ho. unfold stream_at. by destruct (Rcv.streams rb1 !! sid).
  - destruct (insert_next rb sid k now d Hcu Hpos Hk Hlt Hfit) as (rb1 & st & E & Hone & Ha & Hs & Hc).
    destruct (read_next rb1 sid k now d None st Hone Hk Hlt) as (rb2 & E2 & Hcu2 & Hs2 & Hc2 & Ha2). specialize (Hcu2 eq_refl).
    exists rb1, RcvInsertOk, rb2, k, now. split; [done|]. split; [unfold Rcv.GetOffsetClosedAt; by rewrite (os_stream _ _ _ _ _ _ _ Hone), (os_open _ _ _ _ _ _ _ Hone)|].
    split; [done|]. split; [done|]. split; [congruence|]. split; [lia | congruence].
Qed.

(** The last packet arrives: the read that returns its bytes sees the close. *)
Lemma take_last rb sid k now (d : bytes) :
  caught_up rb sid k -> 0 < len d -> 0 <= k -> k + len d < 2 ^ 64 -> rb_size rb + len d <= capacity rb ->
  exists rb1 status rb2, Insert rb sid k now d = Ok (rb1, status) /\ Rcv.GetOffsetClosedAt (Rcv.Close rb1 sid k) sid = Some k /\
    RemoveOldestInOrder (Rcv.Close rb1 sid k) sid = Ok (rb2, (k, Some d, now)).
Proof.
  intros Hcu Hpos Hk Hlt Hfit. destruct (insert_next rb sid k now d Hcu Hpos Hk Hlt Hfit) as (rb1 & st & E & [Es Hwf Hc Hn Ho] & _).
  set (st' := mkRcvBuffer (segments st) (nextInOrderOffsetToWaitFor st) (Some k)).
  assert (Rcv.Close rb1 sid k = set_stream rb1 sid st') as Ecl.
  { unfold Rcv.Close, Rcv.getOrCreateStream. by rewrite Es, Ho. }
  assert (one_segment (set_stream rb1 sid st') sid k d now (Some k) st') as Hone.
  { constructor; try done. cbn. by rewrite lookup_insert_eq. }
  destruct (read_next _ sid k now d (Some k) st' Hone Hk Hlt) as (rb2 & E2 & _).
  exists rb1, RcvInsertOk, rb2. rewrite Ecl. split; [done|]. split; [|done]. unfold Rcv.GetOffsetClosedAt. by rewrite (os_stream _ _ _ _ _ _ _ Hone).
Qed.
End receiver.

(** ** The send buffer *)

Section sender.
Implicit Types (sb : SendBuffer (LinkedMap Z SendInfo)).

(** The offset at which the application has closed the stream, if it has. *)
Context (cl : option Z).

(** No ping was asked for. *)
Definition plain sb (sid : Z) : Prop := pingRequest (sstream sb sid) = false /\ sb_closeAtOffset (sstream sb sid) = cl.

(** A packet that ends at [e] carries the close flag. *)
Definition closes (e : Z) : bool := match cl with Some c => c <=? e | None => false end.

(** [k] bytes of stream [sid] are sent and acknowledged, [q] are queued. *)
Record idle (f : Z -> Z -> Z) sb (sid k : Z) (q : bytes) : Prop := {
  id_inv : snd_inv f sb;
  id_flight : flight_of sb sid = [];
  id_sent : sent_of sb sid = k;
  id_queue : queue_of sb sid = q;
  id_plain : plain sb sid;
}.

(** Packet [i], the bytes of stream [sid] from [k] on, is sent and not yet
    acknowledged; [q] are queued. *)
Record outstanding (f : Z -> Z -> Z) sb (sid k : Z) (i : SendInfo) (q : bytes) : Prop := {
  ot_inv : snd_inv f sb;
  ot_sent : sent_of sb sid = k + len (si_data i);
  ot_queue : queue_of sb sid = q;
  ot_flight : flight_of sb sid = [(createPacketKey k (len (si_data i)), i)];
  ot_ping : si_pingRequest i = false;
  ot_plain : plain sb sid;
}.

Lemma plain_set sb sid st : plain sb sid -> pingRequest st = pingRequest (sstream sb sid) ->
  sb_closeAtOffset st = sb_closeAtOffset (sstream sb sid) -> plain (sb_set sb sid st) sid.
Proof. intros [H1 H2] E1 E2. unfold plain. rewrite sstream_set, decide_True by done. by rewrite E1, E2. Qed.

Lemma stream_found sb sid st : sb_streams sb !! sid = Some st -> sstream sb sid = st.
Proof. intros E. unfold sstream. by rewrite E. Qed.

Lemma QueueData_plain sb sid d sb' r : plain sb sid -> QueueData sb sid d = Ok (sb', r) -> plain sb' sid.
Proof.
  intros [Hp Hc]. unfold QueueData. case_decide; [by intros [= <- _]|]. case_decide; [by intros [= <- _]|].
  intros H1. apply go_bind_Ok in H1 as ([chunk st] & _ & H1). unfold Snd.getOrCreateStream in H1.
  assert (forall sb0 x sz, pingRequest x = false -> sb_closeAtOffset x = cl -> plain (sb_with_size (sb_set sb0 sid x) sz) sid) as Hset.
  { intros sb0 x sz Hx1 Hx2. unfold plain. change (sstream (sb_with_size (sb_set sb0 sid x) sz) sid) with (sstream (sb_set sb0 sid x) sid).
    by rewrite sstream_set, decide_True. }
  unfold sstream in Hp, Hc. destruct (sb_streams sb !! sid) as [x|]; injection H1 as <- _; by apply Hset.
Qed.

Lemma ReadyToSend_plain sb sid t ack mtu now sb' r :
  plain sb sid -> ReadyToSend sb sid t ack mtu now = Ok (sb', r) -> plain sb' sid.
Proof.
  intros Hp. unfold ReadyToSend. case_decide as Hemp; [by intros [= <- _]|].
  destruct (sb_streams sb !! sid) as [st|] eqn:E; [|by intros [= <- _]]. apply stream_found in E. pose proof Hp as [Hping _].
  rewrite E in Hping. rewrite Hping. case_decide as Hq.
  - destruct (negb _); [by intros [= <- _]|]. intros H. apply go_bind_Ok in H as (m & _ & [= <- _]). by apply plain_set; rewrite ?E.
  - cbv zeta. intros H. apply go_bind_Ok in H as (pd & _ & H). apply go_bind_Ok in H as (m & _ & H).
    apply go_bind_Ok in H as (rest & _ & [= <- _]). by apply plain_set; rewrite ?E.
Qed.

Lemma Acknowledge_plain sb a sb' r sid :
  plain sb sid -> AcknowledgeRange sb a = Ok (sb', r) -> plain sb' sid.
Proof.
  intros Hp. unfold AcknowledgeRange. destruct (sb_streams sb !! ack_streamID a) as [st|] eqn:E; [|by intros [= <- _]].
  apply stream_found in E. intros H. apply go_bind_Ok in H as ([m i] & _ & H).
  assert (forall sz, plain (sb_with_size (sb_set sb (ack_streamID a) (with_inflight st m)) sz) sid) as Hset.
  { intros sz. unfold plain. destruct (decide (sid = ack_streamID a)) as [->|Hne].
    - destruct (plain_set sb (ack_streamID a) (with_inflight st m)) as [H1 H2]; [done | by rewrite E | by rewrite E | done].
    - assert (sstream (sb_with_size (sb_set sb (ack_streamID a) (with_inflight st m)) sz) sid = sstream sb sid) as ->; [|done].
      etrans; [apply (sstream_set sb)|]. by rewrite decide_False. }
  destruct i; injection H as <- _; [apply Hset | exact (Hset (sb_size sb))].
Qed.

(** The packet that is recorded as in flight. *)
Lemma ReadyToSend_entry sb sid t ack mtu now sb' d off close :
  flights_wf sb -> plain sb sid -> flight_of sb sid = [] -> queue_of sb sid <> [] ->
  ReadyToSend sb sid t ack mtu now = Ok (sb', (Some d, off, close)) ->
  close = closes (sent_of sb' sid) /\ exists key, flight_of sb' sid = [(key, newSendInfo d now false)].
Proof.
  intros Hw [Hp Hcl] Hf Hq. unfold ReadyToSend. case_decide; [done|]. destruct (sb_streams sb !! sid) as [st|] eqn:E; [|done].
  pose proof (stream_wf sb sid st Hw E) as [Hst _]. apply stream_found in E. unfold flight_of, queue_of in Hf, Hq. rewrite E in Hp, Hcl, Hf, Hq.
  rewrite Hp, decide_False by done. cbv zeta. intros H1. apply go_bind_Ok in H1 as (pd & _ & H1). apply go_bind_Ok in H1 as (m & Em & H1).
  apply go_bind_Ok in H1 as (rest & _ & [= <- <- _ <-]).
  split; [unfold sent_of, reaches_close, closes; rewrite sstream_set, decide_True by done; cbn; by rewrite Hcl|].
  match type of Em with lmi_put _ ?key ?v = _ => destruct (lmi_put_spec (dataInFlightMap st) key v Hst) as (m' & Em' & _ & He); exists key end.
  rewrite Em in Em'. injection Em' as <-. rewrite Hf in He. unfold flight_of. rewrite sstream_set, decide_True by done. exact He.
Qed.

(** The least room for data in an encrypted packet. *)
Definition packet_room (mtu : Z) : Z := mtu - 42.

Lemma room_positive mtu o : mtu_ok mtu -> 0 < packet_room mtu <= max_data Data None mtu o /\ max_data Data None mtu o < 2 ^ 16.
Proof.
  intros Hm. pose proof (room_mtu Data None mtu Hm o) as Hr. unfold mtu_ok, max_data, packet_room in *. rewrite decide_False in * by done.
  assert (calcCryptoOverheadWithData Data None o <= 42); [|lia].
  unfold calcCryptoOverheadWithData. rewrite calcProtoOverhead_parts. rewrite bool_decide_false by (by intros [? ?]).
  destruct (_ || _); vm_compute; congruence.
Qed.

(** The bytes of the next packet of a kind. *)
Definition segment_size (t : CryptoMsgType) (mtu k : Z) (q : bytes) : Z := Z.min (max_data t None mtu k) (len q).
Definition packet_size : Z -> Z -> bytes -> Z := segment_size Data.

Lemma send_segment f sb sid k q t mtu now :
  idle f sb sid k q -> q <> [] -> mtu_ok mtu -> 0 < max_data t None mtu k ->
  let n := segment_size t mtu k q in
  exists sb', ReadyToSend sb sid t None mtu now = Ok (sb', (Some (take (Z.to_nat n) q), k, closes (k + n))) /\
    outstanding f sb' sid k (newSendInfo (take (Z.to_nat n) q) now false) (drop (Z.to_nat n) q).
Proof.
  intros [Hi Hf Hs Hq Hp] Hne Hm Hr n.
  assert (0 < len q) as Hpos by (destruct q; [done | simpl; lia]).
  destruct (ReadyToSend_spec f sb sid t None mtu now Hi (room_mtu _ _ _ Hm)) as (sb' & d & off & close & E & Hi' & _ & Hd).
  rewrite Hs, Hq in Hd. destruct d as [d|]; [|by destruct Hd]. destruct Hd as ((Hd & Hle & Hs' & Hq' & _ & _ & i & Hfl) & _ & Hoff & Hlen & Hcl).
  pose proof Hp as [Hping Hclose]. rewrite Hping in Hlen. change (len d = n) in Hlen. rewrite Hs in Hd, Hs', Hfl. rewrite Hq in Hq', Hle. rewrite Hf in Hfl.
  assert (d = take (Z.to_nat n) q) as ->.
  { destruct (sstream_inv f sb sid Hi) as [_ _ Hqueue _]. unfold queue_of, sent_of in *. rewrite Hq, Hs in Hqueue.
    rewrite Hd. etrans; [|apply (f_equal (take (Z.to_nat n)) (eq_sym Hqueue))].
    rewrite read_at_take by (subst n; unfold segment_size; lia). f_equal. lia. }
  assert (off = k) as -> by (destruct Hoff as [->|[Hd0 _]]; [done|]; rewrite Hd0 in Hlen; simpl in Hlen; subst n; unfold segment_size in Hlen; lia).
  rewrite Hlen in Hs', Hfl. exists sb'.
  destruct (ReadyToSend_entry sb sid t None mtu now sb' (take (Z.to_nat n) q) k close) as (-> & key & Hkey); try done.
  { intros y. apply (si_wf _ _ (sstream_inv f sb y Hi)). }
  { by rewrite Hq. }
  split; [by rewrite Hs' in E|].
  assert (key = createPacketKey k n /\ i = newSendInfo (take (Z.to_nat n) q) now false) as [-> ->].
  { rewrite Hfl in Hkey. by injection Hkey as <- <-. }
  constructor; try done; [by cbn; rewrite Hlen | rewrite Hq'; f_equal; lia | by rewrite Hfl; cbn; rewrite Hlen | by eapply ReadyToSend_plain].
Qed.

Lemma send_next f sb sid k q mtu now :
  idle f sb sid k q -> q <> [] -> mtu_ok mtu ->
  let n := packet_size mtu k q in
  exists sb', ReadyToSend sb sid Data None mtu now = Ok (sb', (Some (take (Z.to_nat n) q), k, closes (k + n))) /\
    outstanding f sb' sid k (newSendInfo (take (Z.to_nat n) q) now false) (drop (Z.to_nat n) q).
Proof. intros Hidle Hne Hm. apply send_segment; try done. pose proof (room_positive mtu k Hm). lia. Qed.

(** It is lost, and sent again once its timer has run out. *)
Lemma resend_next f sb sid k i q mtu rto x now :
  outstanding f sb sid k i q -> mtu_ok mtu -> 0 <= k < 2 ^ 48 -> 0 < len (si_data i) <= max_data Data None mtu k ->
  backoff rto (sentNr i) = inr x -> x < u64 (now - sentTimeNano i) ->
  exists sb', ReadyToRetransmit sb sid None mtu rto Data now = Ok (sb', inr (Some (si_data i), k, closes (k + len (si_data i)))) /\
    outstanding f sb' sid k (mkSendInfo (si_data i) now (sentNr i + 1) false) q.
Proof.
  intros [Hi Hs Hq Hf Hp Hpl] Hm Hk Hlen Hb Hx. pose proof (room_positive mtu k Hm) as Hr. set (n := len (si_data i)) in *.
  destruct (sstream_inv f sb sid Hi) as [Hwf _ _ _]. set (i' := mkSendInfo (si_data i) now (sentNr i + 1) false).
  destruct (lmi_put_spec (dataInFlightMap (sstream sb sid)) (createPacketKey k n) i' Hwf) as (m & Em & _ & Hel).
  fold (flight_of sb sid) in Hel. rewrite Hf in Hel. cbn in Hel. rewrite decide_True in Hel by done.
  set (sb' := sb_set sb sid (with_inflight (sstream sb sid) m)).
  assert (plain sb' sid) as Hpl' by (by apply plain_set).
  assert (ReadyToRetransmit sb sid None mtu rto Data now = Ok (sb', inr (Some (si_data i), k, closes (k + n)))) as E.
  { assert (exists st, sb_streams sb !! sid = Some st) as [st Est].
    { unfold flight_of, sstream in Hf. destruct (sb_streams sb !! sid) as [st|]; [by eexists|]. done. }
    unfold ReadyToRetransmit. rewrite decide_False by (intros H; by rewrite H, lookup_empty in Est). rewrite Est.
    apply stream_found in Est. subst st. rewrite lmi_first_spec by done. fold (flight_of sb sid). rewrite Hf. cbn [head mbind go_bind].
    rewrite Hb, decide_False, Hp by lia. cbv zeta. rewrite key_offset_create by (widths; lia).
    fold n. unfold u16. rewrite !Z.mod_small by lia. rewrite decide_True by lia. unfold resend. rewrite Hp. fold i'. rewrite Em. cbn [mbind go_bind].
    unfold reaches_close, closes. destruct Hpl as [_ ->]. rewrite key_offset_create by (widths; lia).
    unfold u64. rewrite Z.mod_small by lia. done. }
  exists sb'. split; [done|]. destruct (ReadyToRetransmit_spec f sb sid None mtu rto Data now Hi (room_mtu _ _ _ Hm)) as (sb1 & r1 & E1 & Hi1 & _).
  rewrite E in E1. injection E1 as <- <-.
  constructor; try done; unfold sent_of, queue_of, flight_of, sb'; by rewrite sstream_set, decide_True.
Qed.

(** Its acknowledgement. *)
Lemma ack_next f sb sid k i q w :
  outstanding f sb sid k i q -> 0 <= k < 2 ^ 48 -> is_u16 (len (si_data i)) ->
  forall sb' st t, AcknowledgeRange sb (mkAck sid k (len (si_data i)) w) = Ok (sb', (st, t)) ->
    idle f sb' sid (k + len (si_data i)) q /\ st = AckStatusOk.
Proof.
  intros [Hi Hs Hq Hf _ Hp] Hk Hn sb' st t E. set (n := len (si_data i)) in *.
  destruct (AcknowledgeRange_spec f sb (mkAck sid k n w) Hi Hk Hn) as (sb1 & st1 & t1 & E1 & Hi1 & (Es & Eq & _ & Hst)).
  rewrite E in E1. injection E1 as <- <- <-. cbn [ack_streamID ack_offset ack_len] in *. rewrite Hf in Hst.
  assert (st = AckStatusOk) as ->.
  { destruct st; [done | | ].
    - destruct Hst as [Hno _]. unfold flight_of, sstream in Hf. rewrite Hno in Hf. cbn in Hf. done.
    - destruct Hst as (_ & Hno & _). exfalso. apply Hno. by left. }
  split; [|done]. destruct Hst as (_ & _ & _ & Hfl). constructor; try done; [| by rewrite Es | by rewrite Eq | by eapply Acknowledge_plain].
  rewrite Hfl. cbn. by rewrite decide_True.
Qed.
End sender.

(** [Close] of a stream with nothing in flight. *)
Lemma close_idle f (sb : SendBuffer (LinkedMap Z SendInfo)) sid k q :
  idle None f sb sid k q -> idle (Some (k + len q)) f (Snd.Close sb sid) sid k q.
Proof.
  intros [Hi Hf Hs Hq [Hp Hc]]. destruct (Close_spec f sb sid Hi) as (Hi' & Hsame & Hco). destruct (Hsame sid) as (E1 & E2 & E3).
  constructor; try congruence; try done.
  assert (Snd.GetOffsetClosedAt sb sid = None) as Eg.
  { revert Hc. unfold Snd.GetOffsetClosedAt, sstream. by destruct (sb_streams sb !! sid). }
  rewrite Eg, Hs, Hq in Hco. cbn [default from_option id] in Hco. split.
  - revert Hp. unfold Snd.Close. destruct (sgetOrCreateStream_spec sb sid) as (-> & _). rewrite Hc, sstream_set, decide_True by done. done.
  - revert Hco. unfold Snd.GetOffsetClosedAt, sstream. by destruct (sb_streams (Snd.Close sb sid) !! sid).
Qed.
