(* ===== verification/Progress.v ===== *)
(** * Progress: a transfer that ends

    [Endpoints] and [Session] say that nothing wrong is ever read.  Here bytes
    written after the handshake are all read in the end.  A round is a flush of
    the writing end, the arrival of the datagram, a read, the flush of the
    acknowledgement and its arrival; the network may lose either datagram, and
    then the writing end sends the packet again when its timer has run out.  The
    ends between rounds are in one of two states: nothing in flight ([ready]), or
    one packet in flight that was read or not ([lost]).  Every round leads from
    one of these states to one of them, and a round that succeeds brings the
    transfer one packet further.  If the application has closed the stream behind
    its bytes, the round that reads the last of them reads the end. *)

From stdpp Require Import prelude gmap list numbers strings relations.
From S2P Require Import Prelude Wire Proto Measurement Interfaces LinkedMap SortedMap Rcv Crypto Snd Delivery Conn Streams Inversion Flow Listener Scheduler Endpoints Session InOrder.
Open Scope Z_scope.

(** ** A round of the two ends *)

(** The instants of a round: the flush of [a], the arrival at [b], the flush of
    [b] and the arrival at [a]. *)
Record instants := mkInstants { t_flush : Z; t_arrive : Z; t_reply : Z; t_return : Z }.

(** What the network does in a round. *)
Inductive fate := Delivered | DataLost | AckLost.

#[export] Instance fate_eq_dec : EqDecision fate.
Proof. solve_decision. Defined.

(** How often both datagrams of a round arrive. *)
Fixpoint deliveries (sched : list (instants * fate)) : Z :=
  match sched with
  | [] => 0
  | (_, Delivered) :: sched => 1 + deliveries sched
  | _ :: sched => deliveries sched
  end.

(** No more rounds fail in a row than a packet may be sent again; [j] rounds have
    failed before. *)
Fixpoint patient (j : Z) (sched : list (instants * fate)) : bool :=
  match sched with
  | [] => true
  | (_, Delivered) :: sched => patient 0 sched
  | _ :: sched => bool_decide (j < maxRetry) && patient (j + 1) sched
  end.

Section round.
Context {PubKey PrvKey : Type} `{!CryptoPrims PubKey PrvKey} `{!CryptoLaws PubKey PrvKey}.
Implicit Types (a b c : Conn PubKey PrvKey) (st : Stream).
Context (write : AddrPort -> bytes -> option go_error) (Hwrite : forall to d, write to d = None).
Context (cid : Z) (secret : bytes) (Hsecret : len secret = 32) (sid : Z) (Hsid : is_u32 sid).

(** The offset at which the writing application has closed the stream, if it has. *)
Context (cl : option Z).

(** *** Packets *)

Lemma advance_epoch sn epoch sn' epoch' : counter_ok sn epoch -> advance sn epoch = inr (sn', epoch') -> epoch <= epoch' <= epoch + 1.
Proof. unfold counter_ok, advance. widths. intros [Hs He]. repeat case_decide; intros [= <- <-]; rewrite ?Z.mod_small; lia. Qed.

(** A packet of an established connection, and the connection after it. *)
Definition data_packet c (dir : bool) p u : bytes :=
  packet_bytes (snCrypto c) (epochCryptoSnd c) dir secret (conn_header Data cid) (payload_bytes p u).

Lemma encode_linked (cfg : ListenerCfg PrvKey) dir c p u :
  linked cid secret dir c -> ctr c < 2 ^ 95 - 1 ->
  exists x sn ep, encode cfg c p u Data = Ok (set_counter c x sn ep, inr (data_packet c dir p u)) /\
    counter_ok sn ep /\ counter sn ep = ctr c + 1 /\ epochCryptoSnd c <= ep <= epochCryptoSnd c + 1.
Proof.
  intros [E1 E2 E3 _ Hc _ _] Hlt. unfold encode, encode_msg. rewrite EncodePayload_spec. cbn [mbind go_bind].
  rewrite E1, E2, E3, encryptData_spec by (done || apply payload_bytes_length). cbn [mbind go_bind mret go_ret].
  pose proof (counter_advance _ _ Hc) as Ha. destruct (advance (snCrypto c) (epochCryptoSnd c)) as [[e [sn ep]]|[sn ep]] eqn:Ead.
  - destruct Ha as [Ha _]. unfold ctr in Hlt. lia.
  - destruct Ha as [Hok Hn]. eexists _, sn, ep. split; [done|]. split; [done|]. split; [done|]. by eapply advance_epoch.
Qed.

(** What arrives at the other end, before the payload is processed. *)
Definition opened c (epoch now : Z) : Conn PubKey PrvKey :=
  note_read (if decide (epochCryptoRcv c < epoch) then set_epoch c epoch else c) now.

(** The epoch an end expects is that of the packets of the other end, or the one
    before. *)
Definition in_step c c2 : Prop := epochCryptoSnd c - 1 <= epochCryptoRcv c2 <= epochCryptoSnd c /\ 0 <= epochCryptoRcv c2.

Lemma receive_data c c2 dir p u rest now :
  linked cid secret dir c -> in_step c c2 -> sharedSecret c2 = Some secret -> isSenderOnInit c2 = negb dir -> wf_payload p ->
  receive c2 (data_packet c dir p u) rest now =
    ('(c3, s) ← Conn.decode (opened c2 (epochCryptoSnd c) now) (received p u).1 (received p u).2 (len (data_packet c dir p u)) now;
     mret (handshake_done c3 Data, inr s)).
Proof.
  intros [_ _ _ _ [Hsn Hep] _ _] [Hw Hp] Hs Hd Hwf. unfold receive, data_packet. rewrite Hs, Hd. cbn [default from_option id].
  rewrite decryptData_spec; [| done | apply payload_bytes_length | done | widths; lia | done | widths; lia | unfold epoch_window; lia].
  cbn [mbind go_bind currentEpochCrypt PayloadRaw]. rewrite DecodePayload_spec by done. cbn [mbind go_bind].
  by destruct (received p u).
Qed.

(** *** The writing end *)

Record end_a (f g : Z -> Z -> Z) (dir : bool) c (k : Z) (q : bytes) : Prop := {
  ea_inv : conn_inv f g c;
  ea_link : linked cid secret dir c;
  ea_acks : ackList (c_rcv c) = [];
  ea_idle : idle cl f (c_snd c) sid k q;
  ea_time : is_u64 (nextWriteTime c);
}.

(** A packet is in flight, [q] are queued. *)
Record waiting (f g : Z -> Z -> Z) (dir : bool) c (k : Z) (i : SendInfo) (q : bytes) : Prop := {
  wt_inv : conn_inv f g c;
  wt_link : linked cid secret dir c;
  wt_acks : ackList (c_rcv c) = [];
  wt_out : outstanding cl f (c_snd c) sid k i q;
  wt_time : is_u64 (nextWriteTime c);
}.

Definition data_header (fin : bool) (k : Z) : PayloadHeader := mkPayloadHeader fin None sid k.

(** The packet with data [d] from [k] on, which is the last one if the stream is
    closed behind it. *)
Definition packet_of c (dir : bool) (k : Z) (d : bytes) : bytes :=
  data_packet c dir (data_header (closes cl (k + len d)) k) (Some d).

(** What sending [n] new bytes changes besides the send buffer. *)
Definition after_send c c' (n : Z) : Prop :=
  ctr c' = ctr c + 1 /\ epochCryptoSnd c <= epochCryptoSnd c' <= epochCryptoSnd c + 1 /\ epochCryptoRcv c' = epochCryptoRcv c /\
  dataInFlight c' = dataInFlight c + n /\ rcvWndSize c' = rcvWndSize c.

Lemma packet_sent f g (cfg : ListenerCfg PrvKey) dir c st k i q now track :
  waiting f g dir c k i q -> st_streamID st = sid -> ctr c < 2 ^ 95 - 1 -> len (si_data i) < 2 ^ 16 -> int_ok (dataInFlight c) ->
  exists c' r, sendPacket write cfg c st None (si_data i) k (closes cl (k + len (si_data i))) Data now track
    = Ok (c', ([packet_of c dir k (si_data i)], r)) /\
    waiting f g dir c' k i q /\ after_send c c' (if track then len (si_data i) else 0).
Proof.
  intros [Hinv Hlink Hacks Hout Htime] Hst Hctr Hlen Hint. unfold int_ok in Hint. unfold sendPacket. rewrite Hst. fold (data_header (closes cl (k + len (si_data i))) k).
  destruct (encode_linked cfg dir c (data_header (closes cl (k + len (si_data i))) k) (Some (si_data i)) Hlink Hctr) as (x & sn & ep & -> & Hok & Hn & Hep).
  cbn [mbind go_bind]. rewrite Hwrite. cbv zeta.
  assert (forall n nw, is_u64 nw ->
    let c' := set_flow (set_counter c x sn ep) (dataInFlight c + n) (rcvWndSize c) nw in waiting f g dir c' k i q /\ after_send c c' n) as Hafter.
  { intros n nw Hnw c'. split; [|split; [exact Hn|]; by split; [exact Hep|]]. constructor; try done; [destruct Hinv | destruct Hlink]; by constructor. }
  destruct track; (match goal with |- context [calcPacing ?y ?z] => destruct (calcPacing_total y z) as [pc ->] end); cbn [mbind go_bind mret go_ret].
  - eexists _, _. split; [cbn [set_counter set_flow dataInFlight rcvWndSize]; rewrite i64_small by lia; done|]. apply Hafter, u64_range.
  - eexists _, _. split; [done|]. cbn [set_counter dataInFlight rcvWndSize]. rewrite <- (Z.add_0_r (dataInFlight c)) at 1 2. apply Hafter, u64_range.
Qed.

(** The next bytes are sent ... *)
Lemma data_flush f g (cfg : ListenerCfg PrvKey) dir c k q st now :
  end_a f g dir c k q -> q <> [] -> mtu_ok (l_mtu cfg) -> st_streamID st = sid -> nextWriteTime c <= now ->
  int_ok (dataInFlight c) -> dataInFlight c + l_mtu cfg <= to_int (rcvWndSize c) -> ctr c < 2 ^ 95 - 1 ->
  let n := packet_size (l_mtu cfg) k q in let d := take (Z.to_nat n) q in
  exists c' r, Conn.Flush write cfg c st now = Ok (c', ([packet_of c dir k d], r)) /\
    waiting f g dir c' k (newSendInfo d now false) (drop (Z.to_nat n) q) /\ after_send c c' (len d).
Proof.
  intros [Hinv Hlink Hacks Hidle Htime] Hne Hm Hst Hnow Hint Hwnd Hctr n d. pose proof Hidle as [Hi Hf _ _ _].
  destruct (send_next cl f (c_snd c) sid k q (l_mtu cfg) now Hidle Hne Hm) as (sb' & E & Hout). fold n d in E, Hout.
  unfold Conn.Flush, GetSndAck. rewrite Hacks. cbv zeta. cbn [fmap option_fmap option_map].
  assert (set_rcv c (c_rcv c) = c) as -> by (by destruct c). rewrite decide_False by lia.
  unfold int_ok, mtu_ok in *. rewrite i64_small by lia. rewrite decide_False by lia. rewrite Hst.
  rewrite nothing_to_resend; [|intros x; apply (si_wf _ _ (sstream_inv f _ x Hi)) | done]. cbn [mbind go_bind nothing].
  assert (set_snd c (c_snd c) = c) as -> by (by destruct c). unfold msgType. rewrite (lk_done _ _ _ _ Hlink).
  unfold flush_send. rewrite (lk_done _ _ _ _ Hlink). cbn [orb]. rewrite Hst, E. cbn [mbind go_bind].
  assert (len d = n /\ n < 2 ^ 16) as [Hdn Hd].
  { assert (0 < len q) by (destruct q; [done | simpl; lia]). subst d. rewrite length_take. subst n. unfold packet_size, segment_size. pose proof (room_positive (l_mtu cfg) k Hm). lia. }
  replace (closes cl (k + n)) with (closes cl (k + len d)) by (by rewrite Hdn).
  apply (packet_sent f g cfg dir (set_snd c sb') st k (newSendInfo d now false) (drop (Z.to_nat n) q) now true); try done; [|cbn; lia].
  constructor; try done; [|by apply linked_snd]. destruct Hinv. constructor; try done. apply Hout.
Qed.

(** ... and sent again when their timer has run out. *)
Lemma resend_flush f g (cfg : ListenerCfg PrvKey) dir c k i q st now x :
  waiting f g dir c k i q -> mtu_ok (l_mtu cfg) -> st_streamID st = sid -> nextWriteTime c <= now ->
  int_ok (dataInFlight c) -> dataInFlight c + l_mtu cfg <= to_int (rcvWndSize c) -> ctr c < 2 ^ 95 - 1 ->
  0 <= k < 2 ^ 48 -> 0 < len (si_data i) <= max_data Data None (l_mtu cfg) k ->
  backoff (rtoNano (c_meas c)) (sentNr i) = inr x -> x < u64 (now - sentTimeNano i) ->
  exists c' r, Conn.Flush write cfg c st now = Ok (c', ([packet_of c dir k (si_data i)], r)) /\
    waiting f g dir c' k (mkSendInfo (si_data i) now (sentNr i + 1) false) q /\ after_send c c' 0.
Proof.
  intros [Hinv Hlink Hacks Hout Htime] Hm Hst Hnow Hint Hwnd Hctr Hk Hlen Hb Hx.
  destruct (resend_next cl f (c_snd c) sid k i q (l_mtu cfg) (rtoNano (c_meas c)) x now Hout Hm Hk Hlen Hb Hx) as (sb' & E & Hout').
  unfold Conn.Flush, GetSndAck. rewrite Hacks. cbv zeta. cbn [fmap option_fmap option_map].
  assert (set_rcv c (c_rcv c) = c) as -> by (by destruct c). rewrite decide_False by lia. pose proof (room_positive (l_mtu cfg) k Hm) as Hr.
  unfold int_ok, mtu_ok in *. rewrite i64_small by lia. rewrite decide_False by lia. rewrite Hst.
  unfold msgType. rewrite (lk_done _ _ _ _ Hlink), E. cbn [mbind go_bind].
  set (c0 := set_meas (set_snd c sb') (onPacketLoss (c_meas (set_snd c sb')))).
  apply (packet_sent f g cfg dir c0 st k (mkSendInfo (si_data i) now (sentNr i + 1) false) q now false); try done; [|cbn; lia].
  constructor; try done; [|destruct Hlink; by constructor]. destruct Hinv. constructor; try done; [apply Hout' | by apply onPacketLoss_inv].
Qed.


(** *** The reading end *)

Lemma opened_form c epoch now : exists x, opened c epoch now = set_meas (set_epoch c (Z.max (epochCryptoRcv c) epoch)) x.
Proof.
  unfold opened. case_decide as H.
  - rewrite Z.max_r by lia. apply note_read_meas.
  - rewrite Z.max_l by lia. assert (set_epoch c (epochCryptoRcv c) = c) as -> by (by destruct c). apply note_read_meas.
Qed.

Lemma opened_inv f g c epoch now : conn_inv f g c -> conn_inv f g (opened c epoch now).
Proof. intros H. unfold opened. apply conn_inv_read. case_decide; [by apply conn_inv_epoch | done]. Qed.

(** The reading end; the responder may still wait for its first packet. *)
Record end_b (h f : Z -> Z -> Z) (dir : bool) c (k : Z) (acks : list Ack) : Prop := {
  eb_inv : conn_inv h f c;
  eb_link : linked cid secret dir (set_done c true);
  eb_done : isHandshakeDoneOnRcv c = true \/ dir = false;
  eb_acks : ackList (c_rcv c) = acks;
  eb_rcv : caught_up (c_rcv c) sid k;
  eb_room : rb_size (c_rcv c) + 2 ^ 16 <= capacity (c_rcv c) < 2 ^ 63;
  eb_snd : nothing_new (c_snd c) sid;
  eb_open : all_open (streams c);
  eb_time : is_u64 (nextWriteTime c);
}.

(** The window that the reading end announces. *)
Definition free (rb : ReceiveBuffer (SortedMap RcvValue)) : Z := u64 (u64 (capacity rb) - u64 (rb_size rb)).
Definition ack_header (k n w : Z) : PayloadHeader := mkPayloadHeader false (Some (mkAck sid k n w)) sid 0.

Lemma end_done dir c : isHandshakeDoneOnRcv c = true \/ dir = false -> isSenderOnInit c = dir -> handshake_done c Data = set_done c true.
Proof.
  intros H E. unfold handshake_done. destruct (isHandshakeDoneOnRcv c) eqn:Ed; [by destruct c; cbn in *; subst|].
  destruct H as [?|H]; [done|]. by rewrite E, H.
Qed.

(** The payload of a packet, for the first time or again, is processed and the
    stream is read, whatever the state of the handshake: an acknowledgement is
    due. *)
Lemma packet_read h f c k (d : bytes) (again : bool) rawLen now :
  conn_inv h f c -> caught_up (c_rcv c) sid (if again then k + len d else k) -> rb_size (c_rcv c) + 2 ^ 16 <= capacity (c_rcv c) ->
  ackList (c_rcv c) = [] -> all_open (streams c) ->
  0 < len d < 2 ^ 16 -> 0 <= k -> k + len d < 2 ^ 48 -> d = read_at (f sid) k (length d) -> is_u64 now ->
  exists s m rb1 rb2, Conn.decode c (data_header false k) (Some d) rawLen now = Ok (set_rcv (set_streams c m) rb1, s) /\
    st_streamID s = sid /\ streams_ok m /\ all_open m /\
    (forall done, let c0 := set_done (set_streams c m) done in
      Read (set_rcv c0 rb1) s = Ok (set_rcv c0 rb2, s, (if again then None else Some d, None)) /\ conn_inv h f (set_rcv c0 rb2)) /\
    caught_up rb2 sid (k + len d) /\ ackList rb2 = [mkAck sid k (len d) 0] /\
    rb_size rb2 = rb_size (c_rcv c) /\ capacity rb2 = capacity (c_rcv c).
Proof.
  clear Hsecret secret.
  intros Hinv Hrcv Hroom Hacks Hopen Hd Hk Hlt Hbytes Hnow.
  destruct (open_stream c sid (ci_streams _ _ _ Hinv) Hopen) as (m & s & Estr & Hok & [Hid Hfiled] & Hcl & Hopen').
  destruct (take_packet (c_rcv c) sid k now d again Hrcv) as (rb1 & status & rb2 & off & t & Eins & Ecl & Erd & Hcu & Ha2 & Hs2 & Hc2); [lia..|].
  assert (Conn.decode c (data_header false k) (Some d) rawLen now = Ok (set_rcv (set_streams c m) rb1, s)) as Edec.
  { unfold Conn.decode. cbn [StreamID data_header pAck StreamOffset IsClose]. rewrite Estr. cbn [mbind go_bind mret go_ret].
    cbn [default from_option id]. rewrite decide_True by lia. rewrite Hid. change (c_rcv (set_streams c m)) with (c_rcv c).
    rewrite Eins. done. }
  exists s, m, rb1, rb2. split; [done|]. split; [done|]. split; [done|]. split; [done|]. split.
  - intros dn c0.
    assert (Read (set_rcv c0 rb1) s = Ok (set_rcv c0 rb2, s, (if again then None else Some d, None))) as ER.
    { unfold Read. rewrite Hcl, Hid. change (c_rcv (set_rcv c0 rb1)) with rb1. rewrite Erd, Ecl. done. }
    split; [exact ER|].
    destruct (decode_spec h f c (data_header false k) (Some d) rawLen now Hinv) as (c' & s' & E' & Hinv1 & _); [done | | done|].
    { intros _. cbn [StreamID data_header StreamOffset default from_option id].
      destruct Hrcv as [_ Hce Hn _]. rewrite Hce, Hn. split; [split; [widths; lia|]; split; [widths; lia | done]|].
      split; [lia|]. split; [destruct again; lia|]. split; intros ? ?; by rewrite lookup_empty. }
    rewrite Edec in E'. injection E' as <- <-.
    assert (conn_inv h f (set_rcv c0 rb1)) as Hinv2 by (destruct Hinv1; by constructor).
    destruct (Read_spec h f (set_rcv c0 rb1) s Hinv2) as (c2 & s2 & dt & er & E2 & Hinv3 & _); [by rewrite Hid; split | done|].
    rewrite ER in E2. by injection E2 as <- <- <- <-.
  - split; [done|]. split; [|by split]. rewrite Ha2, Hacks. cbn. unfold u16. by rewrite Z.mod_small by lia.
Qed.

(** It arrives at an end of an established connection. *)
Lemma data_arrives h f dir a b k (d : bytes) (again : bool) rest now :
  end_b h f (negb dir) b (if again then k + len d else k) [] -> linked cid secret dir a -> in_step a b ->
  0 < len d < 2 ^ 16 -> 0 <= k -> k + len d < 2 ^ 48 -> d = read_at (f sid) k (length d) -> is_u64 now ->
  exists s m x rb1 rb2, let b0 := set_done (set_streams (set_meas (set_epoch b (Z.max (epochCryptoRcv b) (epochCryptoSnd a))) x) m) true in
    receive b (data_packet a dir (data_header false k) (Some d)) rest now = Ok (set_rcv b0 rb1, inr s) /\
    Read (set_rcv b0 rb1) s = Ok (set_rcv b0 rb2, s, (if again then None else Some d, None)) /\ st_streamID s = sid /\
    end_b h f (negb dir) (set_rcv b0 rb2) (k + len d) [mkAck sid k (len d) 0] /\
    rb_size rb2 = rb_size (c_rcv b) /\ capacity rb2 = capacity (c_rcv b).
Proof.
  intros [Hinv Hlink Hdone Hacks Hrcv Hroom Hsnd Hopen Htime] Hla Hstep Hd Hk Hlt Hbytes Hnow.
  rewrite (receive_data a b dir (data_header false k) (Some d) rest now Hla Hstep (lk_secret _ _ _ _ Hlink) (lk_dir _ _ _ _ Hlink));
    [|split; [done | split; [change (is_u48 k); widths; lia | done]]].
  pose proof (opened_inv h f b (epochCryptoSnd a) now Hinv) as Hinv0. destruct (opened_form b (epochCryptoSnd a) now) as [x Hx].
  rewrite Hx in *. set (b' := set_meas _ x) in *. change ((received (data_header false k) (Some d))) with (data_header false k, Some d). cbn [fst snd].
  destruct (packet_read h f b' k d again (len (data_packet a dir (data_header false k) (Some d))) now)
    as (s & m & rb1 & rb2 & Edec & Hid & Hok & Hopen' & Hread & Hcu & Hack & Hs2 & Hc2); try done; [apply Hroom|].
  exists s, m, x, rb1, rb2. fold b'. cbv zeta. rewrite Edec. cbn [mbind go_bind]. destruct (Hread true) as [ER Hinv3].
  rewrite (end_done (negb dir) (set_rcv (set_streams b' m) rb1)) by (done || apply (lk_dir _ _ _ _ Hlink)). split; [done|].
  split; [exact ER|]. split; [done|]. split; [|by split]. constructor; try done.
  - destruct Hlink. constructor; try done. change (Forall wf_ack (ackList rb2)). rewrite Hack. constructor; [|done].
    split; [done|]. split; [change (is_u48 k) | change (is_u16 (len d))]; widths; lia.
  - by left.
  - change (rb_size rb2 + 2 ^ 16 <= capacity rb2 < 2 ^ 63). rewrite Hs2, Hc2. exact Hroom.
Qed.

(** The reading application has seen the end: the stream is closed for reading
    since [t], and for writing. *)
Definition ended c (t : Z) : Prop := exists s, filed c s sid /\ closedAtNano s = t /\ IsCloseRequested c s = true.

(** The last packet arrives, and its bytes are read with the end of the stream. *)
Lemma close_arrives h f dir a b k (d : bytes) rest now :
  end_b h f (negb dir) b k [] -> linked cid secret dir a -> in_step a b -> 0 < len d < 2 ^ 16 -> 0 <= k -> k + len d < 2 ^ 48 ->
  exists b1 s b2 s', receive b (data_packet a dir (data_header true k) (Some d)) rest now = Ok (b1, inr s) /\
    Read b1 s = Ok (b2, s', (Some d, Some EOF)) /\ ended b2 now.
Proof.
  intros [Hinv Hlink Hdone Hacks Hrcv Hroom Hsnd Hopen Htime] Hla Hstep Hd Hk Hlt.
  rewrite (receive_data a b dir (data_header true k) (Some d) rest now Hla Hstep (lk_secret _ _ _ _ Hlink) (lk_dir _ _ _ _ Hlink));
    [|split; [done | split; [change (is_u48 k); widths; lia | done]]].
  destruct (opened_form b (epochCryptoSnd a) now) as [x Hx]. rewrite Hx. set (b' := set_meas _ x).
  change ((received (data_header true k) (Some d))) with (data_header true k, Some d). cbn [fst snd].
  destruct (open_stream b' sid (ci_streams _ _ _ Hinv) Hopen) as (m & s & Estr & Hok & [Hid Hfiled] & Hcl & Hopen').
  destruct (take_last (c_rcv b) sid k now d Hrcv) as (rb1 & status & rb2 & Eins & Ecl & Erd); [lia..|].
  set (b1 := set_snd (set_rcv (set_streams b' m) (Rcv.Close rb1 sid k)) (Snd.Close (c_snd b) sid)).
  assert (Conn.decode b' (data_header true k) (Some d) (len (data_packet a dir (data_header true k) (Some d))) now = Ok (b1, s)) as Edec.
  { unfold Conn.decode. cbn [StreamID data_header pAck StreamOffset IsClose]. rewrite Estr. cbn [mbind go_bind mret go_ret].
    cbn [default from_option id]. rewrite decide_True by lia. rewrite Hid. change (c_rcv (set_streams b' m)) with (c_rcv b).
    rewrite Eins. done. }
  rewrite Edec. cbn [mbind go_bind]. rewrite (end_done (negb dir) b1) by (done || apply (lk_dir _ _ _ _ Hlink)).
  destruct (file_stream m (mkStream sid now) Hok) as (m' & Hput & Hok' & Hin').
  exists (set_done b1 true), s, (set_streams (set_rcv (set_done b1 true) rb2) m'), (mkStream sid now). split; [done|]. split.
  - unfold Read. rewrite Hcl, Hid. change (c_rcv (set_done b1 true)) with (Rcv.Close rb1 sid k). rewrite Erd, Ecl. cbn [mbind go_bind].
    rewrite Z.leb_refl. change (streams (set_rcv (set_done b1 true) rb2)) with m. by rewrite Hput.
  - exists (mkStream sid now). split; [by split|]. split; [done|]. apply bool_decide_eq_true.
    change (is_Some (Snd.GetOffsetClosedAt (Snd.Close (c_snd b) sid) sid)). destruct (Close_spec h (c_snd b) sid (ci_snd _ _ _ Hinv)) as (_ & _ & ->).
    by eexists.
Qed.

Definition acked (rb : ReceiveBuffer (SortedMap RcvValue)) : ReceiveBuffer (SortedMap RcvValue) :=
  mkReceiveBuffer (Rcv.streams rb) (capacity rb) (rb_size rb) [].

(** The acknowledgement is sent. *)
Lemma ack_sent h f (cfg : ListenerCfg PrvKey) dir b k k0 n s now :
  end_b h f dir b k [mkAck sid k0 n 0] -> isHandshakeDoneOnRcv b = true -> mtu_ok (l_mtu cfg) -> st_streamID s = sid -> nextWriteTime b <= now ->
  int_ok (dataInFlight b) -> dataInFlight b + l_mtu cfg <= to_int (rcvWndSize b) -> ctr b < 2 ^ 95 - 1 ->
  exists x sn ep nw pc, let b' := set_flow (set_counter (set_rcv b (acked (c_rcv b))) x sn ep) (dataInFlight b) (rcvWndSize b) nw in
    Conn.Flush write cfg b s now = Ok (b', ([data_packet b dir (ack_header k0 n (free (c_rcv b))) None], inr (0, pc))) /\
    end_b h f dir b' k [] /\ ctr b' = ctr b + 1 /\ epochCryptoSnd b <= epochCryptoSnd b' <= epochCryptoSnd b + 1.
Proof.
  intros [Hinv Hlink _ Hacks Hrcv Hroom Hsnd Hopen Htime] Hdone Hm Hs Hnow Hint Hwnd Hctr.
  set (rb := acked (c_rcv b)). set (b1 := set_rcv b rb).
  assert (linked cid secret dir b1) as Hl1 by (destruct Hlink; by constructor).
  destruct (encode_linked cfg dir b1 (ack_header k0 n (free (c_rcv b))) None Hl1 Hctr) as (x & sn & ep & Eenc & Hok & Hn & Hep).
  unfold int_ok, mtu_ok in *.
  destruct (ack_flush write Hwrite cfg b rb (mkAck sid k0 n 0) (mkAck sid k0 n (free (c_rcv b))) s now (set_counter b1 x sn ep)
    (data_packet b dir (ack_header k0 n (free (c_rcv b))) None)) as (nw & pc & E & Hnw); [| done | done | | | |].
  - unfold GetSndAck. by rewrite Hacks.
  - by rewrite i64_small by lia.
  - by rewrite Hs.
  - fold b1. unfold msgType. rewrite (lk_done _ _ _ _ Hl1), Hs. exact Eenc.
  - exists x, sn, ep, nw, pc. split; [exact E|]. split; [|by split]. constructor; try done.
    + destruct Hinv as [I1 I2 I3 I4]. constructor; try done. apply (GetSndAck_exact f) in I2. unfold GetSndAck in I2.
      by rewrite Hacks in I2.
    + destruct Hl1. by constructor.
    + by left.
    + destruct Hrcv. by constructor.
Qed.

(** *** The acknowledgement at the writing end *)

Lemma ack_packet_size b dir k n w : 0 <= len (data_packet b dir (ack_header k n w) None) <= 128.
Proof.
  split; [lia|]. unfold data_packet. rewrite packet_length, conn_header_length.
  pose proof (payload_overhead (ack_header k n w) None) as H. change (len (default [] None)) with 0 in H.
  assert (calcProtoOverhead (is_ack (ack_header k n w)) (is_extend (ack_header k n w)) false <= 64) as Ho.
  { rewrite calcProtoOverhead_parts. destruct (is_ack _), (is_extend _); vm_compute; congruence. }
  change (HeaderSize + ConnIdSize) with 9. change FooterDataSize with 22. lia.
Qed.

(** The acknowledgement of the packet in flight is processed, whatever the state
    of the handshake. *)
Lemma ack_decoded f g c k i w q rawLen now :
  let n := len (si_data i) in let ak := mkAck sid k n w in
  conn_inv f g c -> outstanding cl f (c_snd c) sid k i q -> wf_ack ak -> is_u64 now ->
  exists c' s, Conn.decode c (mkPayloadHeader false (Some ak) 0 0) None rawLen now = Ok (c', s) /\ conn_inv f g c' /\
    same_link c c' /\ c_rcv c' = c_rcv c /\ idle cl f (c_snd c') sid (k + n) q /\
    rcvWndSize c' = w /\ dataInFlight c' = i64 (dataInFlight c - rawLen).
Proof.
  clear Hsecret secret.
  intros n ak Hinv Hout Hwf Hnow.
  destruct (decode_spec f g c (mkPayloadHeader false (Some ak) 0 0) None rawLen now Hinv) as (c' & s & E & Hinv' & _);
    [by intros ? [= <-] | by intros ?; simpl in *; lia | done|].
  exists c', s. split; [done|]. split; [done|].
  apply decode_inv in E as (_ & Hlk & (c2 & (st & t & Hack & Ew & Ef) & Esnd & Ew' & Ef') & (rb & Hrb & Ercv)); [|apply Hinv].
  unfold data_step in Hrb. rewrite decide_False in Hrb by (simpl; lia). cbn in Hrb. subst rb. cbn in Ercv, Esnd.
  destruct Hwf as (_ & Hk & Hn). change (is_u48 k) in Hk. change (is_u16 n) in Hn.
  destruct (ack_next cl f (c_snd c) sid k i q w Hout ltac:(widths; lia) Hn (c_snd c2) st t Hack) as [Hidle ->].
  split; [done|]. split; [done|]. split; [by rewrite Esnd|]. split; [by rewrite Ew', Ew|]. by rewrite Ef', Ef, decide_True.
Qed.

(** It arrives at an established connection. *)
Lemma ack_arrives f g dir a b k i w q rest now :
  let n := len (si_data i) in
  waiting f g dir a k i q -> linked cid secret (negb dir) b -> in_step b a -> 0 <= k -> is_u16 n -> k + n < 2 ^ 48 -> is_u64 now ->
  int_ok (dataInFlight a) ->
  let enc := data_packet b (negb dir) (ack_header k n w) None in
  exists a' s, receive a enc rest now = Ok (a', inr s) /\ end_a f g dir a' (k + n) q /\
    ctr a' = ctr a /\ epochCryptoSnd a' = epochCryptoSnd a /\ epochCryptoRcv a' = Z.max (epochCryptoRcv a) (epochCryptoSnd b) /\
    rcvWndSize a' = DecodeRcvWindow (EncodeRcvWindow w) /\ dataInFlight a' = dataInFlight a - len enc.
Proof.
  intros n [Hinv Hlink Hacks Hout Htime] Hb Hstep Hk Hn Hlt Hnow Hint enc.
  assert (wf_payload (ack_header k n w)) as Hwf.
  { split; [done|]. split; [by vm_compute|]. split; [done|]. split; [change (is_u48 k); widths; lia | done]. }
  unfold enc at 1. rewrite receive_data; [| done | done | apply Hlink | by rewrite negb_involutive, (lk_dir _ _ _ _ Hlink) | done]. fold enc.
  pose proof (opened_inv f g a (epochCryptoSnd b) now Hinv) as Hinv0. destruct (opened_form a (epochCryptoSnd b) now) as [x Hx].
  rewrite Hx in *. set (a0 := set_meas _ x) in *. set (ak := mkAck sid k n (DecodeRcvWindow (EncodeRcvWindow w))).
  change (received (ack_header k n w) None) with (mkPayloadHeader false (Some ak) 0 0, None : option bytes). cbn [fst snd].
  destruct (ack_decoded f g a0 k i (DecodeRcvWindow (EncodeRcvWindow w)) q (len enc) now Hinv0 Hout)
    as (a' & s & E & Hinv' & Hlk & Ercv & Hidle & Ew & Ef); [by destruct Hwf as (_ & _ & ?) | done|].
  fold n ak in E. rewrite E. cbn [mbind go_bind mret go_ret]. pose proof Hlk as (_ & _ & _ & E4 & E5 & E6 & _ & E8 & E9).
  assert (handshake_done a' Data = a') as ->.
  { unfold handshake_done. rewrite E4. change (isHandshakeDoneOnRcv a0) with (isHandshakeDoneOnRcv a). by rewrite (lk_done _ _ _ _ Hlink). }
  pose proof (ack_packet_size b (negb dir) k n w) as Hsize. fold enc in Hsize. unfold int_ok in Hint.
  exists a', s. split; [done|]. split.
  - constructor; [done | | by rewrite Ercv | done | by rewrite E9].
    eapply linked_same; [|exact Hlk | apply Hinv' | by rewrite Ercv; change (ackList (c_rcv a0)) with (ackList (c_rcv a)); rewrite Hacks].
    destruct Hlink. by constructor.
  - unfold ctr. rewrite E5, E6, E8, Ew, Ef. change (dataInFlight a0) with (dataInFlight a). rewrite i64_small by lia. done.
Qed.

(** *** A round *)

Context (cfg_a cfg_b : ListenerCfg PrvKey) (Hmtu_a : mtu_ok (l_mtu cfg_a)) (Hmtu_b : mtu_ok (l_mtu cfg_b)).

(** The datagram of [a] arrives at [b], the stream is read, and the reply of [b]
    arrives at [a], unless the network loses one of the two datagrams.  The flag
    says that the read has seen the end of the stream; then the round ends. *)
Definition round (t : instants) (x : fate) a b st : go (option (Conn PubKey PrvKey * Conn PubKey PrvKey * bytes * bool)) :=
  '(a, (ds, _)) ← Conn.Flush write cfg_a a st (t_flush t);
  match x, ds with
  | DataLost, [_] => mret (Some (a, b, [], false))
  | _, [enc] =>
      '(b, r) ← receive b enc (make_bytes (l_mtu cfg_b - len enc)) (t_arrive t);
      match r with
      | inl _ => mret None
      | inr s =>
          '(b, s, (data, err)) ← Read b s;
          match err with
          | Some EOF => mret (Some (a, b, default [] data, true))
          | Some _ => mret None
          | None =>
              '(b, (ds, _)) ← Conn.Flush write cfg_b b s (t_reply t);
              match x, ds with
              | Delivered, [reply] =>
                  '(a, r) ← receive a reply (make_bytes (l_mtu cfg_a - len reply)) (t_return t);
                  match r with
                  | inl _ => mret None
                  | inr _ => mret (Some (a, b, default [] data, false))
                  end
              | _, [_] => mret (Some (a, b, default [] data, false))
              | _, _ => mret None
              end
          end
      end
  | _, _ => mret None
  end.

(** A round is timely when pacing allows both flushes and, if a packet is in
    flight that may be sent again, its timer has run out. *)
Definition overdue a (now : Z) : bool :=
  match head (flight_of (c_snd a) sid) with
  | Some (_, i) =>
      match backoff (rtoNano (c_meas a)) (sentNr i) with
      | inr x => bool_decide (x < u64 (now - sentTimeNano i))
      | inl _ => true
      end
  | None => true
  end.

Definition timely a b (t : instants) : bool :=
  bool_decide (nextWriteTime a <= t_flush t) && bool_decide (nextWriteTime b <= t_reply t) &&
  bool_decide (is_u64 (t_arrive t)) && bool_decide (is_u64 (t_return t)) && overdue a (t_flush t).

Lemma timely_spec a b t : timely a b t = true ->
  nextWriteTime a <= t_flush t /\ nextWriteTime b <= t_reply t /\ is_u64 (t_arrive t) /\ is_u64 (t_return t) /\ overdue a (t_flush t) = true.
Proof. unfold timely. rewrite !andb_true_iff, !bool_decide_eq_true. tauto. Qed.

(** *** The state between rounds *)

(** The counters, windows and [int]s have room for [u] bytes, [w] packets in
    flight and [ma] and [mb] packets of the two ends. *)
Record room a b (w u ma mb : Z) : Prop := {
  rm_epochs : epochCryptoSnd a = 0 /\ epochCryptoRcv a = 0 /\ epochCryptoSnd b = 0 /\ epochCryptoRcv b = 0;
  rm_ctr : ctr a + ma < 2 ^ 48 /\ ctr b + mb < 2 ^ 48;
  rm_low : - 2 ^ 61 + 128 * (u + w) <= dataInFlight a;
  rm_high : dataInFlight a + u < 2 ^ 61;
  rm_wnd : dataInFlight a + u + l_mtu cfg_a <= to_int (rcvWndSize a);
  rm_free : dataInFlight a + u + l_mtu cfg_a <= to_int (DecodeRcvWindow (EncodeRcvWindow (free (c_rcv b))));
  rm_back : int_ok (dataInFlight b) /\ dataInFlight b + l_mtu cfg_b <= to_int (rcvWndSize b);
}.

(** If the stream is closed, then behind the queue. *)
Definition ends_at (e : Z) : Prop := cl = None \/ cl = Some e.

(** [k] bytes are read and acknowledged, [q] are queued. *)
Record ready (f g h : Z -> Z -> Z) (dir : bool) a b (k : Z) (q : bytes) (m : Z) : Prop := {
  rd_a : end_a f g dir a k q;
  rd_b : end_b h f (negb dir) b k [];
  rd_pos : 0 <= k /\ k + len q < 2 ^ 48;
  rd_room : room a b 0 (len q) m m;
  rd_end : ends_at (k + len q);
  rd_more : is_Some cl -> q <> [];
}.

(** [k] bytes are acknowledged, packet [i] is in flight, and [got] says whether
    it was read. *)
Record lost (f g h : Z -> Z -> Z) (dir : bool) a b (k : Z) (i : SendInfo) (got : bool) (q : bytes) (ma mb : Z) : Prop := {
  ls_a : waiting f g dir a k i q;
  ls_b : end_b h f (negb dir) b (if got then k + len (si_data i) else k) [];
  ls_pos : 0 <= k /\ k + len (si_data i) + len q < 2 ^ 48;
  ls_data : 0 < len (si_data i) <= max_data Data None (l_mtu cfg_a) k;
  ls_bytes : si_data i = read_at (f sid) k (length (si_data i));
  ls_room : room a b 1 (len q) ma mb;
  ls_end : ends_at (k + len (si_data i) + len q);
  ls_got : got = true -> closes cl (k + len (si_data i)) = false;
}.

Lemma lost_weaken f g h dir a b k i got q ma mb m :
  lost f g h dir a b k i got q ma mb -> m <= ma -> m <= mb -> lost f g h dir a b k i got q m m.
Proof. intros [L1 L2 L3 L4 L5 [R1 R2 R3 R4 R5 R6 R7] L6 L7] H1 H2. constructor; try done. constructor; try done. lia. Qed.

(** The epoch stays below the first roll-over. *)
Lemma first_epoch c c' n : after_send c c' n -> ctr_ok c' -> epochCryptoSnd c = 0 -> ctr c + 1 < 2 ^ 48 -> epochCryptoSnd c' = 0.
Proof. intros (Hc & He & _) [Hs _] H0 Hlt. rewrite <- Hc in Hlt. unfold ctr, counter in Hlt. unfold is_u48 in Hs. lia. Qed.

Lemma room_sent a a' b w u n ma mb :
  room a b w u ma mb -> after_send a a' n -> ctr_ok a' -> 1 <= ma -> 0 <= n -> (n = 0 /\ w = 1 \/ 0 < n <= u /\ w = 0) ->
  room a' b 1 (u - n) (ma - 1) mb.
Proof.
  intros [(H1 & H2 & H3 & H4) [H5 H6] H7 H8 H9 H10 H11] Hs Hok Hma Hn Hw. pose proof (first_epoch a a' n Hs Hok H1 ltac:(lia)) as He.
  destruct Hs as (S1 & _ & S3 & S4 & S5). constructor; try done; rewrite ?S1, ?S3, ?S4, ?S5; try done; lia.
Qed.

Lemma queue_bytes f c k q : idle cl f (c_snd c) sid k q -> q = read_at (f sid) k (length q).
Proof.
  intros [Hi _ Hs Hq _]. destruct (sstream_inv f (c_snd c) sid Hi) as [_ _ Hqueue _]. unfold queue_of, sent_of in *.
  rewrite Hq, Hs in Hqueue. exact Hqueue.
Qed.

Lemma packet_size_bounds k q : q <> [] -> let n := packet_size (l_mtu cfg_a) k q in
  1 <= n <= len q /\ n <= max_data Data None (l_mtu cfg_a) k /\ len (take (Z.to_nat n) q) = n.
Proof.
  intros Hq n. pose proof (room_positive (l_mtu cfg_a) k Hmtu_a). assert (0 < len q) by (destruct q; [done | simpl; lia]).
  rewrite length_take. subst n. unfold packet_size, segment_size. lia.
Qed.

(** *** The steps of a round *)

(** The writing end sends the next packet ... *)
Lemma next_sent f g h dir a b k q m st now :
  ready f g h dir a b k q m -> q <> [] -> 1 <= m -> st_streamID st = sid -> nextWriteTime a <= now ->
  let n := packet_size (l_mtu cfg_a) k q in let d := take (Z.to_nat n) q in
  exists a' r, Conn.Flush write cfg_a a st now = Ok (a', ([packet_of a dir k d], r)) /\
    lost f g h dir a' b k (newSendInfo d now false) false (drop (Z.to_nat n) q) (m - 1) m.
Proof.
  intros [Ha Hb Hpos Hroom Hend _] Hq Hm Hst Hnow n d. pose proof (packet_size_bounds k q Hq) as (Hn & Hmax & Hlen). fold n in Hn, Hmax, Hlen. fold d in Hlen.
  pose proof Hroom as [_ [Hc _] Hlow Hhigh Hwnd _ _].
  destruct (data_flush f g cfg_a dir a k q st now Ha Hq Hmtu_a Hst Hnow) as (a' & r & E & Hw & Hs); [unfold int_ok; lia | lia | lia|].
  fold n d in E, Hw, Hs. exists a', r. split; [done|]. assert (len (drop (Z.to_nat n) q) = len q - n) as Hdrop by (rewrite length_drop; lia).
  constructor; cbn [newSendInfo si_data]; rewrite ?Hlen, ?Hdrop; try done; try lia.
  - unfold d at 1. rewrite (queue_bytes f a k q (ea_idle _ _ _ _ _ _ Ha)) at 1. rewrite read_at_take by lia. f_equal. lia.
  - rewrite Hlen in Hs. eapply room_sent; [done | done | apply (wt_link _ _ _ _ _ _ _ Hw) | lia | lia | right; lia].
  - by replace (k + n + (len q - n)) with (k + len q) by lia.
Qed.

Lemma backoff_allowed rto nr : 1 <= nr <= maxRetry -> exists x, backoff rto nr = inr x.
Proof.
  intros H. unfold backoff. destruct (Z.leb_spec nr 0); [lia|]. rewrite Z.gtb_ltb. destruct (Z.ltb_spec maxRetry nr); [lia|]. by eexists.
Qed.

(** ... or the packet in flight again. *)
Lemma lost_sent f g h dir a b k i got q m st now :
  lost f g h dir a b k i got q m m -> 1 <= m -> st_streamID st = sid -> nextWriteTime a <= now -> overdue a now = true ->
  1 <= sentNr i <= maxRetry ->
  exists a' r, Conn.Flush write cfg_a a st now = Ok (a', ([packet_of a dir k (si_data i)], r)) /\
    lost f g h dir a' b k (mkSendInfo (si_data i) now (sentNr i + 1) false) got q (m - 1) m.
Proof.
  intros [Ha Hb Hpos Hd Hbytes Hroom Hend Hgot] Hm Hst Hnow Hover Hnr. pose proof Hroom as [_ [Hc _] Hlow Hhigh Hwnd _ _].
  unfold overdue in Hover. rewrite (ot_flight _ _ _ _ _ _ _ (wt_out _ _ _ _ _ _ _ Ha)) in Hover. cbn [head] in Hover.
  destruct (backoff_allowed (rtoNano (c_meas a)) (sentNr i) Hnr) as [x Eb]. rewrite Eb in Hover. apply bool_decide_eq_true in Hover.
  destruct (resend_flush f g cfg_a dir a k i q st now x Ha Hmtu_a Hst Hnow) as (a' & r & E & Hw & Hs); try done; [unfold int_ok; lia | lia | lia | lia|].
  exists a', r. split; [done|]. constructor; try done.
  replace (len q) with (len q - 0) by lia. eapply room_sent; [done | done | apply (wt_link _ _ _ _ _ _ _ Hw) | lia | lia | left; lia].
Qed.

(** The reading end takes the packet, reads the stream and replies. *)
Lemma packet_answered f g h dir a a1 b k i got q ma mb rest tb tr :
  lost f g h dir a1 b k i got q ma mb -> linked cid secret dir a -> epochCryptoSnd a = 0 -> 1 <= mb ->
  closes cl (k + len (si_data i)) = false -> is_u64 tb -> nextWriteTime b <= tr ->
  exists b1 s b2 data b3 r, receive b (packet_of a dir k (si_data i)) rest tb = Ok (b1, inr s) /\
    Read b1 s = Ok (b2, s, (data, None)) /\ default [] data = (if got then [] else si_data i) /\
    Conn.Flush write cfg_b b2 s tr = Ok (b3, ([data_packet b2 (negb dir) (ack_header k (len (si_data i)) (free (c_rcv b))) None], r)) /\
    linked cid secret (negb dir) b2 /\ epochCryptoSnd b2 = 0 /\ free (c_rcv b3) = free (c_rcv b) /\
    lost f g h dir a1 b3 k i true q ma (mb - 1).
Proof.
  intros [Ha Hb Hpos Hd Hbytes Hroom Hend Hgot] Hla Hea Hm Hfin Htb Htr. unfold packet_of. rewrite Hfin. pose proof (room_positive (l_mtu cfg_a) k Hmtu_a) as Hmax.
  pose proof Hroom as [(E1 & E2 & E3 & E4) [C1 C2] R1 R2 R3 R4 [R5 R6]].
  destruct (data_arrives h f dir a b k (si_data i) got rest tb Hb Hla) as (s & m & x & rb1 & rb2 & F1 & F2 & Hs & Hb2 & Esz & Ecap);
    [by split; lia | lia | lia | lia | done | done|]. set (b0 := set_done _ true) in *. set (b2 := set_rcv b0 rb2) in *.
  assert (linked cid secret (negb dir) b2) as Hl2 by (destruct (eb_link _ _ _ _ _ _ Hb2); by constructor).
  destruct (ack_sent h f cfg_b (negb dir) b2 (k + len (si_data i)) k (len (si_data i)) s tr Hb2 eq_refl Hmtu_b Hs Htr)
    as (x' & sn & ep & nw & pc & F3 & Hb3 & Hc3 & Hep3); [exact R5 | exact R6 | change (ctr b2) with (ctr b); lia|].
  set (b3 := set_flow (set_counter (set_rcv b2 _) _ _ _) _ _ _) in *.
  assert (free (c_rcv b2) = free (c_rcv b)) as Efree by (unfold free; change (c_rcv b2) with rb2; by rewrite Esz, Ecap).
  rewrite Efree in F3. change (ctr b2) with (ctr b) in Hc3. change (epochCryptoSnd b2) with (epochCryptoSnd b) in Hep3.
  exists (set_rcv b0 rb1), s, b2, (if got then None else Some (si_data i)), b3, (inr (0, pc)). split; [exact F1|]. split; [exact F2|].
  split; [by destruct got|]. split; [exact F3|]. split; [done|]. split; [done|]. split; [exact Efree|]. constructor; try done.
  assert (epochCryptoSnd b3 = 0) as He3.
  { destruct (lk_ctr _ _ _ _ (eb_link _ _ _ _ _ _ Hb3)) as [Hsn _]. change (is_u48 (snCrypto b3)) in Hsn.
    unfold is_u48 in Hsn. unfold ctr, counter in Hc3, C2. lia. }
  constructor; try done; [|lia|change (free (c_rcv b3)) with (free (c_rcv b2)); by rewrite Efree].
  split; [done|]. split; [done|]. split; [done|]. change (epochCryptoRcv b3) with (Z.max (epochCryptoRcv b) (epochCryptoSnd a)). lia.
Qed.

(** The reply reaches the writing end. *)
Lemma reply_arrives f g h dir a b b2 k i q m rest now :
  lost f g h dir a b k i true q m m -> linked cid secret (negb dir) b2 -> epochCryptoSnd b2 = 0 -> is_u64 now ->
  exists a' s, receive a (data_packet b2 (negb dir) (ack_header k (len (si_data i)) (free (c_rcv b))) None) rest now = Ok (a', inr s) /\
    ready f g h dir a' b (k + len (si_data i)) q m.
Proof.
  intros [Ha Hb Hpos Hd Hbytes Hroom Hend Hgot] Hl2 He2 Hnow. pose proof (room_positive (l_mtu cfg_a) k Hmtu_a) as Hmax.
  pose proof Hroom as [(E1 & E2 & E3 & E4) [C1 C2] R1 R2 R3 R4 R5].
  destruct (ack_arrives f g dir a b2 k i (free (c_rcv b)) q rest now Ha Hl2) as (a' & s & F & Ha' & F1 & F2 & F3 & F4 & F5);
    [by split; lia | lia | widths; lia | lia | done | unfold int_ok; lia|].
  pose proof (ack_packet_size b2 (negb dir) k (len (si_data i)) (free (c_rcv b))) as Hsize.
  exists a', s. split; [exact F|]. constructor; [done | done | lia| | done |].
  - constructor; rewrite ?F1, ?F2, ?F3, ?F4; try done; lia.
  - intros [c Hc] ->. specialize (Hgot eq_refl). unfold closes in Hgot. destruct Hend as [?|He]; [congruence|]. rewrite He in Hgot.
    apply Z.leb_gt in Hgot. simpl in Hgot. lia.
Qed.

(** *** A round of each kind *)

Definition outcome (x : fate) (got : bool) : bool := match x with DataLost => got | _ => true end.

(** The rest of a round, once the packet was sent: the last packet ... *)
Lemma round_last f g h dir a a1 b k i q ma mb st t x r :
  Conn.Flush write cfg_a a st (t_flush t) = Ok (a1, ([packet_of a dir k (si_data i)], r)) ->
  lost f g h dir a1 b k i false q ma mb -> linked cid secret dir a -> epochCryptoSnd a = 0 ->
  closes cl (k + len (si_data i)) = true -> x <> DataLost ->
  exists b', round t x a b st = Ok (Some (a1, b', si_data i, true)) /\ ended b' (t_arrive t).
Proof.
  intros E [Ha Hb Hpos Hd Hbytes Hroom _ _] Hla Hea Hfin Hx. unfold round. rewrite E. cbn [mbind go_bind].
  pose proof (room_positive (l_mtu cfg_a) k Hmtu_a) as Hmax. pose proof Hroom as [(_ & _ & _ & E4) _ _ _ _ _ _].
  unfold packet_of. rewrite Hfin. set (rest := make_bytes _).
  destruct (close_arrives h f dir a b k (si_data i) rest (t_arrive t) Hb Hla) as (b1 & s & b2 & s' & F1 & F2 & F3); [by split; lia | lia | lia | lia|].
  exists b2. split; [|done]. destruct x; [|done|]; rewrite F1; cbn [mbind go_bind]; by rewrite F2.
Qed.

(** ... and the others. *)
Lemma round_after f g h dir a a1 b k i got q m st t x r :
  Conn.Flush write cfg_a a st (t_flush t) = Ok (a1, ([packet_of a dir k (si_data i)], r)) ->
  lost f g h dir a1 b k i got q (m - 1) m -> linked cid secret dir a -> epochCryptoSnd a = 0 -> 1 <= m ->
  is_u64 (t_arrive t) -> nextWriteTime b <= t_reply t -> is_u64 (t_return t) -> closes cl (k + len (si_data i)) = false \/ x = DataLost ->
  exists a' b', round t x a b st = Ok (Some (a', b', if outcome x got && negb got then si_data i else [], false)) /\
    if decide (x = Delivered) then ready f g h dir a' b' (k + len (si_data i)) q (m - 1)
    else lost f g h dir a' b' k i (outcome x got) q (m - 1) (m - 1).
Proof.
  intros E Hlost Hla Hea Hm Hta Htb Htr Hfin. unfold round. rewrite E. cbn [mbind go_bind]. destruct (decide (x = DataLost)) as [->|Hx].
  { exists a1, b. rewrite decide_False by done. split; [by destruct got|]. eapply lost_weaken; [done | lia | lia]. }
  destruct Hfin as [Hfin|?]; [|done]. set (rest := make_bytes _).
  destruct (packet_answered f g h dir a a1 b k i got q (m - 1) m rest (t_arrive t) (t_reply t) Hlost Hla Hea Hm Hfin Hta Htb)
    as (b1 & s & b2 & data & b3 & r3 & F1 & F2 & Hdata & F3 & Hl2 & He2 & Efree & Hlost3). subst rest.
  assert (default [] data = if outcome x got && negb got then si_data i else []) as <- by (rewrite Hdata; by destruct x, got).
  destruct (decide (x = Delivered)) as [->|Hx'].
  - rewrite F1. cbn [mbind go_bind]. rewrite F2. cbn [mbind go_bind]. rewrite F3. cbn [mbind go_bind]. rewrite <- Efree.
    set (rest := make_bytes _).
    destruct (reply_arrives f g h dir a1 b3 b2 k i q (m - 1) rest (t_return t) Hlost3 Hl2 He2 Htr) as (a' & s' & F4 & Hready).
    subst rest. rewrite F4. by exists a', b3.
  - destruct x; [done | done|]. rewrite F1. cbn [mbind go_bind]. rewrite F2. cbn [mbind go_bind]. rewrite F3. by exists a1, b3.
Qed.

(** *** A transfer *)

Definition settled a : bool :=
  bool_decide (queue_of (c_snd a) sid = []) && match flight_of (c_snd a) sid with [] => true | _ => false end.

(** Rounds as the schedule has them, until nothing is queued or in flight or the
    end of the stream was read; the bytes read, and whether the end was. *)
Fixpoint transfer (sched : list (instants * fate)) a b st : go (option (Conn PubKey PrvKey * Conn PubKey PrvKey * bytes * bool)) :=
  if settled a then mret (Some (a, b, [], false)) else
  match sched with
  | [] => mret (Some (a, b, [], false))
  | (t, x) :: sched =>
      r ← round t x a b st;
      match r with
      | None => mret None
      | Some (a, b, data, true) => mret (Some (a, b, data, true))
      | Some (a, b, data, false) =>
          r ← transfer sched a b st;
          mret ((fun '(a, b, more, eof) => (a, b, data ++ more, eof)) <$> r)
      end
  end.

(** Every round of the transfer is timely. *)
Fixpoint on_schedule (sched : list (instants * fate)) a b st : bool :=
  settled a ||
  match sched with
  | [] => true
  | (t, x) :: sched =>
      timely a b t &&
      match round t x a b st with
      | Ok (Some (a, b, _, false)) => on_schedule sched a b st
      | _ => true
      end
  end.

(** [Some (i, got)]: packet [i] is in flight. *)
Definition between f g h dir a b (k : Z) (pend : option (SendInfo * bool)) (q : bytes) (m : Z) : Prop :=
  match pend with
  | None => ready f g h dir a b k q m
  | Some (i, got) => lost f g h dir a b k i got q m m
  end.

Definition unread (pend : option (SendInfo * bool)) (q : bytes) : bytes :=
  match pend with Some (i, false) => si_data i ++ q | _ => q end.

(** The packets that are left, at most, and how often the one in flight was
    sent. *)
Definition packets (q : bytes) : Z := (len q + (packet_room (l_mtu cfg_a) - 1)) / packet_room (l_mtu cfg_a).
Definition packets_left (pend : option (SendInfo * bool)) (q : bytes) : Z := (if pend then 1 else 0) + packets q.
Definition tries (pend : option (SendInfo * bool)) : Z := match pend with Some (i, _) => sentNr i | None => 0 end.

Lemma packets_nil : packets [] = 0.
Proof. pose proof (room_positive (l_mtu cfg_a) 0 Hmtu_a). unfold packets. apply Z.div_small. simpl. lia. Qed.

Lemma packets_next k q : q <> [] -> packets (drop (Z.to_nat (packet_size (l_mtu cfg_a) k q)) q) + 1 <= packets q.
Proof.
  intros Hq. pose proof (packet_size_bounds k q Hq) as (Hn & _ & _). pose proof (room_positive (l_mtu cfg_a) k Hmtu_a) as [Hr _].
  set (n := packet_size (l_mtu cfg_a) k q) in *. assert (n = len q \/ packet_room (l_mtu cfg_a) <= n) as Hcase by (subst n; unfold packet_size, segment_size in *; lia).
  unfold packets. set (r := packet_room (l_mtu cfg_a)) in *. rewrite length_drop. replace (Z.of_nat (length q - Z.to_nat n)) with (len q - n) by lia.
  rewrite <- Z.div_add by lia. apply Z.le_trans with ((Z.max 0 (len q - r) + (r - 1) + 1 * r) / r); [apply Z.div_le_mono; lia|].
  destruct (Z.le_gt_cases r (len q)).
  - apply Z.div_le_mono; lia.
  - rewrite Z.max_l by lia. transitivity 1; [|apply Z.div_le_lower_bound; lia]. apply Z.lt_succ_r, Z.div_lt_upper_bound; lia.
Qed.

Lemma packets_pos q : q <> [] -> 1 <= packets q.
Proof.
  intros Hq. pose proof (room_positive (l_mtu cfg_a) 0 Hmtu_a) as [Hr _]. assert (0 < len q) by (destruct q; [done | simpl; lia]).
  apply Z.div_le_lower_bound; lia.
Qed.

Lemma settled_between f g h dir a b k pend q m :
  between f g h dir a b k pend q m -> settled a = bool_decide (pend = None /\ q = []).
Proof.
  unfold settled, between. destruct pend as [[i got]|].
  - intros [[_ _ _ Hout _] _ _ _ _ _ _ _]. rewrite (ot_flight _ _ _ _ _ _ _ Hout), andb_false_r. by rewrite bool_decide_false by naive_solver.
  - intros [[_ _ _ Hidle _] _ _ _ _ _]. rewrite (id_queue _ _ _ _ _ _ Hidle), (id_flight _ _ _ _ _ _ Hidle), andb_true_r.
    apply bool_decide_ext. naive_solver.
Qed.

(** The packet that is sent, whatever is in flight. *)
Lemma between_sent f g h dir a b k pend q m st now :
  between f g h dir a b k pend q m -> ~ (pend = None /\ q = []) -> 1 <= m -> st_streamID st = sid -> nextWriteTime a <= now -> overdue a now = true ->
  0 <= tries pend <= maxRetry -> (is_Some pend -> 1 <= tries pend) ->
  exists a1 r i got q', Conn.Flush write cfg_a a st now = Ok (a1, ([packet_of a dir k (si_data i)], r)) /\
    lost f g h dir a1 b k i got q' (m - 1) m /\ linked cid secret dir a /\ epochCryptoSnd a = 0 /\
    (if got then q' else si_data i ++ q') = unread pend q /\ sentNr i = tries pend + 1 /\ 1 + packets q' <= packets_left pend q.
Proof.
  intros Hbt Hne Hm Hst T1 T5 Htries Hpend. destruct pend as [[i got]|]; cbn in Hbt.
  - pose proof Hbt as [Ha _ _ _ _ [(He & _) _ _ _ _ _ _] _ _]. assert (1 <= sentNr i <= maxRetry) as Hnr by (split; [by apply Hpend | apply Htries]).
    destruct (lost_sent f g h dir a b k i got q m st now Hbt Hm Hst T1 T5 Hnr) as (a1 & r & E & Hlost).
    set (i' := mkSendInfo _ _ _ _) in Hlost. exists a1, r, i', got, q. split; [exact E|]. split; [done|]. split; [apply Ha|]. split; [done|].
    split; [by destruct got|]. split; [done | apply Z.le_refl].
  - assert (q <> []) as Hq by naive_solver. pose proof Hbt as [Ha _ _ [(He & _) _ _ _ _ _ _] _ _].
    pose proof (packets_next k q Hq) as Hp. set (n := packet_size (l_mtu cfg_a) k q) in *.
    destruct (next_sent f g h dir a b k q m st now Hbt Hq Hm Hst T1) as (a1 & r & E & Hlost). fold n in E, Hlost.
    set (i' := newSendInfo _ _ _) in Hlost. exists a1, r, i', false, (drop (Z.to_nat n) q). split; [exact E|]. split; [done|]. split; [apply Ha|].
    split; [done|]. split; [apply take_drop|]. split; [done | unfold packets_left; lia].
Qed.

(** One round, whatever its fate. *)
Lemma round_between f g h dir a b k pend q m st t x :
  between f g h dir a b k pend q m -> ~ (pend = None /\ q = []) -> 1 <= m -> st_streamID st = sid -> timely a b t = true ->
  0 <= tries pend <= maxRetry -> (is_Some pend -> 1 <= tries pend) ->
  exists a' b' data eof, round t x a b st = Ok (Some (a', b', data, eof)) /\
    if (eof : bool) then is_Some cl /\ data = unread pend q /\ ended b' (t_arrive t) else
    exists k' pend' q', between f g h dir a' b' k' pend' q' (m - 1) /\ data ++ unread pend' q' = unread pend q /\
      if decide (x = Delivered) then pend' = None /\ packets_left pend' q' < packets_left pend q
      else tries pend' = tries pend + 1 /\ is_Some pend' /\ packets_left pend' q' <= packets_left pend q.
Proof.
  intros Hbt Hne Hm Hst Ht Htries Hpend. apply timely_spec in Ht as (T1 & T2 & T3 & T4 & T5).
  destruct (between_sent f g h dir a b k pend q m st (t_flush t) Hbt Hne Hm Hst T1 T5 Htries Hpend)
    as (a1 & r & i & got & q' & E & Hlost & Hla & He & Hun & Hnr & Hp).
  destruct (decide (closes cl (k + len (si_data i)) = true /\ x <> DataLost)) as [[Hfin Hx]|Hno].
  - destruct got; [by rewrite (ls_got _ _ _ _ _ _ _ _ _ _ _ _ Hlost eq_refl) in Hfin|].
    destruct (round_last f g h dir a a1 b k i q' (m - 1) m st t x r E Hlost Hla He Hfin Hx) as (b' & ER & Hend).
    exists a1, b', (si_data i), true. split; [exact ER|]. destruct (ls_end _ _ _ _ _ _ _ _ _ _ _ _ Hlost) as [Hc|Hc].
    { unfold closes in Hfin. by rewrite Hc in Hfin. }
    unfold closes in Hfin. rewrite Hc in Hfin. apply Z.leb_le in Hfin. assert (q' = []) as -> by (by apply nil_length_inv; lia).
    split; [by rewrite Hc|]. split; [by rewrite <- Hun, app_nil_r | done].
  - assert (closes cl (k + len (si_data i)) = false \/ x = DataLost) as Hfin.
    { destruct (closes cl (k + len (si_data i))); [|by left]. right. destruct (decide (x = DataLost)); [done|]. exfalso. by apply Hno. }
    destruct (round_after f g h dir a a1 b k i got q' m st t x r E Hlost Hla He Hm T3 T2 T4 Hfin) as (a' & b' & ER & Hnext).
    eexists a', b', _, false. split; [exact ER|]. case_decide as Hx.
    + subst x. exists (k + len (si_data i)), None, q'. split; [exact Hnext|]. split; [by rewrite <- Hun; destruct got|]. split; [done|].
      unfold packets_left at 1. lia.
    + exists k, (Some (i, outcome x got)), q'. split; [exact Hnext|]. split; [by rewrite <- Hun; destruct x, got|]. split; [done|].
      split; [by eexists|]. unfold packets_left at 1. lia.
Qed.

(** What a transfer ends with: everything acknowledged, or the end of the stream
    read. *)
Definition finished f g h dir a b (sched : list (instants * fate)) : Prop :=
  match cl with
  | None => exists k m, ready f g h dir a b k [] m
  | Some _ => exists t x, (t, x) ∈ sched /\ ended b (t_arrive t)
  end.

Lemma finished_later f g h dir a b e sched : finished f g h dir a b sched -> finished f g h dir a b (e :: sched).
Proof. unfold finished. destruct cl; [|done]. intros (t & x & Hin & He). exists t, x. split; [by right | done]. Qed.

Lemma transfer_between f g h dir st sched : st_streamID st = sid -> forall a b k pend q m,
  between f g h dir a b k pend q m -> Z.of_nat (length sched) <= m -> packets_left pend q <= deliveries sched ->
  patient (tries pend) sched = true -> 0 <= tries pend <= maxRetry -> (is_Some pend -> 1 <= tries pend) -> on_schedule sched a b st = true ->
  exists a' b', transfer sched a b st = Ok (Some (a', b', unread pend q, bool_decide (is_Some cl))) /\ finished f g h dir a' b' sched.
Proof.
  intros Hst. induction sched as [|[t x] sched IH]; intros a b k pend q m Hbt Hm Hleft Hpat Htr Hpd Hsch;
    cbn [transfer on_schedule] in *; rewrite (settled_between _ _ _ _ _ _ _ _ _ _ Hbt) in *; case_bool_decide as Hs.
  1, 3: destruct Hs as [-> ->]; assert (cl = None) as Hcl by (destruct cl as [c|] eqn:Ec; [|done]; exfalso; by apply (rd_more _ _ _ _ _ _ _ _ _ Hbt));
    exists a, b; unfold finished; rewrite Hcl; split; [done|]; by exists k, m.
  - unfold packets_left in Hleft. cbn [deliveries] in Hleft. destruct (decide (q = [])) as [->|Hq].
    + rewrite packets_nil in Hleft. destruct pend; [lia | naive_solver].
    + pose proof (packets_pos q Hq). destruct pend; lia.
  - cbn [orb] in Hsch. apply andb_true_iff in Hsch as [Ht Hsch]. cbn [length] in Hm.
    destruct (round_between f g h dir a b k pend q m st t x Hbt Hs ltac:(lia) Hst Ht Htr Hpd) as (a' & b' & data & [|] & E & Hround);
      rewrite E in Hsch |- *; cbn [mbind go_bind].
    { destruct Hround as ([c Hc] & -> & Hend). exists a', b'. split; [by rewrite Hc|]. unfold finished. rewrite Hc. exists t, x. split; [by left | done]. }
    destruct Hround as (k' & pend' & q' & Hbt' & Hun & Hfate).
    assert (packets_left pend' q' <= deliveries sched /\ patient (tries pend') sched = true /\ 0 <= tries pend' <= maxRetry /\
      (is_Some pend' -> 1 <= tries pend')) as (Hl & Hp & Ht1 & Ht2).
    { case_decide as Hx.
      - subst x. destruct Hfate as [-> Hlt]. cbn [deliveries patient tries] in *. split; [lia|]. split; [done|]. split; [done|]. by intros [? ?].
      - destruct Hfate as (Htr' & Hsome & Hle). rewrite Htr'. destruct x; [done| |]; cbn [deliveries patient] in *; apply andb_true_iff in Hpat as [Hj Hpat];
          apply bool_decide_eq_true in Hj; (split; [lia|]; split; [done|]; split; lia). }
    destruct (IH a' b' k' pend' q' (m - 1) Hbt' ltac:(lia) Hl Hp Ht1 Ht2 Hsch) as (a2 & b2 & -> & Hr).
    cbn [mbind go_bind fmap option_fmap option_map]. exists a2, b2. rewrite Hun. split; [done | by apply finished_later].
Qed.
End round.
