(* ===== verification/Transfer.v ===== *)
(** * Transfer: from [Dial] to the last byte

    The rounds of [Progress] from the state that the handshake of [Session]
    leaves: a write is transferred whole, and a stream that is closed behind its
    bytes is read to its end. *)

From stdpp Require Import prelude gmap list numbers strings relations.
From S2P Require Import Prelude Wire Proto Measurement Interfaces LinkedMap SortedMap Rcv Crypto Snd Delivery Conn Streams Inversion Flow Listener Scheduler Endpoints Session InOrder Progress.
Open Scope Z_scope.

(** ** The handshake *)

Section first_transfer.
Context {PubKey PrvKey : Type} `{!CryptoPrims PubKey PrvKey} `{!CryptoLaws PubKey PrvKey}.
Implicit Types (a b c : Conn PubKey PrvKey) (st : Stream).

(** The instants of the handshake and the addresses the datagrams come from. *)
Record handshake := mkHandshake {
  hs_flush : Z; hs_listen : Z; hs_reply : Z; hs_done : Z;
  hs_client : AddrPort; hs_server : AddrPort; hs_source : AddrPort;
}.

(** [lA] dials [lB] and opens stream [sid]: the stream and the two connections
    after the handshake.  A [*Conn] is filed in the table of its listener. *)
Definition connect (write : AddrPort -> bytes -> option go_error) (lA lB : Listener PubKey PrvKey) (epA epB : PrvKey) (key : go_error + PrvKey)
    (sid : Z) (w : handshake) : go (option (Stream * Conn PubKey PrvKey * Conn PubKey PrvKey)) :=
  '(lA, r) ← Dial lA (inr epA) (hs_server w);
  match r with
  | inl _ => mret None
  | inr a =>
      '(a, st) ← conn_Stream a sid;
      '(a, (ds, _)) ← Conn.Flush write (l_cfg lA) a st (hs_flush w);
      match ds with
      | [enc] =>
          '(lB, r) ← Listen lB (inr epB) (inr (enc, hs_client w)) (hs_listen w);
          match r with
          | inr (Some (ck, sB)) =>
              b ← load_conn lB ck;
              '(b, (ds, _)) ← Conn.Flush write (l_cfg lB) b sB (hs_reply w);
              match ds with
              | [reply] =>
                  lA ← store_conn lA (connId a) a;
                  '(lA, r) ← Listen lA key (inr (reply, hs_source w)) (hs_done w);
                  match r with
                  | inr (Some (ck, _)) => a ← load_conn lA ck; mret (Some (st, a, b))
                  | _ => mret None
                  end
              | _ => mret None
              end
          | _ => mret None
          end
      | _ => mret None
      end
  end.

(** Two listeners that can connect: no error of the socket, the same MTU, no
    connection with the key of the dialling end yet. *)
Record connectable (write : AddrPort -> bytes -> option go_error) (lA lB : Listener PubKey PrvKey) (epA epB : PrvKey) (secret : bytes)
    (w : handshake) : Prop := {
  cn_write to x : write to x = None;
  cn_tables : table_ok lA /\ table_ok lB;
  cn_keyLog : l_keyLog lA = false /\ l_keyLog lB = false;
  cn_mtu : l_mtu (l_cfg lA) = l_mtu (l_cfg lB) /\ mtu_ok (l_mtu (l_cfg lA));
  cn_new : let cid := key_conn_id (public_key epA) in al_get cid (conns lA) = None /\ al_get cid (conns lB) = None;
  cn_secret : ecdh epB (public_key epA) = inr secret;
  cn_times : 0 <= hs_flush w /\ 0 <= hs_reply w /\ is_u64 (hs_done w);
}.

Definition snd0 : SendBuffer (LinkedMap Z SendInfo) := NewSendBuffer sndBufferCapacity.

(** The stream of an application that writes [q] to stream [sid]. *)
Definition writes (sid : Z) (q : bytes) : Z -> Z -> Z := written_stream (extend no_bytes sid q) 0.

Lemma writes_bytes sid q : q = read_at (writes sid q sid) 0 (length q).
Proof. exact (extend_bytes _ no_bytes _ _ (written_stream_continues (extend no_bytes sid q) 0)). Qed.

(** A write that fits an empty send buffer is taken whole. *)
Lemma write_whole c st (q : bytes) :
  c_snd c = snd0 -> IsClosed st = false -> q <> [] -> len q <= sndBufferCapacity ->
  exists sb, Write None c st q = Ok (set_snd c sb, (len q, None)) /\ idle None (writes (st_streamID st) q) sb (st_streamID st) 0 q.
Proof.
  intros Hsnd Hop Hq Hfit. set (sid := st_streamID st). assert (0 < len q) as Hpos by (destruct q; [done | simpl; lia]).
  unfold Write. rewrite Hop. unfold IsCloseRequested. rewrite Hsnd. change (Snd.GetOffsetClosedAt snd0 (st_streamID st)) with (None : option Z).
  rewrite bool_decide_false by (by intros [? ?]). cbn [orb]. rewrite decide_False by lia. fold sid.
  assert (snd_inv (writes sid q) snd0) as Hi by (by apply NewSendBuffer_inv).
  destruct (QueueData_spec (writes sid q) snd0 sid q Hi) as (sb & status & E & Hi' & _ & _ & Hqu & Hse & Hfl & _ & Hno & Hfull).
  - change (sb_capacity snd0 - sb_size snd0) with (sndBufferCapacity - 0). rewrite Z.min_l by lia.
    rewrite take_ge by lia. rewrite (writes_bytes sid q) at 1. f_equal. lia.
  - change (sent_of snd0 sid + len (queue_of snd0 sid)) with 0. change sndBufferCapacity with 16777216 in Hfit. lia.
  - change (sb_capacity snd0 - sb_size snd0) with (sndBufferCapacity - 0) in *. rewrite Z.min_l in E, Hqu, Hfull by lia. rewrite E. cbn [mbind go_bind].
    assert (status = InsertStatusOk) as -> by (destruct status; [done | | ]; exfalso; naive_solver lia).
    rewrite decide_False by naive_solver. exists sb. split; [done|].
    rewrite take_ge in Hqu by lia. constructor; try done.
    eapply QueueData_plain, E. by split.
Qed.

Lemma rcv0_caught_up sid : caught_up rcv0 sid 0.
Proof. constructor; try done; apply smi_new_spec. Qed.

Lemma first_end_b f g cid addr (epB : PrvKey) (idA epA : PubKey) secret x m nw sid :
  streams_ok m -> all_open m -> meas_inv x -> is_u64 nw ->
  end_b cid secret sid f g false (set_flow (set_counter (answering cid addr epB idA epA secret x m rcv0) true 1 0) 0 rcvBufferCapacity nw) 0 [].
Proof.
  intros Hm Hop Hx Hnw. constructor; try done.
  - by right.
  - apply rcv0_caught_up.
  - constructor; try done. intros y. apply lmi_new_spec.
Qed.

(** The first flush with nothing written, and the reply to it, leave the send
    buffer empty. *)
Lemma first_flush_empty sid t mtu now sb' off close : ReadyToSend snd0 sid t None mtu now <> Ok (sb', (Some [], off, close)).
Proof. done. Qed.

Lemma first_ack_empty r : AcknowledgeRange snd0 (received_ack first_ack) = Ok r -> r = (snd0, (AckNoStream, 0)).
Proof. by intros [= <-]. Qed.

(** What the dialling end is after the handshake and the write. *)
Lemma first_ready (cfgA cfgB : ListenerCfg PrvKey) f cid secret sid a b cl (q : bytes) sb :
  mtu_ok (l_mtu cfgA) -> mtu_ok (l_mtu cfgB) -> linked cid secret true a -> conn_inv f f a -> c_rcv a = rcv0 ->
  snCrypto a = 1 -> epochCryptoSnd a = 0 -> epochCryptoRcv a = 0 -> dataInFlight a = 0 -> rcvWndSize a = rcvBufferCapacity ->
  is_u64 (nextWriteTime a) -> idle cl (writes sid q) sb sid 0 q -> len q + l_mtu cfgA <= rcvBufferCapacity ->
  ends_at cl (len q) -> (is_Some cl -> q <> []) ->
  (forall f g, end_b cid secret sid f g false b 0 []) -> c_rcv b = rcv0 -> ctr b = 1 -> epochCryptoSnd b = 0 -> epochCryptoRcv b = 0 ->
  dataInFlight b = 0 -> rcvWndSize b = rcvBufferCapacity ->
  ready cid secret sid cl cfgA cfgB (writes sid q) f f true (set_snd a sb) b 0 q (2 ^ 47).
Proof.
  intros HmA HmB Hl Hinv Er Es Ee Ee' Ed Ew Ht Hidle Hfit Hend Hmore Hb Fr Fs Fe Fe' Fd Fw. unfold mtu_ok in *.
  change rcvBufferCapacity with (16 * 1024 * 1024) in *.
  assert (to_int (16 * 1024 * 1024) = 16 * 1024 * 1024) as Ei by (vm_compute; reflexivity).
  constructor; [| apply Hb | lia| | done | done].
  - constructor; try done; [|by apply linked_snd | cbn; by rewrite Er]. destruct Hinv as [_ _ Hx Hs].
    constructor; try done; [apply Hidle | cbn; rewrite Er; by apply NewReceiveBuffer_exact].
  - constructor; cbn [set_snd dataInFlight rcvWndSize epochCryptoSnd epochCryptoRcv]; rewrite ?Ed, ?Ew, ?Fr, ?Fd, ?Fw, ?Ei; try done; try lia.
    + rewrite Fs. unfold ctr. cbn. rewrite Es, Ee. change (counter 1 0) with 1. lia.
    + unfold int_ok. lia.
Qed.

(** The two ends after the handshake: they are ready to transfer what is written. *)
Lemma connected write (lA lB : Listener PubKey PrvKey) epA epB key secret sid w :
  connectable write lA lB epA epB secret w -> is_u32 sid -> let cid := key_conn_id (public_key epA) in
  exists st a b, connect write lA lB epA epB key sid w = Ok (Some (st, a, b)) /\ st = mkStream sid 0 /\ c_snd a = snd0 /\
    remoteAddr a = hs_server w /\ remoteAddr b = hs_client w /\
    forall cl q sb, idle cl (writes sid q) sb sid 0 q -> ends_at cl (len q) -> (is_Some cl -> q <> []) ->
      len q + l_mtu (l_cfg lA) <= rcvBufferCapacity ->
      ready cid secret sid cl (l_cfg lA) (l_cfg lB) (writes sid q) (fun _ _ => 0) (fun _ _ => 0) true (set_snd a sb) b 0 q (2 ^ 47).
Proof.
  intros [Hw [HA HB] [KA KB] [Emtu Hm] [NA NB] Hs (H1 & H3 & H4)] Hsid cid. fold cid in NA, NB.
  destruct (Dial_spec lA epA (hs_server w) HA KA NA) as (lA1 & HD & HtA1 & [EcA _] & HinA). fold cid in HD, HinA.
  destruct (fresh_stream (PubKey := PubKey) cid (hs_server w) epA sid) as (m & Hst & Hok). fold snd0 in Hst.
  set (f := fun _ _ : Z => 0). assert (snd_inv f snd0) as Hf1 by (by apply NewSendBuffer_inv).
  destruct (first_flush write Hw f (l_cfg lA) cid (hs_server w) epA m snd0 (mkStream sid 0) (hs_flush w) Hm H1 Hf1 eq_refl)
    as (sb' & nw1 & pc1 & off & close & Hfl & Hnw1 & [->|E]); [|by apply first_flush_empty in E].
  destruct (first_listen lB cid epB (public_key (prvKeyId (l_cfg lA))) (public_key epA) secret (hs_client w) (l_mtu (l_cfg lA)) (hs_listen w))
    as (lB' & sB & x & mB & HLB & HlB' & EcB & HsB & HokB & HopB & Hx & HinB); [done..|].
  destruct (reply_flush write Hw (l_cfg lB) cid (hs_client w) epB (public_key (prvKeyId (l_cfg lA))) (public_key epA) secret x mB sB (hs_reply w))
    as (nw2 & pc2 & Hfl2 & Hnw2); [by rewrite <- Emtu | done | done|].
  set (a3 := set_flow (set_counter (dialled cid (hs_server w) epA m snd0) true 1 0) 0 rcvBufferCapacity nw1) in *.
  destruct (table_put lA1 cid a3 HtA1 eq_refl ltac:(by eexists)) as (mA & Hput & HtA2 & _ & HinA2).
  destruct (reply_listen f (set_connMap lA1 mA) key cid a3 epA (public_key (prvKeyId (l_cfg lB))) (public_key epB) secret (hs_source w)
    (st_streamID sB) (hs_done w)) as (lA' & sA & a4 & HLA & HtA' & HinA4 & Hdone & Hrep & Hinv);
    [done | done | done | apply key_conn_id_u64 | by apply ecdh_agree | by rewrite HsB; widths | done | | done | done|].
  { constructor; [done | by apply NewReceiveBuffer_exact | apply meas_inv_new | done]. }
  pose proof (replied_linked _ _ _ Hrep Hdone ltac:(split; by widths) eq_refl) as Hl4.
  destruct Hrep as (_ & E2 & _ & _ & E5 & E6 & _ & E8 & E9 & E10 & E11 & r & t & Hack & Ed).
  apply first_ack_empty in Hack. injection Hack as Esnd -> _. specialize (Ed eq_refl).
  set (b1 := set_flow (set_counter (answering cid (hs_client w) epB (public_key (prvKeyId (l_cfg lA))) (public_key epA) secret x mB rcv0) true 1 0)
    0 rcvBufferCapacity nw2) in *.
  exists (mkStream sid 0), a4, b1. split; [|split; [done|]; split; [done|]; split; [exact E2|]; split; [done|]].
  - unfold connect. rewrite HD. cbn [mbind go_bind]. rewrite Hst. cbn [mbind go_bind]. rewrite EcA, Hfl. cbn [mbind go_bind].
    rewrite HLB. cbn [mbind go_bind]. rewrite (load_conn_ok lB' cid _ HlB' HinB). cbn [mbind go_bind]. rewrite EcB, Hfl2. cbn [mbind go_bind].
    unfold store_conn. change (connId a3) with cid. rewrite Hput. cbn [mbind go_bind mret go_ret]. rewrite HLA. cbn [mbind go_bind].
    by rewrite (load_conn_ok lA' cid _ HtA' HinA4).
  - intros cl q sb Hidle Hend Hmore Hfit. pose proof Hm as HmB. rewrite Emtu in HmB.
    eapply first_ready; try done; [by rewrite E10 | intros f' g'; by apply first_end_b].
Qed.

Lemma window_fits write (lA lB : Listener PubKey PrvKey) epA epB secret w (q : bytes) :
  connectable write lA lB epA epB secret w -> len q + l_mtu (l_cfg lA) <= rcvBufferCapacity -> len q <= sndBufferCapacity.
Proof. intros Hcn. destruct (cn_mtu _ _ _ _ _ _ _ Hcn) as [_ Hm]. unfold mtu_ok in Hm. change rcvBufferCapacity with sndBufferCapacity. lia. Qed.

(** The transfer from there. *)
Lemma transfer_ends write (lA lB : Listener PubKey PrvKey) epA epB secret sid w cl (q : bytes) a sb b sched :
  let cid := key_conn_id (public_key epA) in let f := fun _ _ : Z => 0 in
  connectable write lA lB epA epB secret w -> is_u32 sid ->
  ready cid secret sid cl (l_cfg lA) (l_cfg lB) (writes sid q) f f true (set_snd a sb) b 0 q (2 ^ 47) ->
  Z.of_nat (length sched) <= 2 ^ 47 -> len q <= packet_room (l_mtu (l_cfg lA)) * deliveries sched -> patient 0 sched = true ->
  on_schedule write sid (l_cfg lA) (l_cfg lB) sched (set_snd a sb) b (mkStream sid 0) = true ->
  exists a' b', transfer write sid (l_cfg lA) (l_cfg lB) sched (set_snd a sb) b (mkStream sid 0) = Ok (Some (a', b', q, bool_decide (is_Some cl))) /\
    finished cid secret sid cl (l_cfg lA) (l_cfg lB) (writes sid q) f f true a' b' sched.
Proof.
  intros cid f Hcn Hsid Hready Hlen Hdel Hpat Hsch. destruct Hcn as [Hw _ _ [Emtu Hm] _ Hs _]. pose proof Hm as HmB. rewrite Emtu in HmB.
  assert (len secret = 32) as Hsec by (by eapply ecdh_length).
  apply (transfer_between write Hw cid secret Hsec sid Hsid cl (l_cfg lA) (l_cfg lB) Hm HmB (writes sid q) f f true
    (mkStream sid 0) sched eq_refl (set_snd a sb) b 0 None q (2 ^ 47)); try done.
  pose proof (room_positive (l_mtu (l_cfg lA)) 0 Hm) as [Hr _]. apply Z.lt_succ_r, Z.div_lt_upper_bound; lia.
Qed.
End first_transfer.

(** ** Properties *)

(** C4. A transfer ends: a listener dials another and opens a stream, which after
    the handshake takes a write of up to a receive window less one packet.  Then
    rounds of [Flush], reception, [Read], [Flush] of the acknowledgement and its
    reception follow.  The network may lose the packet or the acknowledgement of
    a round, but not more often in a row than a packet may be sent again; pacing
    and timers are respected.  Once enough rounds have succeeded to carry the
    bytes, exactly the written bytes are read, in order and each once, the queue
    is empty and nothing is in flight.  No step fails or panics. *)
Theorem transfer_completes {PubKey PrvKey} `{!CryptoPrims PubKey PrvKey} `{!CryptoLaws PubKey PrvKey}
    (write : AddrPort -> bytes -> option go_error) (lA lB : Listener PubKey PrvKey) (epA epB : PrvKey) (key : go_error + PrvKey)
    (secret : bytes) (sid : Z) (q : bytes) (w : handshake) :
  connectable write lA lB epA epB secret w -> is_u32 sid -> q <> [] -> len q + l_mtu (l_cfg lA) <= rcvBufferCapacity ->
  exists st a b a', connect write lA lB epA epB key sid w = Ok (Some (st, a, b)) /\ Write None a st q = Ok (a', (len q, None)) /\
    forall sched, Z.of_nat (length sched) <= 2 ^ 47 -> len q <= packet_room (l_mtu (l_cfg lA)) * deliveries sched -> patient 0 sched = true ->
      on_schedule write sid (l_cfg lA) (l_cfg lB) sched a' b st = true ->
      exists a2 b2, transfer write sid (l_cfg lA) (l_cfg lB) sched a' b st = Ok (Some (a2, b2, q, false)) /\
        queue_of (c_snd a2) sid = [] /\ flight_of (c_snd a2) sid = [].
Proof.
  intros Hcn Hsid Hq Hfit. destruct (connected write lA lB epA epB key secret sid w Hcn Hsid) as (st & a & b & HC & -> & Esnd & _ & _ & Hready).
  destruct (write_whole a (mkStream sid 0) q Esnd eq_refl Hq ltac:(eapply window_fits; [exact Hcn | exact Hfit])) as (sb & HW & Hidle).
  exists (mkStream sid 0), a, b, (set_snd a sb). split; [done|]. split; [done|]. intros sched Hlen Hdel Hpat Hsch.
  destruct (transfer_ends write lA lB epA epB secret sid w None q a sb b sched Hcn Hsid (Hready None q sb Hidle ltac:(by left) ltac:(by intros [? ?]) Hfit)
    Hlen Hdel Hpat Hsch) as (a2 & b2 & HT & k & m & [[_ _ _ Hidle' _] _ _ _ _ _]).
  exists a2, b2. split; [exact HT|]. by destruct Hidle'.
Qed.

(** C5. A stream ends: as above, and the application closes the stream behind what
    it wrote.  Then exactly the written bytes are read, in order and each once,
    and the read that returns the last of them, and no read before, reports the
    end of the stream; from the arrival of the last packet on the stream is
    closed for reading at the other end, and closed for writing too. *)
Theorem close_completes {PubKey PrvKey} `{!CryptoPrims PubKey PrvKey} `{!CryptoLaws PubKey PrvKey}
    (write : AddrPort -> bytes -> option go_error) (lA lB : Listener PubKey PrvKey) (epA epB : PrvKey) (key : go_error + PrvKey)
    (secret : bytes) (sid : Z) (q : bytes) (w : handshake) :
  connectable write lA lB epA epB secret w -> is_u32 sid -> q <> [] -> len q + l_mtu (l_cfg lA) <= rcvBufferCapacity ->
  exists st a b a', connect write lA lB epA epB key sid w = Ok (Some (st, a, b)) /\ Write None a st q = Ok (a', (len q, None)) /\
    forall sched, Z.of_nat (length sched) <= 2 ^ 47 -> len q <= packet_room (l_mtu (l_cfg lA)) * deliveries sched -> patient 0 sched = true ->
      on_schedule write sid (l_cfg lA) (l_cfg lB) sched (Streams.Close a' st) b st = true ->
      exists a2 b2 t x, transfer write sid (l_cfg lA) (l_cfg lB) sched (Streams.Close a' st) b st = Ok (Some (a2, b2, q, true)) /\
        (t, x) ∈ sched /\ ended sid b2 (t_arrive t).
Proof.
  intros Hcn Hsid Hq Hfit. destruct (connected write lA lB epA epB key secret sid w Hcn Hsid) as (st & a & b & HC & -> & Esnd & _ & _ & Hready).
  destruct (write_whole a (mkStream sid 0) q Esnd eq_refl Hq ltac:(eapply window_fits; [exact Hcn | exact Hfit])) as (sb & HW & Hidle).
  exists (mkStream sid 0), a, b, (set_snd a sb). split; [done|]. split; [done|]. intros sched Hlen Hdel Hpat Hsch.
  apply close_idle in Hidle. rewrite Z.add_0_l in Hidle.
  destruct (transfer_ends write lA lB epA epB secret sid w (Some (len q)) q a (Snd.Close sb sid) b sched Hcn Hsid
    (Hready (Some (len q)) q (Snd.Close sb sid) Hidle ltac:(by right) ltac:(done) Hfit) Hlen Hdel Hpat Hsch) as (a2 & b2 & HT & t & x & Hin & He).
  by exists a2, b2, t, x.
Qed.

(** ** Witnesses *)

Definition handshake7 : handshake := mkHandshake 1000 2000 3000 4000 addr7000 addr9000 addr9000.

(** Four thousand bytes on stream 7: three packets. *)
Definition text4000 : bytes := repeat 65 4000.

(** The ends after the handshake and the write. *)
Definition connected7 : Stream * Conn bool bool * Conn bool bool :=
  default (mkStream 0 0, responder77, responder77) (ok_or None (connect discard client server true false (inr true) 7 handshake7)).
Definition written7 : Conn bool bool := (ok_or (connected7.1.2, (0, None)) (Write None connected7.1.2 connected7.1.1 text4000)).1.

(** A round every ten seconds. *)
Definition every_ten_seconds (xs : list fate) : list (instants * fate) :=
  zip_with (fun r x => let t := r * 10 ^ 10 in (mkInstants t (t + 10 ^ 6) (t + 2 * 10 ^ 6) (t + 3 * 10 ^ 6), x)) (seqZ 1 (len xs)) xs.

(** The first packet is lost twice and its acknowledgement once; the third is
    acknowledged at the second attempt. *)
Definition losses : list fate := [DataLost; DataLost; AckLost; Delivered; Delivered; AckLost; Delivered].

Lemma client_server_connectable : connectable discard client server true false (toy_key true) handshake7.
Proof. constructor; try done. split; apply empty_table. Qed.

Lemma is_u32_7 : is_u32 7.
Proof. done. Qed.

Lemma text4000_some : text4000 <> [].
Proof. discriminate. Qed.

Lemma text4000_fits : len text4000 + l_mtu (l_cfg client) <= rcvBufferCapacity.
Proof. compute_done. Qed.

Lemma connected7_eq st a b :
  connect discard client server true false (inr true) 7 handshake7 = Ok (Some (st, a, b)) -> connected7 = (st, a, b).
Proof. intros E. unfold connected7. by rewrite E. Qed.

Lemma written7_eq st a b a' n :
  connected7 = (st, a, b) -> Write None a st text4000 = Ok (a', (n, None)) -> written7 = a'.
Proof. intros E W. unfold written7. rewrite E. cbn [fst snd]. by rewrite W. Qed.

Lemma transfer_completes_witness :
  exists a2 b2, transfer discard 7 (l_cfg client) (l_cfg server) (every_ten_seconds losses) written7 connected7.2 connected7.1.1 =
      Ok (Some (a2, b2, text4000, false)) /\ queue_of (c_snd a2) 7 = [] /\ flight_of (c_snd a2) 7 = [].
Proof.
  assert (on_schedule discard 7 (l_cfg client) (l_cfg server) (every_ten_seconds losses) written7 connected7.2 connected7.1.1 = true) as Hs
    by (vm_compute; reflexivity).
  destruct (transfer_completes discard client server true false (inr true) (toy_key true) 7 text4000 handshake7
    client_server_connectable is_u32_7 text4000_some text4000_fits) as (st & a & b & a' & HC & HW & HT).
  apply connected7_eq in HC. pose proof (written7_eq _ _ _ _ _ HC HW) as Ew. rewrite Ew, HC in *.
  apply HT; [vm_compute; discriminate | vm_compute; discriminate | reflexivity | exact Hs].
Defined.

Lemma close_completes_witness :
  exists a2 b2 t x, transfer discard 7 (l_cfg client) (l_cfg server) (every_ten_seconds losses) (Streams.Close written7 connected7.1.1) connected7.2
      connected7.1.1 = Ok (Some (a2, b2, text4000, true)) /\ (t, x) ∈ every_ten_seconds losses /\ ended 7 b2 (t_arrive t).
Proof.
  assert (on_schedule discard 7 (l_cfg client) (l_cfg server) (every_ten_seconds losses) (Streams.Close written7 connected7.1.1) connected7.2
    connected7.1.1 = true) as Hs by (vm_compute; reflexivity).
  destruct (close_completes discard client server true false (inr true) (toy_key true) 7 text4000 handshake7
    client_server_connectable is_u32_7 text4000_some text4000_fits) as (st & a & b & a' & HC & HW & HT).
  apply connected7_eq in HC. pose proof (written7_eq _ _ _ _ _ HC HW) as Ew. rewrite Ew, HC in *.
  apply HT; [vm_compute; discriminate | vm_compute; discriminate | reflexivity | exact Hs].
Defined.

(** The same two runs, evaluated: three rounds of seven carry the text.  The run
    with [Close] ends where the end of the stream is read, before the last
    acknowledgement has arrived. *)
Theorem lossy_transfer :
  patient 0 (every_ten_seconds losses) = true /\ deliveries (every_ten_seconds losses) = 3 /\
  forall close : bool, let a := if close then Streams.Close written7 connected7.1.1 else written7 in
    match transfer discard 7 (l_cfg client) (l_cfg server) (every_ten_seconds losses) a connected7.2 connected7.1.1 with
    | Ok (Some (a, b, data, eof)) => data = text4000 /\ eof = close /\ settled 7 a = negb close
    | _ => False
    end.
Proof. split; [reflexivity|]. split; [reflexivity|]. intros []; vm_compute; auto. Qed.
