(* ===== verification/EarlyData.v ===== *)
(** * EarlyData: a session that is encrypted from its first packet

    [DialWithCrypto] knows the identity key of the other end, and so the first
    message carries the first bytes that the application has written.  Here the
    handshake is followed through with those bytes: they are read before the
    handshake is complete, and the rest follows in rounds of [Progress]. *)

From stdpp Require Import prelude gmap list numbers strings relations.
From S2P Require Import Prelude Wire Proto Measurement Interfaces LinkedMap SortedMap Rcv Crypto Snd Delivery Conn Streams Inversion Flow Listener Scheduler Endpoints Session InOrder Progress Transfer.
Open Scope Z_scope.

Section early_data.
Context {PubKey PrvKey : Type} `{!CryptoPrims PubKey PrvKey} `{!CryptoLaws PubKey PrvKey}.
Implicit Types (a b c : Conn PubKey PrvKey) (st : Stream) (l : Listener PubKey PrvKey).

(** [lA] dials [lB], whose identity key is [idB], opens stream [sid], writes [q]
    and flushes; [lB] listens, reads the stream and replies.  The stream, the two
    connections after the handshake, and what was read. *)
Definition connect_crypto (write : AddrPort -> bytes -> option go_error) (lA lB : Listener PubKey PrvKey) (epA epB : PrvKey)
    (key : go_error + PrvKey) (idB : PubKey) (sid : Z) (q : bytes) (w : handshake)
    : go (option (Stream * Conn PubKey PrvKey * Conn PubKey PrvKey * bytes)) :=
  '(lA, r) ← DialWithCrypto lA (inr epA) (hs_server w) (Some idB);
  match r with
  | inl _ => mret None
  | inr a =>
      '(a, st) ← conn_Stream a sid;
      '(a, _) ← Write None a st q;
      '(a, (ds, _)) ← Conn.Flush write (l_cfg lA) a st (hs_flush w);
      match ds with
      | [enc] =>
          '(lB, r) ← Listen lB (inr epB) (inr (enc, hs_client w)) (hs_listen w);
          match r with
          | inr (Some (ck, sB)) =>
              b ← load_conn lB ck;
              '(b, sB, (data, _)) ← Read b sB;
              '(b, (ds, _)) ← Conn.Flush write (l_cfg lB) b sB (hs_reply w);
              match ds with
              | [reply] =>
                  lA ← store_conn lA (connId a) a;
                  '(lA, r) ← Listen lA key (inr (reply, hs_source w)) (hs_done w);
                  match r with
                  | inr (Some (ck, _)) => a ← load_conn lA ck; mret (Some (st, a, b, default [] data))
                  | _ => mret None
                  end
              | _ => mret None
              end
          | _ => mret None
          end
      | _ => mret None
      end
  end.

(** The number of bytes that the first message carries. *)
Definition early (mtu : Z) (q : bytes) : Z := segment_size InitCryptoSnd mtu 0 q.

Lemma early_room mtu : mtu_ok mtu -> 0 < max_data InitCryptoSnd None mtu 0 < 2 ^ 16.
Proof.
  intros Hm. unfold mtu_ok, max_data in *. rewrite decide_False by done.
  change (calcCryptoOverheadWithData InitCryptoSnd None 0) with 97. lia.
Qed.

Lemma early_bounds mtu (q : bytes) : mtu_ok mtu -> q <> [] -> 0 < early mtu q <= len q /\ early mtu q <= max_data InitCryptoSnd None mtu 0.
Proof.
  intros Hm Hq. pose proof (early_room mtu Hm). assert (0 < len q) by (destruct q; [done | simpl; lia]).
  unfold early, segment_size. lia.
Qed.

Context (write : AddrPort -> bytes -> option go_error) (Hwrite : forall to d, write to d = None).
Context (sid : Z) (Hsid : is_u32 sid) (f : Z -> Z -> Z).

(** ** The first message *)

(** The dialled connection with streams [m] and send buffer [sb]. *)
Definition dialling (cid : Z) (addr : AddrPort) (epA : PrvKey) (idB : PubKey) m sb : Conn PubKey PrvKey :=
  set_snd (set_streams (fresh_conn cid addr epA (Some idB) None true true) m) sb.

(** The message with bytes [d]. *)
Definition early_payload (d : bytes) : bytes := payload_bytes (data_header sid false 0) (Some d).
Definition early_message (secret : bytes) (epA : PrvKey) (idA : PubKey) (mtu : Z) (d : bytes) : bytes :=
  packet_bytes 0 0 true secret (init_crypto_snd_header (public_key epA) idA) (padded (fill_len mtu (early_payload d)) (early_payload d)).

Lemma early_fill mtu (d : bytes) : mtu_ok mtu -> len d <= max_data InitCryptoSnd None mtu 0 -> 0 <= fill_len mtu (early_payload d) < 2 ^ 16.
Proof.
  intros Hm Hd. pose proof (Conn.packet_room InitCryptoSnd (data_header sid false 0) (Some d) mtu ltac:(done) Hd) as Hr.
  fold (early_payload d) in Hr. pose proof (payload_bytes_length (data_header sid false 0) (Some d)) as H8. fold (early_payload d) in H8.
  cbn [crypto_part] in Hr. unfold fill_len, mtu_ok in *.
  split; [lia|]. change (MinInitCryptoSndSizeHdr + FooterDataSize + MsgInitFillLenSize) with 89. lia.
Qed.

Lemma early_flush (cfg : ListenerCfg PrvKey) cid addr epA idB s0 m sb (q : bytes) st now :
  mtu_ok (l_mtu cfg) -> 0 <= now -> ecdh epA idB = inr s0 -> idle None f sb sid 0 q -> q <> [] -> st_streamID st = sid ->
  let n := early (l_mtu cfg) q in let d := take (Z.to_nat n) q in
  exists sb' nw r, Conn.Flush write cfg (dialling cid addr epA idB m sb) st now
    = Ok (set_flow (set_counter (dialling cid addr epA idB m sb') true 1 0) n rcvBufferCapacity nw,
          ([early_message s0 epA (public_key (prvKeyId cfg)) (l_mtu cfg) d], r)) /\ is_u64 nw /\
    outstanding None f sb' sid 0 (newSendInfo d now false) (drop (Z.to_nat n) q).
Proof.
  intros Hm Hnow Hs0 Hidle Hq Hst n d. pose proof (early_bounds (l_mtu cfg) q Hm Hq) as [Hn Hmax]. fold n in Hn, Hmax.
  assert (len d = n) as Hd by (unfold d; rewrite length_take; lia). pose proof (early_room _ Hm) as Hroom.
  destruct (send_segment None f sb sid 0 q InitCryptoSnd (l_mtu cfg) now Hidle Hq Hm ltac:(lia)) as (sb' & E & Hout).
  change (segment_size InitCryptoSnd (l_mtu cfg) 0 q) with n in E, Hout. fold d in E, Hout. cbn [closes] in E.
  unfold Conn.Flush. set (c := dialling cid addr epA idB m).
  change (GetSndAck (c_rcv (c sb))) with (NewReceiveBuffer rcvBufferCapacity : ReceiveBuffer (SortedMap RcvValue), None : option Ack).
  cbv beta iota zeta. cbn [fmap option_fmap option_map].
  change (set_rcv (c sb) (NewReceiveBuffer rcvBufferCapacity)) with (c sb).
  change (nextWriteTime (c sb)) with 0. change (dataInFlight (c sb)) with 0. change (rcvWndSize (c sb)) with rcvBufferCapacity.
  change (msgType (c sb)) with InitCryptoSnd. change (c_snd (c sb)) with sb. rewrite decide_False by lia.
  pose proof Hm as Hm'. unfold mtu_ok in Hm'. rewrite decide_False; cycle 1.
  { rewrite i64_small by lia. change (to_int rcvBufferCapacity) with (16 * 1024 * 1024). lia. }
  rewrite Hst, nothing_to_resend; [|intros x; apply (si_wf _ _ (sstream_inv f sb x (id_inv _ _ _ _ _ _ Hidle))) | apply Hidle].
  cbn [mbind go_bind nothing]. change (set_snd (c sb) sb) with (c sb). unfold flush_send.
  change (isHandshakeDoneOnRcv (c sb) || negb (isInitSentOnSnd (c sb))) with true. change (c_snd (c sb)) with sb. cbv iota zeta.
  rewrite Hst, E. cbn [mbind go_bind]. change (set_snd (c sb) sb') with (c sb'). unfold sendPacket. rewrite Hst.
  assert (encode cfg (c sb') (data_header sid false 0) (Some d) InitCryptoSnd
    = Ok (set_counter (c sb') true 1 0, inr (early_message s0 epA (public_key (prvKeyId cfg)) (l_mtu cfg) d))) as Henc.
  { apply encode_first; [|done|done]. unfold encode_msg. rewrite EncodePayload_spec. cbn [mbind go_bind].
    cbn [prvKeyEpSnd pubKeyIdRcv snCrypto fresh_conn c dialling set_snd set_streams]. fold (early_payload d).
    rewrite (encryptInitCryptoSnd_spec _ _ _ s0); [done | done | apply payload_bytes_length | apply early_fill; [done | lia]]. }
  unfold data_header in Henc. rewrite Henc. cbn [mbind go_bind]. rewrite Hwrite. cbv zeta.
  match goal with |- context [calcPacing ?y ?z] => destruct (calcPacing_total y z) as [pc ->] end. cbn [mbind go_bind mret go_ret].
  change (dataInFlight (set_counter (c sb') true 1 0)) with 0. rewrite Hd, i64_small by lia. eexists sb', _, _. split; [done|].
  split; [apply u64_range | exact Hout].
Qed.

(** ** The responder *)

Definition answering_early cid addr epB (idA epA : PubKey) secret x m rb : Conn PubKey PrvKey :=
  set_rcv (set_streams (set_meas (responder cid addr epB idA epA true secret) x) m) rb.

(** The message is taken, and the stream that [Listen] returns has its bytes. *)
Lemma early_listen h l (epA epB : PrvKey) (idA : PubKey) s0 secret (d : bytes) addr now :
  let cid := key_conn_id (public_key epA) in let mtu := l_mtu (l_cfg l) in
  table_ok l -> l_keyLog l = false -> mtu_ok mtu -> al_get cid (conns l) = None ->
  ecdh (prvKeyId (l_cfg l)) (public_key epA) = inr s0 -> ecdh epB (public_key epA) = inr secret ->
  0 < len d <= max_data InitCryptoSnd None mtu 0 -> d = read_at (f sid) 0 (length d) -> is_u64 now ->
  exists l' s x m rb1 rb2, let b := answering_early cid addr epB idA (public_key epA) secret x m in
    Listen l (inr epB) (inr (early_message s0 epA idA mtu d, addr)) now = Ok (l', inr (Some (cid, s))) /\
    table_ok l' /\ l_cfg l' = l_cfg l /\ (cid, b rb1) ∈ conns l' /\ st_streamID s = sid /\
    Read (b rb1) s = Ok (b rb2, s, (Some d, None)) /\ conn_inv h f (b rb2) /\ streams_ok m /\ all_open m /\
    caught_up rb2 sid (len d) /\ ackList rb2 = [mkAck sid 0 (len d) 0] /\ rb_size rb2 = 0 /\ capacity rb2 = rcvBufferCapacity.
Proof.
  intros cid mtu Hl Hk Hm Hn Hs0 Hs Hd Hbytes Hnow. pose proof (early_room mtu Hm) as Hroom.
  set (b0 := responder cid addr epB idA (public_key epA) true secret). set (enc := early_message s0 epA idA mtu d).
  destruct (crypto_init_received l cid (prvKeyId (l_cfg l)) epA epB idA s0 secret 0 (early_payload d) (make_bytes (l_mtu (l_cfg l) - len enc)) addr mtu)
    as (l1 & Hdec & Hl1 & Ho1 & Hin1); try done; [apply payload_bytes_length | by apply early_fill; [|lia]|].
  fold b0 in Hdec, Hin1. change (packet_bytes 0 0 true s0 _ _) with enc in Hdec.
  assert (conn_inv h f b0) as Hb0.
  { constructor; [by apply NewSendBuffer_inv | by apply NewReceiveBuffer_exact | apply meas_inv_new | apply no_streams_ok]. }
  apply (conn_inv_read h f b0 now) in Hb0. destruct (note_read_meas b0 now) as [x Hx]. rewrite Hx in Hb0.
  destruct (packet_read sid h f (set_meas b0 x) 0 d false (len enc) now Hb0)
    as (s & m & rb1 & rb2 & Edec & Hid & Hok & Hopen & Hread & Hcu & Hack & Hs2 & Hc2); try done; try lia.
  { apply rcv0_caught_up. }
  { intros e He. change (e ∈ lm_elems NewLinkedMap) in He. destruct (lm_new_ok (K := Z) (V := Stream)) as [_ Hn0]. rewrite Hn0 in He. by apply not_elem_of_nil in He. }
  assert (Conn.decode (note_read b0 now) (data_header sid false 0) (Some d) (len enc) now
    = Ok (set_rcv (set_streams (set_meas b0 x) m) rb1, s)) as Hd1 by (by rewrite Hx).
  destruct (listen_decoded l (inr epB) enc addr now l1 cid b0 (early_payload d) InitCryptoSnd (data_header sid false 0) (Some d)
    (set_rcv (set_streams (set_meas b0 x) m) rb1) s) as (l' & HL & Hl' & Ho' & Hin'); [| done | done | done | | exact Hd1|].
  { done. }
  { unfold early_payload. by rewrite parse_payload_bytes. }
  exists l', s, x, m, rb1, rb2. destruct (Hread false) as [ER Hinv]. split; [exact HL|]. split; [done|].
  split; [by destruct Ho' as (-> & _), Ho1 as (-> & _)|]. by split_and!.
Qed.

(** Its reply acknowledges the bytes, with the whole buffer as window. *)
Definition early_ack (n : Z) : PayloadHeader := mkPayloadHeader false (Some (mkAck sid 0 n rcvBufferCapacity)) sid 0.
Definition early_answer cid (secret : bytes) (epB : PrvKey) (n : Z) : bytes :=
  packet_bytes 0 0 false secret (init_crypto_rcv_header cid (public_key epB)) (payload_bytes (early_ack n) None).

Lemma early_answer_size cid secret epB n : 0 <= len (early_answer cid secret epB n) <= 256.
Proof.
  split; [lia|]. unfold early_answer. rewrite packet_length, init_crypto_rcv_header_length.
  pose proof (payload_overhead (early_ack n) None) as H. change (len (default [] None)) with 0 in H.
  assert (calcProtoOverhead (is_ack (early_ack n)) (is_extend (early_ack n)) false <= 64) as Ho.
  { rewrite calcProtoOverhead_parts. destruct (is_ack _), (is_extend _); vm_compute; congruence. }
  change MinInitCryptoRcvSizeHdr with 41. change FooterDataSize with 22. lia.
Qed.

Lemma early_reply (cfg : ListenerCfg PrvKey) cid addr epB (idA epA : PubKey) secret x m rb n st now :
  mtu_ok (l_mtu cfg) -> 0 <= now -> ecdh epB epA = inr secret -> st_streamID st = sid ->
  ackList rb = [mkAck sid 0 n 0] -> rb_size rb = 0 -> capacity rb = rcvBufferCapacity ->
  let b := answering_early cid addr epB idA epA secret x m in
  exists nw pc, Conn.Flush write cfg (b rb) st now
    = Ok (set_flow (set_counter (b (acked rb)) true 1 0) 0 rcvBufferCapacity nw, ([early_answer cid secret epB n], inr (0, pc))) /\ is_u64 nw.
Proof.
  intros Hm Hnow Hs Hst Hacks Hsz Hcap b. unfold mtu_ok in Hm.
  destruct (ack_flush write Hwrite cfg (b rb) (acked rb) (mkAck sid 0 n 0) (mkAck sid 0 n rcvBufferCapacity) st now
    (set_counter (b (acked rb)) true 1 0) (early_answer cid secret epB n)) as (nw & pc & E & Hnw); [| | exact Hnow | | | | by exists nw, pc].
  - unfold GetSndAck. change (c_rcv (b rb)) with rb. by rewrite Hacks.
  - change (capacity (acked rb)) with (capacity rb). change (Rcv.Size (acked rb)) with (rb_size rb). by rewrite Hsz, Hcap.
  - change (dataInFlight (b rb)) with 0. change (rcvWndSize (b rb)) with rcvBufferCapacity. rewrite i64_small by lia.
    change (to_int rcvBufferCapacity) with (16 * 1024 * 1024). lia.
  - constructor; try done. intros y. apply lmi_new_spec.
  - apply encode_first; [|done|done]. unfold encode_msg. rewrite EncodePayload_spec. cbn [mbind go_bind]. rewrite Hst.
    cbn [b answering_early responder set_keys set_meas set_streams set_rcv fresh_conn prvKeyEpSnd pubKeyEpRcv connId snCrypto].
    rewrite (encryptInitCryptoRcv_spec _ _ _ secret) by (done || apply payload_bytes_length). done.
Qed.

(** ** The end of the handshake *)

Lemma early_done g l key cid (epA epB : PrvKey) c secret i (q : bytes) addr now :
  let n := len (si_data i) in
  table_ok l -> (cid, c) ∈ conns l -> prvKeyEpSnd c = Some epA -> is_u64 cid -> ecdh epA (public_key epB) = inr secret ->
  is_u16 n -> is_u64 now -> conn_inv f g c -> isSenderOnInit c = true -> isHandshakeDoneOnRcv c = false ->
  outstanding None f (c_snd c) sid 0 i q ->
  exists l' s c', Listen l key (inr (early_answer cid secret epB n, addr)) now = Ok (l', inr (Some (cid, s))) /\ table_ok l' /\
    (cid, set_done c' true) ∈ conns l' /\ conn_inv f g c' /\ same_link (set_keys c (pubKeyIdRcv c) (Some (public_key epB)) (Some secret)) c' /\
    c_rcv c' = c_rcv c /\ idle None f (c_snd c') sid n q /\ rcvWndSize c' = rcvBufferCapacity /\
    dataInFlight c' = i64 (dataInFlight c - len (early_answer cid secret epB n)).
Proof.
  intros n Hl Hin Hp Hcid Hs Hn Hnow Hinv Hsnd Hdone Hout. set (enc := early_answer cid secret epB n).
  assert (wf_payload (early_ack n)) as Hwf by (split; [done|]; split; [by vm_compute|]; split; [done|]; split; [by vm_compute | done]).
  destruct (crypto_reply_received l key cid c epA (public_key epB) secret 0 (payload_bytes (early_ack n) None) (make_bytes (l_mtu (l_cfg l) - len enc)) addr)
    as (l1 & Hdec & Hl1 & _ & Hin1); [done | done | done | done | by widths | done | apply payload_bytes_length|]. fold enc in Hdec.
  set (c1 := set_keys c _ _ _) in *.
  assert (conn_inv f g (note_read c1 now)) as Hc1 by (apply conn_inv_read; destruct Hinv; by constructor).
  destruct (note_read_meas c1 now) as [x Hx]. rewrite Hx in Hc1.
  destruct (ack_decoded sid None f g (set_meas c1 x) 0 i rcvBufferCapacity q (len enc) now Hc1 Hout)
    as (c2 & s & E & Hc2 & Hlk & Ercv & Hidle & Ew & Ef); [by split | done|]. fold n in E.
  assert (parse_payload (payload_bytes (early_ack n) None) InitCryptoRcv
    = Ok (inr (mkPayloadHeader false (Some (mkAck sid 0 n rcvBufferCapacity)) 0 0, None))) as Hparse.
  { rewrite parse_payload_bytes by done. do 2 f_equal. }
  destruct (listen_decoded l key enc addr now l1 cid c1 (payload_bytes (early_ack n) None) InitCryptoRcv _ _ c2 s ltac:(done) Hdec Hl1 Hin1 Hparse)
    as (l' & HL & Hl' & _ & Hin'); [by rewrite Hx|].
  exists l', s, c2. split; [done|]. split; [done|]. split; [|by split].
  destruct Hlk as (_ & _ & E3 & E4 & _). unfold handshake_done in Hin'. rewrite E4, E3 in Hin'.
  change (isHandshakeDoneOnRcv (set_meas c1 x)) with (isHandshakeDoneOnRcv c) in Hin'.
  change (isSenderOnInit (set_meas c1 x)) with (isSenderOnInit c) in Hin'. rewrite Hdone, Hsnd, decide_True in Hin' by (by right). exact Hin'.
Qed.

(** ** The ends after the handshake *)

Lemma early_ready (cfgA cfgB : ListenerCfg PrvKey) h cid secret a b (q : bytes) n :
  mtu_ok (l_mtu cfgA) -> mtu_ok (l_mtu cfgB) -> 0 <= n <= len q -> len q + l_mtu cfgA <= rcvBufferCapacity ->
  linked cid secret true a -> conn_inv f f a -> ackList (c_rcv a) = [] -> idle None f (c_snd a) sid n (drop (Z.to_nat n) q) -> is_u64 (nextWriteTime a) ->
  snCrypto a = 1 -> epochCryptoSnd a = 0 -> epochCryptoRcv a = 0 -> n - 256 <= dataInFlight a <= n -> rcvWndSize a = rcvBufferCapacity ->
  end_b cid secret sid h f false b n [] -> rb_size (c_rcv b) = 0 -> capacity (c_rcv b) = rcvBufferCapacity ->
  ctr b = 1 -> epochCryptoSnd b = 0 -> epochCryptoRcv b = 0 -> dataInFlight b = 0 -> rcvWndSize b = rcvBufferCapacity ->
  ready cid secret sid None cfgA cfgB f f h true a b n (drop (Z.to_nat n) q) (2 ^ 47).
Proof.
  intros HmA HmB Hn Hfit Hl Hinv Ha Hidle Ht Es Ee Ee' Ed Ew Hb Fz Fc Fs Fe Fe' Fd Fw. unfold mtu_ok in *.
  assert (len (drop (Z.to_nat n) q) = len q - n) as Hdrop by (rewrite length_drop; lia).
  change rcvBufferCapacity with (16 * 1024 * 1024) in *.
  assert (to_int (16 * 1024 * 1024) = 16 * 1024 * 1024) as Ei by (vm_compute; reflexivity).
  assert (free (c_rcv b) = 16 * 1024 * 1024) as Ef by (unfold free; rewrite Fz, Fc; by vm_compute).
  constructor; [by constructor | done | lia | | by left | by intros [? ?]].
  constructor; rewrite ?Hdrop, ?Ew, ?Ei, ?Ef, ?Fd, ?Fw; try done; try lia.
  - rewrite Fs. unfold ctr. rewrite Es, Ee. change (counter 1 0) with 1. lia.
  - change (to_int (DecodeRcvWindow (EncodeRcvWindow (16 * 1024 * 1024)))) with (16 * 1024 * 1024). lia.
  - rewrite Ei. unfold int_ok. lia.
Qed.

Lemma early_end_b h cid addr epB (idA epA : PubKey) secret x m rb n nw :
  let b := answering_early cid addr epB idA epA secret x m in
  conn_inv h f (b rb) -> all_open m -> caught_up rb sid n -> ackList rb = [mkAck sid 0 n 0] -> rb_size rb = 0 -> capacity rb = rcvBufferCapacity -> is_u64 nw ->
  end_b cid secret sid h f false (set_flow (set_counter (b (acked rb)) true 1 0) 0 rcvBufferCapacity nw) n [].
Proof.
  intros b [I1 I2 I3 I4] Hop Hcu Hacks Hsz Hcap Hnw. constructor; try done.
  - constructor; try done. apply (GetSndAck_exact f) in I2. unfold GetSndAck in I2. change (c_rcv (b rb)) with rb in I2. by rewrite Hacks in I2.
  - by right.
  - destruct Hcu. by constructor.
  - change (rb_size rb + 2 ^ 16 <= capacity rb < 2 ^ 63). by rewrite Hsz, Hcap.
  - constructor; try done. intros y. apply lmi_new_spec.
Qed.

(** The dialling end. *)
Lemma early_end_a cid secret c c' :
  conn_inv f f c' -> same_link c c' -> connId c = cid -> sharedSecret c = Some secret -> isSenderOnInit c = true ->
  ctr_ok c -> ackList (c_rcv c') = [] -> is_u64 (nextWriteTime c) ->
  linked cid secret true (set_done c' true) /\ conn_inv f f (set_done c' true) /\ is_u64 (nextWriteTime c').
Proof.
  intros [I1 I2 I3 I4] (E1 & E2 & E3 & _ & E5 & E6 & _ & _ & E9) H1 H2 H3 Hc Ha Hnw. split; [|split; [by constructor | by rewrite E9]].
  constructor; cbn; try congruence; try done; [|by rewrite Ha]. change (counter_ok (snCrypto c') (epochCryptoSnd c')). by rewrite E5, E6.
Qed.
End early_data.

(** The whole handshake. *)
Lemma connected_crypto {PubKey PrvKey} `{!CryptoPrims PubKey PrvKey} `{!CryptoLaws PubKey PrvKey} write
    (lA lB : Listener PubKey PrvKey) epA epB key s0 secret sid (q : bytes) w :
  connectable write lA lB epA epB secret w -> is_u64 (hs_listen w) ->
  ecdh epA (public_key (prvKeyId (l_cfg lB))) = inr s0 -> is_u32 sid -> q <> [] -> len q + l_mtu (l_cfg lA) <= rcvBufferCapacity ->
  let cid := key_conn_id (public_key epA) in let n := Z.to_nat (early (l_mtu (l_cfg lA)) q) in let h := fun _ _ : Z => 0 in
  exists a b, connect_crypto write lA lB epA epB key (public_key (prvKeyId (l_cfg lB))) sid q w = Ok (Some (mkStream sid 0, a, b, take n q)) /\
    ready cid secret sid None (l_cfg lA) (l_cfg lB) (writes sid q) (writes sid q) h true a b (Z.of_nat n) (drop n q) (2 ^ 47).
Proof.
  intros Hcn Hlis Hs0 Hsid Hq Hfit cid n h. pose proof Hcn as [Hw [HA HB] [KA KB] [Emtu Hm] [NA NB] Hs (H1 & H3 & H4)]. fold cid in NA, NB.
  set (idB := public_key (prvKeyId (l_cfg lB))) in *. set (f := writes sid q). set (mtu := l_mtu (l_cfg lA)) in *.
  pose proof (early_bounds mtu q Hm Hq) as [Hn Hmax]. set (d := take n q).
  assert (len d = early mtu q) as Hd by (unfold d; rewrite length_take; lia).
  destruct (DialWithCrypto_spec lA epA (hs_server w) idB HA KA NA) as (lA1 & HD & HtA1 & [EcA _] & HinA). fold cid in HD, HinA.
  destruct (new_stream (fresh_conn cid (hs_server w) epA (Some idB) None true true : Conn PubKey PrvKey) sid eq_refl) as (m & Hst & Hok).
  destruct (write_whole (set_streams (fresh_conn cid (hs_server w) epA (Some idB) None true true) m) (mkStream sid 0) q eq_refl eq_refl Hq
    ltac:(eapply window_fits; [exact Hcn | exact Hfit])) as (sb & HW & Hidle). cbn [st_streamID] in Hidle. fold f in Hidle.
  destruct (early_flush write Hw sid f (l_cfg lA) cid (hs_server w) epA idB s0 m sb q (mkStream sid 0) (hs_flush w) Hm H1 Hs0 Hidle Hq eq_refl)
    as (sb' & nw1 & r1 & Hfl & Hnw1 & Hout). fold mtu n d in Hfl, Hout.
  destruct (early_listen sid Hsid f h lB epA epB (public_key (prvKeyId (l_cfg lA))) s0 secret d (hs_client w) (hs_listen w))
    as (lB' & sB & x & mB & rb1 & rb2 & HLB & HlB' & EcB & HinB & HsB & HR & HinvB & HokB & HopB & Hcu & Hacks & Hsz & Hcap);
    [done | done | by rewrite <- Emtu | done | by apply ecdh_agree | done | by rewrite <- Emtu, Hd; lia | | done|].
  { unfold d at 1. rewrite (writes_bytes sid q) at 1. fold f. rewrite read_at_take by lia. f_equal. lia. }
  rewrite <- Emtu in HLB. fold cid mtu in HLB, HinB, HR, HinvB.
  set (idA := public_key (prvKeyId (l_cfg lA))) in *. set (epub := public_key epA) in *.
  destruct (early_reply write Hw sid (l_cfg lB) cid (hs_client w) epB idA epub secret x mB rb2 (len d) sB (hs_reply w))
    as (nw2 & pc2 & Hfl2 & Hnw2); [by rewrite <- Emtu | done | done | done | done | done | done|].
  set (a3 := set_flow (set_counter (dialling cid (hs_server w) epA idB m sb') true 1 0) (early mtu q) rcvBufferCapacity nw1) in *.
  destruct (table_put lA1 cid a3 HtA1 eq_refl ltac:(by eexists)) as (mA & Hput & HtA2 & _ & HinA2).
  destruct (early_done sid Hsid f f (set_connMap lA1 mA) key cid epA epB a3 secret (newSendInfo d (hs_flush w) false) (drop n q) (hs_source w) (hs_done w))
    as (lA' & sA & a4 & HLA & HtA' & HinA4 & Hinv4 & Hlk & Ercv & Hidle4 & Ew & Ef);
    [done | done | done | apply key_conn_id_u64 | by apply ecdh_agree | cbn [newSendInfo si_data]; pose proof (early_room mtu Hm); widths; lia | done | | done | done | done|].
  { constructor; [apply Hout | by apply NewReceiveBuffer_exact | apply meas_inv_new | done]. }
  set (b1 := set_flow (set_counter (answering_early cid (hs_client w) epB idA epub secret x mB (acked rb2)) true 1 0) 0 rcvBufferCapacity nw2) in *.
  exists (set_done a4 true), b1. split.
  - unfold connect_crypto. rewrite HD. cbn [mbind go_bind]. rewrite Hst. cbn [mbind go_bind]. rewrite HW. cbn [mbind go_bind]. rewrite EcA.
    change (set_snd (set_streams _ m) sb) with (dialling cid (hs_server w) epA idB m sb). rewrite Hfl. cbn [mbind go_bind].
    rewrite HLB. cbn [mbind go_bind]. rewrite (load_conn_ok lB' cid _ HlB' HinB). cbn [mbind go_bind]. rewrite HR. cbn [mbind go_bind].
    rewrite EcB, Hfl2. cbn [mbind go_bind]. unfold store_conn. change (connId a3) with cid. rewrite Hput. cbn [mbind go_bind mret go_ret].
    cbn [newSendInfo si_data] in HLA. rewrite HLA. cbn [mbind go_bind]. by rewrite (load_conn_ok lA' cid _ HtA' HinA4).
  - cbn [newSendInfo si_data] in *. rewrite Hd in *. pose proof (early_answer_size sid cid secret epB (early mtu q)) as Hsize.
    destruct (early_end_a f cid secret _ a4 Hinv4 Hlk) as (Hlink & Hinv5 & Ht); [done | done | done | split; by widths | by rewrite Ercv | done|].
    destruct Hlk as (_ & _ & _ & _ & E5 & E6 & _ & E8 & _). change (dataInFlight a3) with (early mtu q) in Ef.
    replace (Z.of_nat n) with (early mtu q) by lia. pose proof (early_room mtu Hm). rewrite i64_small in Ef by lia.
    apply early_ready; try done; [by rewrite <- Emtu | lia | cbn; by rewrite Ercv | cbn; lia|]. by apply early_end_b.
Qed.

(** ** Property *)

(** C6. Encryption from the first packet on: a listener that knows the identity key
    of another dials it with [DialWithCrypto], opens a stream, writes up to a
    receive window less one packet and flushes.  The first message carries as many
    bytes as it has room for; the stream that [Listen] returns at the other end
    reads exactly those, before the reply is sent and the handshake complete.
    After the reply rounds of a lossy network follow as above, and exactly the
    rest of the bytes is read.  No step fails or panics. *)
Theorem early_data_completes {PubKey PrvKey} `{!CryptoPrims PubKey PrvKey} `{!CryptoLaws PubKey PrvKey}
    (write : AddrPort -> bytes -> option go_error) (lA lB : Listener PubKey PrvKey) (epA epB : PrvKey) (key : go_error + PrvKey)
    (s0 secret : bytes) (sid : Z) (q : bytes) (w : handshake) :
  let idB := public_key (prvKeyId (l_cfg lB)) in let n := Z.to_nat (early (l_mtu (l_cfg lA)) q) in
  connectable write lA lB epA epB secret w -> is_u64 (hs_listen w) -> ecdh epA idB = inr s0 ->
  is_u32 sid -> q <> [] -> len q + l_mtu (l_cfg lA) <= rcvBufferCapacity ->
  exists st a b, connect_crypto write lA lB epA epB key idB sid q w = Ok (Some (st, a, b, take n q)) /\ (0 < n)%nat /\
    forall sched, Z.of_nat (length sched) <= 2 ^ 47 -> len (drop n q) <= packet_room (l_mtu (l_cfg lA)) * deliveries sched ->
      patient 0 sched = true -> on_schedule write sid (l_cfg lA) (l_cfg lB) sched a b st = true ->
      exists a2 b2, transfer write sid (l_cfg lA) (l_cfg lB) sched a b st = Ok (Some (a2, b2, drop n q, false)) /\
        queue_of (c_snd a2) sid = [] /\ flight_of (c_snd a2) sid = [].
Proof.
  intros idB n Hcn Hlis Hs0 Hsid Hq Hfit.
  destruct (connected_crypto write lA lB epA epB key s0 secret sid q w Hcn Hlis Hs0 Hsid Hq Hfit) as (a & b & HC & Hready).
  fold n in HC, Hready. exists (mkStream sid 0), a, b. split; [exact HC|].
  destruct Hcn as [Hw _ _ [Emtu Hm] _ Hs _]. pose proof (early_bounds _ q Hm Hq) as [Hn _]. split; [lia|].
  intros sched Hlen Hdel Hpat Hsch. pose proof Hm as HmB. rewrite Emtu in HmB. assert (len secret = 32) as Hsec by (by eapply ecdh_length).
  destruct (transfer_between write Hw (key_conn_id (public_key epA)) secret Hsec sid Hsid None (l_cfg lA) (l_cfg lB) Hm HmB (writes sid q) (writes sid q)
    (fun _ _ => 0) true (mkStream sid 0) sched eq_refl a b (Z.of_nat n) None (drop n q) (2 ^ 47)) as (a2 & b2 & HT & k & m & [[_ _ _ Hidle _] _ _ _ _ _]);
    try done.
  { pose proof (room_positive (l_mtu (l_cfg lA)) 0 Hm) as [Hr _]. apply Z.lt_succ_r, Z.div_lt_upper_bound; lia. }
  exists a2, b2. split; [exact HT|]. by destruct Hidle.
Qed.

(** ** Witness *)

Definition crypto7 : Stream * Conn bool bool * Conn bool bool * bytes :=
  default (mkStream 0 0, responder77, responder77, [])
    (ok_or None (connect_crypto discard client server true false (inr true) true 7 text4000 handshake7)).

Lemma crypto7_eq x : connect_crypto discard client server true false (inr true) true 7 text4000 handshake7 = Ok (Some x) -> crypto7 = x.
Proof. intros E. unfold crypto7. by rewrite E. Qed.

Lemma server_secret : exists s0 : bytes, ecdh true (public_key (prvKeyId (l_cfg server))) = inr s0.
Proof. by eexists. Qed.

Lemma listen7 : is_u64 (hs_listen handshake7).
Proof. done. Qed.

Lemma early_data_completes_witness :
  exists st a b, crypto7 = (st, a, b, take 1303 text4000) /\
    exists a2 b2, transfer discard 7 (l_cfg client) (l_cfg server) (every_ten_seconds losses) a b st = Ok (Some (a2, b2, drop 1303 text4000, false)) /\
      queue_of (c_snd a2) 7 = [] /\ flight_of (c_snd a2) 7 = [].
Proof.
  assert (on_schedule discard 7 (l_cfg client) (l_cfg server) (every_ten_seconds losses) crypto7.1.1.2 crypto7.1.2 crypto7.1.1.1 = true) as Hs
    by (vm_compute; reflexivity).
  destruct server_secret as [s0 Hs0].
  destruct (early_data_completes discard client server true false (inr true) s0 (toy_key true) 7 text4000 handshake7
    client_server_connectable listen7 Hs0 is_u32_7 text4000_some text4000_fits) as (st & a & b & HC & _ & HT).
  apply crypto7_eq in HC. rewrite HC in Hs. cbn [fst snd] in Hs.
  exists st, a, b. split; [exact HC|]. apply (HT (every_ten_seconds losses)); [vm_compute; discriminate | vm_compute; discriminate | reflexivity | exact Hs].
Defined.
