(* ===== verification/Examples.v ===== *)
(** * Examples: the example programs (src/examples/example1/main.go,
    src/examples/example2/main.go)

    Each program is a server and a client on top of the library: a listener from
    [Options.Listen], the event loop [Loop] with a callback, and [Read], [Write]
    and [Close] of streams.  A [*Stream] is a reference: the keys of its connection
    and of the stream, as in [Scheduler].  Everything from outside a program is
    the record [world]; its inputs bound the iterations of the loop, and a program
    that has used them up is [Running].  What a program prints is a list of lines,
    one constructor per call of [fmt.Println] or [fmt.Printf], with its arguments. *)

From stdpp Require Import prelude gmap list numbers strings.
From S2P Require Import Prelude Wire Proto Measurement Interfaces LinkedMap SortedMap Rcv Crypto Snd Conn Streams Listener Scheduler Hex Options Text.
Open Scope Z_scope.

(** ** Streams by reference *)

Section refs.
Context {PubKey PrvKey : Type} `{!CryptoPrims PubKey PrvKey}.
Implicit Types (l : Listener PubKey PrvKey) (p : Z * Z).

Definition ref_of (s : Z * Stream) : Z * Z := (s.1, st_streamID s.2).

Definition stream_Read l p : go (Listener PubKey PrvKey * (option bytes * option stream_error)) :=
  c ← load_conn l p.1; s ← load_stream l p;
  '(c, _, r) ← Read c s;
  l ← store_conn l p.1 c; mret (l, r).

Definition stream_Write (wake : option go_error) l p (d : bytes)
    : go (Listener PubKey PrvKey * (Z * option stream_error)) :=
  c ← load_conn l p.1; s ← load_stream l p;
  '(c, r) ← Write wake c s d;
  l ← store_conn l p.1 c; mret (l, r).

Definition stream_Close l p : go (Listener PubKey PrvKey) :=
  c ← load_conn l p.1; s ← load_stream l p;
  store_conn l p.1 (Streams.Close c s).

(** [conn.Stream(id)]. *)
Definition stream_at l (ck sid : Z) : go (Listener PubKey PrvKey * (Z * Z)) :=
  c ← load_conn l ck;
  '(c, s) ← conn_Stream c sid;
  l ← store_conn l ck c; mret (l, (ck, st_streamID s)).
End refs.

(** ** What a program is given, and how it ends *)

Section world.
Context {PubKey PrvKey : Type} `{!CryptoPrims PubKey PrvKey}.
Context {Addr UDPConn NetworkConn : Type}.

Record world := mkWorld {
  w_env : environment (PrvKey := PrvKey) (Addr := Addr) (UDPConn := UDPConn) (NetworkConn := NetworkConn);
  w_key : go_error + PrvKey;                        (* the key pair of Dial *)
  w_inputs : list (loop_input (PrvKey := PrvKey));  (* what the iterations of the loop get *)
  w_write : AddrPort -> bytes -> option go_error;   (* the socket *)
  w_wake : option go_error;                         (* TimeoutReadNow *)
  w_close : option go_error;                        (* Close of the socket *)
  w_streams : list (Z * Z) -> list (Z * Z);         (* orders of ranging over maps *)
  w_conns : list Z -> list Z;
  w_stdin : bytes;
}.

Inductive ending :=
  | Exited (code : Z)               (* os.Exit *)
  | Fatal (err : go_error)          (* log.Fatal *)
  | FatalStream (err : stream_error)
  | Running (l : Listener PubKey PrvKey)
  | Returned (l : Listener PubKey PrvKey).

(** What a program printed and sent, and how it ended. *)
Record outcome (line : Type) := mkOutcome {
  printed : list line;
  sent : list (Z * bytes);
  ended : ending;
}.
End world.

Arguments world : clear implicits.
Arguments ending : clear implicits.
Arguments outcome : clear implicits.
Arguments mkOutcome {PubKey PrvKey line}.

Section finish.
Context {PubKey PrvKey : Type} `{!CryptoPrims PubKey PrvKey}.
Context {Addr UDPConn NetworkConn : Type}.

(** The end of a function that started its loop: the deferred [Close] runs once
    the loop has ended. *)
Definition finish {line : Type} (w : world PrvKey Addr UDPConn NetworkConn) (out : list line) (l : Listener PubKey PrvKey) (ds : list (Z * bytes)) (ended : bool)
    : go (outcome PubKey PrvKey line) :=
  if ended then
    '(l, _) ← listener_Close (w_conns w) (w_wake w) (w_close w) l;
    mret (mkOutcome out ds (Returned l))
  else mret (mkOutcome out ds (Running l)).
End finish.

(** ** Example 1: the server replies in upper case *)

Module Example1.

Inductive line :=
  | Usage                             (* the three lines on the arguments *)
  | FirstArgument
  | ServerListening (addr : bytes)    (* and that it waits for clients *)
  | ServerExit (err : stream_error)
  | ServerReceived (msg : bytes)
  | Connected (addr : bytes)
  | EnterMessage
  | Sent (input : bytes)
  | Received (data : bytes).

Section code.
Context {PubKey PrvKey : Type} `{!CryptoPrims PubKey PrvKey} `{!UnicodeTables}.
Context {Addr UDPConn NetworkConn Writer : Type}.
Implicit Types (w : world PrvKey Addr UDPConn NetworkConn).

Definition server_callback w (out : list line) (l : Listener PubKey PrvKey) (stream : option (Z * Stream))
    : go (list line * Listener PubKey PrvKey * (go_error + bool)) :=
  match stream with
  | None => mret (out, l, inr true)
  | Some stream =>
      '(l, (data, err)) ← stream_Read l (ref_of stream);
      match err with
      | Some err => mret (out ++ [ServerExit err], l, inr false)
      | None =>
          let data := default [] data in
          if decide (0 < len data) then
            let upper := ToUpper data in
            '(l, _) ← stream_Write (w_wake w) l (ref_of stream) upper;
            l ← stream_Close l (ref_of stream);
            mret (out ++ [ServerReceived data], l, inr true)
          else mret (out, l, inr true)
      end
  end.

Definition runServer w (addr : bytes) : go (outcome PubKey PrvKey line) :=
  r ← Options.Listen (Writer := Writer) (w_env w) [WithListenAddr (w_env w) addr];
  match r with
  | inl err => mret (mkOutcome [] [] (Fatal err))
  | inr (listener, _) =>
      '(out, listener, (ds, ended)) ←
        Loop (server_callback w) (w_write w) (w_streams w) (w_inputs w) [ServerListening addr] listener;
      finish w out listener ds ended
  end.

Definition client_callback (out : list line) (l : Listener PubKey PrvKey) (s : option (Z * Stream))
    : go (list line * Listener PubKey PrvKey * (go_error + bool)) :=
  match s with
  | None => mret (out, l, inr true)
  | Some s =>
      '(l, (data, _)) ← stream_Read l (ref_of s);
      let data := default [] data in
      if decide (0 < len data) then mret (out ++ [Received data], l, inr false)
      else mret (out, l, inr true)
  end.

Definition runClient w (serverAddr : bytes) : go (outcome PubKey PrvKey line) :=
  r ← Options.Listen (Writer := Writer) (w_env w) [];
  match r with
  | inl err => mret (mkOutcome [] [] (Fatal err))
  | inr (listener, _) =>
      '(listener, r) ← DialString (w_env w) listener (w_key w) serverAddr;
      match r with
      | inl err => mret (mkOutcome [] [] (Fatal err))
      | inr conn =>
          let input := TrimSpace (ReadString 10 (w_stdin w)) in
          '(listener, stream) ← stream_at listener (connId conn) 0;
          '(listener, (_, err)) ← stream_Write (w_wake w) listener stream input;
          match err with
          | Some err => mret (mkOutcome [Connected serverAddr; EnterMessage] [] (FatalStream err))
          | None =>
              '(out, listener, (ds, ended)) ←
                Loop client_callback (w_write w) (w_streams w) (w_inputs w)
                  [Connected serverAddr; EnterMessage; Sent input] listener;
              finish w out listener ds ended
          end
      end
  end.

Definition default_addr : bytes := str "127.0.0.1:8888".

(** [args] are the arguments after the name of the program. *)
Definition main w (args : list bytes) : go (outcome PubKey PrvKey line) :=
  match args with
  | [] => mret (mkOutcome [Usage] [] (Exited 1))
  | mode :: args =>
      if decide (mode = str "server") then runServer w (default default_addr (head args))
      else if decide (mode = str "client") then runClient w (default default_addr (head args))
      else mret (mkOutcome [FirstArgument] [] (Exited 1))
  end.
End code.
End Example1.

(** ** Example 2: twenty thousand bytes each way *)

Module Example2.

(** The loop of [repeatText]. *)
Fixpoint repeat_loop (fuel : nat) (text : bytes) (targetBytes : Z) (result : bytes) : go bytes :=
  match fuel with
  | O => Diverge
  | S fuel =>
      if decide (len result < targetBytes) then repeat_loop fuel text targetBytes (result ++ text)
      else mret result
  end.

(** [make] panics for a negative capacity.  Every iteration adds a byte at least. *)
Definition repeatText (text : bytes) (targetBytes : Z) : go bytes :=
  if decide (len text = 0) then mret [] else
  if decide (targetBytes < 0) then Panic SliceOutOfRange else
  result ← repeat_loop (S (Z.to_nat targetBytes)) text targetBytes [];
  slice_to result targetBytes.

Inductive line :=
  | Usage
  | FirstArgument
  | ServerListening (addr : bytes)
  | ServerReceived (n : Z) (data : bytes)
  | Connected (addr : bytes)
  | Sent
  | Received (n : Z) (data : bytes).

Section code.
Context {PubKey PrvKey : Type} `{!CryptoPrims PubKey PrvKey} `{!UnicodeTables}.
Context {Addr UDPConn NetworkConn Writer : Type}.
Implicit Types (w : world PrvKey Addr UDPConn NetworkConn).

(** The callbacks work on the counter [n] and on what was printed. *)
Definition server_callback w (vars : Z * list line) (l : Listener PubKey PrvKey) (stream : option (Z * Stream))
    : go (Z * list line * Listener PubKey PrvKey * (go_error + bool)) :=
  let '(n, out) := vars in
  match stream with
  | None => mret (n, out, l, inr true)
  | Some stream =>
      '(l, (data, err)) ← stream_Read l (ref_of stream);
      match err with
      | Some err => mret (n, out, l, inr false)
      | None =>
          let data := default [] data in
          if decide (0 < len data) then
            let n := n + len data in
            let out := out ++ [ServerReceived n data] in
            if decide (n = 20000) then
              reply ← repeatText (str "Hello from server! ") 20000;
              '(l, _) ← stream_Write (w_wake w) l (ref_of stream) reply;
              l ← stream_Close l (ref_of stream);
              mret (n, out, l, inr true)
            else mret (n, out, l, inr true)
          else mret (n, out, l, inr true)
      end
  end.

Definition runServer w (addr : bytes) : go (outcome PubKey PrvKey line) :=
  r ← Options.Listen (Writer := Writer) (w_env w) [WithListenAddr (w_env w) addr];
  match r with
  | inl err => mret (mkOutcome [] [] (Fatal err))
  | inr (listener, _) =>
      '((_, out), listener, (ds, ended)) ←
        Loop (server_callback w) (w_write w) (w_streams w) (w_inputs w) (0, [ServerListening addr]) listener;
      finish w out listener ds ended
  end.

Definition client_callback (vars : Z * list line) (l : Listener PubKey PrvKey) (s : option (Z * Stream))
    : go (Z * list line * Listener PubKey PrvKey * (go_error + bool)) :=
  let '(n, out) := vars in
  match s with
  | None => mret (n, out, l, inr true)
  | Some s =>
      '(l, (data, _)) ← stream_Read l (ref_of s);
      let data := default [] data in
      if decide (0 < len data) then
        let n := n + len data in
        let out := out ++ [Received n data] in
        if decide (n = 20000) then mret (n, out, l, inr false) else mret (n, out, l, inr true)
      else mret (n, out, l, inr true)
  end.

Definition runClient w (serverAddr : bytes) : go (outcome PubKey PrvKey line) :=
  r ← Options.Listen (Writer := Writer) (w_env w) [];
  match r with
  | inl err => mret (mkOutcome [] [] (Fatal err))
  | inr (listener, _) =>
      '(listener, r) ← DialString (w_env w) listener (w_key w) serverAddr;
      match r with
      | inl err => mret (mkOutcome [] [] (Fatal err))
      | inr conn =>
          '(listener, stream) ← stream_at listener (connId conn) 0;
          message ← repeatText (str "Hello from client! ") 20000;
          '(listener, (_, err)) ← stream_Write (w_wake w) listener stream message;
          match err with
          | Some err => mret (mkOutcome [Connected serverAddr] [] (FatalStream err))
          | None =>
              '((_, out), listener, (ds, ended)) ←
                Loop client_callback (w_write w) (w_streams w) (w_inputs w)
                  (0, [Connected serverAddr; Sent]) listener;
              finish w out listener ds ended
          end
      end
  end.

Definition main w (args : list bytes) : go (outcome PubKey PrvKey line) :=
  match args with
  | [] => mret (mkOutcome [Usage] [] (Exited 1))
  | mode :: args =>
      if decide (mode = str "server") then runServer w (default (str "127.0.0.1:8888") (head args))
      else if decide (mode = str "client") then runClient w (default (str "127.0.0.1:8888") (head args))
      else mret (mkOutcome [FirstArgument] [] (Exited 1))
  end.
End code.
End Example2.

(** ** What the programs do *)

(** *** [repeatText] *)

Lemma concat_replicate_S {A} k (t : list A) : concat (replicate (S k) t) = concat (replicate k t) ++ t.
Proof.
  induction k as [|k IH]; [apply app_nil_r|]. change (t ++ concat (replicate (S k) t) = (t ++ concat (replicate k t)) ++ t).
  by rewrite IH, app_assoc.
Qed.

(** The buffer is always the text over and over, and it is long enough before the
    fuel is used up. *)
Lemma repeat_loop_spec (text : bytes) (n : Z) fuel : forall k,
  text <> [] -> n - len (concat (replicate k text)) <= Z.of_nat fuel ->
  exists j, Example2.repeat_loop (S fuel) text n (concat (replicate k text)) = Ok (concat (replicate j text)) /\
    n <= len (concat (replicate j text)).
Proof.
  induction fuel as [|fuel IH]; intros k Hne Hf; cbn [Example2.repeat_loop]; case_decide as Hlt; try (exists k; split; [done | lia]); [lia|].
  assert (0 < len text) by (destruct text; [done | simpl; lia]). pose proof (concat_replicate_S k text) as Ek.
  destruct (IH (S k) Hne) as (j & Hj & Hle); [rewrite Ek, length_app; lia|].
  exists j. rewrite Ek in Hj. split; [exact Hj | done].
Qed.

Lemma concat_replicate_lookup {A} (t : list A) k i :
  t <> [] -> (i < length (concat (replicate k t)))%nat -> concat (replicate k t) !! i = t !! (i mod length t)%nat.
Proof.
  intros Hne. assert (length t <> 0)%nat by (by destruct t). revert i. induction k as [|k IH]; intros i Hi; [simpl in Hi; lia|].
  cbn [replicate concat] in *. destruct (decide (i < length t)%nat) as [Hlt|Hge].
  - by rewrite lookup_app_l, Nat.mod_small.
  - rewrite length_app in Hi. rewrite lookup_app_r, IH by lia. f_equal.
    rewrite <- (Nat.Div0.mod_add (i - length t) 1 (length t)). f_equal. lia.
Qed.

(** [repeatText] ends, and its result is the text over and over, cut to the
    length asked for. *)
Theorem repeat_text_exact (text : bytes) (n : Z) :
  text <> [] -> 0 <= n ->
  exists r, Example2.repeatText text n = Ok r /\ len r = n /\
    forall i, (i < length r)%nat -> r !! i = text !! (i mod length text)%nat.
Proof.
  intros Hne Hn. unfold Example2.repeatText. rewrite decide_False by (destruct text; [done | simpl; lia]).
  rewrite decide_False by lia. destruct (repeat_loop_spec text n (Z.to_nat n) 0 Hne) as (j & E & Hle); [simpl; lia|].
  cbn [replicate concat] in E. rewrite E. cbn [mbind go_bind]. rewrite slice_to_Ok by lia.
  eexists. split; [done|]. rewrite length_take. split; [lia|]. intros i Hi.
  rewrite lookup_take_lt by lia. apply concat_replicate_lookup; [done | lia].
Qed.

(** *** Streams by reference *)

Section refs_spec.
Context {PubKey PrvKey : Type} `{!CryptoPrims PubKey PrvKey}.
Implicit Types (l : Listener PubKey PrvKey) (c : Conn PubKey PrvKey) (s : Stream).

(** The listener [l] has the connection [c] under [ck], with the stream [s]. *)
Definition at_ref l ck c s : Prop := table_ok l /\ (ck, c) ∈ conns l /\ streams_ok (streams c) /\ (st_streamID s, s) ∈ lm_elems (streams c).

Lemma at_ref_load l ck c s : at_ref l ck c s -> load_conn l ck = Ok c /\ load_stream l (ck, st_streamID s) = Ok s.
Proof. intros (Hl & Hc & [Hwf _] & Hs). split; [by apply load_conn_ok | by apply (load_stream_ok l ck _ c)]. Qed.

(** Storing the connection again, with the stream [s']. *)
Lemma at_ref_store l ck c s c' s' :
  at_ref l ck c s -> connId c' = connId c -> prvKeyEpSnd c' = prvKeyEpSnd c ->
  streams_ok (streams c') -> (st_streamID s', s') ∈ lm_elems (streams c') ->
  exists l', store_conn l ck c' = Ok l' /\ at_ref l' ck c' s'.
Proof.
  intros (Hl & Hc & _ & _) Hid Hp Hok Hs. destruct (store_conn_ok l ck c c' Hl Hc Hid Hp) as (l' & E & (Hl' & _ & _ & Hin)).
  exists l'. split; [done|]. split_and!; try done. apply Hin. by left.
Qed.

(** A read without error only takes from the receive buffer. *)
Lemma Read_open c s c' s' data : Read c s = Ok (c', s', (data, None)) -> s' = s /\ exists rcv, c' = set_rcv c rcv.
Proof.
  unfold Read. destruct (IsClosed s); [done|]. intros H. apply go_bind_Ok in H as ([rcv [[off dt] t]] & _ & H).
  revert H. destruct (match Rcv.GetOffsetClosedAt _ _ with Some co => _ | None => false end); intros H.
  - by apply go_bind_Ok in H as (m & _ & H).
  - injection H as <- <- _. eauto.
Qed.

(** Queueing appends what fits, whatever the bytes. *)
Lemma QueueData_any (sb : SendBuffer (LinkedMap Z SendInfo)) sid (d : bytes) :
  sb_size sb <= sb_capacity sb ->
  exists sb' n st, QueueData sb sid d = Ok (sb', (n, st)) /\ sent_of sb' sid = sent_of sb sid /\
    queue_of sb' sid = queue_of sb sid ++ take (Z.to_nat (sb_capacity sb - sb_size sb)) d.
Proof.
  intros Hsz. unfold QueueData. case_decide as H0.
  { assert (d = []) as -> by (by apply nil_length_inv; lia). eexists _, _, _. split; [done|]. by rewrite take_nil, app_nil_r. }
  case_decide as Hfull; [eexists _, _, _; split; [done|]; rewrite Hfull; by rewrite app_nil_r|].
  set (room := sb_capacity sb - sb_size sb) in *.
  assert (exists st, (if decide (room < len d) then chunk ← slice_to d room; mret (chunk, InsertStatusSndFull)
                      else mret (d, InsertStatusOk)) = Ok (take (Z.to_nat room) d, st)) as [st ->].
  { case_decide; [rewrite slice_to_Ok by lia; by eexists | rewrite take_ge by lia; by eexists]. }
  cbn [mbind go_bind]. destruct (sgetOrCreateStream_spec sb sid) as (-> & Hset & _). rewrite Hset.
  pose proof (sstream_set sb sid (with_queue (sstream sb sid) (queuedData (sstream sb sid) ++ take (Z.to_nat room) d)
    (bytesSentOffset (sstream sb sid))) sid) as Eset. rewrite decide_True in Eset by done.
  eexists _, _, _. split; [done|]. split; [exact (f_equal bytesSentOffset Eset) | exact (f_equal queuedData Eset)].
Qed.

(** A write to an open stream, whatever the bytes. *)
Lemma Write_any wake c s (d : bytes) :
  IsOpen c s = true -> sb_size (c_snd c) <= sb_capacity (c_snd c) ->
  let sid := st_streamID s in
  exists sb r, Write wake c s d = Ok (set_snd c sb, r) /\ sent_of sb sid = sent_of (c_snd c) sid /\
    queue_of sb sid = queue_of (c_snd c) sid ++ take (Z.to_nat (sb_capacity (c_snd c) - sb_size (c_snd c))) d /\
    Snd.GetOffsetClosedAt sb sid = None.
Proof.
  intros Ho Hsz sid. unfold IsOpen in Ho. apply andb_true_iff in Ho as [H1 H2]. rewrite negb_true_iff in H1. rewrite negb_true_iff in H2.
  assert (Snd.GetOffsetClosedAt (c_snd c) sid = None) as Hcl by (apply bool_decide_eq_false_1 in H1; by apply eq_None_not_Some).
  unfold Write. rewrite H2, H1. cbn [orb]. case_decide as H0.
  { assert (d = []) as -> by (by apply nil_length_inv; lia). exists (c_snd c). eexists. rewrite take_nil, app_nil_r. by destruct c. }
  destruct (QueueData_any (c_snd c) sid d Hsz) as (sb & n & st & E & Hs & Hq). fold sid. rewrite E. cbn [mbind go_bind].
  exists sb. assert (Snd.GetOffsetClosedAt sb sid = None) as Hcl' by (by rewrite (QueueData_close _ _ _ _ _ E)).
  case_decide; [|destruct wake]; eexists; (split; [done|]); done.
Qed.

(** Closing a stream that was not closed: the offset is where the bytes end. *)
Lemma Close_offset (sb : SendBuffer (LinkedMap Z SendInfo)) sid :
  Snd.GetOffsetClosedAt sb sid = None ->
  Snd.GetOffsetClosedAt (Snd.Close sb sid) sid = Some (u64 (sent_of sb sid + len (queue_of sb sid))) /\
  queue_of (Snd.Close sb sid) sid = queue_of sb sid.
Proof.
  intros Hn. unfold Snd.Close. destruct (sgetOrCreateStream_spec sb sid) as (-> & Hset & _).
  assert (sb_closeAtOffset (sstream sb sid) = None) as ->.
  { revert Hn. unfold Snd.GetOffsetClosedAt, sstream. by destruct (sb_streams sb !! sid). }
  rewrite Hset. split; [unfold Snd.GetOffsetClosedAt; simpl; by rewrite lookup_insert_eq|].
  unfold queue_of at 1. by rewrite sstream_set, decide_True.
Qed.
End refs_spec.

(** ** Properties *)

Section properties.
Context {PubKey PrvKey : Type} `{!CryptoPrims PubKey PrvKey} `{!UnicodeTables}.
Context {Addr UDPConn NetworkConn : Type}.
Implicit Types (l : Listener PubKey PrvKey) (c : Conn PubKey PrvKey) (s : Stream).

(** C39. The server of the first example: when the next byte of an open stream was
    received and the peer has not closed the stream before it, the callback takes
    the bytes of the peer from the read position on, prints them, queues them in
    upper case as far as the send buffer has room, closes the stream for sending
    behind them, and the loop goes on. *)
Theorem example1_server_replies (w : world PrvKey Addr UDPConn NetworkConn) (f g : Z -> Z -> Z) (out : list Example1.line) l ck c s :
  let sid := st_streamID s in
  let next := next_of (c_rcv c) sid in
  table_ok l -> (ck, c) ∈ conns l -> conn_inv f g c -> filed c s sid -> IsOpen c s = true ->
  covers (content (c_rcv c) sid) next -> (forall co, Rcv.GetOffsetClosedAt (c_rcv c) sid = Some co -> next < co) ->
  exists (d : bytes) l' c',
    Example1.server_callback w out l (Some (ck, s)) = Ok (out ++ [Example1.ServerReceived d], l', inr true) /\
    table_ok l' /\ (ck, c') ∈ conns l' /\ 0 < len d /\ d = read_at (g sid) next (length d) /\
    next_of (c_rcv c') sid = next + len d /\
    queue_of (c_snd c') sid
      = queue_of (c_snd c) sid ++ take (Z.to_nat (sb_capacity (c_snd c) - sb_size (c_snd c))) (ToUpper d) /\
    Snd.GetOffsetClosedAt (c_snd c') sid = Some (u64 (sent_of (c_snd c) sid + len (queue_of (c_snd c') sid))).
Proof.
  intros sid next Hl Hc Hinv [_ Hs] Ho Hcov Hnc. pose proof Hinv as [Hsnd _ _ Hstr].
  assert (at_ref l ck c s) as Href by (by split_and!). destruct (at_ref_load _ _ _ _ Href) as [Lc Ls].
  pose proof Ho as [_ Hop]%andb_true_iff. rewrite negb_true_iff in Hop.
  destruct (Read_spec f g c s Hinv (conj eq_refl Hs) Hop) as (c1 & s1 & data & err & ER & Hinv1 & [Hid1 Hs1] & (Esnd & Hnext & Hsome & Hbytes & Herr & Heof)).
  destruct (proj2 Hsome Hcov) as [d ->]. destruct (Hbytes d eq_refl) as [Hpos Hd]. cbn [default from_option id] in Hnext.
  assert (err = None) as ->.
  { destruct err as [e|]; [|done]. destruct Heof as [Heof _], Herr as [[=]|[= ->]].
    destruct (Heof eq_refl) as (co & Hco & Hle). specialize (Hnc co Hco). fold sid next in Hle. lia. }
  apply Read_open in ER as E0. destruct E0 as (-> & rcv & ->).
  destruct (at_ref_store l ck c s (set_rcv c rcv) s Href eq_refl eq_refl Hstr Hs) as (l1 & S1 & Href1).
  destruct (at_ref_load _ _ _ _ Href1) as [Lc1 Ls1].
  destruct (Write_any (w_wake w) (set_rcv c rcv) s (ToUpper d) Ho (sv_capacity _ _ Hsnd)) as (sb & r & EW & Hsent & Hq & Hcl).
  destruct (at_ref_store l1 ck (set_rcv c rcv) s (set_snd (set_rcv c rcv) sb) s Href1 eq_refl eq_refl Hstr Hs) as (l2 & S2 & Href2).
  destruct (at_ref_load _ _ _ _ Href2) as [Lc2 Ls2]. set (c3 := set_snd (set_rcv c rcv) (Snd.Close sb sid)).
  destruct (at_ref_store l2 ck _ s c3 s Href2 eq_refl eq_refl Hstr Hs) as (l3 & S3 & (Hl3 & Hin3 & _)).
  destruct (Close_offset sb sid Hcl) as [Hoff Hq3].
  exists d, l3, c3. split.
  { unfold Example1.server_callback, stream_Read, stream_Write, stream_Close, ref_of. cbn [fst snd]. fold sid in Ls, Ls1, Ls2 |- *.
    rewrite Lc. cbn [mbind go_bind]. rewrite Ls. cbn [mbind go_bind]. rewrite ER. cbn [mbind go_bind]. rewrite S1. cbn [mbind go_bind mret go_ret].
    cbn [default from_option id]. rewrite decide_True by done.
    rewrite Lc1. cbn [mbind go_bind]. rewrite Ls1. cbn [mbind go_bind]. rewrite EW. cbn [mbind go_bind]. rewrite S2. cbn [mbind go_bind mret go_ret].
    rewrite Lc2. cbn [mbind go_bind]. rewrite Ls2. cbn [mbind go_bind].
    change (Streams.Close (set_snd (set_rcv c rcv) sb) s) with c3. rewrite S3. done. }
  cbn [c3 c_snd set_snd c_rcv set_rcv] in Hnext |- *. rewrite Hoff, Hq3. fold sid in Hsent, Hq. rewrite Hsent. by split_and!.
Qed.
End properties.

(** ** Witnesses, and a run of both programs *)

(** Only ASCII text. *)
#[export] Instance ascii_tables : UnicodeTables := {
  map_upper s := s; map_lower s := s; trim_func s := s; trim_right_func s := s; fields_func s := [s]
}.

(** The world of a program: the toy key pair, no errors, this much input. *)
Definition toy_world (stdin : bytes) (inputs : list (loop_input (PrvKey := bool))) : world bool bytes Z Z :=
  mkWorld toy_env (inr true) inputs discard None None id id stdin.

Definition listener7 : Listener bool bool := set_connMap server (ok_or NewLinkedMap (LinkedMap.Put NewLinkedMap 77 conn7)).

Lemma listener7_ok : table_ok listener7 /\ (77, conn7) ∈ conns listener7.
Proof.
  destruct (table_put server 77 conn7) as (m & E & Hl & _ & Hin); [apply empty_table | done | by eexists|].
  unfold listener7. cbn [connMap server new_listener] in E. by rewrite E.
Qed.

Lemma example1_server_replies_witness :
  exists d l' c', Example1.server_callback (toy_world [] []) [] listener7 (Some (77, Streams.stream7))
      = Ok ([Example1.ServerReceived d], l', inr true) /\
    (77, c') ∈ conns l' /\ next_of (c_rcv c') 7 = 0 + len d /\ 0 < len d.
Proof.
  destruct (example1_server_replies (toy_world [] []) counting counting [] listener7 77 conn7 Streams.stream7)
    as (d & l' & c' & E & _ & Hin & Hpos & _ & Hn & _).
  - apply listener7_ok.
  - apply listener7_ok.
  - apply conn7_inv.
  - apply conn7_filed.
  - vm_compute. reflexivity.
  - apply got3_covers. vm_compute. split; [discriminate | reflexivity].
  - intros co Hco. vm_compute in Hco. discriminate Hco.
  - exists d, l', c'. split; [exact E|]. split; [exact Hin|]. split; [exact Hn | exact Hpos].
Defined.

(** Client and server over a network that delivers in order: the inputs of their
    loops so far, and the number of datagrams that each has got. *)
Record exchange := mkExchange {
  x_client : list (loop_input (PrvKey := bool));
  x_server : list (loop_input (PrvKey := bool));
  x_toClient : nat;
  x_toServer : nat;
}.

Section exchange.
Context {line : Type} (main : world bool bytes Z Z -> list bytes -> go (outcome bool bool line)) (stdin : bytes).

Definition run_client (x : exchange) : go (outcome bool bool line) := main (toy_world stdin (x_client x)) [str "client"].
Definition run_server (x : exchange) : go (outcome bool bool line) := main (toy_world [] (x_server x)) [str "server"].

Definition sent_by (o : go (outcome bool bool line)) : list bytes := match o with Ok o => map snd (sent _ o) | _ => [] end.

(** An iteration at time [t] that reads the [n]th datagram, or times out. *)
Definition next_input (from : AddrPort) (ds : list bytes) (n : nat) (t : Z) : loop_input * nat :=
  match ds !! n with
  | Some d => (mkLoopInput (inr false) (fun _ => inr (d, from)) t t, S n)
  | None => (mkLoopInput (inr false) (fun _ => inl ("timeout"%string, true)) t t, n)
  end.

(** First the server, then the client does an iteration of its loop. *)
Definition turn (x : exchange) (t : Z) : exchange :=
  let '(i, n) := next_input addr7000 (sent_by (run_client x)) (x_toServer x) t in
  let x := mkExchange (x_client x) (x_server x ++ [i]) (x_toClient x) n in
  let '(i, n) := next_input addr9000 (sent_by (run_server x)) (x_toClient x) t in
  mkExchange (x_client x ++ [i]) (x_server x) n (x_toServer x).

Definition after (ts : list Z) : exchange := foldl turn (mkExchange [] [] 0 0) ts.
End exchange.

(** What a program printed, and whether it has returned. *)
Definition shown {line} (o : go (outcome bool bool line)) : option (list line * bool) :=
  match o with
  | Ok o => Some (printed _ o, match ended _ o with Returned _ => true | _ => false end)
  | _ => None
  end.

Definition hello : exchange :=
  after (Example1.main (Writer := unit)) (str " hello, Server ") (map (fun i => (Z.of_nat i + 1) * 20 * msNano) (seq 0 9)).

(** The first example, from the arguments of the two programs to their end: the
    message crosses the handshake and the encrypted connection, comes back in
    upper case, and both programs return. *)
Theorem example1_hello :
  shown (run_client (Example1.main (Writer := unit)) (str " hello, Server ") hello)
  = Some ([Example1.Connected (str "127.0.0.1:8888"); Example1.EnterMessage; Example1.Sent (str "hello, Server");
           Example1.Received (str "HELLO, SERVER")], true) /\
  shown (run_server (Example1.main (Writer := unit)) hello)
  = Some ([Example1.ServerListening (str "127.0.0.1:8888"); Example1.ServerReceived (str "hello, Server");
           Example1.ServerExit ErrUnexpectedEOF], true).
Proof. split; vm_compute; reflexivity. Qed.
